(* ===== verification/_CoqProject ===== *)
-Q . S2P
Prelude.v
Json.v
Runtime.v
Contract.v
Config.v
Telemetry.v
Media.v
Identity.v
Derivation.v
GraphWriter.v
GraphEffect.v
Entities.v
Mirror.v
Counters.v
Latch.v
Durable.v
Batch.v
Extraction.v
Processor.v
Health.v
Consumers.v
Gauge.v
Awaits.v
Handler.v
Terminal.v
Stored.v
Lifecycle.v
Shutdown.v
Service.v
Guard.v
Workload.v
Benchmarks.v
Poison.v
Measures.v
Checks.v
