(* ===== verification/Prelude.v ===== *)
(** * Verification of discogs-sql-loader

    The service reads the records of a Discogs dump from four RabbitMQ queues (artists,
    labels, masters, releases), writes each into PostgreSQL with its aliases and graph edges,
    and at the end of an extraction purges what the dump no longer has and refreshes the
    derived tables.  This library is a shallow embedding of its Python code, one file per
    component, with the theorems that make each one correct.  Sources are under
    [src/tableinator/], and those of the operational scripts under [src/scripts/].

    ** Files

    - [Prelude] (this file): exceptions and [result], Python text as UTF-8, ordered
      dictionaries, sorting, number text, the tactics and hints the other files use.
    - [Json], [Runtime]: decoded payloads; the functions of the shared package
      [groovemap-runtime] that pure code calls, as a class.
    - [Contract] ([catalog_contract.py], [queue_names.py]): names of broker objects.
    - [Config] ([config.py]): the configuration read from the environment, and Python's [int].
    - [Telemetry] ([telemetry.py]): the instrument cache, the recording functions, the spans.
    - [Media] ([media.py]): which source a release's media block comes from.
    - [Identity] ([identity.py]): alias references and collected aliases, over the identity
      service as a class.
    - [Derivation] ([graph_derivation.py]): the vertex and edge rows of one document.
    - [GraphWriter], [GraphEffect] ([graph_writer.py]): the statements of a batch, and what
      they do to the tables.
    - [Entities] ([batch_writer.py], [record_persistence.py]): both write paths and the purge
      as transactions on rows, aliases and graph.
    - [Mirror]: the graph against the catalog, along any run of writes and purges.
    - [Counters] ([graph_counters.py]): reconciliation, counters, the derived pass.
    - [Latch] ([extraction_latch.py]): the record of which types signalled which extraction.
    - [Durable] ([durable_refresh.py]): cursor, jobs, leases and fences of the durable refresh
      as a transition system on the database tables.
    - [Batch] ([batch_processor.py]): sink, observer and operations of the batch processor,
      over the shared batch engine as a class.
    - [Extraction]: the batches of an extraction and its purge, composed.
    - [Processor] ([batch_processor.py]): the rest of the processor: its construction, the drain
      of all queues as interleaved coroutines, its metrics, and the report of stalls.
    - [Health] ([durable_refresh.py], [tableinator.py]): the health dictionary the tasks share.
    - [Consumers] ([tableinator.py]): which queues are consumed, on which transport, and the
      gate that keeps consumers closed while the durable refresh cannot commit.
    - [Gauge]: the counter of active consumers that [Consumers] moves along.
    - [Awaits]: the functions of [Consumers] as coroutines, interleaved at their awaits.
    - [Handler] ([tableinator.py], [_process_data_message]): one delivery, from its body to its
      settlement, as a state and exception monad that logs what it asks of its environment.
    - [Terminal]: the handler over the tables of [Durable].
    - [Stored]: the handler without batches, over the catalog of [Entities].
    - [Lifecycle] ([tableinator.py], [main] and [get_health_data]): startup, shutdown, status.
    - [Shutdown] ([tableinator.py]): the background tasks, the order of the teardown, and the
      payload of the health report.
    - [Service] ([tableinator.py]): the settings, the consumers' callback, the progress reporter,
      and the process from its environment to its exit status.
    - [Guard] ([scripts/benchmark-write-path.py]): where a benchmark may write, with the addresses
      of Python's [ipaddress].
    - [Workload] (the same script): the generated records, their batches, the workers.
    - [Benchmarks] ([scripts/benchmark-write-path.py], [benchmark-first-load.py],
      [benchmark-poison.py]): the runs of the benchmarks.
    - [Poison] ([scripts/benchmark-poison.py]): the cost of a poison record.
    - [Measures] ([scripts/measure-derived-refresh.py], [measure-derived-stages.py],
      [prepare-derived-refresh.py]): the derived pass measured and profiled.
    - [Checks] ([scripts/check_bump_preview.py], [check-contracts.py], [check-license.py],
      [write-build-provenance.py]): the checks of the repository.

    ** How the parts interact

    [Service.console_script] imports the settings, reads the configuration ([Config.from_env])
    and runs [Lifecycle.boot]; each consumer's callback is [Service.make_data_handler], which
    opens the span ([Telemetry.consume_span]) around [Handler._process_data_message].
    [Handler] hands a record to [Batch.add_message] or to [Entities.persist_record]; the batch
    engine calls [Batch.write], which calls [Entities.process_batch]; that writes rows and
    calls [Identity] and [GraphWriter], whose rows come from [Derivation].  A terminal signal
    goes through [Batch.flush_queue], the purge ([Entities.purge_stale_rows]) or its veto
    ([Latch]), and then either [Durable.record_durable_signal] or, inline, [Latch] and
    [Counters.refresh_derived_relations].  When the durable commit fails the handler calls
    [Consumers.pause_durable_consumers]; [Consumers.attempt_durable_recovery] replays the
    signal and resumes.  The interfaces are classes: [Handler.Backend] is what the handler
    asks of its environment, [Consumers.SignalStore] and [Terminal.SignalTable] what consumers
    and handler need of the durable tables; [Consumers.durable_store], [Terminal.with_tables]
    and [Terminal.tables_hold] are their implementations over [Durable].  [Stored.RecordTable]
    is what it needs of the catalog when it writes records one by one, implemented by
    [Stored.catalog_stores].  The scripts drive the same operations: [Benchmarks.run] hands
    the records of [Workload] to [Entities.process_batch], after [Guard]; [Poison] runs
    [Batch.write] over a counting writer; [Measures] runs
    [Counters.refresh_derived_relations] and its stages.

    ** What the theorems show

    - Records: a batch is one atomic step that commits the last delivery of each document
      through the hash gate; redelivering it changes nothing that matters; the per-record path
      is the batch of one; the purge deletes exactly the stale rows or nothing.
    - Catalog and graph: after an extraction a type's table is the dump; what a batch write
      acknowledges is stored; a mirrored document stays mirrored in the graph along any run.
    - Failures: a batch that fails deterministically is narrowed to exactly its poisoned
      records; every delivery is settled at most once; malformed deliveries are dead-lettered
      without a write; the observer's counts are exact, and so are the
      metrics and the report of a stall that are computed from them; the drain is bounded
      however the four queues interleave.
    - Graph: the statements refine a per-table specification, replace exactly the documents'
      own rows, insert in one order whatever the batch, and are idempotent; every derived row
      fits its table as long as its numbers fit 64 bits, and every edge has its endpoints.
    - End of an extraction: a signal is acknowledged only after the flush, the purge or its
      stored veto, and the commit; what was acknowledged is in the latch; the purge runs only
      when no record of the type can be in the dead-letter queue; the latch fires exactly when
      every type signalled; the derived pass is one transaction.
    - Durable refresh: the tables keep an invariant and never go back, a version is published
      at most once whatever the interleaving, a complete extraction always has a job that some
      scan hands out, and the health report never shows an unfinished refresh as done.
    - Consumption: behind a closed gate nothing consumes, and the gauge of consumers counts them,
      wherever the awaits fall and whatever is cancelled, as long as pauses and starts do not
      overlap; and the runs in which the code lets them overlap and both fail ([Awaits]).  A
      pause and the recovery after it restore the loader; a recovery forgets no failed signal;
      a rebuilt transport consumes every type or is closed; startup consumes all or nothing,
      and two lifespans never share the database.
    - Process: a shutdown stops deliveries, then the tasks, then flushes, and releases the
      database last, but a task that had died ends it where it is awaited; a configuration is complete or refused by name; a misconfigured process exits
      with 1 before it touches anything, and 0 means it served or was told to stop; telemetry
      never raises into the code it observes, but for the entry of a span's own manager.
    - Scripts: a benchmark writes only to the place its guard verified, however names resolve
      later; it stores every generated record once, however the workers take turns; both load
      benchmarks store the same records from the same seed; a poison record costs a
      logarithm of its batch, rounded up; the profiled stages are the production pass.

    ** Modelling choices

    A function that awaits the broker or the database takes their answers as arguments (a
    record per function, or the environment class), so each theorem holds for all answers;
    code that is not in the repository is always such a parameter.  An operation that awaits
    is one step, what it does when nothing else happens while it waits; for the functions of
    [Consumers] [Awaits] proves that of coroutines, and interleaves those.  A transaction of
    [Durable] is one step because the database makes it one; [Durable.step] interleaves them.  Integers are unbounded as in Python; floats that decide something are
    [spec_float] at double precision; sets and dictionaries whose order is not observed are
    [gset] and [gmap], ordered ones are association lists.

    Fuel: [Batch._isolate] gets the length of the batch, which halvings cannot nest;
    [Batch.flush_attempts] is Python's own bound on attempts; the page loop of
    [Counters] gets one round per document and a last one; [Lifecycle.boot_connect] has the five
    attempts of the source; [Benchmarks.load_chunks] gets one round per release and a last one
    when the chunk is positive ([Benchmarks.first_load_stores_all]), and no fuel ends it when it
    is not ([Benchmarks.first_load_unchecked]).  No result depends on running out: the theorems
    about these functions are about the results themselves.

    ** Not modelled

    Where a component calls telemetry, except for the gauge of consumers, the observer's metrics
    and the stall gauges: the calls return and change nothing else ([Telemetry]); log lines,
    except the progress reports; the endless loops around the modelled rounds
    ([run_worker_loop], [durable_recovery_loop], [periodic_queue_checker],
    [batch_stall_reporter]), which only repeat them; the health server and the installation of
    signals, logging and providers; the texts of the SQL statements; of the scripts, the parsing
    of their arguments, durations and rates, the statement breakdown, and the engine between
    the poison benchmark's deliveries and the sink; cancellation of a running function by the
    event loop, but for the operations of [Awaits]; [last_message_time] where it is written, and the outage backoff. *)

From Stdlib Require Export ZArith Ascii String.
From stdpp Require Export prelude gmap strings list sorting pretty.

#[global] Set Warnings "-clear-no-such-hyp,-register-all".
#[global] Open Scope string_scope.
#[global] Open Scope list_scope.
#[global] Open Scope Z_scope.

(** ** Exceptions and fallible computations

    A Python call either returns or raises.  [exn] lists the exception classes the
    modelled code raises itself or tests for; [OtherError] is any other class, by name. *)

Inductive exn :=
  | ValueError
  | KeyError
  | TypeError
  | AttributeError
  | RuntimeError
  | DatabaseUnavailableError
  | DurableSchemaUnavailable
  | SupersededJob
  | StartupFailure
  | OtherError (class : string).

#[export] Instance exn_eq_dec : EqDecision exn.
Proof. solve_decision. Defined.

(** [isinstance(e, Exception)]: false for the four classes outside [Exception]. *)
Definition is_exception (e : exn) : bool :=
  match e with
  | OtherError class => negb (bool_decide (class ∈ ["CancelledError"; "KeyboardInterrupt"; "SystemExit"; "GeneratorExit"]))
  | _ => true
  end.

Inductive result (A : Type) :=
  | Ok (a : A)
  | Raise (e : exn).
Arguments Ok {_} _.
Arguments Raise {_} _.

#[export] Instance result_eq_dec {A} `{EqDecision A} : EqDecision (result A).
Proof. solve_decision. Defined.

Definition bind {A B} (c : result A) (k : A → result B) : result B :=
  match c with Ok a => k a | Raise e => Raise e end.

Definition is_ok {A} (c : result A) : bool :=
  match c with Ok _ => true | Raise _ => false end.

Declare Scope loader_scope.
Notation "'let!' x ':=' c 'in' k" := (bind c (λ x, k))
  (at level 10, x name, c at level 100, k at level 200) : loader_scope.
Notation "'let!' ' p ':=' c 'in' k" := (bind c (λ x, match x with p => k end))
  (at level 10, p pattern, c at level 100, k at level 200) : loader_scope.
#[global] Open Scope loader_scope.

(** [map_result f l] is a loop that calls [f] on each element and stops at the first
    exception. *)
Fixpoint map_result {A B} (f : A → result B) (l : list A) : result (list B) :=
  match l with
  | [] => Ok []
  | x :: l => let! y := f x in let! ys := map_result f l in Ok (y :: ys)
  end.

Lemma map_result_ok {A B} (f : A → result B) (g : A → B) (l : list A) :
  (∀ x, x ∈ l → f x = Ok (g x)) → map_result f l = Ok (g <$> l).
Proof.
  induction l as [|x l IH]; intros Hf; [done|]. csimpl.
  rewrite Hf by (by left). simpl. rewrite IH by (intros; apply Hf; by right). done.
Qed.

Lemma bind_ok {A B} (c : result A) (k : A → result B) b : bind c k = Ok b → ∃ a, c = Ok a ∧ k a = Ok b.
Proof. destruct c; simpl; [eauto|done]. Qed.

(** ** Tactics *)

(** Destruct the scrutinee of every [match] and [if] of the goal, remembering the equation. *)
Ltac split_matches :=
  repeat (case_match; simplify_eq/=).

(** Evaluate a closed decidable goal. *)
Ltac decide_now :=
  match goal with |- ?P => refine (bool_decide_eq_true_1 P _); vm_compute; reflexivity end.

(** Destruct the scrutinee of the first [match] of a hypothesis. *)
Ltac match_in H :=
  let E := fresh "E" in
  match type of H with
  | context [match ?x with _ => _ end] => destruct x eqn:E
  end; simplify_eq/=.

Create HintDb loader discriminated.
Create Rewrite HintDb loader.
#[export] Hint Constants Opaque : loader.
#[export] Hint Resolve list_elem_of_here list_elem_of_further : loader.

(** ** Text

    A Python [str] is represented by its UTF-8 encoding in a [string].  Comparison of
    UTF-8 strings byte by byte is comparison by code point, which is Python's order. *)

Definition is_continuation (c : ascii) : bool :=
  let n := N_of_ascii c in (128 <=? n)%N && (n <? 192)%N.

Fixpoint chars_aux (s : string) : string * list string :=
  match s with
  | EmptyString => (EmptyString, [])
  | String c s' =>
      let '(pending, cs) := chars_aux s' in
      if is_continuation c then (String c pending, cs)
      else (EmptyString, String c pending :: cs)
  end.

(** The characters of a text, each as its own encoded text. *)
Definition chars (s : string) : list string :=
  let '(pending, cs) := chars_aux s in
  match pending with EmptyString => cs | _ => pending :: cs end.

Fixpoint concat_chars (cs : list string) : string :=
  match cs with [] => "" | c :: cs => c +:+ concat_chars cs end.

(** The code point a one-character text encodes. *)
Definition code_point (s : string) : N :=
  let low c := (N_of_ascii c mod 64)%N in
  match s with
  | String a EmptyString => N_of_ascii a
  | String a (String b EmptyString) => (N_of_ascii a mod 32 * 64 + low b)%N
  | String a (String b (String c EmptyString)) =>
      (N_of_ascii a mod 16 * 4096 + low b * 64 + low c)%N
  | String a (String b (String c (String d EmptyString))) =>
      (N_of_ascii a mod 8 * 262144 + low b * 4096 + low c * 64 + low d)%N
  | _ => 0%N
  end.

(** [str.isspace] on one character: the code points [str.strip] and [str.split] treat as
    white space. *)
Definition is_space (c : string) : bool :=
  let n := code_point c in
  ((9 <=? n) && (n <=? 13) || (28 <=? n) && (n <=? 32) || (n =? 133) || (n =? 160)
   || (n =? 5760) || (8192 <=? n) && (n <=? 8202) || (n =? 8232) || (n =? 8233)
   || (n =? 8239) || (n =? 8287) || (n =? 12288))%N.

Fixpoint drop_while {A} (p : A → bool) (l : list A) : list A :=
  match l with [] => [] | x :: l' => if p x then drop_while p l' else l end.

(** [str.strip()]. *)
Definition py_strip (s : string) : string :=
  concat_chars (reverse (drop_while is_space (reverse (drop_while is_space (chars s))))).

Fixpoint split_words (current : list string) (cs : list string) : list string :=
  let close := match current with [] => [] | _ => [concat_chars (reverse current)] end in
  match cs with
  | [] => close
  | c :: cs => if is_space c then close ++ split_words [] cs else split_words (c :: current) cs
  end.

(** [str.split()] with no separator. *)
Definition py_split (s : string) : list string := split_words [] (chars s).

(** [sep.join(words)]. *)
Fixpoint py_join (sep : string) (words : list string) : string :=
  match words with
  | [] => ""
  | [w] => w
  | w :: ws => w +:+ sep +:+ py_join sep ws
  end.

Definition is_digit (c : ascii) : bool :=
  let n := N_of_ascii c in (48 <=? n)%N && (n <=? 57)%N.

Fixpoint string_forall (p : ascii → bool) (s : string) : bool :=
  match s with "" => true | String c s => p c && string_forall p s end.

(** [re.compile(r"[0-9]+").fullmatch(s)]. *)
Definition all_digits (s : string) : bool :=
  match s with "" => false | _ => string_forall is_digit s end.

Fixpoint digits_value_aux (acc : Z) (s : string) : Z :=
  match s with
  | "" => acc
  | String c s => digits_value_aux (10 * acc + (Z.of_N (N_of_ascii c) - 48)) s
  end.

(** [int(s)] on a text of ASCII digits. *)
Definition digits_value (s : string) : Z := digits_value_aux 0 s.

(** [str(z)] of an [int]. *)
Definition py_str_int (z : Z) : string := pretty z.

Lemma chars_aux_concat s : (chars_aux s).1 +:+ concat_chars (chars_aux s).2 = s.
Proof.
  induction s as [|c s IH]; [done|]; simpl.
  destruct (chars_aux s) as [p cs]; simpl in *. destruct (is_continuation c);
    exact (f_equal (String c) IH).
Qed.

Lemma chars_concat s : concat_chars (chars s) = s.
Proof.
  pose proof (chars_aux_concat s) as H. unfold chars.
  destruct (chars_aux s) as [[|c p] cs]; exact H.
Qed.

Lemma string_app_nil_r (s : string) : s +:+ "" = s.
Proof. induction s as [|c s IH]; [done|]. exact (f_equal (String c) IH). Qed.

(** [needle in text]. *)
Fixpoint contains (needle text : string) : bool :=
  String.prefix needle text || match text with "" => false | String _ rest => contains needle rest end.

Example py_strip_ascii : py_strip "  a b " = "a b". Proof. reflexivity. Qed.
Example py_split_ascii : py_split " a  b " = ["a"; "b"]. Proof. reflexivity. Qed.

(** ** Ordered collections

    [dict.fromkeys] keeps the first occurrence of each key, in order. *)

Section unique.
Context {A : Type} `{EqDecision A}.
Implicit Types (l : list A).

Fixpoint unique (l : list A) : list A :=
  match l with
  | [] => []
  | x :: l => x :: filter (λ y, y ≠ x) (unique l)
  end.

Lemma elem_of_unique l x : x ∈ unique l ↔ x ∈ l.
Proof.
  induction l as [|y l IH]; simpl; [done|].
  rewrite !elem_of_cons, list_elem_of_filter, IH.
  destruct (decide (x = y)); naive_solver.
Qed.

Lemma NoDup_unique l : NoDup (unique l).
Proof.
  induction l as [|x l IH]; simpl; constructor.
  - rewrite list_elem_of_filter. naive_solver.
  - by apply NoDup_filter.
Qed.

Lemma unique_NoDup l : NoDup l → unique l = l.
Proof.
  induction 1 as [|x l Hx Hl IH]; simpl; [done|].
  rewrite IH. f_equal. clear IH Hl. induction l as [|y l IH]; [done|].
  rewrite filter_cons_True by set_solver. f_equal. apply IH. set_solver.
Qed.
End unique.

#[export] Hint Resolve NoDup_unique : loader.
#[export] Hint Rewrite @elem_of_unique : loader.

(** ** Lists keyed by an id *)

Lemma filter_all {A} (P : A → Prop) `{∀ x, Decision (P x)} (l : list A) : (∀ x, x ∈ l → P x) → filter P l = l.
Proof.
  induction l as [|x l IH]; intros Hall; [done|]. rewrite filter_cons_True by (apply Hall; by left).
  f_equal. apply IH. intros y Hy. apply Hall. by right.
Qed.

Lemma keyed_unique {A K} (k : A → K) (l : list A) x y :
  NoDup (k <$> l) → x ∈ l → y ∈ l → k x = k y → x = y.
Proof.
  induction l as [|a l IH]; csimpl; [set_solver|].
  intros [Ha Hnd]%NoDup_cons. rewrite !elem_of_cons.
  intros [->|Hx] [->|Hy] Hk; [done| | |by apply IH].
  - destruct Ha. rewrite Hk. by apply list_elem_of_fmap_2.
  - destruct Ha. rewrite <-Hk. by apply list_elem_of_fmap_2.
Qed.

Lemma NoDup_omap_keys {A B K} (f : A → option B) (k : A → K) (kb : B → K) (l : list A) :
  (∀ a b, f a = Some b → kb b = k a) → NoDup (k <$> l) → NoDup (kb <$> omap f l).
Proof.
  intros Hk. induction l as [|a l IH]; csimpl; [constructor|].
  intros [Ha Hnd]%NoDup_cons. destruct (f a) as [b|] eqn:Hf; [|by apply IH].
  csimpl. apply NoDup_cons. split; [|by apply IH].
  intros (b' & Hb & (a' & Ha' & Hf')%list_elem_of_omap)%list_elem_of_fmap. apply Ha.
  rewrite <-(Hk _ _ Hf), Hb, (Hk _ _ Hf'). by apply list_elem_of_fmap_2.
Qed.

Lemma elem_of_omap_keys {A B K} (f : A → option B) (k : A → K) (kb : B → K) (l : list A) id :
  (∀ a b, f a = Some b → kb b = k a) →
  id ∈ kb <$> omap f l → ∃ a b, a ∈ l ∧ f a = Some b ∧ k a = id.
Proof.
  intros Hk (b & -> & (a & Ha & Hf)%list_elem_of_omap)%list_elem_of_fmap.
  exists a, b. rewrite (Hk _ _ Hf). done.
Qed.

(** An insertion-ordered [dict]: an association list with one entry per key. *)
Section odict.
Context {K V : Type} `{EqDecision K}.
Implicit Types (d : list (K * V)).

Fixpoint od_get (k : K) (d : list (K * V)) : option V :=
  match d with
  | [] => None
  | (k', v) :: d => if decide (k = k') then Some v else od_get k d
  end.

(** [d[k] = v]: an existing key keeps its position. *)
Fixpoint od_set (k : K) (v : V) (d : list (K * V)) : list (K * V) :=
  match d with
  | [] => [(k, v)]
  | (k', v') :: d => if decide (k = k') then (k, v) :: d else (k', v') :: od_set k v d
  end.

(** [d.setdefault(k, v)]. *)
Definition od_setdefault (k : K) (v : V) (d : list (K * V)) : list (K * V) :=
  match od_get k d with Some _ => d | None => d ++ [(k, v)] end.

Lemma od_get_None k d : od_get k d = None ↔ k ∉ d.*1.
Proof.
  induction d as [|[k' v'] d IH]; simpl; [set_solver|].
  rewrite not_elem_of_cons. case_decide; naive_solver.
Qed.

Lemma od_get_Some_elem k v d : od_get k d = Some v → (k, v) ∈ d.
Proof.
  induction d as [|[k' v'] d IH]; simpl; [done|].
  rewrite elem_of_cons. case_decide; naive_solver.
Qed.

Lemma od_get_elem k v d : NoDup d.*1 → (k, v) ∈ d → od_get k d = Some v.
Proof.
  induction d as [|[k' v'] d IH]; simpl; [set_solver|].
  rewrite NoDup_cons, elem_of_cons. intros [Hk Hd] [?|Hin]; simplify_eq; case_decide; try done.
  - subst. destruct Hk. apply list_elem_of_fmap. by exists (k', v).
  - by apply IH.
Qed.

Lemma od_get_app k d1 d2 :
  od_get k (d1 ++ d2) = match od_get k d1 with Some v => Some v | None => od_get k d2 end.
Proof. induction d1 as [|[k' v'] d1 IH]; simpl; [done|]. by case_decide. Qed.

Lemma od_get_set k k' v d :
  od_get k (od_set k' v d) = if decide (k = k') then Some v else od_get k d.
Proof.
  induction d as [|[k1 v1] d IH]; simpl.
  - by case_decide.
  - repeat (case_decide; simplify_eq/=; try done).
Qed.

Lemma od_get_setdefault k k' v d :
  od_get k (od_setdefault k' v d) =
    match od_get k d with
    | Some w => Some w
    | None => if decide (k = k') then Some v else None
    end.
Proof.
  unfold od_setdefault. destruct (od_get k' d) eqn:E.
  - destruct (od_get k d) eqn:E'; [done|]. case_decide; congruence.
  - rewrite od_get_app. by destruct (od_get k d).
Qed.

Lemma od_set_keys k v d : k ∈ d.*1 → (od_set k v d).*1 = d.*1.
Proof.
  induction d as [|[k1 v1] d IH]; simpl; [set_solver|].
  rewrite elem_of_cons. intros Hk. case_decide; csimpl; [by subst|].
  destruct Hk as [?|?]; [done|]. f_equal. by apply IH.
Qed.

Lemma od_set_keys_new k v d : k ∉ d.*1 → od_set k v d = d ++ [(k, v)].
Proof.
  induction d as [|[k1 v1] d IH]; simpl; [done|].
  rewrite not_elem_of_cons. intros [Hk Hd]. rewrite decide_False by done. by rewrite IH.
Qed.

Lemma NoDup_od_set k v d : NoDup d.*1 → NoDup (od_set k v d).*1.
Proof.
  intros Hd. destruct (decide (k ∈ d.*1)) as [Hk|Hk].
  - by rewrite od_set_keys.
  - rewrite od_set_keys_new, fmap_app by done. simpl.
    apply NoDup_app. split_and!; [done|set_solver|apply NoDup_singleton].
Qed.

Lemma NoDup_od_setdefault k v d : NoDup d.*1 → NoDup (od_setdefault k v d).*1.
Proof.
  intros Hd. unfold od_setdefault. destruct (od_get k d) eqn:E; [done|].
  apply od_get_None in E. rewrite fmap_app. simpl.
  apply NoDup_app. split_and!; [done|set_solver|apply NoDup_singleton].
Qed.
End odict.

#[export] Hint Resolve NoDup_od_set NoDup_od_setdefault : loader.

(** ** A stable sort, Python's [sorted(l, key=...)] *)

Section sort.
Context {A : Type} (leb : A → A → bool).

Fixpoint insert_sorted (x : A) (l : list A) : list A :=
  match l with
  | [] => [x]
  | y :: l' => if leb x y then x :: l else y :: insert_sorted x l'
  end.

Definition sort_by (l : list A) : list A := foldr insert_sorted [] l.

Lemma insert_sorted_perm x l : insert_sorted x l ≡ₚ x :: l.
Proof.
  induction l as [|y l IH]; simpl; [done|].
  destruct (leb x y); [done|]. rewrite IH. apply Permutation_swap.
Qed.

Lemma sort_by_perm l : sort_by l ≡ₚ l.
Proof.
  unfold sort_by.
  induction l as [|x l IH]; simpl; [done|]. by rewrite insert_sorted_perm, IH.
Qed.

Lemma elem_of_sort_by x l : x ∈ sort_by l ↔ x ∈ l.
Proof. by rewrite sort_by_perm. Qed.

Hypothesis leb_total : ∀ x y, leb x y = true ∨ leb y x = true.
Hypothesis leb_trans : ∀ x y z, leb x y = true → leb y z = true → leb x z = true.

Lemma insert_sorted_sorted x l :
  StronglySorted (λ a b, leb a b = true) l →
  StronglySorted (λ a b, leb a b = true) (insert_sorted x l).
Proof.
  induction 1 as [|y l Hl IH Hy]; simpl; [by repeat constructor|].
  destruct (leb x y) eqn:E.
  - constructor; [by constructor|]. constructor; [done|].
    eapply Forall_impl; [exact Hy|]. simpl. eauto.
  - constructor; [done|]. rewrite insert_sorted_perm. constructor; [|done].
    destruct (leb_total x y); congruence.
Qed.

Lemma sort_by_sorted l : StronglySorted (λ a b, leb a b = true) (sort_by l).
Proof.
  unfold sort_by.
  induction l as [|x l IH]; simpl; [constructor|]. by apply insert_sorted_sorted.
Qed.
End sort.

(** [sorted(l)] of texts. *)
Definition sort_strings : list string → list string := sort_by String.leb.

Lemma string_leb_trans (x y z : string) :
  String.leb x y = true → String.leb y z = true → String.leb x z = true.
Proof.
  intros Hxy Hyz.
  assert (String.le x z) as H; [|by apply Is_true_eq_true].
  etrans; (instantiate (1 := y) || idtac); unfold String.le; by rewrite ?Hxy, ?Hyz.
Qed.

Lemma string_leb_total (x y : string) : String.leb x y = true ∨ String.leb y x = true.
Proof. apply String.leb_total. Qed.

#[export] Hint Resolve string_leb_trans string_leb_total : loader.

(** ** [str] of an integer is plain text *)

Definition is_plain (c : ascii) : bool := is_digit c || bool_decide (c = "-"%char).

Lemma plain_not_continuation c : is_plain c = true → is_continuation c = false.
Proof. destruct c as [[] [] [] [] [] [] [] []]; vm_compute; done. Qed.

Lemma plain_not_space c : is_plain c = true → is_space (String c "") = false.
Proof. destruct c as [[] [] [] [] [] [] [] []]; vm_compute; done. Qed.

Lemma plain_chars_aux s :
  string_forall is_plain s = true →
  (chars_aux s).1 = "" ∧ Forall (λ c, is_space c = false) (chars_aux s).2.
Proof.
  induction s as [|c s IH]; simpl; [done|].
  intros [Hc Hs]%andb_true_iff. destruct (IH Hs) as [IH1 IH2].
  destruct (chars_aux s) as [p cs]; simpl in *. subst p.
  rewrite plain_not_continuation by done. simpl. split; [done|].
  constructor; [by apply plain_not_space|done].
Qed.

Lemma drop_while_none {A} (p : A → bool) l : Forall (λ x, p x = false) l → drop_while p l = l.
Proof. by destruct 1 as [|x l Hx Hl]; simpl; [|rewrite Hx]. Qed.

Lemma py_strip_plain s : string_forall is_plain s = true → py_strip s = s.
Proof.
  intros Hs. destruct (plain_chars_aux s Hs) as [H1 H2].
  unfold py_strip. pose proof (chars_concat s) as Hc. revert Hc. unfold chars.
  destruct (chars_aux s) as [p cs]; simpl in *; subst p. intros Hc.
  rewrite (drop_while_none _ cs) by done.
  rewrite drop_while_none by (by apply Forall_reverse).
  by rewrite reverse_involutive.
Qed.

Lemma pretty_N_char_digit (n : N) : (n < 10)%N → is_digit (pretty_N_char n) = true.
Proof.
  intros Hn.
  assert (n = 0 ∨ n = 1 ∨ n = 2 ∨ n = 3 ∨ n = 4 ∨ n = 5 ∨ n = 6 ∨ n = 7 ∨ n = 8 ∨ n = 9)%N
    as Hcases by lia.
  destruct_or! Hcases; subst; reflexivity.
Qed.

Lemma pretty_N_go_digits (n : N) s :
  string_forall is_digit s = true → string_forall is_digit (pretty_N_go n s) = true.
Proof.
  revert s. induction (N.lt_wf_0 n) as [n _ IH]; intros s Hs.
  destruct (decide (n = 0%N)) as [->|Hn]; [by rewrite pretty_N_go_0|].
  rewrite pretty_N_go_step by lia.
  apply IH; [apply N.div_lt; lia|]. simpl.
  by rewrite pretty_N_char_digit by (apply N.mod_lt; lia).
Qed.

Lemma pretty_N_digits (n : N) : string_forall is_digit (pretty n) = true.
Proof.
  unfold pretty, pretty_N. case_decide; [done|]. by apply pretty_N_go_digits.
Qed.

Lemma string_forall_impl (p q : ascii → bool) s :
  (∀ c, p c = true → q c = true) → string_forall p s = true → string_forall q s = true.
Proof.
  intros Hpq. induction s as [|c s IH]; simpl; [done|].
  intros [Hc Hs]%andb_true_iff. apply andb_true_iff. auto.
Qed.

Lemma py_str_int_plain z : string_forall is_plain (py_str_int z) = true.
Proof.
  assert (∀ n : N, string_forall is_plain (pretty n) = true) as HN.
  { intros n. eapply string_forall_impl; [|apply pretty_N_digits].
    intros c Hc. unfold is_plain. by rewrite Hc. }
  unfold py_str_int. destruct z as [|p|p]; [done|apply (HN (Npos p))|].
  change (string_forall is_plain (String "-" (pretty (Npos p))) = true).
  simpl. apply HN.
Qed.

Lemma py_str_int_inj z1 z2 : py_str_int z1 = py_str_int z2 → z1 = z2.
Proof. apply (inj pretty). Qed.

Lemma py_strip_str_int z : py_strip (py_str_int z) = py_str_int z.
Proof. apply py_strip_plain, py_str_int_plain. Qed.

#[export] Hint Rewrite py_strip_str_int : loader.

Lemma pretty_N_go_ne_empty (n : N) c s : pretty_N_go n (String c s) ≠ "".
Proof.
  revert c s. induction (N.lt_wf_0 n) as [n _ IH]; intros c s.
  destruct (decide (n = 0%N)) as [->|Hn]; [by rewrite pretty_N_go_0|].
  rewrite pretty_N_go_step by lia. apply IH, N.div_lt; lia.
Qed.

Lemma py_str_int_ne_empty z : py_str_int z ≠ "".
Proof.
  unfold py_str_int. destruct z as [|p|p]; [done| |done].
  change (pretty (N.pos p) ≠ ""). unfold pretty, pretty_N. rewrite decide_False by done.
  rewrite pretty_N_go_step by lia. apply pretty_N_go_ne_empty.
Qed.

Lemma pretty_N_all_digits (n : N) : all_digits (pretty n) = true.
Proof.
  pose proof (py_str_int_ne_empty (Z.of_N n)) as Hne. pose proof (pretty_N_digits n) as Hd.
  assert (pretty (Z.of_N n) = pretty n) as Heq by (by destruct n).
  unfold py_str_int in Hne. rewrite Heq in Hne.
  unfold all_digits. by destruct (pretty n).
Qed.

Lemma py_str_int_nonneg z : 0 <= z → py_str_int z = pretty (Z.to_N z).
Proof. intros Hz. unfold py_str_int. by destruct z. Qed.

Lemma py_str_int_all_digits z : 0 <= z → all_digits (py_str_int z) = true.
Proof. intros Hz. rewrite py_str_int_nonneg by done. apply pretty_N_all_digits. Qed.

Fixpoint pow10_length (s : string) : Z :=
  match s with "" => 1 | String _ s => 10 * pow10_length s end.

Lemma digits_value_aux_acc acc s : digits_value_aux acc s = acc * pow10_length s + digits_value s.
Proof.
  unfold digits_value. revert acc.
  induction s as [|c s IH]; intros acc; cbn [digits_value_aux pow10_length]; [lia|].
  rewrite IH. rewrite (IH (10 * 0 + _)). lia.
Qed.

Lemma pretty_N_char_value (n : N) :
  (n < 10)%N → Z.of_N (N_of_ascii (pretty_N_char n)) - 48 = Z.of_N n.
Proof.
  intros Hn.
  assert (n = 0 ∨ n = 1 ∨ n = 2 ∨ n = 3 ∨ n = 4 ∨ n = 5 ∨ n = 6 ∨ n = 7 ∨ n = 8 ∨ n = 9)%N
    as Hcases by lia.
  destruct_or! Hcases; subst; reflexivity.
Qed.

Lemma digits_value_pretty_go (n : N) s :
  digits_value (pretty_N_go n s) = Z.of_N n * pow10_length s + digits_value s.
Proof.
  revert s. induction (N.lt_wf_0 n) as [n _ IH]; intros s.
  destruct (decide (n = 0%N)) as [->|Hn]; [rewrite pretty_N_go_0; lia|].
  rewrite pretty_N_go_step by lia.
  rewrite IH by (apply N.div_lt; lia).
  assert (n `mod` 10 < 10)%N as Hmod by (apply N.mod_lt; lia).
  unfold digits_value at 1. cbn [digits_value_aux pow10_length].
  rewrite pretty_N_char_value by done. rewrite digits_value_aux_acc.
  pose proof (N.div_mod n 10). lia.
Qed.

Lemma digits_value_pretty (n : N) : digits_value (pretty n) = Z.of_N n.
Proof.
  unfold pretty, pretty_N. case_decide; [by subst|].
  rewrite digits_value_pretty_go. simpl. unfold digits_value. simpl. lia.
Qed.

(** Parsing the text of a non-negative integer gives the integer back. *)
Lemma digits_value_str_int z : 0 <= z → digits_value (py_str_int z) = z.
Proof. intros Hz. rewrite py_str_int_nonneg, digits_value_pretty by done. lia. Qed.

(** ** Numerals of one length compare as their values *)

Lemma digits_value_cons (c : ascii) (s : string) :
  digits_value (String c s) = (Z.of_N (N_of_ascii c) - 48) * pow10_length s + digits_value s.
Proof. unfold digits_value at 1. cbn [digits_value_aux]. rewrite digits_value_aux_acc. lia. Qed.

Lemma digit_value_range (c : ascii) : is_digit c = true → 0 <= Z.of_N (N_of_ascii c) - 48 <= 9.
Proof. unfold is_digit. rewrite andb_true_iff, !N.leb_le. lia. Qed.

Lemma digits_value_bound (s : string) : string_forall is_digit s = true → 0 <= digits_value s < pow10_length s.
Proof.
  induction s as [|c s IH]; [unfold digits_value; simpl; lia|]. cbn [string_forall pow10_length].
  intros [Hc%digit_value_range Hs]%andb_true_iff. specialize (IH Hs). rewrite digits_value_cons. nia.
Qed.

Lemma pow10_length_eq (s t : string) : String.length s = String.length t → pow10_length s = pow10_length t.
Proof.
  revert t. induction s as [|c s IH]; intros [|d t] Hl; try done. simpl in *. by rewrite (IH t) by lia.
Qed.

Lemma digits_compare (s t : string) :
  string_forall is_digit s = true → string_forall is_digit t = true → String.length s = String.length t →
  String.compare s t = (digits_value s ?= digits_value t).
Proof.
  revert t. induction s as [|c s IH]; intros [|d t] Hs Ht Hl; try done.
  cbn [string_forall] in Hs, Ht. apply andb_true_iff in Hs as [Hc Hs]. apply andb_true_iff in Ht as [Hd Ht].
  injection Hl as Hl. apply digit_value_range in Hc, Hd. rewrite !digits_value_cons, (pow10_length_eq s t) by done.
  pose proof (digits_value_bound s Hs) as Hbs. pose proof (digits_value_bound t Ht) as Hbt.
  rewrite (pow10_length_eq s t) in Hbs by done. cbn [String.compare]. unfold Ascii.compare.
  destruct (N.compare_spec (N_of_ascii c) (N_of_ascii d)) as [He|He|He]; symmetry.
  - rewrite He, IH by done. apply Z.add_compare_mono_l.
  - apply Z.compare_lt_iff. nia.
  - apply Z.compare_gt_iff. nia.
Qed.
