(* ===== verification/Json.v ===== *)
(** * JSON payloads

    A message body is decoded by [orjson.loads] into Python values.  [json] has one
    constructor per Python type that decoder returns; [dict] is a decoded object, keys in
    source order.  The operations are the ones the loader applies to payloads: [dict.get],
    [isinstance] tests, truth value testing. *)

From S2P Require Import Prelude.

(** A [float] is represented by its [repr], which determines it; the only floats the code
    ever inspects are the two zeros (truth value) and their text ([str]). *)
Inductive json :=
  | JNull
  | JBool (b : bool)
  | JInt (z : Z)
  | JFloat (repr : string)
  | JStr (s : string)
  | JList (l : list json)
  | JObj (d : list (string * json)).

Abbreviation dict := (list (string * json)).

(** [d.get(k)]: [None] when the key is absent. *)
Definition jget (k : string) (d : dict) : json :=
  match od_get k d with Some v => v | None => JNull end.

(** [d.get(k, default)]. *)
Definition jget_default (k : string) (v : json) (d : dict) : json :=
  match od_get k d with Some v' => v' | None => v end.

Definition is_dict (v : json) : bool := match v with JObj _ => true | _ => false end.
Definition is_list (v : json) : bool := match v with JList _ => true | _ => false end.

(** [bool(v)]. *)
Definition truthy (v : json) : bool :=
  match v with
  | JNull => false
  | JBool b => b
  | JInt z => negb (z =? 0)
  | JFloat r => negb (bool_decide (r = "0.0") || bool_decide (r = "-0.0"))
  | JStr s => negb (bool_decide (s = ""))
  | JList l => match l with [] => false | _ => true end
  | JObj d => match d with [] => false | _ => true end
  end.

(** The mapping elements of a list, in order ([isinstance(element, dict)]). *)
Fixpoint dict_elements (l : list json) : list dict :=
  match l with
  | [] => []
  | JObj d :: l => d :: dict_elements l
  | _ :: l => dict_elements l
  end.

Lemma elem_of_dict_elements (d : dict) l : d ∈ dict_elements l ↔ JObj d ∈ l.
Proof.
  induction l as [|v l IH]; simpl; [set_solver|].
  destruct v; rewrite ?elem_of_cons, IH; naive_solver.
Qed.

Lemma forallb_is_dict l :
  forallb is_dict l = true → JObj <$> dict_elements l = l.
Proof.
  induction l as [|v l IH]; simpl; [done|].
  rewrite andb_true_iff. intros [Hv Hl]. destruct v; try done.
  csimpl. f_equal. by apply IH.
Qed.
