(* ===== verification/Runtime.v ===== *)
(** * Interfaces to code the loader only calls

    The functions of [groovemap-runtime] (imported as [common]) that the pure derivation
    rules use, and the one Unicode table of the Python standard library they need.  They
    are parameters: every definition that uses one takes the class as an argument, and no
    theorem assumes anything about them beyond what its statement says. *)

From S2P Require Import Prelude Json.

Class CommonRuntime := {
  (** [common.media.map_discogs_formats] *)
  map_discogs_formats : list dict → dict;
  (** [common.media.legacy_format_names_to_media] *)
  legacy_format_names_to_media : list string → dict;
  (** [common.media.flatten_descriptions] *)
  flatten_descriptions : json → list string;
  (** [common.media.medium_label]; [None] is its [KeyError] *)
  medium_label : string → option string;
  (** [common.person_names.strip_person_name] *)
  strip_person_name : string → string;
  (** [str.casefold] *)
  casefold : string → string;
}.

(** A concrete runtime for the evaluations: formats become one item per entry with its
    own name as medium, names are stripped, case is left alone. *)
Definition sample_format (d : dict) : json :=
  JObj [("medium", jget "name" d); ("family", JStr "physical"); ("qty", jget "qty" d)].

#[export] Instance sample_runtime : CommonRuntime := {|
  map_discogs_formats fs := [("items", JList (sample_format <$> fs))];
  legacy_format_names_to_media ns :=
    [("items", JList ((λ n, JObj [("medium", JStr n); ("family", JStr "legacy")]) <$> ns))];
  flatten_descriptions v :=
    match v with JList l => omap (λ x, match x with JStr s => Some s | _ => None end) l | _ => [] end;
  medium_label m := if bool_decide (m = "Vinyl") then Some "Vinyl record" else None;
  strip_person_name := py_strip;
  casefold s := s;
|}.
