(* ===== verification/Contract.v ===== *)
(** * AMQP names: [catalog_contract.py] and [queue_names.py]

    The names of the exchanges, consumer queues and dead-letter objects the loader
    declares.  [EXCHANGE_PREFIX] comes from the environment and is a parameter. *)

From S2P Require Import Prelude.

Definition ENTITY_TYPES : list string := ["artists"; "labels"; "masters"; "releases"].
Definition CONSUMERS : list string := ["graphinator"; "tableinator"].
Definition AMQP_CONSUMER_NAME : string := "tableinator".

(** [DATA_TYPES] of [tableinator.py] and [batch_processor.py] is the same tuple. *)
Definition DATA_TYPES : list string := ENTITY_TYPES.

Section names.
Context (EXCHANGE_PREFIX : string).

Definition exchange_name (entity : string) : result string :=
  if bool_decide (entity ∉ ENTITY_TYPES) then Raise ValueError
  else Ok (EXCHANGE_PREFIX +:+ "-" +:+ entity).

Definition queue_name (consumer entity : string) : result string :=
  if bool_decide (consumer ∉ CONSUMERS) then Raise ValueError
  else if bool_decide (entity ∉ ENTITY_TYPES) then Raise ValueError
  else Ok (EXCHANGE_PREFIX +:+ "-" +:+ consumer +:+ "-" +:+ entity).

Definition dead_letter_exchange_name (consumer entity : string) : result string :=
  let! q := queue_name consumer entity in Ok (q +:+ ".dlx").

Definition dead_letter_queue_name (consumer entity : string) : result string :=
  let! q := queue_name consumer entity in Ok (q +:+ ".dlq").

(** Every name the loader declares on the broker for one consumer and entity. *)
Inductive amqp_object := Exchange | Queue | DeadLetterExchange | DeadLetterQueue.

Definition object_name (o : amqp_object) (consumer entity : string) : result string :=
  match o with
  | Exchange => exchange_name entity
  | Queue => queue_name consumer entity
  | DeadLetterExchange => dead_letter_exchange_name consumer entity
  | DeadLetterQueue => dead_letter_queue_name consumer entity
  end.
End names.

#[export] Instance amqp_object_eq_dec : EqDecision amqp_object.
Proof. solve_decision. Defined.

Lemma app_assoc_str (a b c : string) : (a +:+ b) +:+ c = a +:+ (b +:+ c).
Proof.
  induction a as [|x a IH]; [done|]. exact (f_equal (String x) IH).
Qed.

Lemma app_inj_str (p x y : string) : p +:+ x = p +:+ y → x = y.
Proof. induction p as [|c p IH]; simpl; [done|]. intros H. apply IH. by injection H. Qed.

(** The part of an object's name after the prefix, for each of the finitely many keys. *)
Definition name_suffix (o : amqp_object) (consumer entity : string) : string :=
  match o with
  | Exchange => "-" +:+ entity
  | Queue => "-" +:+ consumer +:+ "-" +:+ entity
  | DeadLetterExchange => "-" +:+ consumer +:+ "-" +:+ entity +:+ ".dlx"
  | DeadLetterQueue => "-" +:+ consumer +:+ "-" +:+ entity +:+ ".dlq"
  end.

Lemma object_name_suffix prefix o consumer entity n :
  object_name prefix o consumer entity = Ok n → n = prefix +:+ name_suffix o consumer entity.
Proof.
  destruct o; simpl; unfold dead_letter_exchange_name, dead_letter_queue_name,
    exchange_name, queue_name; intros H; repeat (case_bool_decide; simplify_eq/=);
    by rewrite ?app_assoc_str.
Qed.

Lemma object_name_known prefix o consumer entity n :
  object_name prefix o consumer entity = Ok n →
  entity ∈ ENTITY_TYPES ∧ (o = Exchange ∨ consumer ∈ CONSUMERS).
Proof.
  destruct o; simpl; unfold dead_letter_exchange_name, dead_letter_queue_name,
    exchange_name, queue_name; intros H; repeat (case_bool_decide; simplify_eq/=);
    auto.
Qed.

Definition suffix_table : list (amqp_object * string * string) :=
  o ← [Exchange; Queue; DeadLetterExchange; DeadLetterQueue];
  c ← CONSUMERS; e ← ENTITY_TYPES; mret (o, c, e).

Lemma suffix_table_distinct :
  forallb (λ k1, forallb (λ k2,
    let '(o1, c1, e1) := k1 in let '(o2, c2, e2) := k2 in
    if bool_decide (name_suffix o1 c1 e1 = name_suffix o2 c2 e2)
    then bool_decide (o1 = o2) && bool_decide (e1 = e2)
         && (bool_decide (o1 = Exchange) || bool_decide (c1 = c2))
    else true) suffix_table) suffix_table = true.
Proof. vm_compute. reflexivity. Qed.

(** No two broker objects the loader declares share a name: for every environment
    prefix, equal names mean the same kind of object, the same entity and (for everything
    but the per-entity fanout exchange, which has no consumer in its name) the same
    consumer.  In particular a dead-letter queue is never the queue it serves. *)
Theorem object_name_injective prefix o1 c1 e1 o2 c2 e2 n :
  c1 ∈ CONSUMERS → c2 ∈ CONSUMERS →
  object_name prefix o1 c1 e1 = Ok n → object_name prefix o2 c2 e2 = Ok n →
  o1 = o2 ∧ e1 = e2 ∧ (o1 = Exchange ∨ c1 = c2).
Proof.
  intros Hc1 Hc2 H1 H2.
  pose proof (object_name_known _ _ _ _ _ H1) as [He1 _].
  pose proof (object_name_known _ _ _ _ _ H2) as [He2 _].
  apply object_name_suffix in H1. apply object_name_suffix in H2. subst n.
  apply app_inj_str in H2.
  pose proof suffix_table_distinct as Htab.
  rewrite forallb_forall in Htab.
  assert (∀ o c e, c ∈ CONSUMERS → e ∈ ENTITY_TYPES → In (o, c, e) suffix_table) as Hin.
  { intros o c e Hc He. apply list_elem_of_In. unfold suffix_table.
    apply list_elem_of_bind. exists o. split; [|destruct o; rewrite !elem_of_cons; auto 10].
    apply list_elem_of_bind. exists c. split; [|done].
    apply list_elem_of_bind. exists e. split; [|done]. by apply list_elem_of_singleton. }
  specialize (Htab _ (Hin o1 c1 e1 Hc1 He1)). rewrite forallb_forall in Htab.
  specialize (Htab _ (Hin o2 c2 e2 Hc2 He2)). simpl in Htab.
  rewrite bool_decide_true in Htab by done.
  apply andb_true_iff in Htab as [[Ho He]%andb_true_iff Hc].
  apply bool_decide_eq_true in Ho, He.
  apply orb_true_iff in Hc as [Hc|Hc]; apply bool_decide_eq_true in Hc; auto.
Qed.

Lemma object_name_injective_witness :
  object_name "groovemap-discogs" Queue "tableinator" "labels"
    = Ok "groovemap-discogs-tableinator-labels" ∧
  (Queue = Queue ∧ "labels" = "labels" ∧ (Queue = Exchange ∨ "tableinator" = "tableinator")).
Proof.
  split; [reflexivity|].
  apply (object_name_injective "groovemap-discogs" Queue "tableinator" "labels"
    Queue "tableinator" "labels" "groovemap-discogs-tableinator-labels");
    [decide_now|decide_now|reflexivity|reflexivity].
Defined.
