(* ===== verification/Config.v ===== *)
(** * Configuration ([config.py])

    [TableinatorConfig.from_env] reads the environment once at startup.  What the shared
    package reads for it (secrets from files, the URLs, the pool sizes) is the class
    [CommonConfig]; the health port is parsed here, by Python's [int].
    The digits of [int] are those of the interpreter's Unicode database: [unicode_zeros]
    lists the code points of the zeros of its decimal digit runs beyond ASCII. *)

From S2P Require Import Prelude.

(** ** [int(text)] *)

Section python_int.
Context (unicode_zeros : list N).

(** The value of a decimal digit: runs of ten consecutive code points from a zero. *)
Definition decimal_value (c : string) : option Z :=
  let n := code_point c in
  (λ z, Z.of_N (n - z)) <$> List.find (λ z, (z <=? n) && (n <=? z + 9))%N (48%N :: unicode_zeros).

(** Digits with single underscores between them; [after] tells that the last character was a
    digit.  The second result counts the digits. *)
Fixpoint int_digits (after : bool) (value : Z) (count : N) (cs : list string) : option (Z * N) :=
  match cs with
  | [] => if after then Some (value, count) else None
  | c :: cs =>
      if decide (c = "_") then (if after then int_digits false value count cs else None)
      else match decimal_value c with
           | Some d => int_digits true (10 * value + d) (count + 1) cs
           | None => None
           end
  end.

(** The interpreter's default bound on the digits it converts. *)
Definition INT_MAX_STR_DIGITS : N := 4300.

(** What [int] skips around the number: C white space, and any white space beyond ASCII. *)
Definition int_space (c : string) : bool :=
  let n := code_point c in ((9 <=? n) && (n <=? 13) || (n =? 32) || (128 <=? n))%N && is_space c.

Definition int_text (s : string) : list string :=
  reverse (drop_while int_space (reverse (drop_while int_space (chars s)))).

Definition py_int (s : string) : result Z :=
  let '(sign, digits) := match int_text s with
                         | "+" :: cs => (1, cs)
                         | "-" :: cs => (-1, cs)
                         | cs => (1, cs)
                         end in
  match int_digits false 0 0 digits with
  | Some (v, n) => if (n <=? INT_MAX_STR_DIGITS)%N then Ok (sign * v) else Raise ValueError
  | None => Raise ValueError
  end.
End python_int.

Example py_int_plain : py_int [] "8_002" = Ok 8002. Proof. reflexivity. Qed.
Example py_int_negative : py_int [] "-5" = Ok (-5). Proof. reflexivity. Qed.
Example py_int_spaces : py_int [] " 7
" = Ok 7. Proof. reflexivity. Qed.
Example py_int_trailing : py_int [] "1_" = Raise ValueError. Proof. reflexivity. Qed.
Example py_int_two_signs : py_int [] "+-1" = Raise ValueError. Proof. reflexivity. Qed.
Example py_int_arabic : py_int [1632%N] "٣" = Ok 3. Proof. reflexivity. Qed.

(** ** The environment and what reads it *)

Abbreviation environ := (gmap string string).

(** The functions of [common.config], each a reading of the environment that may raise. *)
Class CommonConfig := {
  get_secret : string → environ → result (option string);
  _build_amqp_url : environ → result string;
  _build_postgres_connstr : environ → result string;
  resolve_postgres_pool_sizes : Z → Z → environ → result (Z * Z);
}.

(** What [from_env] raises: its own two [ValueError]s by what they name, or what a function
    it calls raised. *)
Inductive config_error :=
  | MissingVariables (names : list string)
  | InvalidHealthPort (raw : string)
  | FromCommon (e : exn).

Definition exn_of (e : config_error) : exn :=
  match e with FromCommon e => e | _ => ValueError end.

Definition lift {A} (r : result A) : A + config_error :=
  match r with Ok a => inl a | Raise e => inr (FromCommon e) end.

Definition and_then {A B} (c : A + config_error) (k : A → B + config_error) : B + config_error :=
  match c with inl a => k a | inr e => inr e end.

#[local] Notation "'do!' x ':=' c 'in' k" := (and_then c (λ x, k))
  (at level 10, x name, c at level 100, k at level 200).
#[local] Notation "'do!' ' p ':=' c 'in' k" := (and_then c (λ x, match x with p => k end))
  (at level 10, p pattern, c at level 100, k at level 200).

Record TableinatorConfig := {
  amqp_connection : string;
  postgres_host : string;
  postgres_username : string;
  postgres_password : string;
  postgres_database : string;
  postgres_pool_min_size : Z;
  postgres_pool_max_size : Z;
  health_port : Z;
}.

Definition DEFAULT_HEALTH_PORT : Z := 8002.

Section from_env.
Context (unicode_zeros : list N) `{common : CommonConfig}.
Implicit Types (env : environ).

Definition _resolve_health_port (env : environ) : Z + config_error :=
  match env !! "HEALTH_PORT" with
  | None => inl DEFAULT_HEALTH_PORT
  | Some raw =>
      let port := match py_int unicode_zeros (py_strip raw) with Ok n => n | Raise _ => 0 end in
      if (1 <=? port) && (port <=? 65535) then inl port else inr (InvalidHealthPort raw)
  end.

(** [not value], for a variable that may be unset. *)
Definition falsy (value : option string) : bool :=
  match value with None | Some "" => true | _ => false end.

Definition required (env : environ) (username password : option string) : list (string * option string) :=
  [ ("POSTGRES_HOST", env !! "POSTGRES_HOST");
    ("POSTGRES_USERNAME", username);
    ("POSTGRES_PASSWORD", password);
    ("POSTGRES_DATABASE", env !! "POSTGRES_DATABASE") ].

Definition missing_vars (env : environ) (username password : option string) : list string :=
  (filter (λ nv, falsy nv.2 = true) (required env username password)).*1.

Definition from_env (env : environ) : TableinatorConfig + config_error :=
  do! username := lift (get_secret "POSTGRES_USERNAME" env) in
  do! password := lift (get_secret "POSTGRES_PASSWORD" env) in
  let database := env !! "POSTGRES_DATABASE" in
  match missing_vars env username password with
  | (_ :: _) as names => inr (MissingVariables names)
  | [] =>
      do! port := _resolve_health_port env in
      do! '(pool_min, pool_max) := lift (resolve_postgres_pool_sizes 2 12 env) in
      do! url := lift (_build_amqp_url env) in
      do! host := lift (_build_postgres_connstr env) in
      inl {| amqp_connection := url; postgres_host := host;
             postgres_username := default "" username; postgres_password := default "" password;
             postgres_database := default "" database;
             postgres_pool_min_size := pool_min; postgres_pool_max_size := pool_max; health_port := port |}
  end.
End from_env.

(** ** Text with white space around it *)

(** ASCII white space, as [str.strip] removes it. *)
Definition blank (s : string) : bool :=
  string_forall (λ c, negb (is_continuation c) && is_space (String c "")) s.

(** The characters of a text of one-byte characters. *)
Definition letters (s : string) : list string := (λ c, String c "") <$> String.list_ascii_of_string s.

Lemma chars_aux_single (p : ascii → bool) s t :
  (∀ c, p c = true → is_continuation c = false) → string_forall p s = true → (chars_aux t).1 = "" →
  chars_aux (s +:+ t) = ("", letters s ++ (chars_aux t).2).
Proof.
  intros Hp. induction s as [|c s IH]; cbn [string_forall]; intros Hs Ht.
  - change ("" +:+ t) with t. simpl. rewrite <-Ht. apply surjective_pairing.
  - apply andb_true_iff in Hs as [Hc Hs]. change (String c s +:+ t) with (String c (s +:+ t)). cbn [chars_aux].
    rewrite IH by done. by rewrite (Hp c Hc).
Qed.

Lemma chars_aux_letters (p : ascii → bool) s :
  (∀ c, p c = true → is_continuation c = false) → string_forall p s = true → chars_aux s = ("", letters s).
Proof.
  intros Hp Hs. pose proof (chars_aux_single p s "" Hp Hs eq_refl) as H.
  rewrite string_app_nil_r in H. rewrite H. simpl. by rewrite app_nil_r.
Qed.

Lemma concat_letters s : concat_chars (letters s) = s.
Proof. induction s as [|c s IH]; [done|]. exact (f_equal (String c) IH). Qed.

Lemma drop_while_app {A} (p : A → bool) l k :
  Forall (λ x, p x = true) l → Forall (λ x, p x = false) k → drop_while p (l ++ k) = k.
Proof. induction 1 as [|x l Hx Hl IH]; intros Hk; simpl; [by apply drop_while_none|]. rewrite Hx. by apply IH. Qed.

Lemma letters_forall (q : string → Prop) (p : ascii → bool) s :
  (∀ c, p c = true → q (String c "")) → string_forall p s = true → Forall q (letters s).
Proof.
  intros Hq. induction s as [|c s IH]; [constructor|]. cbn [string_forall]. intros [Hc Hs]%andb_true_iff.
  constructor; [by apply Hq|by apply IH].
Qed.

Lemma plain_chars s : string_forall is_plain s = true → chars s = letters s.
Proof. intros Hs. unfold chars. by rewrite (chars_aux_letters _ _ plain_not_continuation Hs). Qed.

(** [str.strip] of plain text between blanks is the text. *)
Lemma py_strip_blanks pre s post :
  blank pre = true → blank post = true → string_forall is_plain s = true → py_strip (pre +:+ s +:+ post) = s.
Proof.
  intros Hpre Hpost Hs. unfold py_strip, chars.
  assert (∀ c, negb (is_continuation c) && is_space (String c "") = true → is_continuation c = false) as Hc
    by (intros c [Hc _]%andb_true_iff; by apply negb_true_iff).
  assert (chars_aux (s +:+ post) = ("", letters s ++ letters post)) as H1.
  { pose proof (chars_aux_letters _ _ Hc Hpost) as Hp.
    rewrite (chars_aux_single is_plain) by (try apply plain_not_continuation; try done; by rewrite Hp). by rewrite Hp. }
  rewrite (chars_aux_single _ pre _ Hc Hpre) by (by rewrite H1). rewrite H1. cbn [snd].
  assert (∀ b, blank b = true → Forall (λ c, is_space c = true) (letters b)) as Hsp.
  { intros b. apply letters_forall. intros c [_ ?]%andb_true_iff. done. }
  assert (Forall (λ c, is_space c = false) (letters s)) as Hns by (by eapply letters_forall, Hs; apply plain_not_space).
  destruct (decide (s = "")) as [->|Hne].
  - simpl. rewrite <-(app_nil_r (letters pre ++ letters post)), drop_while_app; [done| |done].
    apply Forall_app; eauto.
  - assert (drop_while is_space (letters pre ++ letters s ++ letters post) = letters s ++ letters post) as ->.
    { generalize (Hsp pre Hpre). induction 1 as [|x l Hx Hl IH]; [|simpl; by rewrite Hx].
      destruct s as [|c s]; [done|]. simpl. inversion Hns as [|?? Hx _]. by rewrite Hx. }
    rewrite reverse_app, drop_while_app; [|by apply Forall_reverse, Hsp|by apply Forall_reverse].
    by rewrite reverse_involutive, concat_letters.
Qed.

(** ** [int] of a decimal numeral *)

Section numerals.
Context (unicode_zeros : list N).

Lemma decimal_value_digit c :
  is_digit c = true → decimal_value unicode_zeros (String c "") = Some (Z.of_N (N_of_ascii c) - 48).
Proof.
  unfold is_digit, decimal_value. cbn [code_point List.find]. intros Hc.
  replace ((48 <=? N_of_ascii c) && (N_of_ascii c <=? 48 + 9))%N with true
    by (symmetry; rewrite andb_true_iff, !N.leb_le in *; lia).
  simpl. f_equal. rewrite andb_true_iff, !N.leb_le in Hc. lia.
Qed.

Lemma int_digits_letters s after v n :
  string_forall is_digit s = true → (s = "" → after = true) →
  int_digits unicode_zeros after v n (letters s) = Some (digits_value_aux v s, (n + N.of_nat (String.length s))%N).
Proof.
  induction s as [|c s IH] in after, v, n |- *; cbn [string_forall]; intros Hs Hne.
  - simpl. rewrite (Hne eq_refl). f_equal. f_equal. lia.
  - apply andb_true_iff in Hs as [Hc Hs]. unfold letters. cbn [String.list_ascii_of_string fmap list_fmap int_digits].
    rewrite decide_False by (intros [= ->]; done). rewrite decimal_value_digit by done.
    fold (letters s). rewrite IH by done. cbn [digits_value_aux String.length]. f_equal. f_equal. lia.
Qed.

Lemma plain_int_text s : string_forall is_plain s = true → int_text s = letters s.
Proof.
  intros Hs. unfold int_text. rewrite plain_chars by done.
  assert (Forall (λ c, int_space c = false) (letters s)) as Hns.
  { refine (letters_forall (λ c, int_space c = false) is_plain s _ Hs). intros c Hc.
    pose proof (plain_not_space c Hc) as Hsp. unfold int_space. cbv zeta beta. rewrite Hsp. apply andb_false_r. }
  rewrite (drop_while_none _ (letters s)) by done. rewrite drop_while_none by (by apply Forall_reverse).
  apply reverse_involutive.
Qed.

(** [int(str(z))] is [z], as long as the numeral is within the interpreter's bound. *)
Lemma py_int_str z :
  (N.of_nat (String.length (py_str_int z)) <= INT_MAX_STR_DIGITS)%N → py_int unicode_zeros (py_str_int z) = Ok z.
Proof.
  assert (∀ n : N, int_digits unicode_zeros false 0 0 (letters (pretty n)) =
                   Some (Z.of_N n, N.of_nat (String.length (pretty n)))) as Hgo.
  { intros n. pose proof (pretty_N_all_digits n) as Hd. rewrite int_digits_letters.
    - change (digits_value_aux 0 (pretty n)) with (digits_value (pretty n)). by rewrite digits_value_pretty.
    - apply pretty_N_digits.
    - intros He. by rewrite He in Hd. }
  unfold py_int. rewrite plain_int_text by apply py_str_int_plain. intros Hlen.
  destruct (decide (0 <= z)) as [Hz|Hz].
  - rewrite py_str_int_nonneg in * by done. pose proof (pretty_N_all_digits (Z.to_N z)) as Hd.
    specialize (Hgo (Z.to_N z)). destruct (pretty (Z.to_N z)) as [|c s] eqn:Hp; [done|].
    cbn [all_digits string_forall] in Hd. apply andb_true_iff in Hd as [Hc _].
    replace (match letters (String c s) with "+" :: cs => (1, cs) | "-" :: cs => (-1, cs) | cs => (1, cs) end)
      with (1, letters (String c s)) by (destruct c as [[] [] [] [] [] [] [] []]; done).
    rewrite Hgo. destruct (N.leb_spec (N.of_nat (String.length (String c s))) INT_MAX_STR_DIGITS); [|lia].
    f_equal. lia.
  - destruct z as [|p|p]; [lia|lia|].
    change (py_str_int (Z.neg p)) with (String "-" (pretty (N.pos p))) in *.
    unfold letters. cbn [String.list_ascii_of_string fmap list_fmap]. fold (letters (pretty (N.pos p))).
    rewrite Hgo. destruct (N.leb_spec (N.of_nat (String.length (pretty (N.pos p)))) INT_MAX_STR_DIGITS) as [|Hl].
    + f_equal.
    + exfalso. cbn [String.length] in Hlen. lia.
Qed.
End numerals.

(** ** The properties of a configuration *)

Section configuration.
Context (unicode_zeros : list N) `{common : CommonConfig}.
Implicit Types (env : environ) (c : TableinatorConfig).

Lemma health_port_range env p :
  _resolve_health_port unicode_zeros env = inl p → 1 <= p <= 65535.
Proof.
  unfold _resolve_health_port. destruct (env !! "HEALTH_PORT") as [raw|]; [|intros [= <-]; unfold DEFAULT_HEALTH_PORT; lia].
  case_match eqn:E; [|done]. intros [= <-]. lia.
Qed.

(** The health port is never a silent fallback.  Unset, it is the role port; set to the
    decimal text of an integer, with any white space around it, it is that integer when it
    is a port and an error naming the very text otherwise.  Whatever the text is, a port that
    is returned is between 1 and 65535. *)
Theorem health_port_exact env :
  (env !! "HEALTH_PORT" = None → _resolve_health_port unicode_zeros env = inl DEFAULT_HEALTH_PORT) ∧
  (∀ pre z post, env !! "HEALTH_PORT" = Some (pre +:+ py_str_int z +:+ post) →
     blank pre = true → blank post = true → (N.of_nat (String.length (py_str_int z)) <= INT_MAX_STR_DIGITS)%N →
     _resolve_health_port unicode_zeros env =
       if decide (1 <= z <= 65535) then inl z else inr (InvalidHealthPort (pre +:+ py_str_int z +:+ post))) ∧
  (∀ p, _resolve_health_port unicode_zeros env = inl p → 1 <= p <= 65535) ∧
  (∀ e, _resolve_health_port unicode_zeros env = inr e → ∃ raw, env !! "HEALTH_PORT" = Some raw ∧ e = InvalidHealthPort raw).
Proof.
  split; [|split; [|split; [by apply health_port_range|]]]; unfold _resolve_health_port.
  - by intros ->.
  - intros pre z post -> Hpre Hpost Hlen.
    rewrite py_strip_blanks, py_int_str by (done || apply py_str_int_plain).
    case_decide; case_match; try done; lia.
  - intros e. destruct (env !! "HEALTH_PORT") as [raw|]; [|done]. case_match; [done|]. intros [= <-]. eauto.
Qed.

Definition REQUIRED_VARIABLES : list string :=
  ["POSTGRES_HOST"; "POSTGRES_USERNAME"; "POSTGRES_PASSWORD"; "POSTGRES_DATABASE"].

Lemma missing_vars_nil env u pw :
  missing_vars env u pw = [] →
  falsy (env !! "POSTGRES_HOST") = false ∧ falsy u = false ∧ falsy pw = false ∧ falsy (env !! "POSTGRES_DATABASE") = false.
Proof.
  unfold missing_vars, required. intros Hn%fmap_nil_inv. revert Hn. rewrite !filter_cons. cbn [snd].
  repeat case_decide; try done. by rewrite <-!not_true_iff_false.
Qed.

Lemma falsy_false value : falsy value = false → ∃ s, value = Some s ∧ s ≠ "".
Proof. destruct value as [[|ch s]|]; try done. intros _. by exists (String ch s). Qed.

(** A configuration is complete or the start is refused with what is missing.  The error
    names exactly the required variables that are unset or empty, in their order, before
    anything else is read; and a configuration that is returned carries the secrets as they
    were read, a database name that was set, and a health port in range. *)
Theorem from_env_complete env u pw :
  get_secret "POSTGRES_USERNAME" env = Ok u → get_secret "POSTGRES_PASSWORD" env = Ok pw →
  let value n := if decide (n = "POSTGRES_USERNAME") then u else if decide (n = "POSTGRES_PASSWORD") then pw else env !! n in
  match from_env unicode_zeros env with
  | inl c =>
      (∀ n, n ∈ REQUIRED_VARIABLES → falsy (value n) = false) ∧
      u = Some (postgres_username c) ∧ pw = Some (postgres_password c) ∧
      env !! "POSTGRES_DATABASE" = Some (postgres_database c) ∧ 1 <= health_port c <= 65535
  | inr (MissingVariables names) =>
      names = filter (λ n, falsy (value n) = true) REQUIRED_VARIABLES ∧ names ≠ []
  | inr (InvalidHealthPort raw) =>
      (∀ n, n ∈ REQUIRED_VARIABLES → falsy (value n) = false) ∧ env !! "HEALTH_PORT" = Some raw
  | inr (FromCommon _) => ∀ n, n ∈ REQUIRED_VARIABLES → falsy (value n) = false
  end.
Proof.
  intros Hu Hpw value. unfold from_env. rewrite Hu, Hpw. cbn [lift and_then].
  assert (missing_vars env u pw = filter (λ n, falsy (value n) = true) REQUIRED_VARIABLES) as Hm.
  { unfold missing_vars, required, REQUIRED_VARIABLES, value. rewrite !filter_cons. cbn [snd]. simpl.
    repeat case_decide; reflexivity. }
  destruct (missing_vars env u pw) as [|n ns] eqn:E.
  - apply missing_vars_nil in E as (H1 & H2 & H3 & H4).
    assert (∀ n, n ∈ REQUIRED_VARIABLES → falsy (value n) = false) as Hall.
    { intros n. unfold REQUIRED_VARIABLES. rewrite !elem_of_cons, elem_of_nil.
      intros [->|[->|[->|[->|[]]]]]; done. }
    apply falsy_false in H2 as (su & -> & _), H3 as (sp & -> & _), H4 as (sd & Hd & _). rewrite Hd.
    destruct (_resolve_health_port unicode_zeros env) as [p|e] eqn:Hp; cbn [and_then].
    + apply health_port_range in Hp.
      destruct (resolve_postgres_pool_sizes 2 12 env) as [[lo hi]|]; cbn; [|done].
      destruct (_build_amqp_url env); cbn; [|done]. by destruct (_build_postgres_connstr env); cbn.
    + revert Hp. unfold _resolve_health_port. destruct (env !! "HEALTH_PORT"); [|done].
      case_match; [done|]. by intros [= <-].
  - by rewrite <-Hm.
Qed.
End configuration.

(** ** A concrete environment *)

(** Secrets straight from the environment, and its pool sizes as the defaults. *)
Definition plain_common : CommonConfig :=
  {| get_secret := λ n env, Ok (env !! n);
     _build_amqp_url := λ _, Ok "amqp://";
     _build_postgres_connstr := λ env, Ok (default "" (env !! "POSTGRES_HOST"));
     resolve_postgres_pool_sizes := λ lo hi _, Ok (lo, hi) |}.

Definition demo_environ : environ :=
  list_to_map [("POSTGRES_HOST", "db"); ("POSTGRES_USERNAME", "u"); ("POSTGRES_PASSWORD", "");
               ("HEALTH_PORT", " 9102 ")].

Lemma health_port_exact_witness : _resolve_health_port [] demo_environ = inl 9102.
Proof.
  destruct (health_port_exact [] demo_environ) as (_ & Hport & _).
  exact (Hport " " 9102 " " eq_refl eq_refl eq_refl ltac:(vm_compute; discriminate)).
Defined.

Lemma from_env_complete_witness :
  from_env (common := plain_common) [] demo_environ = inr (MissingVariables ["POSTGRES_PASSWORD"; "POSTGRES_DATABASE"]) ∧
  ["POSTGRES_PASSWORD"; "POSTGRES_DATABASE"] ≠ [] ∧
  ∃ c, from_env (common := plain_common) [] (<["POSTGRES_PASSWORD" := "p"]> (<["POSTGRES_DATABASE" := "d"]> demo_environ)) = inl c ∧
       1 <= health_port c <= 65535.
Proof.
  pose proof (from_env_complete (common := plain_common) [] demo_environ (Some "u") (Some "") eq_refl eq_refl) as H1.
  set (full := <["POSTGRES_PASSWORD" := "p"]> (<["POSTGRES_DATABASE" := "d"]> demo_environ)).
  pose proof (from_env_complete (common := plain_common) [] full (Some "u") (Some "p") eq_refl eq_refl) as H2.
  assert (from_env (common := plain_common) [] demo_environ = inr (MissingVariables ["POSTGRES_PASSWORD"; "POSTGRES_DATABASE"]))
    as E1 by (vm_compute; reflexivity).
  cbv zeta in H1, H2. rewrite E1 in H1. split; [exact E1|]. split; [exact (proj2 H1)|].
  destruct (from_env (common := plain_common) [] full) as [c|e] eqn:E2; [|vm_compute in E2; discriminate E2].
  exists c. split; [reflexivity|]. apply H2.
Defined.
