(* ===== verification/Telemetry.v ===== *)
(** * Metrics and spans ([telemetry.py])

    The instrument cache keyed on the provider's generation, the recording functions, and
    the span helpers.  OpenTelemetry itself and the runtime's wrappers are the class [Otel]:
    what they answer, over an environment [E] of their own.  Descriptions of instruments and
    debug lines are left out. *)

From S2P Require Import Prelude Json.

(** ** The instruments *)

Inductive kind := Counter | UpDownCounter | Histogram | Gauge.
Inductive method := Add | Record_ | Set_.

#[export] Instance kind_eq_dec : EqDecision kind.
Proof. solve_decision. Defined.
#[export] Instance method_eq_dec : EqDecision method.
Proof. solve_decision. Defined.

(** The method an instrument of a kind has. *)
Definition method_of (k : kind) : method :=
  match k with Counter | UpDownCounter => Add | Histogram => Record_ | Gauge => Set_ end.

Record metric := { m_name : string; m_kind : kind; m_unit : option string }.

Definition INSTRUMENTATION_SCOPE : string := "groovemap.tableinator".
Definition PIPELINE_MESSAGES : string := "groovemap.pipeline.messages".
Definition PIPELINE_MESSAGE_DURATION : string := "groovemap.pipeline.message.duration".
Definition PIPELINE_BATCH_SIZE : string := "groovemap.pipeline.batch.size".
Definition PIPELINE_BATCH_FLUSH_DURATION : string := "groovemap.pipeline.batch.flush.duration".
Definition PIPELINE_CONSUMERS_ACTIVE : string := "groovemap.pipeline.consumers.active".
Definition PIPELINE_PURGE_CONSECUTIVE_VETOES : string := "groovemap.pipeline.purge.consecutive_vetoes".
Definition PIPELINE_BATCH_STALLED : string := "groovemap.pipeline.batch.stalled".
Definition PIPELINE_BATCH_OLDEST_UNSETTLED_AGE : string := "groovemap.pipeline.batch.oldest_unsettled_age".
Definition PIPELINE_BATCH_REQUEUED : string := "groovemap.pipeline.batch.requeued".
Definition DERIVED_REFRESH_JOBS : string := "groovemap.derived_refresh.jobs".
Definition DERIVED_REFRESH_PENDING_AGE : string := "groovemap.derived_refresh.pending.age".
Definition DERIVED_REFRESH_ATTEMPTS : string := "groovemap.derived_refresh.attempts".
Definition DERIVED_REFRESH_DURATION : string := "groovemap.derived_refresh.duration".
Definition DERIVED_REFRESH_SUPERSEDED : string := "groovemap.derived_refresh.superseded".
Definition MESSAGING_CONSUMED_MESSAGES : string := "messaging.client.consumed.messages".
Definition MESSAGING_OPERATION_DURATION : string := "messaging.client.operation.duration".

Definition SOURCE : string := "discogs".
Definition STORE : string := "postgresql".
Definition MESSAGING_SYSTEM : string := "rabbitmq".

(** The instruments [_build_instruments] creates, in its order. *)
Definition METRICS : list metric :=
  [ {| m_name := PIPELINE_MESSAGES; m_kind := Counter; m_unit := None |};
    {| m_name := PIPELINE_MESSAGE_DURATION; m_kind := Histogram; m_unit := Some "s" |};
    {| m_name := PIPELINE_BATCH_SIZE; m_kind := Histogram; m_unit := Some "{items}" |};
    {| m_name := PIPELINE_BATCH_FLUSH_DURATION; m_kind := Histogram; m_unit := Some "s" |};
    {| m_name := PIPELINE_CONSUMERS_ACTIVE; m_kind := UpDownCounter; m_unit := None |};
    {| m_name := PIPELINE_PURGE_CONSECUTIVE_VETOES; m_kind := Gauge; m_unit := None |};
    {| m_name := PIPELINE_BATCH_STALLED; m_kind := Gauge; m_unit := None |};
    {| m_name := PIPELINE_BATCH_OLDEST_UNSETTLED_AGE; m_kind := Gauge; m_unit := Some "s" |};
    {| m_name := PIPELINE_BATCH_REQUEUED; m_kind := Counter; m_unit := None |};
    {| m_name := DERIVED_REFRESH_JOBS; m_kind := Counter; m_unit := None |};
    {| m_name := DERIVED_REFRESH_PENDING_AGE; m_kind := Histogram; m_unit := Some "s" |};
    {| m_name := DERIVED_REFRESH_ATTEMPTS; m_kind := Histogram; m_unit := None |};
    {| m_name := DERIVED_REFRESH_DURATION; m_kind := Histogram; m_unit := Some "s" |};
    {| m_name := DERIVED_REFRESH_SUPERSEDED; m_kind := Histogram; m_unit := None |};
    {| m_name := MESSAGING_CONSUMED_MESSAGES; m_kind := Counter; m_unit := None |};
    {| m_name := MESSAGING_OPERATION_DURATION; m_kind := Histogram; m_unit := Some "s" |} ].

Abbreviation attributes := (list (string * string)).

(** ** What the module calls *)

Class Otel (E I : Type) := {
  provider_generation : E → E * result Z;
  get_meter : string → E → E * result ();
  (** [meter.create_counter(name, unit=...)] and its siblings, by the metric's kind *)
  create_instrument : metric → E → E * result I;
  (** [instrument.add(...)], [.record(...)], [.set(...)] *)
  measure : I → method → json → attributes → E → E * result ();
}.

(** One measurement that was made. *)
Record measurement I := {
  on : I;
  by_method : method;
  value : json;
  attrs : attributes;
}.
Arguments Build_measurement {_}.
Arguments on {_}.
Arguments by_method {_}.
Arguments value {_}.
Arguments attrs {_}.

(** What a measurement is asked to be: an instrument's name, the method, the value, which may
    fail to convert, and the attributes. *)
Abbreviation question := (string * method * result json * attributes)%type.

Section telemetry.
Context {E I : Type} `{Otel E I}.
(** [str], [float] and [int] of a decoded value, which the module applies to the health
    snapshot only. *)
Context (py_str : json → string) (py_float py_int : json → result json).

Record telemetry := {
  env : E;
  instruments : gmap string I;
  instrument_generation : Z;
  (** the measurements made *)
  made_so_far : list (measurement I);
}.

Definition set_env (e : E) (t : telemetry) : telemetry :=
  {| env := e; instruments := instruments t; instrument_generation := instrument_generation t; made_so_far := made_so_far t |}.
Definition set_cache (c : gmap string I) (g : Z) (t : telemetry) : telemetry :=
  {| env := env t; instruments := c; instrument_generation := g; made_so_far := made_so_far t |}.
Definition add_measurement (m : measurement I) (t : telemetry) : telemetry :=
  {| env := env t; instruments := instruments t; instrument_generation := instrument_generation t;
     made_so_far := made_so_far t ++ [m] |}.

Definition M A : Type := telemetry → telemetry * result A.
Definition ret {A} (a : A) : M A := λ t, (t, Ok a).
Definition mbnd {A B} (c : M A) (k : A → M B) : M B :=
  λ t, match c t with (t', Ok a) => k a t' | (t', Raise e) => (t', Raise e) end.
Notation "'let*' x ':=' c 'in' k" := (mbnd c (λ x, k)) (at level 10, x name, c at level 100, k at level 200).
Definition query {A} (op : E → E * result A) : M A := λ t, let '(e, r) := op (env t) in (set_env e t, r).
Definition lift {A} (r : result A) : M A := λ t, (t, r).

(** [try: ... except Exception: logger.debug(...)] *)
Definition swallow (c : M ()) : M () :=
  λ t, match c t with
       | (t', Ok _) => (t', Ok ())
       | (t', Raise e) => if is_exception e then (t', Ok ()) else (t', Raise e)
       end.

(** ** The cache *)

Fixpoint create_all (ms : list metric) : M (gmap string I) :=
  match ms with
  | [] => ret ∅
  | m :: ms => let* i := query (create_instrument m) in let* rest := create_all ms in ret (<[m_name m := i]> rest)
  end.

Definition _build_instruments : M (gmap string I) :=
  let* _ := query (get_meter INSTRUMENTATION_SCOPE) in create_all METRICS.

Definition _instrument (name : string) : M I :=
  let* generation := query provider_generation in
  let* _ := λ t,
    if negb (instrument_generation t =? generation) || bool_decide (instruments t = ∅) then
      (let* built := _build_instruments in λ t, (set_cache built generation t, Ok ()))
        (set_cache ∅ (instrument_generation t) t)
    else (t, Ok ()) in
  λ t, (t, match instruments t !! name with Some i => Ok i | None => Raise KeyError end).

Definition reset_instruments : M () := λ t, (set_cache ∅ (-1) t, Ok ()).

(** [_instrument(name).method(value, attributes)]; the value is computed after the look-up. *)
Definition observe (name : string) (m : method) (v : result json) (a : attributes) : M () :=
  let* i := _instrument name in
  let* v := lift v in
  λ t, match measure i m v a (env t) with
       | (e, Ok _) => (add_measurement (Build_measurement i m v a) (set_env e t), Ok ())
       | (e, Raise x) => (set_env e t, Raise x)
       end.

(** ** The recording functions *)

Definition record_message (entity outcome : string) (duration_s : json) : M () :=
  swallow (let* _ := observe PIPELINE_MESSAGES Add (Ok (JInt 1)) [("source", SOURCE); ("entity", entity); ("outcome", outcome)] in
           observe PIPELINE_MESSAGE_DURATION Record_ (Ok duration_s) [("source", SOURCE); ("entity", entity)]).

Definition record_batch_size (entity : string) (size : Z) : M () :=
  swallow (observe PIPELINE_BATCH_SIZE Record_ (Ok (JInt size)) [("store", STORE); ("entity", entity)]).

Definition record_batch_flush (entity : string) (duration_s : json) (outcome : string) : M () :=
  swallow (observe PIPELINE_BATCH_FLUSH_DURATION Record_ (Ok duration_s)
             [("store", STORE); ("entity", entity); ("outcome", outcome)]).

Definition record_consumer_started : M () :=
  swallow (observe PIPELINE_CONSUMERS_ACTIVE Add (Ok (JInt 1)) [("source", SOURCE)]).

Definition record_consumer_stopped : M () :=
  swallow (observe PIPELINE_CONSUMERS_ACTIVE Add (Ok (JInt (-1))) [("source", SOURCE)]).

Definition record_purge_consecutive_vetoes (entity : string) (count : Z) : M () :=
  swallow (observe PIPELINE_PURGE_CONSECUTIVE_VETOES Set_ (Ok (JInt count)) [("loader", SOURCE); ("entity", entity)]).

Definition record_batch_stall (entity : string) (stalled : bool) (oldest_age_s : json) : M () :=
  let attributes := [("loader", SOURCE); ("entity", entity)] in
  swallow (let* _ := observe PIPELINE_BATCH_STALLED Set_ (Ok (JInt (if stalled then 1 else 0))) attributes in
           observe PIPELINE_BATCH_OLDEST_UNSETTLED_AGE Set_ (Ok oldest_age_s) attributes).

Definition record_batch_requeued (entity reason : string) : M () :=
  swallow (observe PIPELINE_BATCH_REQUEUED Add (Ok (JInt 1)) [("loader", SOURCE); ("entity", entity); ("reason", reason)]).

Definition record_derived_refresh_transition (outcome : string) (duration_s : json) : M () :=
  let attributes := [("loader", SOURCE); ("outcome", outcome)] in
  swallow (let* _ := observe DERIVED_REFRESH_JOBS Add (Ok (JInt 1)) attributes in
           observe DERIVED_REFRESH_DURATION Record_ (Ok duration_s) attributes).

(** [v or default] *)
Definition py_or (v default : json) : json := if truthy v then v else default.

Definition record_derived_refresh_health (health : dict) : M () :=
  let attributes := [("loader", SOURCE); ("phase", py_str (py_or (jget "phase" health) (JStr "idle")))] in
  swallow
    (let* _ := match jget "pending_age_seconds" health with
               | JNull => ret ()
               | age => observe DERIVED_REFRESH_PENDING_AGE Record_ (py_float age) attributes
               end in
     let* _ := observe DERIVED_REFRESH_ATTEMPTS Record_ (py_int (py_or (jget "attempt_count" health) (JInt 0))) attributes in
     observe DERIVED_REFRESH_SUPERSEDED Record_ (py_int (py_or (jget "superseded_count" health) (JInt 0))) attributes).

Definition record_consumed_message (destination : string) (duration_s : json) (error_type : option string) : M () :=
  let attributes :=
    [("messaging.system", MESSAGING_SYSTEM); ("messaging.destination.name", destination);
     ("messaging.operation.name", "process")] ++
    match error_type with Some t => [("error.type", t)] | None => [] end in
  swallow (let* _ := observe MESSAGING_CONSUMED_MESSAGES Add (Ok (JInt 1)) attributes in
           observe MESSAGING_OPERATION_DURATION Record_ (Ok duration_s) attributes).

(** A call of one of them. *)
Inductive recording :=
  | Message (entity outcome : string) (duration_s : json)
  | BatchSize (entity : string) (size : Z)
  | BatchFlush (entity : string) (duration_s : json) (outcome : string)
  | ConsumerStarted
  | ConsumerStopped
  | PurgeVetoes (entity : string) (count : Z)
  | BatchStall (entity : string) (stalled : bool) (oldest_age_s : json)
  | BatchRequeued (entity reason : string)
  | RefreshTransition (outcome : string) (duration_s : json)
  | RefreshHealth (health : dict)
  | ConsumedMessage (destination : string) (duration_s : json) (error_type : option string).

Definition run (r : recording) : M () :=
  match r with
  | Message entity outcome d => record_message entity outcome d
  | BatchSize entity n => record_batch_size entity n
  | BatchFlush entity d outcome => record_batch_flush entity d outcome
  | ConsumerStarted => record_consumer_started
  | ConsumerStopped => record_consumer_stopped
  | PurgeVetoes entity n => record_purge_consecutive_vetoes entity n
  | BatchStall entity b age => record_batch_stall entity b age
  | BatchRequeued entity reason => record_batch_requeued entity reason
  | RefreshTransition outcome d => record_derived_refresh_transition outcome d
  | RefreshHealth h => record_derived_refresh_health h
  | ConsumedMessage destination d t => record_consumed_message destination d t
  end.

(** ** What a recording asks for *)

(** The measurements a call asks for, in order. *)
Definition plan (r : recording) : list question :=
  match r with
  | Message entity outcome d =>
      [(PIPELINE_MESSAGES, Add, Ok (JInt 1), [("source", SOURCE); ("entity", entity); ("outcome", outcome)]);
       (PIPELINE_MESSAGE_DURATION, Record_, Ok d, [("source", SOURCE); ("entity", entity)])]
  | BatchSize entity n => [(PIPELINE_BATCH_SIZE, Record_, Ok (JInt n), [("store", STORE); ("entity", entity)])]
  | BatchFlush entity d outcome =>
      [(PIPELINE_BATCH_FLUSH_DURATION, Record_, Ok d, [("store", STORE); ("entity", entity); ("outcome", outcome)])]
  | ConsumerStarted => [(PIPELINE_CONSUMERS_ACTIVE, Add, Ok (JInt 1), [("source", SOURCE)])]
  | ConsumerStopped => [(PIPELINE_CONSUMERS_ACTIVE, Add, Ok (JInt (-1)), [("source", SOURCE)])]
  | PurgeVetoes entity n =>
      [(PIPELINE_PURGE_CONSECUTIVE_VETOES, Set_, Ok (JInt n), [("loader", SOURCE); ("entity", entity)])]
  | BatchStall entity b age =>
      let a := [("loader", SOURCE); ("entity", entity)] in
      [(PIPELINE_BATCH_STALLED, Set_, Ok (JInt (if b then 1 else 0)), a);
       (PIPELINE_BATCH_OLDEST_UNSETTLED_AGE, Set_, Ok age, a)]
  | BatchRequeued entity reason =>
      [(PIPELINE_BATCH_REQUEUED, Add, Ok (JInt 1), [("loader", SOURCE); ("entity", entity); ("reason", reason)])]
  | RefreshTransition outcome d =>
      let a := [("loader", SOURCE); ("outcome", outcome)] in
      [(DERIVED_REFRESH_JOBS, Add, Ok (JInt 1), a); (DERIVED_REFRESH_DURATION, Record_, Ok d, a)]
  | RefreshHealth h =>
      let a := [("loader", SOURCE); ("phase", py_str (py_or (jget "phase" h) (JStr "idle")))] in
      match jget "pending_age_seconds" h with
      | JNull => []
      | age => [(DERIVED_REFRESH_PENDING_AGE, Record_, py_float age, a)]
      end ++
      [(DERIVED_REFRESH_ATTEMPTS, Record_, py_int (py_or (jget "attempt_count" h) (JInt 0)), a);
       (DERIVED_REFRESH_SUPERSEDED, Record_, py_int (py_or (jget "superseded_count" h) (JInt 0)), a)]
  | ConsumedMessage destination d error_type =>
      let a := [("messaging.system", MESSAGING_SYSTEM); ("messaging.destination.name", destination);
                ("messaging.operation.name", "process")] ++
               match error_type with Some t => [("error.type", t)] | None => [] end in
      [(MESSAGING_CONSUMED_MESSAGES, Add, Ok (JInt 1), a); (MESSAGING_OPERATION_DURATION, Record_, Ok d, a)]
  end.

Definition ask (q : question) : M () := let '(name, m, v, a) := q in observe name m v a.

Fixpoint ask_all (qs : list question) : M () :=
  match qs with
  | [] => ret ()
  | [q] => ask q
  | q :: qs => let* _ := ask q in ask_all qs
  end.

Lemma run_plan r : run r = swallow (ask_all (plan r)).
Proof. destruct r; try done. unfold run, record_derived_refresh_health, plan. by destruct (jget "pending_age_seconds" health). Qed.
End telemetry.

(** ** What telemetry promises *)

(** What the module relies on: a provider has a generation, nothing it answers changes it, and
    an instrument is made by the provider of the moment. *)
Class OtelLaws (E I : Type) `{Otel E I} := {
  generation : E → Z;
  made : Z → metric → I → Prop;
  generation_answer e : generation (provider_generation e).1 = generation e ∧
    ∀ g, (provider_generation e).2 = Ok g → g = generation e;
  meter_keeps s e : generation (get_meter s e).1 = generation e;
  create_keeps m e : generation (create_instrument m e).1 = generation e;
  measure_keeps i m v a e : generation (measure i m v a e).1 = generation e;
  create_made m e i : (create_instrument m e).2 = Ok i → made (generation e) m i;
}.

Section promises.
Context {E I : Type} `{OtelLaws E I} (py_str : json → string) (py_float py_int : json → result json).
Implicit Types (t : telemetry (E := E) (I := I)).

(** Every cached instrument was made for its name by the provider of the cached generation,
    and the cache is empty or complete. *)
Definition cache_ok t : Prop :=
  (∀ name i, instruments t !! name = Some i →
     ∃ m, m ∈ METRICS ∧ m_name m = name ∧ made (instrument_generation t) m i) ∧
  (instruments t ≠ ∅ → ∀ m, m ∈ METRICS → is_Some (instruments t !! m_name m)).

(** A measurement on an instrument of the provider of generation [g], by its own method. *)
Definition measured_on (g : Z) (name : string) (x : measurement I) : Prop :=
  ∃ m, m ∈ METRICS ∧ m_name m = name ∧ made g m (on x) ∧ by_method x = method_of (m_kind m).

Lemma metric_names_NoDup : NoDup (m_name <$> METRICS).
Proof. decide_now. Qed.

Lemma empty_cache_ok t g : cache_ok (set_cache ∅ g t).
Proof. unfold cache_ok. cbn [instruments set_cache]. split; [intros name i; by rewrite lookup_empty|done]. Qed.

Lemma create_all_made ms t t' r :
  create_all ms t = (t', r) →
  generation (env t') = generation (env t) ∧ instruments t' = instruments t ∧
  instrument_generation t' = instrument_generation t ∧ made_so_far t' = made_so_far t ∧
  ∀ c, r = Ok c →
    (∀ name i, c !! name = Some i → ∃ m, m ∈ ms ∧ m_name m = name ∧ made (generation (env t)) m i) ∧
    ∀ m, m ∈ ms → is_Some (c !! m_name m).
Proof.
  induction ms as [|m ms IH] in t, t', r |- *; simpl.
  - intros [= <- <-]. split_and!; try done. intros c [= <-]. split; [intros name i; by rewrite lookup_empty|by intros m ?%elem_of_nil].
  - unfold mbnd, query. pose proof (create_keeps m (env t)) as Hk. pose proof (create_made m (env t)) as Hmade.
    destruct (create_instrument m (env t)) as [e [i|x]]; simpl in *; [|by intros [= <- <-]].
    destruct (create_all ms (set_env e t)) as [t1 [c|x]] eqn:Ec; apply IH in Ec as (Hg & Hi & Hig & Hl & Hc); simpl in *.
    + intros [= <- <-]. rewrite Hg, Hk. split_and!; try done. intros c' [= <-]. destruct (Hc c eq_refl) as [H1 H2]. split.
      * intros name j. rewrite lookup_insert_Some. intros [[<- <-]|[_ Hj]].
        { exists m. split_and!; [by left|done|by apply Hmade]. }
        destruct (H1 name j Hj) as (m' & Hin & Hn & Hm'). exists m'. rewrite Hk in Hm'. split_and!; [by right|done|done].
      * intros m' [->|Hin]%elem_of_cons; [by rewrite lookup_insert_eq|].
        destruct (decide (m_name m = m_name m')) as [->|Hne]; [by rewrite lookup_insert_eq|].
        rewrite lookup_insert_ne by done. by apply H2.
    + intros [= <- <-]. rewrite Hg, Hk. by split_and!.
Qed.

(** Only exceptions of class [Exception] are raised. *)
Definition polite {A} (r : result A) : Prop := ∀ e, r = Raise e → is_exception e = true.

Hypothesis generation_polite : ∀ e, polite (provider_generation e).2.
Hypothesis meter_polite : ∀ s e, polite (get_meter s e).2.
Hypothesis create_polite : ∀ m e, polite (create_instrument m e).2.
Hypothesis measure_polite : ∀ i m v a e, polite (measure i m v a e).2.
Hypothesis float_polite : ∀ v, polite (py_float v).
Hypothesis int_polite : ∀ v, polite (py_int v).

Lemma build_silent t t' r : _build_instruments t = (t', r) → made_so_far t' = made_so_far t.
Proof.
  unfold _build_instruments, mbnd, query. destruct (get_meter _ (env t)) as [e [[]|x]]; [|by intros [= <- _]].
  intros Hc. by apply create_all_made in Hc as (_ & _ & _ & -> & _).
Qed.

(** Looking an instrument up measures nothing. *)
Lemma instrument_silent name t t' r : _instrument name t = (t', r) → made_so_far t' = made_so_far t.
Proof.
  unfold _instrument. unfold mbnd at 1. unfold query. destruct (provider_generation (env t)) as [e [g|x]]; [|by intros [= <- _]].
  unfold mbnd at 1. destruct (_ || _); [|by intros [= <- _]]. unfold mbnd at 1.
  destruct (_build_instruments _) as [t1 [c|x]] eqn:Eb; apply build_silent in Eb; cbn in Eb; by intros [= <- _].
Qed.

Lemma create_all_polite ms t t' r : create_all ms t = (t', r) → polite r.
Proof.
  induction ms as [|m ms IH] in t, t', r |- *; simpl; [by intros [= <- <-]|].
  unfold mbnd, query. pose proof (create_polite m (env t)) as Hp.
  destruct (create_instrument m (env t)) as [e [i|x]]; simpl in *; [|intros [= <- <-] y [= <-]; by apply Hp].
  destruct (create_all ms (set_env e t)) as [t1 [c|x]] eqn:Ec; [by intros [= <- <-]|].
  intros [= <- <-] y [= <-]. by apply (IH _ _ _ Ec).
Qed.

Section one_provider.
Context (g : Z).

(** While the provider has generation [g]: a computation that keeps the cache right, raises
    politely, and only measures on instruments of that provider. *)
Definition sane {A} (c : M A) (P : A → Prop) : Prop := ∀ t t' r,
  cache_ok t → generation (env t) = g → c t = (t', r) →
  cache_ok t' ∧ generation (env t') = g ∧ polite r ∧
  (∃ seg, made_so_far t' = made_so_far t ++ seg ∧ ∀ x, x ∈ seg → ∃ name, measured_on g name x) ∧
  ∀ a, r = Ok a → P a.

Lemma nothing_measured t t' :
  made_so_far t' = made_so_far t →
  ∃ seg, made_so_far t' = made_so_far t ++ seg ∧ ∀ x, x ∈ seg → ∃ name, measured_on g name x.
Proof. intros ->. exists []. rewrite app_nil_r. split; [done|]. by intros x ?%elem_of_nil. Qed.

Lemma sane_bind {A B} (c : M A) (k : A → M B) P Q :
  sane c P → (∀ a, P a → sane (k a) Q) → sane (mbnd c k) Q.
Proof.
  intros Hc Hk t t' r Hok Hg. unfold mbnd. destruct (c t) as [t1 [a|e]] eqn:E1;
    destruct (Hc _ _ _ Hok Hg E1) as (Hok1 & Hg1 & Hp1 & (s1 & Hl1 & Hm1) & Ha).
  - intros E2. destruct (Hk _ (Ha a eq_refl) _ _ _ Hok1 Hg1 E2) as (Hok2 & Hg2 & Hp & (s2 & Hl2 & Hm2) & Hb).
    split_and!; try done. exists (s1 ++ s2). rewrite Hl2, Hl1, (assoc_L (++)). split; [done|].
    intros x [Hx|Hx]%elem_of_app; auto.
  - intros [= <- <-]. split_and!; try done; [|eauto]. intros e' [= <-]. by apply Hp1.
Qed.

Lemma sane_ret {A} (a : A) (P : A → Prop) : P a → sane (ret a) P.
Proof. intros HP t t' r Hok Hg [= <- <-]. split_and!; try done; [by apply nothing_measured|by intros ? [= <-]]. Qed.

Lemma sane_swallow (c : M ()) P : sane c P → sane (swallow c) (λ _, True).
Proof.
  intros Hc t t' r Hok Hg. unfold swallow. destruct (c t) as [t1 [[]|e]] eqn:E1;
    destruct (Hc _ _ _ Hok Hg E1) as (H1 & H2 & Hp & H3 & _).
  - intros [= <- <-]. by split_and!.
  - rewrite (Hp e eq_refl). intros [= <- <-]. by split_and!.
Qed.

Lemma swallow_returns (c : M ()) P t : sane c P → cache_ok t → generation (env t) = g → (swallow c t).2 = Ok ().
Proof.
  intros Hc Hok Hg. unfold swallow. destruct (c t) as [t1 [[]|e]] eqn:E1; [done|].
  destruct (Hc _ _ _ Hok Hg E1) as (_ & _ & Hp & _). by rewrite (Hp e eq_refl).
Qed.

(** A cache built under the current provider is right. *)
Lemma rebuilt_ok t t1 r :
  generation (env t) = g → _build_instruments t = (t1, r) →
  instruments t1 = instruments t ∧ instrument_generation t1 = instrument_generation t ∧
  generation (env t1) = g ∧ made_so_far t1 = made_so_far t ∧ polite r ∧
  ∀ built, r = Ok built → cache_ok (set_cache built g t1) ∧ ∀ m, m ∈ METRICS → is_Some (built !! m_name m).
Proof.
  intros Hg. unfold _build_instruments, mbnd, query. pose proof (meter_keeps INSTRUMENTATION_SCOPE (env t)) as Hk.
  pose proof (meter_polite INSTRUMENTATION_SCOPE (env t)) as Hp.
  destruct (get_meter INSTRUMENTATION_SCOPE (env t)) as [e [[]|x]]; cbn [fst snd] in *.
  - intros Hc. pose proof (create_all_polite METRICS _ _ _ Hc) as Hpol.
    apply create_all_made in Hc as (H1 & H2 & H3 & H4 & H5). cbn [env set_env] in *.
    split_and!; try done; [congruence|]. intros built ->. destruct (H5 built eq_refl) as [H6 H7].
    unfold cache_ok. cbn [instruments set_cache instrument_generation]. rewrite Hk, Hg in H6. by split_and!.
  - intros [= <- <-]. split_and!; try done; [cbn; congruence|]. intros y [= <-]. by apply Hp.
Qed.

Lemma sane_instrument name :
  sane (_instrument name) (λ i, ∃ m, m ∈ METRICS ∧ m_name m = name ∧ made g m i).
Proof.
  intros t t' r Hok Hg. unfold _instrument. unfold mbnd at 1. unfold query.
  destruct (generation_answer (env t)) as [Hg1 Hans]. pose proof (generation_polite (env t)) as Hpol.
  destruct (provider_generation (env t)) as [e [g'|x]]; cbn [fst snd] in *.
  2: { intros [= <- <-]. split_and!; try done; [cbn; congruence|intros y [= <-]; by apply Hpol|].
       by apply nothing_measured. }
  rewrite (Hans g' eq_refl), Hg in *. clear Hans g'. set (t0 := set_env e t).
  assert (generation (env t0) = g) as Hg0 by (cbn; congruence). unfold mbnd at 1.
  destruct (negb (instrument_generation t0 =? g) || bool_decide (instruments t0 = ∅)) eqn:Hstale.
  - unfold mbnd. set (cleared := set_cache _ (instrument_generation t0) t0).
    destruct (_build_instruments cleared) as [t1 [built|x]] eqn:Eb;
      destruct (rebuilt_ok cleared _ _ Hg0 Eb) as (H1 & H2 & H3 & H4 & H5 & H6).
    + destruct (H6 built eq_refl) as [H6' _]. clear H6. rename H6' into H6. intros [= <- <-]. split; [done|]. split; [done|]. cbn [instruments set_cache].
      split; [intros y; by case_match; [|intros [= <-]]|]. split; [by apply nothing_measured|].
      intros i. case_match eqn:El; [|done]. intros [= <-]. by destruct H6 as [H6 _]; apply H6 in El.
    + intros [= <- <-]. split; [|split_and!; try done].
      * unfold cache_ok. rewrite H1. unfold cleared. cbn [instruments set_cache]. split; [intros n i; by rewrite lookup_empty|done].
      * intros y [= <-]. by apply H5.
      * by apply nothing_measured.
  - apply orb_false_iff in Hstale as [Heq%negb_false_iff%Z.eqb_eq Hne%bool_decide_eq_false].
    intros [= <- <-]. split; [done|]. split; [done|]. split; [intros y; by case_match; [|intros [= <-]]|].
    split; [by apply nothing_measured|]. intros i. case_match eqn:El; [|done]. intros [= <-].
    destruct Hok as [Hok _]. apply Hok in El. cbn in Heq. by rewrite Heq in El.
Qed.

(** [name] is an instrument that has the method [m]. *)
Definition has_method (name : string) (m : method) : bool :=
  existsb (λ x, bool_decide (m_name x = name) && bool_decide (method_of (m_kind x) = m)) METRICS.

Lemma has_method_spec name m x :
  has_method name m = true → x ∈ METRICS → m_name x = name → method_of (m_kind x) = m.
Proof.
  intros (y & Hy%list_elem_of_In & [Hn%bool_decide_eq_true Hm%bool_decide_eq_true]%andb_true_iff)%existsb_exists Hx Hxn.
  assert (x = y) as ->; [|done]. eapply (keyed_unique m_name); [exact metric_names_NoDup|done..|congruence].
Qed.

(** The measurement a call asks for, made on the current provider. *)
Definition asked (q : question) (x : measurement I) : Prop :=
  let '(name, m, v, a) := q in measured_on g name x ∧ by_method x = m ∧ v = Ok (value x) ∧ attrs x = a.

Lemma observe_run name m v a t t' r :
  has_method name m = true → polite v → cache_ok t → generation (env t) = g → observe name m v a t = (t', r) →
  cache_ok t' ∧ generation (env t') = g ∧ polite r ∧
  match r with
  | Ok _ => ∃ x, made_so_far t' = made_so_far t ++ [x] ∧ asked (name, m, v, a) x
  | Raise _ => made_so_far t' = made_so_far t
  end.
Proof.
  intros Hm Hv Hok Hg. unfold observe. unfold mbnd at 1. destruct (_instrument name t) as [t1 ri] eqn:Ei.
  pose proof (instrument_silent _ _ _ _ Ei) as Hsil.
  destruct (sane_instrument name _ _ _ Hok Hg Ei) as (Hok1 & Hg1 & Hp1 & _ & Hi).
  destruct ri as [i|e]; [|intros [= <- <-]; split_and!; try done; intros ? [= <-]; by apply Hp1].
  destruct (Hi i eq_refl) as (x & Hx & Hn & Hmade). unfold mbnd, lift.
  destruct v as [v|e]; [|intros [= <- <-]; split_and!; try done; intros ? [= <-]; by apply Hv].
  pose proof (measure_keeps i m v a (env t1)) as Hk. pose proof (measure_polite i m v a (env t1)) as Hp.
  destruct (measure i m v a (env t1)) as [e [[]|y]]; cbn [fst snd] in *; intros [= <- <-].
  - split; [done|]. split; [cbn; congruence|]. split; [done|]. eexists. split; [cbn; by rewrite Hsil|].
    split; [|done]. exists x. split_and!; try done. cbn. symmetry. by eapply has_method_spec.
  - split; [done|]. split; [cbn; congruence|]. split; [|done]. intros ? [= <-]. by apply Hp.
Qed.

(** Every measurement of a plan is by its instrument's own method. *)
Lemma plan_methods r : Forall (λ q : question, has_method q.1.1.1 q.1.1.2 = true ∧ polite q.1.2) (plan py_str py_float py_int r).
Proof.
  assert (∀ v, polite (Ok v : result json)) as Hok by by intros v e.
  destruct r; cbn [plan]; cbv zeta; try destruct (jget "pending_age_seconds" health); cbn [app];
    repeat (constructor; [split; [reflexivity|first [apply Hok|apply float_polite|apply int_polite]]|]); constructor.
Qed.

(** Nothing the module calls raises, and the values of the questions exist. *)
Definition all_answer (qs : list question) : Prop :=
  (∀ e, is_ok (provider_generation e).2) ∧ (∀ s e, is_ok (get_meter s e).2) ∧ (∀ m e, is_ok (create_instrument m e).2) ∧
  (∀ i m v a e, is_ok (measure i m v a e).2) ∧ ∀ q, q ∈ qs → is_ok q.1.2.

Lemma create_all_answers ms t : (∀ m e, is_ok (create_instrument m e).2) → is_ok (create_all ms t).2.
Proof.
  intros Ha. induction ms as [|m ms IH] in t |- *; [done|]. simpl. unfold mbnd, query.
  specialize (Ha m (env t)). destruct (create_instrument m (env t)) as [e [i|x]]; [|done].
  specialize (IH (set_env e t)). by destruct (create_all ms (set_env e t)) as [t1 [c|x]].
Qed.

Lemma build_answers t :
  (∀ s e, is_ok (get_meter s e).2) → (∀ m e, is_ok (create_instrument m e).2) → is_ok (_build_instruments t).2.
Proof.
  intros A1 A2. unfold _build_instruments, mbnd, query. specialize (A1 INSTRUMENTATION_SCOPE (env t)).
  destruct (get_meter _ (env t)) as [e [[]|x]]; [|done]. by apply create_all_answers.
Qed.

Lemma instrument_answers name m qs t t' r :
  has_method name m = true → cache_ok t → generation (env t) = g → all_answer qs → _instrument name t = (t', r) → is_ok r.
Proof.
  intros Hm [_ Hall] Hg (A1 & A2 & A3 & _).
  assert (∃ x, x ∈ METRICS ∧ m_name x = name) as (x & Hx & Hn).
  { unfold has_method in Hm. apply existsb_exists in Hm as (x & Hx%list_elem_of_In & [Hn%bool_decide_eq_true _]%andb_true_iff).
    eauto. }
  unfold _instrument. unfold mbnd at 1. unfold query. destruct (generation_answer (env t)) as [Hg1 _]. specialize (A1 (env t)).
  destruct (provider_generation (env t)) as [e [g'|y]]; [|done]. cbn [fst snd] in *. unfold mbnd at 1.
  destruct (negb (instrument_generation (set_env e t) =? g') || bool_decide (instruments (set_env e t) = ∅)) eqn:Hstale.
  - set (cleared := set_cache _ _ _). assert (generation (env cleared) = g) as Hgc by (cbn; congruence).
    pose proof (build_answers cleared A2 A3) as Hb. unfold mbnd.
    destruct (_build_instruments cleared) as [t1 [built|y]] eqn:Eb; [|done].
    destruct (rebuilt_ok _ _ _ Hgc Eb) as (_ & _ & _ & _ & _ & H6). destruct (H6 built eq_refl) as [_ H7].
    destruct (H7 x Hx) as [i Hi]. rewrite Hn in Hi. intros [= <- <-]. cbn [instruments set_cache]. by rewrite Hi.
  - apply orb_false_iff in Hstale as [_ Hne%bool_decide_eq_false]. destruct (Hall Hne x Hx) as [i Hi]. rewrite Hn in Hi.
    intros [= <- <-]. cbn [instruments set_env]. by rewrite Hi.
Qed.

Lemma ask_answers name m v a t t' r :
  has_method name m = true → cache_ok t → generation (env t) = g → all_answer [(name, m, v, a)] →
  observe name m v a t = (t', r) → is_ok r.
Proof.
  intros Hm Hok Hg Ha. pose proof Ha as (_ & _ & _ & A4 & A5). unfold observe. unfold mbnd at 1.
  destruct (_instrument name t) as [t1 ri] eqn:Ei. pose proof (instrument_answers _ _ _ _ _ _ Hm Hok Hg Ha Ei) as Hi.
  destruct ri as [i|e]; [|done]. unfold mbnd, lift. specialize (A5 (name, m, v, a) ltac:(by left)). cbn in A5.
  destruct v as [v|e]; [|done]. specialize (A4 i m v a (env t1)). destruct (measure i m v a (env t1)) as [e [[]|x]]; [|done].
  by intros [= <- <-].
Qed.

Lemma ask_all_step q qs t : ask_all (q :: qs) t = mbnd (ask q) (λ _, ask_all qs) t.
Proof. destruct qs; [|done]. unfold mbnd. simpl. by destruct (ask q t) as [t1 [[]|e]]. Qed.

Lemma ask_all_run qs t t' r :
  Forall (λ q : question, has_method q.1.1.1 q.1.1.2 = true ∧ polite q.1.2) qs →
  cache_ok t → generation (env t) = g → ask_all qs t = (t', r) →
  cache_ok t' ∧ generation (env t') = g ∧ polite r ∧
  ∃ k seg, made_so_far t' = made_so_far t ++ seg ∧ Forall2 asked (take k qs) seg ∧
    (all_answer qs → is_ok r ∧ k = length qs).
Proof.
  intros Hqs. induction Hqs as [|[[[name m] v] a] qs [Hm Hv] Hqs IH] in t, t', r |- *; intros Hok Hg.
  { intros [= <- <-]. split_and!; try done. exists 0%nat, []. rewrite app_nil_r. by split_and!. }
  rewrite ask_all_step. unfold mbnd, ask. destruct (observe name m v a t) as [t1 r1] eqn:Eo.
  destruct (observe_run _ _ _ _ _ _ _ Hm Hv Hok Hg Eo) as (Hok1 & Hg1 & Hp1 & Hr1). destruct r1 as [u|e].
  - destruct Hr1 as (x & Hl1 & Hx). intros Hrun.
    destruct (IH _ _ _ Hok1 Hg1 Hrun) as (Hok2 & Hg2 & Hp2 & k & seg & Hl2 & Hseg & Hall). split; [done|]. split; [done|]. split; [done|].
    exists (S k), (x :: seg). rewrite Hl2, Hl1, <-(assoc_L (++)). split; [done|]. split; [by constructor|].
    intros (A1 & A2 & A3 & A4 & A5). destruct Hall as [H1 ->]; [|done]. split; [done|]. split; [done|]. split; [done|].
    split; [done|]. intros q Hq. apply A5. by right.
  - intros [= <- <-]. split; [done|]. split; [done|]. split; [intros ? [= <-]; by apply Hp1|].
    exists 0%nat, []. rewrite app_nil_r, Hr1. split; [done|]. split; [constructor|]. intros (A1 & A2 & A3 & A4 & A5). exfalso.
    assert (all_answer [(name, m, v, a)]) as Ha.
    { split; [done|]. split; [done|]. split; [done|]. split; [done|].
      intros q ->%list_elem_of_singleton. apply A5. by left. }
    exact (ask_answers _ _ _ _ _ _ _ Hm Hok Hg Ha Eo).
Qed.
End one_provider.

(** C16 Telemetry never turns a working message into a failure.  Whatever the provider answers,
    as long as it raises only [Exception]s, every recording function returns; the cache stays
    empty or complete and of one generation; what was measured is a prefix of what the call
    asks for, each by its instrument's own method and on an instrument that the provider of
    the moment made; and when nothing fails it is all of it. *)
Theorem recording_never_raises r t :
  cache_ok t →
  let '(t', res) := run py_str py_float py_int r t in
  let asks := plan py_str py_float py_int r in
  res = Ok () ∧ cache_ok t' ∧ generation (env t') = generation (env t) ∧
  ∃ k seg, made_so_far t' = made_so_far t ++ seg ∧ Forall2 (asked (generation (env t))) (take k asks) seg ∧
    (all_answer asks → k = length asks).
Proof.
  intros Hok. rewrite run_plan. unfold swallow. destruct (ask_all _ t) as [t1 r1] eqn:Ea.
  destruct (ask_all_run (generation (env t)) _ _ _ _ (plan_methods r) Hok eq_refl Ea) as (Hok1 & Hg1 & Hp & k & seg & Hl & Hf & Ha).
  destruct r1 as [u|e]; [|rewrite (Hp e eq_refl)]; (split; [done|]); (split; [done|]); (split; [done|]);
    exists k, seg; (split; [done|]); (split; [done|]); intros Hall; by apply Ha.
Qed.
End promises.

(** ** Spans

    A span is opaque; the answers of OpenTelemetry to the helpers are a record. *)

Inductive span_effect :=
  | SetAttribute (key value : string)
  | SetError.

Definition FLUSH_OUTCOME_ATTRIBUTE : string := "outcome".

Section spans.
Context {S C : Type} (class_name : exn → string).

Record span_answers := {
  (** [_trace_api()] is a module *)
  has_trace : bool;
  sa_set_attribute : result ();
  sa_set_status : result ();
  sa_is_recording : result bool;
  sa_get_context : result C;
  (** [getattr(context, "is_valid", False)] *)
  sa_is_valid : C → bool;
}.

(** [try: ... except Exception: logger.debug(...)] around effects on a span. *)
Fixpoint try_effects (l : list (span_effect * result ())) : list span_effect * result () :=
  match l with
  | [] => ([], Ok ())
  | (x, Ok _) :: l => let '(xs, r) := try_effects l in (x :: xs, r)
  | (_, Raise e) :: _ => ([], if is_exception e then Ok () else Raise e)
  end.

Definition mark_span_error_type (a : span_answers) (span : option S) (error_type : string) : list span_effect * result () :=
  match span with
  | None => ([], Ok ())
  | Some _ =>
      if negb (has_trace a) then ([], Ok ())
      else try_effects [(SetAttribute "error.type" error_type, sa_set_attribute a); (SetError, sa_set_status a)]
  end.

Definition error_type_of (exc : exn) : string := class_name exc.

Definition mark_span_error (a : span_answers) (span : option S) (exc : exn) : list span_effect * result () :=
  mark_span_error_type a span (error_type_of exc).

Definition set_flush_outcome (a : span_answers) (span : option S) (outcome : string) : list span_effect * result () :=
  match span with
  | None => ([], Ok ())
  | Some _ => try_effects [(SetAttribute FLUSH_OUTCOME_ATTRIBUTE outcome, sa_set_attribute a)]
  end.

Definition span_context_of (a : span_answers) (span : option S) : result (option C) :=
  match span with
  | None => Ok None
  | Some _ =>
      match (let! recording := sa_is_recording a in
             if (recording : bool) then let! c := sa_get_context a in Ok (Some c) else Ok None) with
      | Ok (Some c) => Ok (if sa_is_valid a c then Some c else None)
      | Ok None => Ok None
      | Raise e => if is_exception e then Ok None else Raise e
      end
  end.

(** The answers while a CONSUMER span is open around a body: [extract_context], [get_tracer]
    and [start_as_current_span]; the manager's [__enter__]; its [__exit__], given what the
    body raised, which answers whether that is suppressed. *)
Record consume_answers := {
  ca_span : span_answers;
  ca_start : result ();
  ca_enter : result S;
  ca_exit : option exn → result bool;
}.

(** [with consume_span(destination, headers) as span: body(span)], where the body works on a
    state [W]. *)
Definition consume_span {W} (a : consume_answers) (body : option S → W → W * result ()) (w : W)
    : W * list span_effect * result () :=
  let alone := let '(w', r) := body None w in (w', [], r) in
  if negb (has_trace (ca_span a)) then alone
  else match ca_start a with
       | Raise e => if is_exception e then alone else (w, [], Raise e)
       | Ok _ =>
           match ca_enter a with
           | Raise e => (w, [], Raise e)
           | Ok span =>
               match body (Some span) w with
               | (w', Ok _) => (w', [], let! _ := ca_exit a None in Ok ())
               | (w', Raise e) =>
                   let '(effects, marked) := mark_span_error (ca_span a) (Some span) e in
                   let raised := match marked with Ok _ => e | Raise e' => e' end in
                   (w', effects, let! suppressed := ca_exit a (Some raised) in if suppressed : bool then Ok () else Raise raised)
               end
           end
       end.

Lemma try_effects_ok l : (∀ x r, (x, r) ∈ l → polite r) → (try_effects l).2 = Ok ().
Proof.
  induction l as [|[x [u|e]] l IH]; intros Hl; simpl; [done| |].
  - specialize (IH ltac:(intros y r Hy; eapply Hl; by right)). by destruct (try_effects l).
  - by rewrite (Hl x (Raise e) ltac:(by left) e eq_refl).
Qed.

(** The answers of one span are polite: only [Exception]s. *)
Definition polite_span (a : span_answers) : Prop := polite (sa_set_attribute a) ∧ polite (sa_set_status a).

Lemma mark_span_error_ok a span exc : polite_span a → (mark_span_error a span exc).2 = Ok ().
Proof.
  intros [H1 H2]. unfold mark_span_error, mark_span_error_type. destruct span; [|done]. destruct (negb _); [done|].
  apply try_effects_ok. intros x r Hx.
  repeat (apply elem_of_cons in Hx as [Hx|Hx]; [by injection Hx as -> ->|]). by apply elem_of_nil in Hx.
Qed.

(** Tracing is on and the span's manager was built. *)
Definition opens (a : consume_answers) : bool := has_trace (ca_span a) && is_ok (ca_start a).

(** A CONSUMER span is transparent.  Unless entering or leaving the span's own context
    manager raises, wrapping a body in it changes nothing: the body runs exactly once, on the
    same state, with the span or with none when tracing is off or could not start, and ends
    as it does on its own; only a failed body gets its span marked, with its exception's
    class and no other detail.  An exception of the manager's [__enter__], though, is outside
    every [try]: it propagates and the body never runs. *)
Theorem consume_span_transparent {W} a (body : option S → W → W * result ()) w :
  polite_span (ca_span a) → polite (ca_start a) →
  let '(w', effects, r) := consume_span a body w in
  (opens a = true → ∀ e, ca_enter a = Raise e → w' = w ∧ r = Raise e) ∧
  ((opens a = true → is_ok (ca_enter a) = true) → (∀ e, ca_exit a e = Ok false) →
     ∃ span, (w', r) = body span w ∧ (is_Some span ↔ opens a = true) ∧
       ∀ x, x ∈ effects → ∃ e, r = Raise e ∧ (x = SetAttribute "error.type" (class_name e) ∨ x = SetError)).
Proof.
  intros Hspan Hstart. unfold consume_span, opens. destruct (has_trace (ca_span a)) eqn:Ht; cbn [negb andb].
  2: { destruct (body None w) as [w' r] eqn:Eb. split; [done|]. intros _ _. exists None. rewrite Eb.
       split_and!; [done|by split; [intros [? ?]|]|by intros x ?%elem_of_nil]. }
  destruct (ca_start a) as [[]|e] eqn:Es; cbn [is_ok].
  - destruct (ca_enter a) as [span|e]; [|split; [by intros _ e' [= <-]|by intros Hent; specialize (Hent eq_refl)]].
    destruct (body (Some span) w) as [w' [[]|e]] eqn:Eb.
    + split; [done|]. intros _ Hexit. rewrite Hexit. exists (Some span). rewrite Eb.
      split_and!; [done|done|by intros x ?%elem_of_nil].
    + destruct (mark_span_error (ca_span a) (Some span) e) as [effects marked] eqn:Em.
      pose proof (mark_span_error_ok (ca_span a) (Some span) e Hspan) as Hok. rewrite Em in Hok. cbn in Hok. subst marked.
      split; [done|]. intros _ Hexit. rewrite Hexit. exists (Some span). rewrite Eb. split_and!; [done|done|].
      intros x Hx. exists e. split; [done|]. revert Em. unfold mark_span_error, mark_span_error_type, try_effects, error_type_of.
      rewrite Ht. cbn [negb]. destruct (sa_set_attribute (ca_span a)), (sa_set_status (ca_span a)); intros Heq;
        apply (f_equal fst) in Heq; cbn in Heq; subst effects; rewrite ?elem_of_cons, elem_of_nil in Hx; naive_solver.
  - assert (is_exception e = true) as -> by (by apply Hstart).
    destruct (body None w) as [w' r] eqn:Eb. split; [done|]. intros _ _. exists None. rewrite Eb.
    split_and!; [done|by split; [intros [? ?]|]|by intros x ?%elem_of_nil].
Qed.
End spans.

(** ** A concrete provider *)

(** Its generation is the environment; gauges fail. *)
#[local] Instance demo_otel : Otel Z (Z * metric) := {|
  provider_generation e := (e, Ok e);
  get_meter _ e := (e, Ok ());
  create_instrument m e := (e, Ok (e, m));
  measure i _ _ _ e := (e, match m_kind i.2 with Gauge => Raise RuntimeError | _ => Ok () end);
|}.

#[local] Instance demo_laws : OtelLaws Z (Z * metric).
Proof.
  refine {| generation e := e; made g m i := i = (g, m) |}; try done.
  - intros e. split; [done|]. by intros g [= <-].
  - by intros m e i [= <-].
Defined.

Definition cold_start : telemetry (E := Z) (I := Z * metric) :=
  {| env := 3; instruments := ∅; instrument_generation := -1; made_so_far := [] |}.

Ltac polite_now := intros; intros ? Hraise; cbn in Hraise; repeat case_match; by simplify_eq.

Lemma recording_never_raises_witness :
  (run (λ _, "") Ok Ok (Message "artists" "processed" (JInt 2)) cold_start).2 = Ok () ∧
  (run (λ _, "") Ok Ok (BatchStall "artists" true (JInt 2)) cold_start).2 = Ok () ∧
  length (made_so_far (run (λ _, "") Ok Ok (Message "artists" "processed" (JInt 2)) cold_start).1) = 2%nat.
Proof.
  assert (∀ r, (run (λ _, "") Ok Ok r cold_start).2 = Ok ()) as Hok.
  { intros r. assert (cache_ok cold_start) as Hc by exact (empty_cache_ok cold_start (-1)).
    pose proof (recording_never_raises (H := demo_otel) (H0 := demo_laws) (λ _, "") Ok Ok ltac:(polite_now) ltac:(polite_now) ltac:(polite_now) ltac:(polite_now)
      ltac:(polite_now) ltac:(polite_now) r cold_start Hc) as Hr.
    destruct (run _ _ _ r cold_start) as [t' res]. exact (proj1 Hr). }
  split; [apply Hok|]. split; [apply Hok|]. vm_compute. reflexivity.
Defined.

Definition quiet_span : span_answers (C := ()) :=
  {| has_trace := true; sa_set_attribute := Ok (); sa_set_status := Ok (); sa_is_recording := Ok true; sa_get_context := Ok ();
     sa_is_valid := λ _, true |}.

Definition failing_body (span : option ()) (w : Z) : Z * result () := (w + 1, Raise ValueError).

Lemma consume_span_transparent_witness :
  let a := {| ca_span := quiet_span; ca_start := Ok (); ca_enter := Ok (); ca_exit := λ _, Ok false |} in
  consume_span (λ _, "ValueError") a failing_body 4 = (5, [SetAttribute "error.type" "ValueError"; SetError], Raise ValueError) ∧
  (∃ span, (5, Raise ValueError) = failing_body span 4 ∧ is_Some span) ∧
  let b := {| ca_span := quiet_span; ca_start := Ok (); ca_enter := Raise RuntimeError; ca_exit := λ _, Ok false |} in
  (consume_span (λ _, "ValueError") b failing_body 4).2 = Raise RuntimeError.
Proof.
  intros a. split; [reflexivity|].
  assert (∀ r : result (), r = Ok () → polite r) as Hp by by intros r -> e. split.
  - destruct (consume_span_transparent (λ _, "ValueError") a failing_body 4 (conj (Hp _ eq_refl) (Hp _ eq_refl)) (Hp _ eq_refl)) as [_ H].
    destruct (H (λ _, eq_refl) (λ _, eq_refl)) as (span & Hb & Hs & _). exists span. split; [exact Hb|by apply Hs].
  - intros b.
    destruct (consume_span_transparent (λ _, "ValueError") b failing_body 4 (conj (Hp _ eq_refl) (Hp _ eq_refl)) (Hp _ eq_refl)) as [H _].
    exact (proj2 (H eq_refl RuntimeError eq_refl)).
Defined.
