(* ===== verification/Media.v ===== *)
(** * Canonical media block of a release: [media.py]

    [media_for_release] decides what goes in [releases.media]; the mappers themselves are
    the runtime's ([Runtime.CommonRuntime]). *)

From S2P Require Import Prelude Json Runtime.

Section media.
Context `{CommonRuntime}.

(** One entry's contribution: its name, then its descriptions. *)
Definition flatten_entry (entry : json) : list string :=
  match entry with
  | JObj d =>
      (match jget "name" d with JStr name => [name] | _ => [] end)
      ++ flatten_descriptions (jget "descriptions" d)
  | _ => []
  end.

Definition _flatten_formats (formats : json) : list string :=
  match formats with
  | JList entries => entries ≫= flatten_entry
  | _ => []
  end.

Definition media_for_release (data : dict) : dict :=
  match jget "media" data with
  | JObj media => media
  | _ =>
      let formats := jget "formats" data in
      match formats with
      | JList entries =>
          if forallb is_dict entries then map_discogs_formats (dict_elements entries)
          else legacy_format_names_to_media (_flatten_formats formats)
      | _ => legacy_format_names_to_media (_flatten_formats formats)
      end
  end.

Lemma flatten_formats_app l1 l2 :
  _flatten_formats (JList (l1 ++ l2)) =
    _flatten_formats (JList l1) ++ _flatten_formats (JList l2).
Proof. simpl. by rewrite bind_app. Qed.

(** The structured mapper is used exactly when every entry is an object. *)
Inductive media_route := Verbatim (block : dict) | Structured (fs : list dict) | NameOnly (ns : list string).

Definition route_of (data : dict) : media_route :=
  match jget "media" data, jget "formats" data with
  | JObj b, _ => Verbatim b
  | _, JList es => if forallb is_dict es then Structured (dict_elements es)
                   else NameOnly (_flatten_formats (JList es))
  | _, f => NameOnly (_flatten_formats f)
  end.

Definition run_route (r : media_route) : dict :=
  match r with
  | Verbatim b => b
  | Structured fs => map_discogs_formats fs
  | NameOnly ns => legacy_format_names_to_media ns
  end.

(** A mixed list of formats never reaches the structured mapper: the block a release
    is written with is its own [media] object when it has one; otherwise the structured
    mapping of [formats] exactly when [formats] is a list and every entry is an object,
    with all the entries and in order (so no entry's [qty] is dropped); otherwise the
    name-only mapping. *)
Theorem media_for_release_routes data :
  media_for_release data = run_route (route_of data) ∧
  (∀ fs, route_of data = Structured fs →
     jget "formats" data = JList (JObj <$> fs) ∧ is_dict (jget "media" data) = false) ∧
  (∀ es e, jget "formats" data = JList es → e ∈ es → is_dict e = false →
     is_dict (jget "media" data) = false →
     route_of data = NameOnly (es ≫= flatten_entry)).
Proof.
  unfold media_for_release, route_of. split_and!.
  - by split_matches.
  - intros fs Hr.
    destruct (jget "media" data); simplify_eq; (split; [|done]);
      destruct (jget "formats" data) as [| | | | |es|]; simplify_eq;
      destruct (forallb is_dict es) eqn:E; simplify_eq;
      by rewrite (forallb_is_dict _ E).
  - intros es e -> He Hd Hm.
    destruct (forallb is_dict es) eqn:E.
    + rewrite forallb_forall in E. apply list_elem_of_In in He.
      by rewrite (E _ He) in Hd.
    + by destruct (jget "media" data).
Qed.
End media.

Lemma media_for_release_routes_witness :
  let data := [("formats", JList [JObj [("name", JStr "Vinyl"); ("qty", JInt 2)]; JStr "CD"])] in
  media_for_release data = legacy_format_names_to_media ["Vinyl"] ∧
  route_of data = NameOnly ["Vinyl"].
Proof.
  split; [reflexivity|].
  refine (proj2 (proj2 (media_for_release_routes
    [("formats", JList [JObj [("name", JStr "Vinyl"); ("qty", JInt 2)]; JStr "CD"])]))
    [JObj [("name", JStr "Vinyl"); ("qty", JInt 2)]; JStr "CD"] (JStr "CD") _ _ _ _);
    [reflexivity|right; left|reflexivity|reflexivity].
Defined.
