(* ===== verification/Identity.v ===== *)
(** * Native identity and identifier aliases: [identity.py]

    The identity service itself ([common.identity], [common.identifiers]) is a parameter:
    a class with the alias store as an abstract state.  What is modelled is how the loader
    builds alias references, collects the aliases a batch mints, and counts conflicts. *)

From S2P Require Import Prelude Json.

Record AliasRef := { provider : string; entity_kind : string; external_id : string }.

#[export] Instance AliasRef_eq_dec : EqDecision AliasRef.
Proof. solve_decision. Defined.

#[export] Instance AliasRef_countable : Countable AliasRef.
Proof.
  apply (inj_countable' (λ r, (provider r, entity_kind r, external_id r))
    (λ '(p, k, e), {| provider := p; entity_kind := k; external_id := e |})).
  by intros [].
Defined.

(** Native ids are UUIDs, compared and stored only. *)
Abbreviation native_id := positive.

(** [common.identity] and [common.identifiers] as the loader calls them.  [alias_db] is the
    service's tables, on the caller's connection. *)
Class IdentityService := {
  alias_db : Type;
  (** [resolve_aliases(conn, refs)]: mints the misses. *)
  resolve_aliases : alias_db → list AliasRef → result (alias_db * gmap AliasRef native_id);
  (** [attach_aliases(conn, targets)]: the native id each alias points at afterwards. *)
  attach_aliases : alias_db → list (AliasRef * native_id) → result (alias_db * gmap AliasRef native_id);
  (** [alias_refs_for_release(block)]; raises on a malformed block. *)
  alias_refs_for_release : json → result (list AliasRef);
}.

Definition DISCOGS_PROVIDER : string := "discogs".

Definition ENTITY_KIND_BY_DATA_TYPE : list (string * string) :=
  [("artists", "artist"); ("labels", "label"); ("masters", "master"); ("releases", "release")].

Definition ALIAS_BEARING_DATA_TYPE : string := "releases".

Definition alias_ref (data_type data_id : string) : result AliasRef :=
  match od_get data_type ENTITY_KIND_BY_DATA_TYPE with
  | Some kind => Ok {| provider := DISCOGS_PROVIDER; entity_kind := kind; external_id := data_id |}
  | None => Raise KeyError
  end.

Section aliases.
Context {IS : IdentityService}.

Fixpoint add_refs (refs : list AliasRef) (native : native_id)
    (targets : list (AliasRef * native_id)) : list (AliasRef * native_id) :=
  match refs with
  | [] => targets
  | ref :: refs => add_refs refs native (od_setdefault ref native targets)
  end.

Fixpoint collect_targets (payloads : list (dict * native_id))
    (targets : list (AliasRef * native_id)) : result (list (AliasRef * native_id)) :=
  match payloads with
  | [] => Ok targets
  | (data, native) :: payloads =>
      let block := jget "identifiers" data in
      if negb (truthy block) then collect_targets payloads targets
      else let! refs := alias_refs_for_release block in
           collect_targets payloads (add_refs refs native targets)
  end.

Definition alias_targets (data_type : string) (payloads : list (dict * native_id))
    : result (list (AliasRef * native_id)) :=
  if bool_decide (data_type ≠ ALIAS_BEARING_DATA_TYPE) then Ok []
  else collect_targets payloads [].

(** [attached.get(ref, native_id) != native_id] *)
Definition conflicting (attached : gmap AliasRef native_id) (t : AliasRef * native_id) : bool :=
  match attached !! t.1 with Some n => bool_decide (n ≠ t.2) | None => false end.

Definition attach_alias_targets (db : alias_db) (targets : list (AliasRef * native_id))
    : result (alias_db * nat) :=
  match targets with
  | [] => Ok (db, 0%nat)
  | _ =>
      let! '(db, attached) := attach_aliases db targets in
      Ok (db, length (filter (λ t, conflicting attached t) targets))
  end.

(** ** Lemmas *)

(** The references a payload mints; a payload without a block mints none. *)
Definition minted (data : dict) : result (list AliasRef) :=
  let block := jget "identifiers" data in
  if truthy block then alias_refs_for_release block else Ok [].

Fixpoint first_minter (ref : AliasRef) (payloads : list (dict * native_id)) : option native_id :=
  match payloads with
  | [] => None
  | (data, native) :: payloads =>
      match minted data with
      | Ok refs => if decide (ref ∈ refs) then Some native else first_minter ref payloads
      | Raise _ => None
      end
  end.

Lemma od_get_add_refs ref refs native targets :
  od_get ref (add_refs refs native targets) =
    match od_get ref targets with
    | Some n => Some n
    | None => if decide (ref ∈ refs) then Some native else None
    end.
Proof.
  revert targets. induction refs as [|r refs IH]; intros targets; cbn [add_refs].
  - destruct (od_get ref targets); [done|]. case_decide; [set_solver|done].
  - rewrite IH, od_get_setdefault. destruct (od_get ref targets); [done|].
    destruct (decide (ref = r)); repeat case_decide; set_solver.
Qed.

Lemma NoDup_add_refs refs native targets :
  NoDup targets.*1 → NoDup (add_refs refs native targets).*1.
Proof.
  revert targets. induction refs as [|r refs IH]; intros targets Ht; simpl; [done|].
  by apply IH, NoDup_od_setdefault.
Qed.

Lemma collect_targets_step data native payloads targets :
  collect_targets ((data, native) :: payloads) targets =
    (let! refs := minted data in collect_targets payloads (add_refs refs native targets)).
Proof. unfold minted; simpl. by destruct (truthy (jget "identifiers" data)). Qed.

Lemma collect_targets_spec payloads targets out :
  collect_targets payloads targets = Ok out →
  (NoDup targets.*1 → NoDup out.*1) ∧
  ∀ ref, od_get ref out =
    match od_get ref targets with Some n => Some n | None => first_minter ref payloads end.
Proof.
  revert targets. induction payloads as [|[data native] payloads IH]; intros targets Hout.
  - simpl in Hout. simplify_eq. split; [done|]. intros ref. by destruct (od_get ref out).
  - rewrite collect_targets_step in Hout. simpl.
    destruct (minted data) as [refs|] eqn:E; simplify_eq/=.
    destruct (IH _ Hout) as [Hnd Hget]. split.
    + intros Ht. by apply Hnd, NoDup_add_refs.
    + intros ref. rewrite Hget, od_get_add_refs.
      destruct (od_get ref targets); [done|]. by case_decide.
Qed.

(** First payload wins: when a batch of release payloads collects its aliases, each
    reference is attached exactly once, to the native id of the first payload in batch
    order that mints it, and no other reference is attached.  A malformed block makes the
    whole collection raise. *)
Theorem alias_targets_first_wins payloads targets :
  alias_targets "releases" payloads = Ok targets →
  NoDup targets.*1 ∧ (∀ ref, od_get ref targets = first_minter ref payloads) ∧
  (∀ data native, (data, native) ∈ payloads → is_ok (minted data) = true).
Proof.
  unfold alias_targets. rewrite bool_decide_false by (intros H'; by apply H').
  intros Hout. destruct (collect_targets_spec _ _ _ Hout) as [Hnd Hget].
  split_and!; [by apply Hnd, NoDup_nil_2|exact Hget|].
  clear Hnd Hget. revert Hout. generalize (@nil (AliasRef * native_id)).
  induction payloads as [|[d n] payloads IH]; intros acc Hout data native Hin; [set_solver|].
  rewrite collect_targets_step in Hout.
  destruct (minted d) eqn:E; simplify_eq/=.
  apply elem_of_cons in Hin as [?|Hin]; [simplify_eq; by rewrite E|by eapply IH].
Qed.

(** An attach reports exactly the collisions: the count is the number of references
    whose alias points at another native id afterwards, it is zero when the service gave
    every reference the id asked for, and an empty set of targets touches nothing. *)
Theorem attach_alias_targets_counts db targets db' n :
  attach_alias_targets db targets = Ok (db', n) →
  (targets = [] → db' = db ∧ n = 0%nat) ∧
  (targets ≠ [] → ∃ attached, attach_aliases db targets = Ok (db', attached) ∧
     (n = 0%nat ↔ ∀ ref native, (ref, native) ∈ targets →
        attached !! ref = None ∨ attached !! ref = Some native)).
Proof.
  unfold attach_alias_targets. destruct targets as [|t targets]; intros Hok; simplify_eq/=.
  - by split.
  - split; [done|]. intros _.
    destruct (attach_aliases db (t :: targets)) as [[db1 attached]|]; simplify_eq/=.
    exists attached. split; [done|].
    rewrite length_zero_iff_nil. split.
    + intros Hnil ref native Hin.
      assert (conflicting attached (ref, native) = false) as Hc.
      { destruct (conflicting attached (ref, native)) eqn:E; [|done].
        assert ((ref, native) ∈ filter (λ t, conflicting attached t) (t :: targets)) as Hin'.
        { apply list_elem_of_filter. split; [by rewrite E|done]. }
        rewrite Hnil in Hin'. set_solver. }
      unfold conflicting in Hc. simpl in Hc. destruct (attached !! ref); [|by left].
      apply bool_decide_eq_false in Hc. right. f_equal. by apply dec_stable.
    + intros Hall. destruct (filter _ _) as [|[ref native] l] eqn:E; [done|exfalso].
      assert ((ref, native) ∈ filter (λ t, conflicting attached t) (t :: targets)) as Hin.
      { rewrite E. apply list_elem_of_here. }
      apply list_elem_of_filter in Hin as [Hc Hin].
      unfold conflicting in Hc. simpl in Hc.
      destruct (Hall _ _ Hin) as [Heq|Heq]; rewrite Heq in Hc; [done|].
      by rewrite bool_decide_false in Hc by (intros H'; by apply H').
Qed.
End aliases.

(** ** A concrete service: an alias table with the next id to mint *)

Fixpoint sample_resolve (next : native_id) (db : list (AliasRef * native_id)) (refs : list AliasRef)
    (out : gmap AliasRef native_id)
    : (list (AliasRef * native_id) * native_id) * gmap AliasRef native_id :=
  match refs with
  | [] => ((db, next), out)
  | r :: refs =>
      match od_get r db with
      | Some n => sample_resolve next db refs (<[r := n]> out)
      | None => sample_resolve (Pos.succ next) (od_set r next db) refs (<[r := next]> out)
      end
  end.

Fixpoint sample_attach (db : list (AliasRef * native_id)) (targets : list (AliasRef * native_id))
    (out : gmap AliasRef native_id) : list (AliasRef * native_id) * gmap AliasRef native_id :=
  match targets with
  | [] => (db, out)
  | (r, n) :: targets =>
      let n' := match od_get r db with Some m => m | None => n end in
      sample_attach (od_set r n' db) targets (<[r := n']> out)
  end.

Definition sample_refs (block : json) : result (list AliasRef) :=
  match block with
  | JList l => map_result (λ v, match v with
      | JStr s => Ok {| provider := "discogs"; entity_kind := "barcode"; external_id := s |}
      | _ => Raise ValueError end) l
  | _ => Raise ValueError
  end.

#[export] Instance sample_identity : IdentityService := {|
  alias_db := list (AliasRef * native_id) * native_id;
  resolve_aliases db refs := Ok (sample_resolve db.2 db.1 refs ∅);
  attach_aliases db targets :=
    let '(t, out) := sample_attach db.1 targets ∅ in Ok ((t, db.2), out);
  alias_refs_for_release := sample_refs;
|}.

Lemma alias_targets_first_wins_witness :
  let ref := {| provider := "discogs"; entity_kind := "barcode"; external_id := "0123" |} in
  let p1 := ([("identifiers", JList [JStr "0123"])], 7%positive) in
  let p2 := ([("identifiers", JList [JStr "0123"])], 8%positive) in
  alias_targets "releases" [p1; p2] = Ok [(ref, 7%positive)] ∧
  od_get ref [(ref, 7%positive)] = first_minter ref [p1; p2].
Proof.
  split; [reflexivity|].
  apply (alias_targets_first_wins
    [([("identifiers", JList [JStr "0123"])], 7%positive);
     ([("identifiers", JList [JStr "0123"])], 8%positive)]). reflexivity.
Defined.

Definition sample_ref : AliasRef :=
  {| provider := "discogs"; entity_kind := "barcode"; external_id := "0123" |}.

Definition sample_alias_db : @alias_db sample_identity :=
  ([(sample_ref, 7%positive)], 9%positive).

Lemma attach_alias_targets_counts_witness :
  attach_alias_targets sample_alias_db [(sample_ref, 8%positive)] = Ok (sample_alias_db, 1%nat) ∧
  ∃ attached, attach_aliases sample_alias_db [(sample_ref, 8%positive)] = Ok (sample_alias_db, attached) ∧
    (1%nat = 0%nat ↔ ∀ r n, (r, n) ∈ [(sample_ref, 8%positive)] →
       attached !! r = None ∨ attached !! r = Some n).
Proof.
  split; [vm_compute; reflexivity|].
  refine (proj2 (attach_alias_targets_counts sample_alias_db [(sample_ref, 8%positive)]
    sample_alias_db 1 _) _); [vm_compute; reflexivity|discriminate].
Defined.
