(* ===== verification/Derivation.v ===== *)
(** * Graph rows of one Discogs document: [graph_derivation.py]

    One definition per function of the module, with its name.  A row is a list of column
    values in the column order of [VERTEX_COLUMNS] / [EDGE_COLUMNS]; a [DocumentGraph] maps
    a relation to its rows, and a relation the document says nothing about is absent. *)

From S2P Require Import Prelude Json Runtime Media.

Inductive val := VNull | VText (s : string) | VInt (z : Z).
Abbreviation row := (list val).

#[export] Instance val_eq_dec : EqDecision val.
Proof. solve_decision. Defined.

#[export] Instance val_countable : Countable val.
Proof.
  apply (inj_countable'
    (λ v, match v with VNull => inl () | VText s => inr (inl s) | VInt z => inr (inr z) end)
    (λ v, match v with inl _ => VNull | inr (inl s) => VText s | inr (inr z) => VInt z end)).
  by intros [].
Defined.

Definition DISCOGS_SOURCE : string := "discogs".
Definition UNMAPPED_ROLE_CATEGORY : string := "other".
Definition DERIVED_ID_PREFIX : string := "name:".
Definition NO_ENTITY_ID : string := "0".

Definition VERTEX_COLUMNS : list (string * list string) :=
  [("genre", ["name"]);
   ("style", ["name"]);
   ("person", ["name"]);
   ("media_family", ["name"]);
   ("medium", ["medium_id"; "family"; "label"]);
   ("company", ["company_id"; "name"; "discogs_label_id"])].

Definition EDGE_COLUMNS : list (string * list string) :=
  [("by_artist", ["release_id"; "artist_id"]);
   ("on_label", ["release_id"; "label_id"]);
   ("derived_from", ["release_id"; "master_id"]);
   ("in_genre", ["release_id"; "genre_name"]);
   ("in_style", ["release_id"; "style_name"]);
   ("master_by_artist", ["master_id"; "artist_id"]);
   ("master_in_genre", ["master_id"; "genre_name"]);
   ("master_in_style", ["master_id"; "style_name"]);
   ("member_of", ["member_artist_id"; "group_artist_id"]);
   ("alias_of", ["alias_artist_id"; "artist_id"]);
   ("credited_on", ["person_name"; "release_id"; "role"]);
   ("same_as", ["person_name"; "artist_id"]);
   ("credited_to", ["release_id"; "company_id"; "role"; "role_category"; "source"]);
   ("issued_on", ["release_id"; "medium_id"; "source"; "qty"]);
   ("track_credited_on",
     ["person_name"; "release_id"; "track_ordinal"; "sub_track_ordinal"; "track_position"; "role"]);
   ("track_by_artist",
     ["release_id"; "track_ordinal"; "sub_track_ordinal"; "track_position"; "artist_id"])].

Record DocumentGraph := {
  vertices : gmap string (list row);
  edges : gmap string (list row);
  replaced : gset string;
}.

Definition empty_graph : DocumentGraph := {| vertices := ∅; edges := ∅; replaced := ∅ |}.

(** Record ROWS under RELATION, leaving a relation the document says nothing about out. *)
Definition _put (target : gmap string (list row)) (relation : string) (rows : list row)
    : gmap string (list row) :=
  match rows with [] => target | _ => <[relation := rows]> target end.

Definition _unique {A} `{EqDecision A} (rows : list A) : list A := unique rows.

Definition _elements (value : json) : list dict :=
  match value with JList l => dict_elements l | _ => [] end.

Definition _entity_id (value : json) : option string :=
  let usable text :=
    if bool_decide (text = "") || bool_decide (text = NO_ENTITY_ID) then None else Some text in
  match value with
  | JInt z => usable (py_str_int z)
  | JStr s => usable (py_strip s)
  | _ => None
  end.

Definition _element_ids (value : json) : list string :=
  unique (omap (λ element, _entity_id (jget "id" element)) (_elements value)).

Definition _xmltodict_array (container : json) (key : string) : list json :=
  match container with
  | JList l => l
  | JObj d =>
      match od_get key d with
      | None => []
      | Some (JList l) => l
      | Some JNull => []
      | Some inner => [inner]
      end
  | JNull => []
  | _ => [container]
  end.

Definition _track_position (track : dict) : option string :=
  match jget "position" track with JStr s => Some s | _ => None end.

Definition _tag_names (value : json) : list string :=
  match value with
  | JList l =>
      unique (omap (λ name, match name with
        | JStr s => if bool_decide (s = "") then None else Some s
        | _ => None end) l)
  | _ => []
  end.

(** [enumerate(l, start=1)] *)
Definition enumerate1 {A} (l : list A) : list (Z * A) := imap (λ i x, (Z.of_nat i + 1, x)) l.

Definition _text (value : json) : option string :=
  match value with
  | JStr s => let text := py_strip s in if bool_decide (text = "") then None else Some text
  | _ => None
  end.

Definition _discogs_id (value : json) : option string :=
  match value with
  | JInt z => if 1 <=? z then Some (py_str_int z) else None
  | JStr s =>
      let text := py_strip s in
      if all_digits text && (1 <=? digits_value text) then Some text else None
  | _ => None
  end.

Definition _discogs_label_id (company_id : string) : option string :=
  if all_digits company_id then Some company_id else None.

Definition _quantity (item : dict) : Z :=
  match jget "qty" item with JInt q => if q <? 1 then 1 else q | _ => 1 end.

Section derivation.
Context `{CommonRuntime}.

Definition _credits (value : json) : list (string * string * option string) :=
  omap (λ element,
    match jget "name" element, jget_default "role" (JStr "") element with
    | JStr name, JStr role =>
        if bool_decide (name = "") || bool_decide (role = "") then None
        else let name := strip_person_name name in
             if bool_decide (name = "") then None
             else Some (name, role, _entity_id (jget "id" element))
    | _, _ => None
    end) (_elements value).

Definition _track_credits (tracklist : json)
    : list (Z * Z * option string * string * string * option string) :=
  '(track_ordinal, track) ← enumerate1 (_xmltodict_array tracklist "track");
  match track with
  | JObj track =>
      let position := _track_position track in
      ((λ '(name, role, artist_id), (track_ordinal, 0, position, name, role, artist_id)) <$>
         _credits (JList (_xmltodict_array (jget "extraartists" track) "artist")))
      ++ ('(sub_track_ordinal, sub_track) ← enumerate1 (_xmltodict_array (jget "sub_tracks" track) "track");
          match sub_track with
          | JObj sub_track =>
              let sub_position := _track_position sub_track in
              (λ '(name, role, artist_id),
                 (track_ordinal, sub_track_ordinal, sub_position, name, role, artist_id)) <$>
                _credits (JList (_xmltodict_array (jget "extraartists" sub_track) "artist"))
          | _ => []
          end)
  | _ => []
  end.

Definition _track_performers (tracklist : json) : list (Z * Z * option string * string) :=
  '(track_ordinal, track) ← enumerate1 (_xmltodict_array tracklist "track");
  match track with
  | JObj track =>
      let position := _track_position track in
      ((λ artist_id, (track_ordinal, 0, position, artist_id)) <$>
         _element_ids (JList (_xmltodict_array (jget "artists" track) "artist")))
      ++ ('(sub_track_ordinal, sub_track) ← enumerate1 (_xmltodict_array (jget "sub_tracks" track) "track");
          match sub_track with
          | JObj sub_track =>
              let sub_position := _track_position sub_track in
              (λ artist_id, (track_ordinal, sub_track_ordinal, sub_position, artist_id)) <$>
                _element_ids (JList (_xmltodict_array (jget "artists" sub_track) "artist"))
          | _ => []
          end)
  | _ => []
  end.

Definition _medium_label (medium : string) : string :=
  match medium_label medium with Some l => l | None => medium end.

(** The loop state of [_media_rows]. *)
Record media_acc := {
  order : list string;
  resolved : gmap string (string * string);
  quantities : gmap string Z;
}.

Definition media_step (acc : media_acc) (item : dict) : media_acc :=
  match jget "medium" item, jget "family" item with
  | JStr medium, JStr family =>
      if bool_decide (medium = "") || bool_decide (family = "") then acc
      else
        let acc :=
          match resolved acc !! medium with
          | Some _ => acc
          | None => {| order := order acc ++ [medium];
                       resolved := <[medium := (family, _medium_label medium)]> (resolved acc);
                       quantities := <[medium := 0]> (quantities acc) |}
          end in
        {| order := order acc; resolved := resolved acc;
           quantities := <[medium := default 0 (quantities acc !! medium) + _quantity item]> (quantities acc) |}
  | _, _ => acc
  end.

Definition _media_rows (block : dict) : list (string * string * string * Z) :=
  let acc := foldl media_step {| order := []; resolved := ∅; quantities := ∅ |}
               (_elements (jget "items" block)) in
  (λ medium,
     let '(family, label) := default ("", "") (resolved acc !! medium) in
     (medium, family, label, default 0 (quantities acc !! medium))) <$> order acc.

Definition company_identity (item : dict) : option string :=
  match _discogs_id (jget "discogs_id" item) with
  | Some discogs_id => Some discogs_id
  | None =>
      match _text (jget "name" item) with
      | None => None
      | Some name => Some (DERIVED_ID_PREFIX +:+ casefold (py_join " " (py_split name)))
      end
  end.

Definition company_step (rows : list (string * string * (string * string * string * string)))
    (item : dict) : list (string * string * (string * string * string * string)) :=
  match _text (jget "role" item), company_identity item with
  | Some role, Some company_id =>
      od_setdefault (company_id, role)
        (company_id, default company_id (_text (jget "name" item)), role,
         default UNMAPPED_ROLE_CATEGORY (_text (jget "role_category" item))) rows
  | _, _ => rows
  end.

Definition _company_rows (block : dict) : list (string * string * string * string) :=
  (foldl company_step [] (_elements (jget "items" block))).*2.

Definition opt_text (o : option string) : val :=
  match o with Some s => VText s | None => VNull end.

Definition derive_artist (data_id : string) (data : dict) : DocumentGraph :=
  let members := (λ member_id, [VText member_id; VText data_id]) <$> _element_ids (jget "members" data) in
  let groups := (λ group_id, [VText data_id; VText group_id]) <$> _element_ids (jget "groups" data) in
  let aliases := (λ alias_id, [VText alias_id; VText data_id]) <$> _element_ids (jget "aliases" data) in
  let edges := ∅ in
  let edges := _put edges "member_of" (_unique (members ++ groups)) in
  let edges := _put edges "alias_of" (_unique aliases) in
  {| vertices := ∅; edges := edges; replaced := {["alias_of"]} |}.

Definition derive_master (data_id : string) (data : dict) : DocumentGraph :=
  let genres := _tag_names (jget "genres" data) in
  let styles := _tag_names (jget "styles" data) in
  let vertices := ∅ in
  let vertices := _put vertices "genre" ((λ name, [VText name]) <$> genres) in
  let vertices := _put vertices "style" ((λ name, [VText name]) <$> styles) in
  let edges := ∅ in
  let edges := _put edges "master_by_artist"
    ((λ artist_id, [VText data_id; VText artist_id]) <$> _element_ids (jget "artists" data)) in
  let edges := _put edges "master_in_genre" ((λ name, [VText data_id; VText name]) <$> genres) in
  let edges := _put edges "master_in_style" ((λ name, [VText data_id; VText name]) <$> styles) in
  {| vertices := vertices; edges := edges;
     replaced := {["master_by_artist"; "master_in_genre"; "master_in_style"]} |}.

Definition release_replaced (companies_block : json) : gset string :=
  {["by_artist"; "on_label"; "derived_from"; "in_genre"; "in_style"; "credited_on";
    "issued_on"; "track_credited_on"; "track_by_artist"]}
  ∪ (if is_dict companies_block then {["credited_to"]} else ∅).

Definition release_company_rows (companies_block : json) : list (string * string * string * string) :=
  match companies_block with JObj block => _company_rows block | _ => [] end.

Definition release_vertices (data : dict) : gmap string (list row) :=
  let genres := _tag_names (jget "genres" data) in
  let styles := _tag_names (jget "styles" data) in
  let credits := _credits (jget "extraartists" data) in
  let track_credits := _track_credits (jget "tracklist" data) in
  let media_items := _media_rows (media_for_release data) in
  let company_rows := release_company_rows (jget "companies" data) in
  let vertices := ∅ in
  let vertices := _put vertices "genre" ((λ name, [VText name]) <$> genres) in
  let vertices := _put vertices "style" ((λ name, [VText name]) <$> styles) in
  let vertices := _put vertices "person"
    (_unique (((λ '(name, _, _), [VText name]) <$> credits)
              ++ ((λ '(_, _, _, name, _, _), [VText name]) <$> track_credits))) in
  let vertices := _put vertices "media_family"
    (_unique ((λ '(_, family, _, _), [VText family]) <$> media_items)) in
  let vertices := _put vertices "medium"
    ((λ '(medium, family, label, _), [VText medium; VText family; VText label]) <$> media_items) in
  _put vertices "company"
    ((λ '(company_id, name, _, _),
        [VText company_id; VText name; opt_text (_discogs_label_id company_id)]) <$> company_rows).

Definition same_as_rows (credits : list (string * string * option string))
    (track_credits : list (Z * Z * option string * string * string * option string)) : list row :=
  _unique (omap (λ '(name, _, artist_id), (λ a, [VText name; VText a]) <$> artist_id) credits
           ++ omap (λ '(_, _, _, name, _, artist_id), (λ a, [VText name; VText a]) <$> artist_id)
                track_credits).

Definition release_edges (data_id : string) (data : dict) : gmap string (list row) :=
  let genres := _tag_names (jget "genres" data) in
  let styles := _tag_names (jget "styles" data) in
  let credits := _credits (jget "extraartists" data) in
  let track_credits := _track_credits (jget "tracklist" data) in
  let track_performers := _track_performers (jget "tracklist" data) in
  let media_items := _media_rows (media_for_release data) in
  let company_rows := release_company_rows (jget "companies" data) in
  let edges := ∅ in
  let edges := _put edges "by_artist"
    ((λ artist_id, [VText data_id; VText artist_id]) <$> _element_ids (jget "artists" data)) in
  let edges := _put edges "on_label"
    ((λ label_id, [VText data_id; VText label_id]) <$> _element_ids (jget "labels" data)) in
  let edges := _put edges "derived_from"
    (match _entity_id (jget "master_id" data) with
     | Some master_id => [[VText data_id; VText master_id]]
     | None => []
     end) in
  let edges := _put edges "in_genre" ((λ name, [VText data_id; VText name]) <$> genres) in
  let edges := _put edges "in_style" ((λ name, [VText data_id; VText name]) <$> styles) in
  let edges := _put edges "credited_on"
    (_unique ((λ '(name, role, _), [VText name; VText data_id; VText role]) <$> credits)) in
  let edges := _put edges "same_as" (same_as_rows credits track_credits) in
  let edges := _put edges "issued_on"
    ((λ '(medium, _, _, qty), [VText data_id; VText medium; VText DISCOGS_SOURCE; VInt qty]) <$> media_items) in
  let edges := _put edges "credited_to"
    ((λ '(company_id, _, role, category),
        [VText data_id; VText company_id; VText role; VText category; VText DISCOGS_SOURCE]) <$> company_rows) in
  let edges := _put edges "track_credited_on"
    (_unique ((λ '(track_ordinal, sub_track_ordinal, position, name, role, _),
        [VText name; VText data_id; VInt track_ordinal; VInt sub_track_ordinal; opt_text position; VText role])
        <$> track_credits)) in
  _put edges "track_by_artist"
    (_unique ((λ '(track_ordinal, sub_track_ordinal, position, artist_id),
        [VText data_id; VInt track_ordinal; VInt sub_track_ordinal; opt_text position; VText artist_id])
        <$> track_performers)).

Definition derive_release (data_id : string) (data : dict) : DocumentGraph :=
  {| vertices := release_vertices data; edges := release_edges data_id data;
     replaced := release_replaced (jget "companies" data) |}.

Definition derive_document (data_type data_id : string) (data : dict) : DocumentGraph :=
  if bool_decide (data_type = "artists") then derive_artist data_id data
  else if bool_decide (data_type = "masters") then derive_master data_id data
  else if bool_decide (data_type = "releases") then derive_release data_id data
  else empty_graph.
End derivation.

(** ** Entity ids *)

Lemma entity_id_text s :
  _entity_id (JStr s) =
    if bool_decide (py_strip s = "") || bool_decide (py_strip s = "0") then None
    else Some (py_strip s).
Proof. reflexivity. Qed.

Lemma entity_id_clean v t : _entity_id v = Some t → t ≠ "" ∧ t ≠ "0".
Proof.
  destruct v; simpl; try done;
    (destruct (bool_decide _) eqn:E1; [done|]; destruct (bool_decide _) eqn:E2 in |- *; [done|]);
    intros [= <-]; by rewrite bool_decide_eq_false in E1, E2.
Qed.

(** An entity reference is usable exactly when it names an entity: only a number or a
    text is an id, the number zero, the text [0] and a blank text are dropped, a [bool] is
    never an id, and the numeric and the textual spelling of one id derive the same key,
    so a dump and an API payload reach the same rows. *)
Theorem entity_id_usable v :
  (∀ t, _entity_id v = Some t →
     t ≠ "" ∧ t ≠ "0" ∧
     ((∃ z, v = JInt z ∧ z ≠ 0 ∧ t = py_str_int z) ∨ (∃ s, v = JStr s ∧ t = py_strip s))) ∧
  (∀ z, v = JInt z → _entity_id v = _entity_id (JStr (py_str_int z))) ∧
  (∀ z, v = JInt z → _entity_id v = None ↔ z = 0).
Proof.
  assert (∀ z, _entity_id (JInt z) = _entity_id (JStr (py_str_int z))) as Hint.
  { intros z. rewrite entity_id_text, py_strip_str_int. reflexivity. }
  assert (∀ z, _entity_id (JInt z) = None ↔ z = 0) as Hz.
  { intros z. simpl. split; [|by intros ->].
    destruct (bool_decide (py_str_int z = "")) eqn:E1; simpl.
    - apply bool_decide_eq_true in E1. by destruct (py_str_int_ne_empty z).
    - destruct (bool_decide (py_str_int z = NO_ENTITY_ID)) eqn:E2; [|done].
      apply bool_decide_eq_true in E2. intros _. by apply py_str_int_inj. }
  split_and!.
  - intros t Ht. destruct (entity_id_clean _ _ Ht) as [Hne H0]. split_and!; [done..|].
    destruct v as [| |z| |s| |]; try done.
    + left. exists z. split_and!; [done| |].
      * intros ->. by rewrite (proj2 (Hz 0) eq_refl) in Ht.
      * simpl in Ht. by destruct (_ || _); simplify_eq.
    + right. exists s. split; [done|]. rewrite entity_id_text in Ht.
      by destruct (_ || _); simplify_eq.
  - intros z ->. apply Hint.
  - intros z ->. apply Hz.
Qed.

(** ** Rows recorded by [_put] *)

Lemma put_lookup target r rows r' :
  _put target r rows !! r' =
    match rows with [] => target !! r' | _ => if decide (r = r') then Some rows else target !! r' end.
Proof. destruct rows; simpl; [done|]. by rewrite lookup_insert. Qed.

(** The rows a graph holds for a relation; none when it says nothing about it. *)
Definition rows_of (m : gmap string (list row)) (r : string) : list row := default [] (m !! r).

Lemma rows_of_put_ne target r rows r' : r ≠ r' → rows_of (_put target r rows) r' = rows_of target r'.
Proof. unfold rows_of. intros Hr. rewrite put_lookup. destruct rows; [done|]. by rewrite decide_False. Qed.

Lemma rows_of_put_eq target r rows : rows_of target r = [] → rows_of (_put target r rows) r = rows.
Proof. unfold rows_of. intros Hr. rewrite put_lookup. destruct rows; [done|]. by rewrite decide_True. Qed.

Lemma rows_of_empty r : rows_of ∅ r = [].
Proof. unfold rows_of. by rewrite lookup_empty. Qed.

(** Evaluate [rows_of] of a chain of [_put]s at a literal relation name. *)
Ltac solve_rows_of :=
  lazymatch goal with
  | |- rows_of ∅ _ = _ => apply rows_of_empty
  | |- rows_of (_put _ ?r _) ?r = _ => rewrite (rows_of_put_eq _ r); [reflexivity|solve_rows_of]
  | |- rows_of (_put _ ?r _) ?r' = _ => rewrite (rows_of_put_ne _ r _ r' ltac:(discriminate)); solve_rows_of
  end.

Lemma put_Forall (P : string → list row → Prop) target r rows :
  map_Forall P target → (rows ≠ [] → P r rows) → map_Forall P (_put target r rows).
Proof.
  intros Ht Hr. destruct rows as [|x rows]; simpl; [done|].
  apply map_Forall_insert_2; [by apply Hr|done].
Qed.

Lemma rows_of_elem m r x : x ∈ rows_of m r ↔ ∃ rows, m !! r = Some rows ∧ x ∈ rows.
Proof. unfold rows_of. destruct (m !! r); simpl; set_solver. Qed.

#[export] Hint Resolve map_Forall_empty : loader.

Lemma element_ids_spec v t :
  t ∈ _element_ids v ↔ ∃ d, d ∈ _elements v ∧ _entity_id (jget "id" d) = Some t.
Proof. unfold _element_ids. rewrite elem_of_unique, list_elem_of_omap. naive_solver. Qed.

Lemma element_ids_clean v t : t ∈ _element_ids v → t ≠ "" ∧ t ≠ "0".
Proof. rewrite element_ids_spec. intros (d & _ & Hd). by eapply entity_id_clean. Qed.

Lemma tag_names_nonempty v t : t ∈ _tag_names v → t ≠ "".
Proof.
  destruct v as [| | | | |l|]; simpl; try set_solver.
  rewrite elem_of_unique, list_elem_of_omap. intros (x & _ & Hx).
  destruct x; try done. case_bool_decide; by simplify_eq.
Qed.

Lemma NoDup_element_ids v : NoDup (_element_ids v).
Proof. apply NoDup_unique. Qed.

Lemma NoDup_tag_names v : NoDup (_tag_names v).
Proof. destruct v; simpl; try apply NoDup_nil_2. apply NoDup_unique. Qed.

#[export] Hint Resolve NoDup_element_ids NoDup_tag_names : loader.

(** ** Artists *)

Lemma artist_rows `{CommonRuntime} data_id data :
  rows_of (edges (derive_artist data_id data)) "member_of" =
    unique (((λ m, [VText m; VText data_id]) <$> _element_ids (jget "members" data))
            ++ ((λ g, [VText data_id; VText g]) <$> _element_ids (jget "groups" data))) ∧
  rows_of (edges (derive_artist data_id data)) "alias_of" =
    unique ((λ a, [VText a; VText data_id]) <$> _element_ids (jget "aliases" data)).
Proof. unfold derive_artist; cbn [edges]. split; solve_rows_of. Qed.

Lemma member_of_rows `{CommonRuntime} data_id data m g :
  [VText m; VText g] ∈ rows_of (edges (derive_artist data_id data)) "member_of" ↔
    (g = data_id ∧ m ∈ _element_ids (jget "members" data)) ∨
    (m = data_id ∧ g ∈ _element_ids (jget "groups" data)).
Proof.
  rewrite (proj1 (artist_rows data_id data)), elem_of_unique, elem_of_app, !list_elem_of_fmap.
  naive_solver.
Qed.

(** Band membership is one directed relation however it is stated: a document asserts
    [member_of(m, g)] exactly when it is the group and lists the member or is the member
    and lists the group, so when both ends state the same membership their two documents
    derive the same row; each document lists a row once, and [alias_of] rows name the
    document itself as the aliased artist. *)
Theorem member_of_reciprocal `{CommonRuntime} data_id data :
  NoDup (rows_of (edges (derive_artist data_id data)) "member_of") ∧
  (∀ m g, [VText m; VText g] ∈ rows_of (edges (derive_artist data_id data)) "member_of" ↔
     (g = data_id ∧ m ∈ _element_ids (jget "members" data)) ∨
     (m = data_id ∧ g ∈ _element_ids (jget "groups" data))) ∧
  (∀ other_id other,
     other_id ∈ _element_ids (jget "members" data) →
     data_id ∈ _element_ids (jget "groups" other) →
     [VText other_id; VText data_id] ∈ rows_of (edges (derive_artist data_id data)) "member_of" ∧
     [VText other_id; VText data_id] ∈ rows_of (edges (derive_artist other_id other)) "member_of") ∧
  (∀ r, r ∈ rows_of (edges (derive_artist data_id data)) "alias_of" →
     ∃ a, r = [VText a; VText data_id] ∧ a ∈ _element_ids (jget "aliases" data)).
Proof.
  split_and!.
  - rewrite (proj1 (artist_rows data_id data)). apply NoDup_unique.
  - intros m g. apply member_of_rows.
  - intros other_id other Hm Hg. rewrite !member_of_rows. auto.
  - intros r. rewrite (proj2 (artist_rows data_id data)), elem_of_unique, list_elem_of_fmap.
    naive_solver.
Qed.

(** ** Tracks *)

Lemma elem_of_enumerate1 {A} (l : list A) i x :
  (i, x) ∈ enumerate1 l ↔ 1 ≤ i ∧ l !! Z.to_nat (i - 1) = Some x.
Proof.
  unfold enumerate1. rewrite elem_of_lookup_imap. split.
  - intros (j & y & Heq & Hl). simplify_eq.
    split; [lia|]. by replace (Z.to_nat (Z.of_nat j + 1 - 1)) with j by lia.
  - intros [Hi Hl]. exists (Z.to_nat (i - 1)), x. split; [|done]. f_equal. lia.
Qed.

Section tracks.
Context `{CommonRuntime}.

(** The ordinal-keyed tracks and sub-tracks of a track list: ordinal 0 is the track. *)
Definition track_at (tracklist : json) (i j : Z) (d : dict) : Prop :=
  ∃ track, (i, JObj track) ∈ enumerate1 (_xmltodict_array tracklist "track") ∧
    ((j = 0 ∧ d = track) ∨
     (j, JObj d) ∈ enumerate1 (_xmltodict_array (jget "sub_tracks" track) "track")).

Lemma track_credits_spec tracklist i j pos name role artist_id :
  (i, j, pos, name, role, artist_id) ∈ _track_credits tracklist ↔
  ∃ d, track_at tracklist i j d ∧ pos = _track_position d ∧
    (name, role, artist_id) ∈ _credits (JList (_xmltodict_array (jget "extraartists" d) "artist")).
Proof.
  unfold _track_credits, track_at. rewrite list_elem_of_bind. split.
  - intros ([i' v] & Hin & Hv). destruct v as [| | | | | |track]; try by apply elem_of_nil in Hin.
    rewrite elem_of_app, list_elem_of_fmap, list_elem_of_bind in Hin.
    destruct Hin as [([[n r] a] & Heq & Hc)|([j' w] & Hin & Hw)].
    + simplify_eq. exists track. split_and!; [|done|done]. exists track. auto.
    + destruct w as [| | | | | |sub]; try by apply elem_of_nil in Hin.
      apply list_elem_of_fmap in Hin as ([[n r] a] & Heq & Hc). simplify_eq.
      exists sub. split_and!; [|done|done]. exists track. auto.
  - intros (d & (track & Ht & Hd) & -> & Hc). exists (i, JObj track). split; [|done].
    rewrite elem_of_app. destruct Hd as [[-> ->]|Hd]; [left|right].
    + apply list_elem_of_fmap. by exists (name, role, artist_id).
    + apply list_elem_of_bind. exists (j, JObj d). split; [|done].
      apply list_elem_of_fmap. by exists (name, role, artist_id).
Qed.

Lemma track_performers_spec tracklist i j pos artist_id :
  (i, j, pos, artist_id) ∈ _track_performers tracklist ↔
  ∃ d, track_at tracklist i j d ∧ pos = _track_position d ∧
    artist_id ∈ _element_ids (JList (_xmltodict_array (jget "artists" d) "artist")).
Proof.
  unfold _track_performers, track_at. rewrite list_elem_of_bind. split.
  - intros ([i' v] & Hin & Hv). destruct v as [| | | | | |track]; try by apply elem_of_nil in Hin.
    rewrite elem_of_app, list_elem_of_fmap, list_elem_of_bind in Hin.
    destruct Hin as [(a & Heq & Hc)|([j' w] & Hin & Hw)].
    + simplify_eq. exists track. split_and!; [|done|done]. exists track. auto.
    + destruct w as [| | | | | |sub]; try by apply elem_of_nil in Hin.
      apply list_elem_of_fmap in Hin as (a & Heq & Hc). simplify_eq.
      exists sub. split_and!; [|done|done]. exists track. auto.
  - intros (d & (track & Ht & Hd) & -> & Hc). exists (i, JObj track). split; [|done].
    rewrite elem_of_app. destruct Hd as [[-> ->]|Hd]; [left|right].
    + apply list_elem_of_fmap. by exists artist_id.
    + apply list_elem_of_bind. exists (j, JObj d). split; [|done].
      apply list_elem_of_fmap. by exists artist_id.
Qed.

Lemma track_at_ordinals tracklist i j d :
  track_at tracklist i j d →
  1 ≤ i ≤ Z.of_nat (length (_xmltodict_array tracklist "track")) ∧ 0 ≤ j.
Proof.
  intros (track & [Hi Hl]%elem_of_enumerate1 & Hd). apply lookup_lt_Some in Hl.
  split; [lia|]. destruct Hd as [[-> _]|[Hj _]%elem_of_enumerate1]; lia.
Qed.

Lemma track_at_functional tracklist i j d1 d2 :
  track_at tracklist i j d1 → track_at tracklist i j d2 → d1 = d2.
Proof.
  intros (t1 & [Hi1 Hl1]%elem_of_enumerate1 & H1) (t2 & [Hi2 Hl2]%elem_of_enumerate1 & H2).
  simplify_eq.
  destruct H1 as [[-> ->]|[Hj1 Hs1]%elem_of_enumerate1],
    H2 as [[? ->]|[Hj2 Hs2]%elem_of_enumerate1]; simplify_eq; try lia; done.
Qed.

(** Track rows are keyed by position, not by the dump's label: a credit or performer
    row carries the 1-based ordinal of an object track, sub-track ordinal 0 exactly for
    the track itself, and one ordinal pair names one track, so credits of two different
    tracks can never share a key however empty or repeated their [position] labels are.
    The normalized list and the raw xmltodict wrapper of one track list derive the same
    credits and performers, a single wrapped track included. *)
Theorem track_rows_keyed_by_ordinal tracklist :
  (∀ i j pos name role a, (i, j, pos, name, role, a) ∈ _track_credits tracklist →
     ∃ d, track_at tracklist i j d ∧ pos = _track_position d ∧
       1 ≤ i ≤ Z.of_nat (length (_xmltodict_array tracklist "track")) ∧ 0 ≤ j) ∧
  (∀ i j pos a, (i, j, pos, a) ∈ _track_performers tracklist →
     ∃ d, track_at tracklist i j d ∧ pos = _track_position d) ∧
  (∀ i j d1 d2, track_at tracklist i j d1 → track_at tracklist i j d2 → d1 = d2) ∧
  (∀ l, _track_credits (JObj [("track", JList l)]) = _track_credits (JList l) ∧
        _track_performers (JObj [("track", JList l)]) = _track_performers (JList l)) ∧
  (∀ d, _track_credits (JObj [("track", JObj d)]) = _track_credits (JList [JObj d]) ∧
        _track_performers (JObj [("track", JObj d)]) = _track_performers (JList [JObj d])).
Proof.
  split_and!; try done.
  - intros i j pos name role a (d & Hat & Hpos & _)%track_credits_spec.
    destruct (track_at_ordinals _ _ _ _ Hat). eauto.
  - intros i j pos a (d & Hat & Hpos & _)%track_performers_spec. eauto.
  - apply track_at_functional.
Qed.
End tracks.

(** ** Media items *)

Section media_rows.
Context `{CommonRuntime}.

(** The usable medium of an item: both names present and non-empty. *)
Definition item_medium (item : dict) : option (string * string) :=
  match jget "medium" item, jget "family" item with
  | JStr medium, JStr family =>
      if bool_decide (medium = "") || bool_decide (family = "") then None else Some (medium, family)
  | _, _ => None
  end.

(** Reference definition: total quantity of a medium over a list of items. *)
Fixpoint medium_total (medium : string) (items : list dict) : Z :=
  match items with
  | [] => 0
  | item :: items =>
      match item_medium item with
      | Some (m, _) => if decide (m = medium) then _quantity item + medium_total medium items
                       else medium_total medium items
      | None => medium_total medium items
      end
  end.

Fixpoint first_family (medium : string) (items : list dict) : option string :=
  match items with
  | [] => None
  | item :: items =>
      match item_medium item with
      | Some (m, f) => if decide (m = medium) then Some f else first_family medium items
      | None => first_family medium items
      end
  end.

Lemma quantity_positive item : 1 <= _quantity item.
Proof. unfold _quantity. destruct (jget "qty" item); try lia. destruct (Z.ltb_spec z 1); lia. Qed.

Lemma media_step_unfold acc item :
  media_step acc item =
    match item_medium item with
    | None => acc
    | Some (m, f) =>
        {| order := match resolved acc !! m with Some _ => order acc | None => order acc ++ [m] end;
           resolved := match resolved acc !! m with Some _ => resolved acc
                       | None => <[m := (f, _medium_label m)]> (resolved acc) end;
           quantities := <[m := match resolved acc !! m with
                                | Some _ => default 0 (quantities acc !! m)
                                | None => 0 end + _quantity item]>
               (match resolved acc !! m with Some _ => quantities acc
                | None => <[m := 0]> (quantities acc) end) |}
    end.
Proof.
  unfold media_step, item_medium.
  destruct (jget "medium" item); try done. destruct (jget "family" item); try done.
  destruct (_ || _); [done|]. destruct (resolved acc !! s); simpl; [done|].
  by rewrite lookup_insert_eq.
Qed.

(** Loop invariant of [_media_rows] after the items [seen]. *)
Record media_inv (seen : list dict) (acc : media_acc) : Prop := {
  mi_nodup : NoDup (order acc);
  mi_order : ∀ m, m ∈ order acc ↔ is_Some (resolved acc !! m);
  mi_first : ∀ m, resolved acc !! m = (λ f, (f, _medium_label m)) <$> first_family m seen;
  mi_total : ∀ m, is_Some (resolved acc !! m) → quantities acc !! m = Some (medium_total m seen);
}.

Lemma medium_total_app m l1 l2 : medium_total m (l1 ++ l2) = medium_total m l1 + medium_total m l2.
Proof.
  induction l1 as [|i l1 IH]; simpl; [done|].
  destruct (item_medium i) as [[m' f]|]; [case_decide|]; lia.
Qed.

Lemma first_family_app m l1 l2 :
  first_family m (l1 ++ l2) =
    match first_family m l1 with Some f => Some f | None => first_family m l2 end.
Proof.
  induction l1 as [|i l1 IH]; simpl; [done|].
  destruct (item_medium i) as [[m' f]|]; [by case_decide|done].
Qed.

Lemma medium_total_unseen m l : first_family m l = None → medium_total m l = 0.
Proof.
  induction l as [|i l IH]; simpl; [done|].
  destruct (item_medium i) as [[m' f]|]; [case_decide|]; auto; done.
Qed.

Lemma medium_total_positive m l f : first_family m l = Some f → 1 <= medium_total m l.
Proof.
  assert (∀ l, 0 <= medium_total m l) as Hnn.
  { intros l'. induction l' as [|i l' IH]; simpl; [lia|].
    pose proof (quantity_positive i).
    destruct (item_medium i) as [[m' f']|]; [case_decide|]; lia. }
  induction l as [|i l IH]; simpl; [done|].
  pose proof (quantity_positive i). pose proof (Hnn l).
  destruct (item_medium i) as [[m' f']|]; [case_decide|]; intros; try lia; auto.
Qed.

Lemma media_inv_step seen acc item :
  media_inv seen acc → media_inv (seen ++ [item]) (media_step acc item).
Proof.
  intros [Hnd Hord Hfirst Htot]. rewrite media_step_unfold.
  destruct (item_medium item) as [[m f]|] eqn:Ei.
  - pose proof (Hfirst m) as Hm.
    destruct (resolved acc !! m) as [p|] eqn:Er; constructor; simpl.
    + done.
    + done.
    + intros m'. rewrite first_family_app, Hfirst. simpl. rewrite Ei.
      destruct (first_family m' seen) eqn:E; [done|]. case_decide; [|done].
      subst. rewrite E in Hm. done.
    + intros m' Hm'. rewrite medium_total_app. simpl. rewrite Ei, lookup_insert.
      case_decide; subst; rewrite ?decide_True, ?decide_False by done.
      * rewrite (Htot m') by (by rewrite Er). simpl. f_equal. lia.
      * rewrite (Htot m') by done. f_equal. lia.
    + apply NoDup_app. split_and!; [done| |apply NoDup_singleton].
      intros x Hx ->%list_elem_of_singleton. apply Hord in Hx. rewrite Er in Hx. by destruct Hx.
    + intros m'. rewrite elem_of_app, list_elem_of_singleton, Hord, lookup_insert.
      case_decide; subst; [split; eauto|]. naive_solver.
    + symmetry in Hm. apply fmap_None in Hm.
      intros m'. rewrite first_family_app, lookup_insert. simpl. rewrite Ei.
      case_decide; subst; [by rewrite Hm|].
      rewrite Hfirst. by destruct (first_family m' seen).
    + symmetry in Hm. apply fmap_None in Hm.
      intros m'. rewrite medium_total_app. simpl. rewrite Ei, !lookup_insert.
      case_decide; subst; rewrite ?decide_True, ?decide_False by done.
      * intros _. rewrite (medium_total_unseen m' seen) by done. f_equal. lia.
      * intros Hm'. rewrite (Htot m') by done. f_equal. lia.
  - constructor; [done..| |].
    + intros m. rewrite first_family_app, Hfirst. simpl. rewrite Ei. by destruct (first_family m seen).
    + intros m Hm. rewrite medium_total_app, (Htot m Hm). simpl. rewrite Ei. f_equal. lia.
Qed.

Lemma media_inv_foldl items seen acc :
  media_inv seen acc → media_inv (seen ++ items) (foldl media_step acc items).
Proof.
  revert seen acc. induction items as [|i items IH]; intros seen acc Hinv; simpl.
  - by rewrite app_nil_r.
  - rewrite (app_assoc seen [i] items : seen ++ i :: items = _). apply IH, media_inv_step, Hinv.
Qed.

Lemma media_inv_init : media_inv [] {| order := []; resolved := ∅; quantities := ∅ |}.
Proof.
  constructor; simpl; [apply NoDup_nil_2| | |].
  - intros m. rewrite lookup_empty. split; [set_solver|by intros []].
  - intros m. by rewrite lookup_empty.
  - intros m. rewrite lookup_empty. by intros [].
Qed.

(** One row per distinct medium: the media rows of a block have distinct mediums, each
    row's quantity is the sum of the quantities of all the block's items of that medium
    (a 2xLP split over two entries is one row of two) and at least one, its family is
    the one the first such item states, and a medium has a row exactly when some usable
    item names it. *)
Theorem media_rows_totals block :
  let items := _elements (jget "items" block) in
  NoDup ((λ '(m, _, _, _), m) <$> _media_rows block) ∧
  (∀ m family label qty, (m, family, label, qty) ∈ _media_rows block →
     qty = medium_total m items ∧ 1 <= qty ∧
     first_family m items = Some family ∧ label = _medium_label m) ∧
  (∀ m family, first_family m items = Some family →
     (m, family, _medium_label m, medium_total m items) ∈ _media_rows block).
Proof.
  intros items. unfold _media_rows. fold items.
  pose proof (media_inv_foldl items [] _ media_inv_init) as [Hnd Hord Hfirst Htot].
  simpl in *. set (acc := foldl media_step _ items) in *.
  assert (∀ m, m ∈ order acc → ∃ f, first_family m items = Some f ∧
    resolved acc !! m = Some (f, _medium_label m) ∧ quantities acc !! m = Some (medium_total m items))
    as Hrow.
  { intros m Hm%Hord. pose proof (Htot m Hm) as Hq. destruct Hm as [p Hp].
    rewrite Hfirst in Hp. destruct (first_family m items) as [f|] eqn:E; simplify_eq/=.
    exists f. split_and!; [done| |done]. by rewrite Hfirst, E. }
  split_and!.
  - rewrite <-list_fmap_compose.
    erewrite list_fmap_ext; [rewrite list_fmap_id; exact Hnd|].
    intros i m Hm. simpl. by destruct (default _ _).
  - intros m family label qty Hin. apply list_elem_of_fmap in Hin as (m' & Heq & Hm').
    destruct (Hrow m' Hm') as (f & Hf & Hr & Hq). rewrite Hr, Hq in Heq. simplify_eq/=.
    split_and!; [done| |done|done]. by eapply medium_total_positive.
  - intros m family Hf. apply list_elem_of_fmap.
    assert (m ∈ order acc) as Hm by (apply Hord; rewrite Hfirst, Hf; by eexists).
    exists m. split; [|done]. destruct (Hrow m Hm) as (f & Hf' & Hr & Hq). rewrite Hr, Hq.
    simpl. by simplify_eq.
Qed.
End media_rows.

Lemma media_rows_totals_witness :
  let vinyl := JObj [("medium", JStr "vinyl"); ("family", JStr "record")] in
  let cd := JObj [("medium", JStr "cd"); ("family", JStr "disc"); ("qty", JInt 3)] in
  let block := [("items", JList [vinyl; cd; vinyl])] in
  _media_rows block = [("vinyl", "record", "vinyl", 2); ("cd", "disc", "cd", 3)] ∧
  1 <= 2.
Proof.
  split; [vm_compute; reflexivity|].
  refine (proj1 (proj2 (proj1 (proj2 (media_rows_totals
    [("items", JList [JObj [("medium", JStr "vinyl"); ("family", JStr "record")];
      JObj [("medium", JStr "cd"); ("family", JStr "disc"); ("qty", JInt 3)];
      JObj [("medium", JStr "vinyl"); ("family", JStr "record")]])])) "vinyl" "record" "vinyl" 2 _))).
  decide_now.
Defined.

(** ** Companies *)

Section companies.
Context `{CommonRuntime}.

(** What one entry of a companies block credits: key and row. *)
Definition item_credit (item : dict) : option ((string * string) * (string * string * string * string)) :=
  match _text (jget "role" item), company_identity item with
  | Some role, Some company_id =>
      Some ((company_id, role),
            (company_id, default company_id (_text (jget "name" item)), role,
             default UNMAPPED_ROLE_CATEGORY (_text (jget "role_category" item))))
  | _, _ => None
  end.

Fixpoint first_credit (key : string * string) (items : list dict)
    : option (string * string * string * string) :=
  match items with
  | [] => None
  | item :: items =>
      match item_credit item with
      | Some (k, r) => if decide (key = k) then Some r else first_credit key items
      | None => first_credit key items
      end
  end.

Lemma company_step_credit rows item :
  company_step rows item =
    match item_credit item with Some (k, r) => od_setdefault k r rows | None => rows end.
Proof. unfold company_step, item_credit. by destruct (_text (jget "role" item)), (company_identity item). Qed.

Lemma company_foldl items rows key :
  NoDup rows.*1 →
  NoDup (foldl company_step rows items).*1 ∧
  od_get key (foldl company_step rows items) =
    match od_get key rows with Some r => Some r | None => first_credit key items end.
Proof.
  revert rows. induction items as [|item items IH]; intros rows Hnd; simpl.
  - by destruct (od_get key rows).
  - rewrite company_step_credit. destruct (item_credit item) as [[k r]|]; [|by apply IH].
    destruct (IH (od_setdefault k r rows)) as [Hnd' Hget]; [by apply NoDup_od_setdefault|].
    split; [done|]. rewrite Hget, od_get_setdefault. by destruct (od_get key rows); [|case_decide].
Qed.

Lemma first_credit_key key items r :
  first_credit key items = Some r → ∃ item, item ∈ items ∧ item_credit item = Some (key, r).
Proof.
  induction items as [|item items IH]; simpl; [done|].
  destruct (item_credit item) as [[k r']|] eqn:E; [case_decide; subst|].
  - intros [= <-]. exists item. split; [set_solver|done].
  - intros (i & Hi & Hc)%IH. exists i. set_solver.
  - intros (i & Hi & Hc)%IH. exists i. set_solver.
Qed.

Lemma company_foldl_rows items key r :
  (key, r) ∈ foldl company_step [] items ↔ first_credit key items = Some r.
Proof.
  destruct (company_foldl items [] key) as [Hnd Hget]; [apply NoDup_nil_2|].
  simpl in Hget. rewrite <-Hget. split; [by apply od_get_elem|apply od_get_Some_elem].
Qed.

Lemma company_rows_spec block r :
  r ∈ _company_rows block ↔
  ∃ key, first_credit key (_elements (jget "items" block)) = Some r.
Proof.
  unfold _company_rows. rewrite list_elem_of_fmap. split.
  - intros ([key r'] & -> & Hin). exists key. by apply company_foldl_rows.
  - intros [key Hkey]. exists (key, r). split; [done|]. by apply company_foldl_rows.
Qed.

Lemma company_row_key block company_id name role category :
  (company_id, name, role, category) ∈ _company_rows block →
  first_credit (company_id, role) (_elements (jget "items" block)) = Some (company_id, name, role, category).
Proof.
  rewrite company_rows_spec. intros [key Hkey].
  pose proof (first_credit_key _ _ _ Hkey) as (item & _ & Hc).
  unfold item_credit in Hc. by destruct (_text (jget "role" item)), (company_identity item); simplify_eq/=.
Qed.

(** Company credits are keyed by (company, role), first mention wins: the credited rows
    have distinct keys, each is the row of the first entry of the block that states a
    usable identity and role for that key, every usable entry's key is credited, and an
    entry with no role or no identity credits nothing. *)
Theorem company_rows_first_wins block :
  let items := _elements (jget "items" block) in
  NoDup ((λ '(company_id, _, role, _), (company_id, role)) <$> _company_rows block) ∧
  (∀ company_id name role category,
     (company_id, name, role, category) ∈ _company_rows block ↔
     first_credit (company_id, role) items = Some (company_id, name, role, category)) ∧
  (∀ item, item ∈ items → _text (jget "role" item) = None ∨ company_identity item = None →
     item_credit item = None).
Proof.
  intros items. split_and!.
  - unfold _company_rows. fold items.
    destruct (company_foldl items [] ("", "")) as [Hnd _]; [apply NoDup_nil_2|].
    replace ((λ '(company_id, _, role, _), (company_id, role)) <$> (foldl company_step [] items).*2)
      with ((foldl company_step [] items).*1); [done|].
    rewrite <-list_fmap_compose. apply list_fmap_ext. intros i [key r] Hi. simpl.
    assert ((key, r) ∈ foldl company_step [] items) as Hin by (apply list_elem_of_lookup; eauto).
    rewrite company_foldl_rows in Hin. apply first_credit_key in Hin as (item & _ & Hc).
    unfold item_credit in Hc. by destruct (_text (jget "role" item)), (company_identity item); simplify_eq/=.
  - intros company_id name role category. split; [apply company_row_key|].
    intros Hf. apply company_rows_spec. eauto.
  - intros item _ [Hn|Hn]; unfold item_credit; rewrite Hn; [done|by destruct (_text (jget "role" item))].
Qed.

Lemma discogs_id_digits v id : _discogs_id v = Some id → all_digits id = true ∧ 1 <= digits_value id.
Proof.
  destruct v; simpl; try done.
  - destruct (Z.leb_spec 1 z); [|done]. intros [= <-].
    split; [by apply py_str_int_all_digits; lia|]. rewrite digits_value_str_int by lia. lia.
  - destruct (_ && _) eqn:E; [|done]. intros [= <-].
    apply andb_true_iff in E as [? ?%Z.leb_le]. auto.
Qed.

(** A company vertex carries a Discogs label id exactly when its identity is one: the
    identity is either an all-digit Discogs id of at least one, which is then published as
    the label id, or [name:] followed by the folded name, which never is; and a numeric
    and a textual spelling of the same Discogs id give one identity. *)
Theorem company_identity_kinds item id :
  company_identity item = Some id →
  (_discogs_id (jget "discogs_id" item) = Some id ∧ all_digits id = true ∧ 1 <= digits_value id ∧
   _discogs_label_id id = Some id) ∨
  (_discogs_id (jget "discogs_id" item) = None ∧ _discogs_label_id id = None ∧
   ∃ name, _text (jget "name" item) = Some name ∧
     id = "name:" +:+ casefold (py_join " " (py_split name))).
Proof.
  unfold company_identity. destruct (_discogs_id (jget "discogs_id" item)) eqn:E.
  - intros [= <-]. left. destruct (discogs_id_digits _ _ E) as [Hd Hv].
    split_and!; [done..|]. unfold _discogs_label_id. by rewrite Hd.
  - destruct (_text (jget "name" item)) as [name|]; [|done]. intros [= <-].
    right. split_and!; [done|done|]. by exists name.
Qed.
End companies.

Lemma company_identity_kinds_witness :
  company_identity [("discogs_id", JInt 12); ("name", JStr "Acme")] = Some "12" ∧
  company_identity [("discogs_id", JStr " 12 "); ("name", JStr "Acme")] = Some "12" ∧
  company_identity [("discogs_id", JInt 0); ("name", JStr " Acme  Records")] = Some "name:Acme Records" ∧
  ((_discogs_id (JInt 0) = Some "name:Acme Records" ∧ all_digits "name:Acme Records" = true ∧
    1 <= digits_value "name:Acme Records" ∧ _discogs_label_id "name:Acme Records" = Some "name:Acme Records") ∨
   (_discogs_id (JInt 0) = None ∧ _discogs_label_id "name:Acme Records" = None ∧
    ∃ name, Some " Acme  Records" = Some name ∧ True)).
Proof.
  split_and!; [vm_compute; reflexivity..|].
  destruct (company_identity_kinds (H:=sample_runtime) [("discogs_id", JInt 0); ("name", JStr " Acme  Records")]
    "name:Acme Records" ltac:(vm_compute; reflexivity)) as [(H1 & _)|(H1 & H2 & _)].
  - discriminate H1.
  - right. split; [exact H1|]. split; [exact H2|]. eexists. split; [reflexivity|exact I].
Defined.

(** ** The rows of each kind of document, relation by relation *)

Section rows.
Context `{CommonRuntime}.

Lemma master_vertex_rows data_id data :
  let vs := vertices (derive_master data_id data) in
  rows_of vs "genre" = (λ name, [VText name]) <$> _tag_names (jget "genres" data) ∧
  rows_of vs "style" = (λ name, [VText name]) <$> _tag_names (jget "styles" data) ∧
  rows_of vs "medium" = [] ∧ rows_of vs "person" = [] ∧ rows_of vs "company" = [].
Proof. unfold derive_master; cbn [vertices]; cbv zeta. split_and!; solve_rows_of. Qed.

Lemma master_edge_rows data_id data :
  let es := edges (derive_master data_id data) in
  rows_of es "master_by_artist" =
    (λ a, [VText data_id; VText a]) <$> _element_ids (jget "artists" data) ∧
  rows_of es "master_in_genre" = (λ g, [VText data_id; VText g]) <$> _tag_names (jget "genres" data) ∧
  rows_of es "master_in_style" = (λ s, [VText data_id; VText s]) <$> _tag_names (jget "styles" data).
Proof. unfold derive_master; cbn [edges]; cbv zeta. split_and!; solve_rows_of. Qed.

Lemma release_vertex_rows data :
  let vs := release_vertices data in
  rows_of vs "genre" = (λ name, [VText name]) <$> _tag_names (jget "genres" data) ∧
  rows_of vs "style" = (λ name, [VText name]) <$> _tag_names (jget "styles" data) ∧
  rows_of vs "person" =
    unique (((λ '(name, _, _), [VText name]) <$> _credits (jget "extraartists" data))
      ++ ((λ '(_, _, _, name, _, _), [VText name]) <$> _track_credits (jget "tracklist" data))) ∧
  rows_of vs "media_family" =
    unique ((λ '(_, family, _, _), [VText family]) <$> _media_rows (media_for_release data)) ∧
  rows_of vs "medium" =
    (λ '(medium, family, label, _), [VText medium; VText family; VText label])
      <$> _media_rows (media_for_release data) ∧
  rows_of vs "company" =
    (λ '(company_id, name, _, _), [VText company_id; VText name; opt_text (_discogs_label_id company_id)])
      <$> release_company_rows (jget "companies" data).
Proof. unfold release_vertices; cbv zeta. split_and!; solve_rows_of. Qed.

Lemma release_edge_rows_plain data_id data :
  let es := release_edges data_id data in
  rows_of es "by_artist" = (λ a, [VText data_id; VText a]) <$> _element_ids (jget "artists" data) ∧
  rows_of es "on_label" = (λ l, [VText data_id; VText l]) <$> _element_ids (jget "labels" data) ∧
  rows_of es "derived_from" =
    match _entity_id (jget "master_id" data) with
    | Some m => [[VText data_id; VText m]] | None => [] end ∧
  rows_of es "in_genre" = (λ g, [VText data_id; VText g]) <$> _tag_names (jget "genres" data) ∧
  rows_of es "in_style" = (λ s, [VText data_id; VText s]) <$> _tag_names (jget "styles" data) ∧
  rows_of es "member_of" = [] ∧ rows_of es "alias_of" = [].
Proof. unfold release_edges; cbv zeta. split_and!; solve_rows_of. Qed.

Lemma release_edge_rows_credits data_id data :
  let es := release_edges data_id data in
  rows_of es "credited_on" =
    unique ((λ '(name, role, _), [VText name; VText data_id; VText role])
      <$> _credits (jget "extraartists" data)) ∧
  rows_of es "same_as" =
    same_as_rows (_credits (jget "extraartists" data)) (_track_credits (jget "tracklist" data)) ∧
  rows_of es "issued_on" =
    (λ '(medium, _, _, qty), [VText data_id; VText medium; VText DISCOGS_SOURCE; VInt qty])
      <$> _media_rows (media_for_release data) ∧
  rows_of es "credited_to" =
    (λ '(company_id, _, role, category),
       [VText data_id; VText company_id; VText role; VText category; VText DISCOGS_SOURCE])
      <$> release_company_rows (jget "companies" data) ∧
  rows_of es "track_credited_on" =
    unique ((λ '(i, j, position, name, role, _),
        [VText name; VText data_id; VInt i; VInt j; opt_text position; VText role])
      <$> _track_credits (jget "tracklist" data)) ∧
  rows_of es "track_by_artist" =
    unique ((λ '(i, j, position, a), [VText data_id; VInt i; VInt j; opt_text position; VText a])
      <$> _track_performers (jget "tracklist" data)).
Proof. unfold release_edges; cbv zeta. split_and!; solve_rows_of. Qed.

Lemma same_as_rows_spec credits track_credits r :
  r ∈ same_as_rows credits track_credits ↔
  ∃ name a, r = [VText name; VText a] ∧
    ((∃ role, (name, role, Some a) ∈ credits) ∨
     (∃ i j pos role, (i, j, pos, name, role, Some a) ∈ track_credits)).
Proof.
  unfold same_as_rows, _unique. rewrite elem_of_unique, elem_of_app, !list_elem_of_omap. split.
  - intros [([[n ro] [a|]] & Hin & Heq)|([[[[[i j] p] n] ro] [a|]] & Hin & Heq)]; simplify_eq/=;
      exists n, a; (split; [done|]); eauto 10.
  - intros (name & a & -> & [(role & Hin)|(i & j & pos & role & Hin)]); [left|right];
      eexists; (split; [exact Hin|done]).
Qed.
End rows.

(** Which column of an edge relation names a vertex this loader writes. *)
Definition ENDPOINTS : list (string * nat * string) :=
  [("in_genre", 1%nat, "genre"); ("in_style", 1%nat, "style"); ("credited_on", 0%nat, "person");
   ("same_as", 0%nat, "person"); ("issued_on", 1%nat, "medium"); ("credited_to", 1%nat, "company");
   ("track_credited_on", 0%nat, "person"); ("master_in_genre", 1%nat, "genre");
   ("master_in_style", 1%nat, "style")].

Definition endpoint_present (g : DocumentGraph) (e : string * nat * string) : Prop :=
  ∀ r, r ∈ rows_of (edges g) e.1.1 →
    ∃ x v, r !! e.1.2 = Some x ∧ v ∈ rows_of (vertices g) e.2 ∧ v !! 0%nat = Some x.

Lemma endpoint_fmap {A B} (g : DocumentGraph) er i vr (f : A → row) (h : B → row)
    (la : list A) (lb : list B) :
  (∀ r, r ∈ rows_of (edges g) er → ∃ a, a ∈ la ∧ r = f a) →
  (∀ b, b ∈ lb → h b ∈ rows_of (vertices g) vr) →
  (∀ a, a ∈ la → ∃ b x, b ∈ lb ∧ f a !! i = Some x ∧ h b !! 0%nat = Some x) →
  endpoint_present g (er, i, vr).
Proof.
  intros He Hv Hab r Hr. destruct (He r Hr) as (a & Ha & ->).
  destruct (Hab a Ha) as (b & x & Hb & H1 & H2). exists x, (h b). eauto.
Qed.

Section endpoints.
Context `{CommonRuntime}.

Lemma artist_endpoints data_id data e : e ∈ ENDPOINTS → endpoint_present (derive_artist data_id data) e.
Proof.
  intros He r Hr. exfalso. revert Hr.
  assert (rows_of (edges (derive_artist data_id data)) e.1.1 = []) as ->; [|set_solver].
  unfold derive_artist; cbn [edges]; cbv zeta.
  unfold ENDPOINTS in He. rewrite !elem_of_cons, elem_of_nil in He.
  destruct_or! He; subst e; cbn [fst snd]; solve_rows_of || done.
Qed.

Lemma master_endpoints data_id data e : e ∈ ENDPOINTS → endpoint_present (derive_master data_id data) e.
Proof.
  intros He.
  destruct (master_vertex_rows data_id data) as (Vg & Vs & _).
  destruct (master_edge_rows data_id data) as (_ & Eg & Es).
  unfold ENDPOINTS in He. rewrite !elem_of_cons, elem_of_nil in He.
  destruct_or! He; subst e; try done.
  8: apply (endpoint_fmap _ _ _ _ (λ g, [VText data_id; VText g]) (λ g, [VText g])
       (_tag_names (jget "genres" data)) (_tag_names (jget "genres" data)));
     [rewrite Eg|rewrite Vg|eauto 10].
  10: apply (endpoint_fmap _ _ _ _ (λ g, [VText data_id; VText g]) (λ g, [VText g])
       (_tag_names (jget "styles" data)) (_tag_names (jget "styles" data)));
     [rewrite Es|rewrite Vs|eauto 10].
  1-7: intros r Hr; exfalso; revert Hr; unfold derive_master; cbn [edges fst snd]; cbv zeta;
    match goal with |- context [rows_of ?m ?r] => assert (rows_of m r = []) as ->;
      [solve_rows_of|set_solver] end.
  all: intros r; rewrite ?list_elem_of_fmap; naive_solver.
Qed.

Lemma release_endpoints data_id data e : e ∈ ENDPOINTS → endpoint_present (derive_release data_id data) e.
Proof.
  intros He.
  destruct (release_vertex_rows data) as (Vg & Vs & Vp & _ & Vm & Vc).
  destruct (release_edge_rows_plain data_id data) as (_ & _ & _ & Eg & Es & _).
  destruct (release_edge_rows_credits data_id data) as (Ec & Esa & Ei & Ect & Etc & _).
  unfold ENDPOINTS in He. rewrite !elem_of_cons, elem_of_nil in He.
  destruct_or! He; subst e; try done; intros r; cbn [fst snd edges vertices derive_release].
  - rewrite Eg, Vg, list_elem_of_fmap. intros (g & -> & Hg).
    exists (VText g), [VText g]. rewrite list_elem_of_fmap. eauto.
  - rewrite Es, Vs, list_elem_of_fmap. intros (g & -> & Hg).
    exists (VText g), [VText g]. rewrite list_elem_of_fmap. eauto.
  - rewrite Ec, Vp, !elem_of_unique, list_elem_of_fmap. intros ([[n ro] a] & -> & Hin).
    exists (VText n), [VText n]. rewrite elem_of_unique, elem_of_app, !list_elem_of_fmap.
    split_and!; [done|left; by exists (n, ro, a)|done].
  - rewrite Esa, Vp, same_as_rows_spec.
    intros (n & a & -> & Hin). exists (VText n), [VText n].
    rewrite elem_of_unique, elem_of_app, !list_elem_of_fmap. split_and!; [done| |done].
    destruct Hin as [(ro & Hin)|(i & j & p & ro & Hin)]; [left|right].
    + by exists (n, ro, Some a).
    + by exists (i, j, p, n, ro, Some a).
  - rewrite Ei, Vm, list_elem_of_fmap. intros ([[[m f] l] q] & -> & Hin).
    exists (VText m), [VText m; VText f; VText l]. rewrite list_elem_of_fmap.
    split_and!; [done|by exists (m, f, l, q)|done].
  - rewrite Ect, Vc, list_elem_of_fmap. intros ([[[c n] ro] cat] & -> & Hin).
    exists (VText c), [VText c; VText n; opt_text (_discogs_label_id c)]. rewrite list_elem_of_fmap.
    split_and!; [done|by exists (c, n, ro, cat)|done].
  - rewrite Etc, Vp, !elem_of_unique, list_elem_of_fmap. intros ([[[[[i j] p] n] ro] a] & -> & Hin).
    exists (VText n), [VText n]. rewrite elem_of_unique, elem_of_app, !list_elem_of_fmap.
    split_and!; [done|right; by exists (i, j, p, n, ro, a)|done].
  - unfold release_edges; cbv zeta.
    match goal with |- context [rows_of ?m ?r] => assert (rows_of m r = []) as ->;
      [solve_rows_of|set_solver] end.
  - unfold release_edges; cbv zeta.
    match goal with |- context [rows_of ?m ?r] => assert (rows_of m r = []) as ->;
      [solve_rows_of|set_solver] end.
Qed.

Lemma empty_graph_rows r : rows_of (edges empty_graph) r = [] ∧ rows_of (vertices empty_graph) r = [].
Proof. split; apply rows_of_empty. Qed.

Lemma derive_document_cases data_type data_id data (P : DocumentGraph → Prop) :
  P (derive_artist data_id data) → P (derive_master data_id data) →
  P (derive_release data_id data) → P empty_graph → P (derive_document data_type data_id data).
Proof. intros. unfold derive_document. repeat case_match; done. Qed.

(** No dangling endpoint: for every document of every type, each derived edge row that
    names a genre, style, person, medium or company finds that vertex among the vertex
    rows the same document derives, and each medium's family is there too.  So an edge
    written with its document's vertices is never dropped by the views that inner join
    the vertex tables. *)
Theorem derived_endpoints_present data_type data_id data :
  (∀ e, e ∈ ENDPOINTS → endpoint_present (derive_document data_type data_id data) e) ∧
  (∀ m f l, [VText m; VText f; VText l] ∈ rows_of (vertices (derive_document data_type data_id data)) "medium" →
     [VText f] ∈ rows_of (vertices (derive_document data_type data_id data)) "media_family").
Proof.
  split.
  - intros e He. apply derive_document_cases.
    + by apply artist_endpoints.
    + by apply master_endpoints.
    + by apply release_endpoints.
    + intros r Hr. rewrite (proj1 (empty_graph_rows _)) in Hr. set_solver.
  - apply derive_document_cases; intros m f l.
    + cbn [vertices derive_artist]. rewrite !rows_of_empty. set_solver.
    + destruct (master_vertex_rows data_id data) as (_ & _ & -> & _). set_solver.
    + cbn [vertices derive_release].
      destruct (release_vertex_rows data) as (_ & _ & _ & Vf & Vm & _).
      rewrite Vm, Vf, elem_of_unique, !list_elem_of_fmap.
      intros ([[[m' f'] l'] q] & Heq & Hin). simplify_eq. by exists (m', f', l', q).
    + rewrite !(proj2 (empty_graph_rows _)). set_solver.
Qed.

(** A release that is silent about companies leaves its company credits alone: the
    relations a release document replaces are its nine release-scoped ones, and
    [credited_to] exactly when [companies] is an object; without one it derives no
    company credit and no company vertex.  [same_as] and [member_of], which no document
    owns, are never replaced. *)
Theorem release_replaces_credits_only_when_stated data_id data :
  ("credited_to" ∈ replaced (derive_release data_id data) ↔ is_dict (jget "companies" data) = true) ∧
  (is_dict (jget "companies" data) = false →
     rows_of (edges (derive_release data_id data)) "credited_to" = [] ∧
     rows_of (vertices (derive_release data_id data)) "company" = []) ∧
  (∀ t, "same_as" ∉ replaced (derive_document t data_id data) ∧
        "member_of" ∉ replaced (derive_document t data_id data)).
Proof.
  split_and!.
  - cbn [replaced derive_release]. unfold release_replaced.
    destruct (is_dict (jget "companies" data)); rewrite !elem_of_union, !elem_of_singleton; [naive_solver|].
    rewrite elem_of_empty. split; [intros Hin; destruct_or! Hin; done|done].
  - intros Hc. cbn [edges vertices derive_release].
    destruct (release_vertex_rows data) as (_ & _ & _ & _ & _ & ->).
    destruct (release_edge_rows_credits data_id data) as (_ & _ & _ & -> & _).
    by destruct (jget "companies" data).
  - intros t. apply derive_document_cases; cbn [replaced derive_artist derive_master derive_release empty_graph];
      unfold release_replaced; try destruct (is_dict _);
      rewrite ?not_elem_of_union, ?not_elem_of_singleton; try (split; apply not_elem_of_empty);
      split_and!; done || apply not_elem_of_empty.
Qed.
End endpoints.

Lemma release_replaces_credits_only_when_stated_witness :
  is_dict (jget "companies" [("companies", JNull)]) = false ∧
  rows_of (edges (derive_release (H:=sample_runtime) "7" [("companies", JNull)])) "credited_to" = [].
Proof.
  split; [reflexivity|].
  refine (proj1 (proj1 (proj2 (release_replaces_credits_only_when_stated (H:=sample_runtime)
    "7" [("companies", JNull)])) _)). reflexivity.
Defined.

Lemma derived_endpoints_present_witness :
  ("in_genre", 1%nat, "genre") ∈ ENDPOINTS ∧
  endpoint_present (derive_document (H:=sample_runtime) "releases" "7" [("genres", JList [JStr "Jazz"])])
    ("in_genre", 1%nat, "genre").
Proof.
  split; [left|].
  refine (proj1 (derived_endpoints_present (H:=sample_runtime) "releases" "7"
    [("genres", JList [JStr "Jazz"])]) _ _). left.
Defined.

Lemma entity_id_usable_witness :
  _entity_id (JStr " 42 ") = Some "42" ∧ "42" ≠ "0" ∧
  _entity_id (JInt 42) = _entity_id (JStr (py_str_int 42)) ∧ _entity_id (JBool true) = None.
Proof.
  split; [reflexivity|]. split; [|split; [|reflexivity]].
  - exact (proj1 (proj2 (proj1 (entity_id_usable (JStr " 42 ")) "42" eq_refl))).
  - exact (proj1 (proj2 (entity_id_usable (JInt 42))) 42 eq_refl).
Defined.

Lemma member_of_reciprocal_witness :
  [VText "2"; VText "1"] ∈ rows_of (edges (derive_artist "1"
    [("members", JList [JObj [("id", JStr "2")]])])) "member_of" ∧
  [VText "2"; VText "1"] ∈ rows_of (edges (derive_artist "2"
    [("groups", JList [JObj [("id", JInt 1)]])])) "member_of".
Proof.
  refine (proj1 (proj2 (proj2 (member_of_reciprocal (H:=sample_runtime) "1"
    [("members", JList [JObj [("id", JStr "2")]])]))) "2"
    [("groups", JList [JObj [("id", JInt 1)]])] _ _); decide_now.
Defined.

Lemma track_rows_keyed_by_ordinal_witness :
  (2, 0, None, "Kat", "Written-By", Some "9") ∈ _track_credits (H:=sample_runtime)
    (JList [JNull; JObj [("extraartists", JList [JObj [("name", JStr "Kat"); ("role", JStr "Written-By");
      ("id", JInt 9)]])]]) ∧
  ∃ d, track_at (JList [JNull; JObj [("extraartists", JList [JObj [("name", JStr "Kat");
    ("role", JStr "Written-By"); ("id", JInt 9)]])]]) 2 0 d ∧ None = _track_position d.
Proof.
  assert ((2, 0, None, "Kat", "Written-By", Some "9") ∈ _track_credits (H:=sample_runtime)
    (JList [JNull; JObj [("extraartists", JList [JObj [("name", JStr "Kat"); ("role", JStr "Written-By");
      ("id", JInt 9)]])]])) as Hin by decide_now.
  split; [exact Hin|].
  destruct (proj1 (track_rows_keyed_by_ordinal (H:=sample_runtime) _) _ _ _ _ _ _ Hin) as (d & H1 & H2 & _).
  exists d. exact (conj H1 H2).
Defined.

Lemma company_rows_first_wins_witness :
  item_credit (H:=sample_runtime) [("name", JStr "Acme")] = None ∧
  _company_rows (H:=sample_runtime) [("items", JList [JObj [("name", JStr "Acme")]])] = [].
Proof.
  split; [|vm_compute; reflexivity].
  refine (proj2 (proj2 (company_rows_first_wins (H:=sample_runtime)
    [("items", JList [JObj [("name", JStr "Acme")]])])) [("name", JStr "Acme")] _ _);
    [left|left; reflexivity].
Defined.
