(* ===== verification/GraphWriter.v ===== *)
(** * Writing graph rows: [graph_writer.py]

    A relation is a finite map from its conflict key to a row.  The key columns belong to
    the schema ([database-schema] is not this repository), so [key_of] is a parameter; the
    statements are modelled on it: [INSERT ... ON CONFLICT DO NOTHING] adds a row whose key
    is free, the scoped deletes remove the rows their predicate selects. *)

From S2P Require Import Prelude Json Runtime Media Derivation.

Definition _DOCUMENT_SCOPE : list (string * (string * bool)) :=
  [("by_artist", ("release_id", false));
   ("on_label", ("release_id", false));
   ("derived_from", ("release_id", false));
   ("in_genre", ("release_id", false));
   ("in_style", ("release_id", false));
   ("credited_on", ("release_id", false));
   ("credited_to", ("release_id", true));
   ("issued_on", ("release_id", true));
   ("master_by_artist", ("master_id", false));
   ("master_in_genre", ("master_id", false));
   ("master_in_style", ("master_id", false));
   ("alias_of", ("artist_id", false));
   ("track_credited_on", ("release_id", false));
   ("track_by_artist", ("release_id", false))].

Definition _PURGE_SCOPE : list (string * list string) :=
  [("releases", ["by_artist"; "on_label"; "derived_from"; "in_genre"; "in_style"; "credited_on";
                 "credited_to"; "issued_on"; "track_credited_on"; "track_by_artist"]);
   ("masters", ["master_by_artist"; "master_in_genre"; "master_in_style"]);
   ("artists", ["alias_of"]);
   ("labels", [])].

Definition _BIGINT_COLUMNS : list string := ["qty"; "track_ordinal"; "sub_track_ordinal"].

(** Column lookup by name in a relation's declared column order. *)
Definition columns_of (r : string) : list string :=
  match od_get r VERTEX_COLUMNS with
  | Some cs => cs
  | None => default [] (od_get r EDGE_COLUMNS)
  end.

Fixpoint column_at (col : string) (cols : list string) (x : row) : option val :=
  match cols, x with
  | c :: cols, v :: x => if decide (c = col) then Some v else column_at col cols x
  | _, _ => None
  end.

Definition column_value (r col : string) (x : row) : option val := column_at col (columns_of r) x.

(** Python's order on the column values: texts by code point, numbers by value, [None] last
    (the [value is None] flag of the sort key).  A column holds one type, so the number
    before text case is never compared. *)
Definition val_leb (v w : val) : bool :=
  match v, w with
  | VInt a, VInt b => a <=? b
  | VInt _, _ => true
  | VText _, VInt _ => false
  | VText a, VText b => String.leb a b
  | VText _, VNull => true
  | VNull, VNull => true
  | VNull, _ => false
  end.

(** [_vertex_order]: the key alone, so ties keep the batch's order. *)
Definition _vertex_order (x y : row) : bool :=
  match x, y with
  | v :: _, w :: _ => val_leb v w
  | [], _ => true
  | _, [] => false
  end.

(** [_edge_order]: lexicographic on the columns. *)
Fixpoint _edge_order (x y : row) : bool :=
  match x, y with
  | [], _ => true
  | _, [] => false
  | v :: x, w :: y => if decide (v = w) then _edge_order x y else val_leb v w
  end.

(** [zip(rows, strict=True)] transposes and raises on ragged rows. *)
Definition transpose (n : nat) (rows : list row) : list (list val) :=
  (λ i, omap (λ x : row, x !! i) rows) <$> seq 0 n.

Definition zip_strict (rows : list row) : result (list (list val)) :=
  match rows with
  | [] => Ok []
  | x :: _ => if forallb (λ y : row, Nat.eqb (length y) (length x)) rows
              then Ok (transpose (length x) rows) else Raise ValueError
  end.

Definition _columns (order : row → row → bool) (rows : list row) : result (list (list val)) :=
  zip_strict (sort_by order rows).

(** [SELECT * FROM unnest(arrays)]: the rows the parallel arrays spell, in array order. *)
Definition unnest (cols : list (list val)) : list row :=
  match cols with [] => [] | c :: _ => transpose (length c) cols end.

Inductive stmt :=
  | Insert (r : string) (arrays : list (list val))
  | ScopedDelete (r column : string) (source_scoped : bool) (ids : list string).

(** One document's rows merged over the batch, first occurrence first. *)
Definition merged (sel : DocumentGraph → gmap string (list row)) (derived : list DocumentGraph)
    (r : string) : list row :=
  unique (derived ≫= λ g, rows_of (sel g) r).

Definition replaced_ids (documents : list (string * DocumentGraph)) (r : string) : list string :=
  (filter (λ d, r ∈ replaced d.2) documents).*1.

Definition replaced_relations (documents : list (string * DocumentGraph)) : list string :=
  sort_strings (unique (documents ≫= λ d, elements (replaced d.2))).

Definition insert_statements (order : row → row → bool) (tables : list (string * list string))
    (pending : string → list row) : result (list stmt) :=
  let! ss := map_result (λ '(r, _),
    match pending r with
    | [] => Ok []
    | rows => let! arrays := _columns order rows in Ok [Insert r arrays]
    end) tables in Ok (mjoin ss).

Definition delete_statements (documents : list (string * DocumentGraph)) : result (list stmt) :=
  map_result (λ r,
    match od_get r _DOCUMENT_SCOPE with
    | Some (column, source_scoped) =>
        Ok (ScopedDelete r column source_scoped (sort_strings (replaced_ids documents r)))
    | None => Raise KeyError
    end) (replaced_relations documents).

Section writer.
Context `{CommonRuntime}.

Definition derived_documents (data_type : string) (documents : list (string * dict))
    : list (string * DocumentGraph) :=
  (λ '(data_id, data), (data_id, derive_document data_type data_id data)) <$> documents.

(** The statements one batch executes, in order. *)
Definition write_plan (data_type : string) (documents : list (string * dict)) : result (list stmt) :=
  match documents with
  | [] => Ok []
  | _ =>
      let derived := derived_documents data_type documents in
      let! vs := insert_statements _vertex_order VERTEX_COLUMNS (merged vertices derived.*2) in
      let! ds := delete_statements derived in
      let! es := insert_statements _edge_order EDGE_COLUMNS (merged edges derived.*2) in
      Ok (vs ++ ds ++ es)
  end.
End writer.

Abbreviation table := (gmap (list val) row).
Abbreviation graph_db := (gmap string (gmap (list val) row)).

Section store.
Context (key_of : string → row → list val).

Definition tbl (db : graph_db) (r : string) : table := default ∅ (db !! r).

(** [INSERT ... ON CONFLICT DO NOTHING] of one row. *)
Definition insert_row (r : string) (t : table) (x : row) : table :=
  match t !! key_of r x with Some _ => t | None => <[key_of r x := x]> t end.

Definition insert_rows (r : string) (rows : list row) (t : table) : table :=
  foldl (insert_row r) t rows.

(** [WHERE column = ANY(ids) AND source = 'discogs'] *)
Definition in_scope (r column : string) (source_scoped : bool) (ids : list string) (x : row) : bool :=
  bool_decide (column_value r column x ∈ (λ i, Some (VText i)) <$> ids)
  && (negb source_scoped || bool_decide (column_value r "source" x = Some (VText DISCOGS_SOURCE))).

Definition delete_rows (p : row → bool) (t : table) : table := filter (λ kx, p kx.2 = false) t.

Definition exec (db : graph_db) (s : stmt) : graph_db :=
  match s with
  | Insert r arrays => <[r := insert_rows r (unnest arrays) (tbl db r)]> db
  | ScopedDelete r column source_scoped ids =>
      <[r := delete_rows (in_scope r column source_scoped ids) (tbl db r)]> db
  end.

Definition run (plan : list stmt) (db : graph_db) : graph_db := foldl exec db plan.

Definition write_document_graph `{CommonRuntime} (data_type : string)
    (documents : list (string * dict)) (db : graph_db) : result graph_db :=
  let! plan := write_plan data_type documents in Ok (run plan db).

(** [purge_document_graph]: [stale] are the ids the purge's [updated_at] predicate names. *)
Definition purge_plan (data_type : string) (stale : list string) : result (list stmt) :=
  map_result (λ r,
    match od_get r _DOCUMENT_SCOPE with
    | Some (column, source_scoped) => Ok (ScopedDelete r column source_scoped stale)
    | None => Raise KeyError
    end) (default [] (od_get data_type _PURGE_SCOPE)).

Definition purge_document_graph (data_type : string) (stale : list string) (db : graph_db)
    : result graph_db :=
  let! plan := purge_plan data_type stale in Ok (run plan db).
End store.

(** ** Arrays and rows *)

Definition cell (i : nat) (x : row) : val := default VNull (x !! i).

Lemma omap_column (i : nat) (rows : list row) :
  Forall (λ x : row, (i < length x)%nat) rows → omap (λ x : row, x !! i) rows = cell i <$> rows.
Proof.
  induction 1 as [|x rows Hx _ IH]; [done|]. csimpl.
  destruct (lookup_lt_is_Some_2 _ _ Hx) as [v Hv]. unfold cell at 1. by rewrite Hv, IH.
Qed.

Lemma row_cells (n : nat) (x : row) : length x = n → (λ i, cell i x) <$> seq 0 n = x.
Proof.
  intros Hn. apply list_eq. intros i. rewrite list_lookup_fmap.
  destruct (decide (i < n)%nat) as [Hi|Hi].
  - rewrite lookup_seq_lt by done. simpl. unfold cell.
    destruct (lookup_lt_is_Some_2 x i) as [v Hv]; [lia|]. by rewrite Hv.
  - rewrite lookup_seq_ge by lia. simpl. symmetry. apply lookup_ge_None. lia.
Qed.

Lemma transpose_cells n rows :
  Forall (λ x : row, length x = n) rows → transpose n rows = (λ i, cell i <$> rows) <$> seq 0 n.
Proof.
  intros Hall. apply list_fmap_ext. intros k i Hi. apply omap_column.
  apply lookup_seq in Hi as [-> Hi].
  eapply Forall_impl; [exact Hall|]. simpl. intros x Hx. lia.
Qed.

Lemma unnest_rectangular m (cols : list (list val)) :
  cols ≠ [] → Forall (λ c : list val, length c = m) cols → unnest cols = transpose m cols.
Proof. destruct 2 as [|c cols Hc _]; [done|]. simpl. by rewrite Hc. Qed.

Lemma unnest_transpose n rows :
  (0 < n)%nat → rows ≠ [] → Forall (λ x : row, length x = n) rows → unnest (transpose n rows) = rows.
Proof.
  intros Hn Hne Hall. rewrite (transpose_cells n rows Hall).
  rewrite (unnest_rectangular (length rows)).
  2: { destruct n; [lia|done]. }
  2: { apply Forall_fmap, Forall_true. intros i. simpl. apply length_fmap. }
  rewrite transpose_cells by (apply Forall_fmap, Forall_true; intros i; simpl; apply length_fmap).
  apply list_eq. intros j. rewrite list_lookup_fmap.
  destruct (decide (j < length rows)%nat) as [Hj|Hj].
  - rewrite lookup_seq_lt by done. simpl.
    destruct (lookup_lt_is_Some_2 _ _ Hj) as [x Hx]. rewrite Hx. f_equal.
    assert (length x = n) as Hlen by (by eapply (Forall_lookup_1 _ _ _ _ Hall Hx)).
    rewrite <-list_fmap_compose. etrans; [|apply (row_cells n x Hlen)].
    apply list_fmap_ext. intros k i _. simpl. unfold cell. by rewrite list_lookup_fmap, Hx.
  - rewrite lookup_seq_ge by lia. simpl. symmetry. apply lookup_ge_None. lia.
Qed.

Lemma zip_strict_ok n rows :
  (0 < n)%nat → Forall (λ x : row, length x = n) rows →
  ∃ arrays, zip_strict rows = Ok arrays ∧ unnest arrays = rows.
Proof.
  intros Hn Hall. unfold zip_strict. destruct rows as [|x rows].
  - by exists [].
  - pose proof (Forall_cons_1 _ _ _ Hall) as [Hx _].
    assert (forallb (λ y : row, Nat.eqb (length y) (length x)) (x :: rows) = true) as ->.
    { apply forallb_forall. intros y Hy%list_elem_of_In. apply Nat.eqb_eq.
      rewrite Hx. by eapply (Forall_forall _ (x :: rows)) in Hall. }
    eexists. split; [done|]. rewrite Hx. by apply unnest_transpose.
Qed.

Lemma columns_ok order n rows :
  (0 < n)%nat → Forall (λ x : row, length x = n) rows →
  ∃ arrays, _columns order rows = Ok arrays ∧ unnest arrays = sort_by order rows.
Proof. intros Hn Hall. apply (zip_strict_ok n); [done|]. by rewrite sort_by_perm. Qed.

(** ** Derived rows fit the statements *)

(** A value of the kind its column's array is cast to. *)
Definition cell_kind (col : string) (v : val) : bool :=
  match v with
  | VInt _ => bool_decide (col ∈ _BIGINT_COLUMNS)
  | VText _ => bool_decide (col ∉ _BIGINT_COLUMNS)
  | VNull => bool_decide (col ∈ ["track_position"; "discogs_label_id"])
  end.

Fixpoint cells_kind (cols : list string) (x : row) : bool :=
  match cols, x with
  | [], [] => true
  | c :: cols, v :: x => cell_kind c v && cells_kind cols x
  | _, _ => false
  end.

Definition row_kind (r : string) (x : row) : bool := cells_kind (columns_of r) x.

(** The numbers a [bigint] holds. *)
Definition bigint (z : Z) : bool := (- 2 ^ 63 <=? z) && (z <? 2 ^ 63).

Definition in_range (v : val) : bool := match v with VInt z => bigint z | _ => true end.

Definition row_fits (r : string) (x : row) : bool := row_kind r x && forallb in_range x.

Lemma cells_kind_length cols x : cells_kind cols x = true → length x = length cols.
Proof.
  revert x. induction cols as [|c cols IH]; intros [|v x]; simpl; try done.
  intros [_ H]%andb_true_iff. f_equal. by apply IH.
Qed.

Definition rows_fit (tables : list (string * list string)) (r : string) (rows : list row) : Prop :=
  r ∈ tables.*1 ∧ rows ≠ [] ∧ Forall (λ x, row_kind r x = true) rows.

(** A relation the document replaces holds only rows scoped to the document. *)
Definition rows_scoped (data_id : string) (r : string) (rows : list row) : Prop :=
  match od_get r _DOCUMENT_SCOPE with
  | Some (column, source_scoped) =>
      Forall (λ x, in_scope r column source_scoped [data_id] x = true) rows
  | None => True
  end.

Lemma fits_intro tables r rows :
  bool_decide (r ∈ tables.*1) = true → rows ≠ [] → (∀ x, x ∈ rows → row_kind r x = true) →
  rows_fit tables r rows.
Proof. intros Hr%bool_decide_eq_true Hne H. split_and!; [done..|]. by apply Forall_forall. Qed.

Lemma in_scope_single r column source_scoped data_id x :
  in_scope r column source_scoped [data_id] x = true ↔
    column_value r column x = Some (VText data_id) ∧
    (source_scoped = true → column_value r "source" x = Some (VText DISCOGS_SOURCE)).
Proof.
  unfold in_scope. rewrite andb_true_iff, orb_true_iff, negb_true_iff, !bool_decide_eq_true.
  csimpl. rewrite list_elem_of_singleton. destruct source_scoped; naive_solver.
Qed.

(** Reduce membership in a derived row list to the shape of the row. *)
Ltac derived_row :=
  let Hin := fresh "Hin" in
  intros ? Hin; unfold _unique in Hin;
  rewrite ?elem_of_unique, ?elem_of_app, ?list_elem_of_fmap in Hin;
  repeat match goal with
    | H : _ ∨ _ |- _ => destruct H
    | H : ∃ _, _ |- _ => destruct H
    | H : _ ∧ _ |- _ => destruct H
    | x : (_ * _)%type |- _ => destruct x
    end; subst.

Section fit.
Context `{CommonRuntime}.

Lemma same_as_rows_shape cs ts x : x ∈ same_as_rows cs ts → ∃ n a, x = [VText n; VText a].
Proof. intros (n & a & -> & _)%same_as_rows_spec. eauto. Qed.

Lemma opt_text_fits col o :
  col ∈ ["track_position"; "discogs_label_id"] → cell_kind col (opt_text o) = true.
Proof.
  intros Hcol. destruct o; simpl; apply bool_decide_eq_true; [|done].
  rewrite !elem_of_cons, elem_of_nil in Hcol. destruct_or! Hcol; subst; decide_now || done.
Qed.

Ltac opt_cell :=
  unfold row_kind; match goal with |- cells_kind (columns_of ?r) _ = _ =>
    let cs := eval vm_compute in (columns_of r) in change (columns_of r) with cs end;
  cbn [cells_kind]; rewrite opt_text_fits by decide_now; reflexivity.

Ltac fits := apply fits_intro; [vm_compute; reflexivity|done|derived_row; reflexivity].

Lemma release_rows_fit data_id data :
  map_Forall (rows_fit VERTEX_COLUMNS) (release_vertices data) ∧
  map_Forall (rows_fit EDGE_COLUMNS) (release_edges data_id data).
Proof.
  split.
  - unfold release_vertices; cbv zeta.
    repeat (apply put_Forall; [|intros Hne]); [apply map_Forall_empty|fits|fits|fits|fits|fits|].
    apply fits_intro; [vm_compute; reflexivity|done|]. derived_row.
    opt_cell.
  - unfold release_edges; cbv zeta.
    repeat (apply put_Forall; [|intros Hne]);
      [apply map_Forall_empty|fits|fits| |fits|fits|fits| |fits|fits| |].
    + apply fits_intro; [vm_compute; reflexivity|done|]. intros x.
      destruct (_entity_id _); [intros ->%list_elem_of_singleton; reflexivity|intros []%elem_of_nil].
    + apply fits_intro; [vm_compute; reflexivity|done|].
      intros x (n & a & ->)%same_as_rows_shape. reflexivity.
    + apply fits_intro; [vm_compute; reflexivity|done|]. derived_row.
      opt_cell.
    + apply fits_intro; [vm_compute; reflexivity|done|]. derived_row.
      opt_cell.
Qed.

Lemma artist_rows_fit data_id data :
  map_Forall (rows_fit EDGE_COLUMNS) (edges (derive_artist data_id data)).
Proof.
  unfold derive_artist; cbn [edges]; cbv zeta.
  repeat (apply put_Forall; [|intros Hne]); [apply map_Forall_empty|fits|fits].
Qed.

Lemma master_rows_fit data_id data :
  map_Forall (rows_fit VERTEX_COLUMNS) (vertices (derive_master data_id data)) ∧
  map_Forall (rows_fit EDGE_COLUMNS) (edges (derive_master data_id data)).
Proof.
  unfold derive_master; cbn [vertices edges]; cbv zeta. split.
  - repeat (apply put_Forall; [|intros Hne]); [apply map_Forall_empty|fits|fits].
  - repeat (apply put_Forall; [|intros Hne]); [apply map_Forall_empty|fits|fits|fits].
Qed.

Lemma document_rows_fit data_type data_id data :
  map_Forall (rows_fit VERTEX_COLUMNS) (vertices (derive_document data_type data_id data)) ∧
  map_Forall (rows_fit EDGE_COLUMNS) (edges (derive_document data_type data_id data)).
Proof.
  apply derive_document_cases.
  - split; [apply map_Forall_empty|apply artist_rows_fit].
  - apply master_rows_fit.
  - apply release_rows_fit.
  - split; apply map_Forall_empty.
Qed.

Ltac scoped :=
  unfold rows_scoped; cbn; apply Forall_forall; derived_row; apply in_scope_single; split; done.

Lemma document_rows_scoped data_type data_id data :
  map_Forall (rows_scoped data_id) (edges (derive_document data_type data_id data)).
Proof.
  apply derive_document_cases.
  - unfold derive_artist; cbn [edges]; cbv zeta.
    repeat (apply put_Forall; [|intros _]); [apply map_Forall_empty|done|scoped].
  - unfold derive_master; cbn [edges]; cbv zeta.
    repeat (apply put_Forall; [|intros _]); [apply map_Forall_empty|scoped|scoped|scoped].
  - cbn [edges derive_release]. unfold release_edges; cbv zeta.
    repeat (apply put_Forall; [|intros _]);
      [apply map_Forall_empty|scoped|scoped| |scoped|scoped|scoped|done|scoped|scoped|scoped|scoped].
    unfold rows_scoped; cbn. apply Forall_forall. intros x.
    destruct (_entity_id _); [|intros []%elem_of_nil].
    intros ->%list_elem_of_singleton. apply in_scope_single. by split.
  - apply map_Forall_empty.
Qed.

(** A row of a document-scoped relation names its document, and its source where the relation
    is shared. *)
Lemma derived_row_scoped data_type data_id data r column source_scoped x :
  od_get r _DOCUMENT_SCOPE = Some (column, source_scoped) →
  x ∈ rows_of (edges (derive_document data_type data_id data)) r →
  column_value r column x = Some (VText data_id) ∧
  (source_scoped = true → column_value r "source" x = Some (VText DISCOGS_SOURCE)).
Proof.
  intros Hscope (rows & Hr & Hx)%rows_of_elem.
  pose proof (document_rows_scoped data_type data_id data _ _ Hr) as Hs.
  unfold rows_scoped in Hs. rewrite Hscope, Forall_forall in Hs. by apply in_scope_single, Hs.
Qed.

(** The document's numbers stay below [2^63]: the quantities of each medium together, and the
    ordinals of its tracks and sub-tracks. *)
Definition numbers_fit (data : dict) : Prop :=
  (∀ medium, medium_total medium (_elements (jget "items" (media_for_release data))) < 2 ^ 63) ∧
  (∀ i j d, track_at (jget "tracklist" data) i j d → i < 2 ^ 63 ∧ j < 2 ^ 63).

(** A row of a relation without number columns holds no number. *)
Lemma text_in_range cols x :
  cells_kind cols x = true → forallb (λ c, negb (bool_decide (c ∈ _BIGINT_COLUMNS))) cols = true → forallb in_range x = true.
Proof.
  revert x. induction cols as [|c cols IH]; intros [|v x]; simpl; try done.
  intros [Hv Hx]%andb_true_iff [Hc Hcols]%andb_true_iff. rewrite (IH x Hx Hcols), andb_true_r.
  destruct v; simpl in *; try done. by rewrite Hv in Hc.
Qed.

Definition number_relations : list string := ["issued_on"; "track_credited_on"; "track_by_artist"].

Lemma only_number_relations r :
  r ∉ number_relations → forallb (λ c, negb (bool_decide (c ∈ _BIGINT_COLUMNS))) (columns_of r) = true.
Proof.
  intros Hr.
  assert (forallb (λ rc : string * list string, bool_decide (rc.1 ∈ number_relations) ||
    forallb (λ c, negb (bool_decide (c ∈ _BIGINT_COLUMNS))) rc.2) (VERTEX_COLUMNS ++ EDGE_COLUMNS) = true) as Hall
    by (vm_compute; reflexivity).
  assert (∀ cols, (r, cols) ∈ VERTEX_COLUMNS ++ EDGE_COLUMNS →
    forallb (λ c, negb (bool_decide (c ∈ _BIGINT_COLUMNS))) cols = true) as Hcols.
  { intros cols Hin. rewrite forallb_forall in Hall. apply list_elem_of_In, Hall in Hin. cbn [fst snd] in Hin.
    by rewrite bool_decide_eq_false_2 in Hin by done. }
  unfold columns_of. destruct (od_get r VERTEX_COLUMNS) as [cols|] eqn:Ev.
  { apply Hcols, elem_of_app. left. by apply od_get_Some_elem. }
  destruct (od_get r EDGE_COLUMNS) as [cols|] eqn:Ee; [|done]. simpl. apply Hcols, elem_of_app. right. by apply od_get_Some_elem.
Qed.

Lemma bigint_below z : 0 <= z → z < 2 ^ 63 → bigint z = true.
Proof. intros H1 H2. unfold bigint. apply andb_true_iff. rewrite Z.leb_le, Z.ltb_lt. lia. Qed.

Lemma release_numbers_in_range data_id data r x :
  numbers_fit data → r ∈ number_relations → x ∈ rows_of (release_edges data_id data) r → forallb in_range x = true.
Proof.
  intros [Hqty Htracks] Hr Hx. destruct (release_edge_rows_credits data_id data) as (_ & _ & Hi & _ & Hc & Hp).
  assert (∀ i j d, track_at (jget "tracklist" data) i j d → bigint i = true ∧ bigint j = true) as Hord.
  { intros i j d Hd. destruct (track_at_ordinals _ _ _ _ Hd) as [[? _] ?]. destruct (Htracks _ _ _ Hd).
    split; apply bigint_below; lia. }
  unfold number_relations in Hr. rewrite !elem_of_cons, elem_of_nil in Hr. destruct Hr as [ -> |[ -> |[ -> |[]]]].
  - rewrite Hi in Hx. apply list_elem_of_fmap in Hx as ([[[m f] lb] q] & -> & Hm). simpl.
    destruct (proj1 (proj2 (media_rows_totals (media_for_release data))) _ _ _ _ Hm) as (-> & Hpos & _).
    rewrite bigint_below; [done|lia|apply Hqty].
  - rewrite Hc in Hx. apply elem_of_unique, list_elem_of_fmap in Hx as ([[[[[i j] pos] n] ro] a] & -> & Hm).
    apply track_credits_spec in Hm as (d & Hd & _). destruct (Hord _ _ _ Hd) as [Ho1 Ho2]. simpl. rewrite Ho1, Ho2. by destruct pos.
  - rewrite Hp in Hx. apply elem_of_unique, list_elem_of_fmap in Hx as ([[[i j] pos] a] & -> & Hm).
    apply track_performers_spec in Hm as (d & Hd & _). destruct (Hord _ _ _ Hd) as [Ho1 Ho2]. simpl. rewrite Ho1, Ho2. by destruct pos.
Qed.
Lemma no_numbers_elsewhere data_id data r :
  r ∈ number_relations →
  rows_of (edges (derive_artist data_id data)) r = [] ∧ rows_of (edges (derive_master data_id data)) r = [].
Proof.
  unfold number_relations. rewrite !elem_of_cons, elem_of_nil. intros [ -> |[ -> |[ -> |[]]]];
    unfold derive_artist, derive_master; cbn [edges]; cbv zeta; split; solve_rows_of.
Qed.

Lemma derived_in_range data_type data_id data r x :
  numbers_fit data → x ∈ rows_of (edges (derive_document data_type data_id data)) r → forallb in_range x = true.
Proof.
  intros Hfit Hx. pose proof Hx as (rows & Hr & Hin)%rows_of_elem.
  destruct (proj2 (document_rows_fit data_type data_id data) _ _ Hr) as (_ & _ & Hk). rewrite Forall_forall in Hk.
  destruct (decide (r ∈ number_relations)) as [Hn|Hn]; [|by eapply text_in_range, only_number_relations; [apply Hk|]].
  assert (x ∈ rows_of (release_edges data_id data) r ∨ forallb in_range x = true) as [Hrel|]; [|by eapply release_numbers_in_range|done].
  revert Hx. apply (derive_document_cases _ _ _
    (λ g, x ∈ rows_of (edges g) r → x ∈ rows_of (release_edges data_id data) r ∨ forallb in_range x = true)).
  - by rewrite (proj1 (no_numbers_elsewhere data_id data r Hn)), elem_of_nil.
  - by rewrite (proj2 (no_numbers_elsewhere data_id data r Hn)), elem_of_nil.
  - by left.
  - by rewrite (proj1 (empty_graph_rows r)), elem_of_nil.
Qed.

(** C37 The interface between derivation and writer.  For every document of every type, each
    relation with rows is one the writer has columns for, and every row has exactly those
    columns, with numbers in the bigint columns and strings elsewhere ([NULL] only for a
    track position or a label id).  When the quantities of each medium and the track
    ordinals stay below 2^63 every number is one a bigint holds; a medium whose quantities
    reach 2^63 together has a row the database must refuse.  Every row of a relation the
    writer deletes document-scoped carries the document's own id in the scope column, and
    the Discogs source where the relation is shared. *)
Theorem derived_rows_fit data_type data_id data :
  let g := derive_document data_type data_id data in
  (∀ r rows, vertices g !! r = Some rows →
     r ∈ VERTEX_COLUMNS.*1 ∧ rows ≠ [] ∧ ∀ x, x ∈ rows → row_fits r x = true) ∧
  (∀ r rows, edges g !! r = Some rows →
     r ∈ EDGE_COLUMNS.*1 ∧ rows ≠ [] ∧ ∀ x, x ∈ rows → row_kind r x = true ∧ (numbers_fit data → row_fits r x = true)) ∧
  (∀ medium family, data_type = "releases" →
     first_family medium (_elements (jget "items" (media_for_release data))) = Some family →
     2 ^ 63 <= medium_total medium (_elements (jget "items" (media_for_release data))) →
     ∃ x, x ∈ rows_of (edges g) "issued_on" ∧ row_fits "issued_on" x = false) ∧
  (∀ r column source_scoped x,
     od_get r _DOCUMENT_SCOPE = Some (column, source_scoped) → x ∈ rows_of (edges g) r →
     column_value r column x = Some (VText data_id) ∧
     (source_scoped = true → column_value r "source" x = Some (VText DISCOGS_SOURCE))).
Proof.
  intros g. destruct (document_rows_fit data_type data_id data) as [Hv He]. split_and!.
  - intros r rows Hr. destruct (Hv _ _ Hr) as (Ht & ? & Hf). rewrite Forall_forall in Hf. split_and!; [done..|].
    intros x Hx. unfold row_fits. rewrite (Hf _ Hx). simpl. eapply text_in_range, only_number_relations; [by apply Hf|].
    intros Hn. unfold number_relations in Hn. rewrite !elem_of_cons, elem_of_nil in Hn.
    destruct Hn as [ -> |[ -> |[ -> |[]]]]; revert Ht; decide_now.
  - intros r rows Hr. destruct (He _ _ Hr) as (? & ? & Hf). rewrite Forall_forall in Hf. split_and!; [done..|].
    intros x Hx. split; [by apply Hf|]. intros Hfit. unfold row_fits. rewrite (Hf _ Hx).
    eapply derived_in_range; [done|]. apply rows_of_elem. eauto.
  - intros medium family -> Hm Hlt.
    exists [VText data_id; VText medium; VText DISCOGS_SOURCE; VInt (medium_total medium (_elements (jget "items" (media_for_release data))))].
    split.
    + change (edges g) with (release_edges data_id data).
      rewrite (proj1 (proj2 (proj2 (release_edge_rows_credits data_id data)))). apply list_elem_of_fmap.
      eexists (medium, family, _medium_label medium, _). split; [done|].
      apply (proj2 (proj2 (media_rows_totals (media_for_release data)))), Hm.
    + unfold row_fits. cbn [forallb in_range]. assert (bigint (medium_total medium (_elements (jget "items" (media_for_release data)))) = false) as ->.
      { unfold bigint. apply andb_false_iff. right. by apply Z.ltb_ge. }
      apply andb_false_r.
  - intros r column source_scoped x Hscope Hx. by eapply derived_row_scoped.
Qed.
End fit.

(** ** The order rows are written in *)

Lemma val_leb_total v w : val_leb v w = true ∨ val_leb w v = true.
Proof. destruct v, w; simpl; auto using string_leb_total. rewrite !Z.leb_le. lia. Qed.

Lemma val_leb_trans u v w : val_leb u v = true → val_leb v w = true → val_leb u w = true.
Proof. destruct u, v, w; simpl; try done; [apply string_leb_trans|rewrite !Z.leb_le; lia]. Qed.

Lemma val_leb_antisym v w : val_leb v w = true → val_leb w v = true → v = w.
Proof.
  destruct v, w; simpl; try done.
  - intros H1 H2. f_equal. by apply String.leb_antisym.
  - rewrite !Z.leb_le. intros. f_equal. lia.
Qed.

Lemma vertex_order_total x y : _vertex_order x y = true ∨ _vertex_order y x = true.
Proof. destruct x, y; simpl; auto using val_leb_total. Qed.

Lemma vertex_order_trans x y z :
  _vertex_order x y = true → _vertex_order y z = true → _vertex_order x z = true.
Proof. destruct x, y, z; simpl; try done. apply val_leb_trans. Qed.

Lemma edge_order_total x y : _edge_order x y = true ∨ _edge_order y x = true.
Proof.
  revert y. induction x as [|v x IH]; intros [|w y]; simpl; auto.
  destruct (decide (v = w)) as [->|Hne].
  - by rewrite decide_True.
  - rewrite decide_False by congruence. apply val_leb_total.
Qed.

Lemma edge_order_trans x y z :
  _edge_order x y = true → _edge_order y z = true → _edge_order x z = true.
Proof.
  revert y z. induction x as [|u x IH]; intros [|v y] [|w z]; simpl; try done.
  intros H1 H2. repeat case_decide; simplify_eq; eauto using val_leb_trans.
  by destruct H; apply val_leb_antisym.
Qed.

Lemma edge_order_antisym x y : _edge_order x y = true → _edge_order y x = true → x = y.
Proof.
  revert y. induction x as [|v x IH]; intros [|w y]; simpl; try done.
  destruct (decide (v = w)) as [->|Hne].
  - rewrite decide_True by done. intros H1 H2. f_equal. by apply IH.
  - rewrite decide_False by congruence. intros H1 H2. by destruct Hne; apply val_leb_antisym.
Qed.

#[export] Hint Resolve vertex_order_total vertex_order_trans edge_order_total edge_order_trans : loader.

(** ** The plan of a batch *)

Definition pending_inserts (order : row → row → bool) (tables : list (string * list string))
    (pending : string → list row) : list (string * list row) :=
  omap (λ t, match pending t.1 with [] => None | rows => Some (t.1, sort_by order rows) end) tables.

(** [s] inserts [rows] into [r], in that order. *)
Definition inserts (s : stmt) (p : string * list row) : Prop :=
  ∃ arrays, s = Insert p.1 arrays ∧ unnest arrays = p.2.

Lemma insert_statements_spec order tables pending :
  (∀ r cols, (r, cols) ∈ tables →
     cols ≠ [] ∧ Forall (λ x : row, length x = length cols) (pending r)) →
  ∃ ss, insert_statements order tables pending = Ok ss ∧
    Forall2 inserts ss (pending_inserts order tables pending).
Proof.
  unfold insert_statements. induction tables as [|[r cols] tables IH]; intros Hfit.
  - exists []. split; [done|constructor].
  - destruct IH as (ss & Hss & HF); [intros; apply Hfit; set_solver|].
    destruct (Hfit r cols) as [Hne Hlen]; [set_solver|]. simpl.
    destruct (map_result _ tables) as [l|]; simplify_eq/=.
    destruct (pending r) as [|x rows] eqn:Hp; simpl.
    + exists (mjoin l). by split.
    + destruct (columns_ok order (length cols) (x :: rows)) as (arrays & Ha & Hu);
        [destruct cols; simpl; [done|lia]|done|].
      rewrite Ha. simpl. eexists. split; [done|]. constructor; [|done]. by exists arrays.
Qed.

Section plan.
Context `{CommonRuntime}.

Lemma elem_of_derived data_type documents d :
  d ∈ derived_documents data_type documents ↔
  ∃ data_id data, (data_id, data) ∈ documents ∧ d = (data_id, derive_document data_type data_id data).
Proof.
  unfold derived_documents. rewrite list_elem_of_fmap. split.
  - intros ([i da] & -> & Hin). eauto.
  - intros (i & da & Hin & ->). by exists (i, da).
Qed.

Lemma elem_of_merged sel data_type documents r x :
  x ∈ merged sel (derived_documents data_type documents).*2 r ↔
  ∃ data_id data, (data_id, data) ∈ documents ∧
    x ∈ rows_of (sel (derive_document data_type data_id data)) r.
Proof.
  unfold merged. rewrite elem_of_unique, list_elem_of_bind. split.
  - intros (g & Hx & Hg). apply list_elem_of_fmap in Hg as ([i g'] & -> & Hd).
    apply elem_of_derived in Hd as (i' & da & Hin & Heq). simplify_eq/=. eauto.
  - intros (i & da & Hin & Hx). eexists. split; [exact Hx|].
    apply list_elem_of_fmap. exists (i, derive_document data_type i da). split; [done|].
    apply elem_of_derived. eauto.
Qed.

Lemma merged_lengths data_type documents :
  (∀ r cols, (r, cols) ∈ VERTEX_COLUMNS →
     cols ≠ [] ∧ Forall (λ x : row, length x = length cols)
       (merged vertices (derived_documents data_type documents).*2 r)) ∧
  (∀ r cols, (r, cols) ∈ EDGE_COLUMNS →
     cols ≠ [] ∧ Forall (λ x : row, length x = length cols)
       (merged edges (derived_documents data_type documents).*2 r)).
Proof.
  assert (∀ r cols, (r, cols) ∈ VERTEX_COLUMNS ++ EDGE_COLUMNS → cols ≠ [] ∧ columns_of r = cols) as Hcols.
  { intros r cols Hin.
    assert (forallb (λ t, match t.2 with [] => false | _ => bool_decide (columns_of t.1 = t.2) end)
              (VERTEX_COLUMNS ++ EDGE_COLUMNS) = true) as Hall by (vm_compute; reflexivity).
    rewrite forallb_forall in Hall. apply list_elem_of_In in Hin. specialize (Hall _ Hin).
    simpl in Hall. destruct cols; [done|]. split; [done|]. by apply bool_decide_eq_true in Hall. }
  split; intros r cols Hin; (destruct (Hcols r cols) as [Hne Hc]; [apply elem_of_app; eauto|]);
    (split; [done|]); apply Forall_forall; intros x (i & da & _ & Hx)%elem_of_merged;
    apply rows_of_elem in Hx as (rows & Hr & Hx);
    [destruct (proj1 (document_rows_fit data_type i da) _ _ Hr) as (_ & _ & Hf)
    |destruct (proj2 (document_rows_fit data_type i da) _ _ Hr) as (_ & _ & Hf)];
    rewrite Forall_forall in Hf; specialize (Hf _ Hx); apply cells_kind_length in Hf; by rewrite Hc in Hf.
Qed.

Lemma replaced_in_scope data_type data_id data r :
  r ∈ replaced (derive_document data_type data_id data) →
  r ∈ default [] (od_get data_type _PURGE_SCOPE) ∧ is_Some (od_get r _DOCUMENT_SCOPE).
Proof.
  unfold derive_document. repeat case_bool_decide; subst; intros Hr;
    cbn [replaced derive_artist derive_master derive_release empty_graph] in Hr;
    unfold release_replaced in Hr; try destruct (is_dict _);
    rewrite ?elem_of_union, ?elem_of_singleton in Hr; destruct_or? Hr; subst;
    try (by apply elem_of_empty in Hr); (split; [decide_now|vm_compute; eauto]).
Qed.

Lemma elem_of_replaced_relations data_type documents r :
  r ∈ replaced_relations (derived_documents data_type documents) ↔
  ∃ data_id data, (data_id, data) ∈ documents ∧ r ∈ replaced (derive_document data_type data_id data).
Proof.
  unfold replaced_relations, sort_strings. rewrite elem_of_sort_by, elem_of_unique, list_elem_of_bind.
  split.
  - intros ([i g] & Hr%elem_of_elements & Hd). apply elem_of_derived in Hd as (i' & da & Hin & Heq).
    simplify_eq/=. eauto.
  - intros (i & da & Hin & Hr). exists (i, derive_document data_type i da).
    split; [by apply elem_of_elements|]. apply elem_of_derived. eauto.
Qed.

Lemma elem_of_replaced_ids data_type documents r data_id :
  data_id ∈ replaced_ids (derived_documents data_type documents) r ↔
  ∃ data, (data_id, data) ∈ documents ∧ r ∈ replaced (derive_document data_type data_id data).
Proof.
  unfold replaced_ids. rewrite list_elem_of_fmap. split.
  - intros ([i g] & -> & [Hr Hd]%list_elem_of_filter). apply elem_of_derived in Hd as (i' & da & Hin & Heq).
    simplify_eq/=. eauto.
  - intros (da & Hin & Hr). exists (data_id, derive_document data_type data_id da). split; [done|].
    apply list_elem_of_filter. split; [done|]. apply elem_of_derived. eauto.
Qed.

Definition scoped_delete_of (documents : list (string * DocumentGraph)) (r : string) : stmt :=
  match od_get r _DOCUMENT_SCOPE with
  | Some (column, source_scoped) =>
      ScopedDelete r column source_scoped (sort_strings (replaced_ids documents r))
  | None => ScopedDelete r "" false []
  end.

Lemma delete_statements_ok data_type documents :
  delete_statements (derived_documents data_type documents) =
    Ok (scoped_delete_of (derived_documents data_type documents)
          <$> replaced_relations (derived_documents data_type documents)).
Proof.
  apply map_result_ok. intros r (i & da & _ & Hr)%elem_of_replaced_relations.
  apply replaced_in_scope in Hr as [_ [[col ss] Hr]].
  unfold scoped_delete_of. by rewrite Hr.
Qed.

Definition vertex_inserts data_type documents :=
  pending_inserts _vertex_order VERTEX_COLUMNS (merged vertices (derived_documents data_type documents).*2).
Definition edge_inserts data_type documents :=
  pending_inserts _edge_order EDGE_COLUMNS (merged edges (derived_documents data_type documents).*2).

Lemma write_plan_shape data_type documents :
  ∃ vs es, write_plan data_type documents =
      Ok (vs ++ (scoped_delete_of (derived_documents data_type documents)
                   <$> replaced_relations (derived_documents data_type documents)) ++ es) ∧
    Forall2 inserts vs (vertex_inserts data_type documents) ∧
    Forall2 inserts es (edge_inserts data_type documents).
Proof.
  destruct (merged_lengths data_type documents) as [Hv He].
  destruct (insert_statements_spec _vertex_order _ _ Hv) as (vs & Hvs & HFv).
  destruct (insert_statements_spec _edge_order _ _ He) as (es & Hes & HFe).
  exists vs, es. split_and!; [|done|done].
  unfold write_plan. destruct documents as [|d documents].
  - simpl in *. unfold vertex_inserts in *. vm_compute in Hvs, Hes. by simplify_eq.
  - cbv zeta. rewrite Hvs. cbn [bind]. rewrite delete_statements_ok. cbn [bind]. by rewrite Hes.
Qed.
End plan.

(** ** The order of the inserts

    An INSERT offers its rows in the order of its arrays, and the source counts on that order
    alone ([_insert], [_columns]).  An offer is written as a row of its own, so that
    [_edge_order] compares offers too: the block (vertices, then edges), the relation's
    position in the block, then the key of a vertex or the whole row of an edge.  A DELETE
    offers nothing: in which order it meets its rows is the database's choice. *)

Fixpoint position (r : string) (names : list string) : Z :=
  match names with [] => 0 | n :: names => if decide (n = r) then 0 else 1 + position r names end.

Definition offer (r : string) (x : row) : row :=
  if bool_decide (r ∈ VERTEX_COLUMNS.*1)
  then VInt 0 :: VInt (position r VERTEX_COLUMNS.*1) :: take 1 x
  else VInt 1 :: VInt (position r EDGE_COLUMNS.*1) :: x.

(** What the inserts of a plan offer, in order. *)
Definition offers (plan : list stmt) : list row :=
  plan ≫= λ s, match s with Insert r arrays => offer r <$> unnest arrays | ScopedDelete _ _ _ _ => [] end.

(** [a] is met before [b]. *)
Definition before {A} (l : list A) (a b : A) : Prop := ∃ i j, (i < j)%nat ∧ l !! i = Some a ∧ l !! j = Some b.

Abbreviation in_order := (StronglySorted (λ a b, _edge_order a b = true)).

Lemma StronglySorted_app_intro {A} (R : A → A → Prop) l1 l2 :
  StronglySorted R l1 → StronglySorted R l2 → (∀ x y, x ∈ l1 → y ∈ l2 → R x y) →
  StronglySorted R (l1 ++ l2).
Proof.
  induction 1 as [|x l1 Hl IH Hx]; intros H2 H12; [done|]. simpl. constructor.
  - apply IH; [done|]. intros y z Hy Hz. apply H12; [by right|done].
  - apply Forall_app. split; [done|]. apply Forall_forall. intros y Hy. apply H12; [by left|done].
Qed.

Lemma StronglySorted_fmap {A B} (R : A → A → Prop) (Q : B → B → Prop) (f : A → B) l :
  (∀ x y, R x y → Q (f x) (f y)) → StronglySorted R l → StronglySorted Q (f <$> l).
Proof.
  intros Hf. induction 1 as [|x l Hl IH Hx]; csimpl; constructor; [done|].
  apply Forall_fmap. eapply Forall_impl; [exact Hx|]. naive_solver.
Qed.

(** Blocks, each in order, whose ranks increase. *)
Lemma blocks_in_order {A} (rank : A → Z) (lock : A → list row) (ph : Z) (l : list A) :
  (∀ a, a ∈ l → in_order (lock a) ∧ ∀ x, x ∈ lock a → ∃ y, x = VInt ph :: VInt (rank a) :: y) →
  StronglySorted (λ a b, rank a < rank b) l → in_order (l ≫= lock).
Proof.
  intros Hl. induction 1 as [|a l Hsorted IH Ha]; csimpl; [constructor|].
  apply StronglySorted_app_intro.
  - by apply Hl; left.
  - apply IH. intros b Hb. apply Hl. by right.
  - intros x y Hx (b & Hy & Hb)%list_elem_of_bind.
    destruct (proj2 (Hl a ltac:(by left)) _ Hx) as [x' ->].
    destruct (proj2 (Hl b ltac:(by right)) _ Hy) as [y' ->].
    rewrite Forall_forall in Ha. pose proof (Ha _ Hb) as Hlt. simpl in Hlt.
    cbn [_edge_order]. rewrite decide_True by done.
    rewrite decide_False by (intros [=]; lia). simpl. apply Z.leb_le. lia.
Qed.

Lemma position_ranks names :
  NoDup names → StronglySorted (λ a b, position a names < position b names) names.
Proof.
  induction 1 as [|n names Hn Hnd IH]; constructor.
  - assert (∀ a, a ∈ names → position a (n :: names) = 1 + position a names) as Hp.
    { intros a Ha. simpl. rewrite decide_False; [done|]. by intros ->. }
    clear Hnd. revert IH Hp. generalize (n :: names) as all. intros all IH Hp.
    assert (∀ l, (∀ a, a ∈ l → a ∈ names) → StronglySorted (λ a b, position a names < position b names) l →
      StronglySorted (λ a b, position a all < position b all) l) as Hgen.
    { intros l Hsub. induction 1 as [|x l Hl IHl Hx]; constructor.
      - apply IHl. intros a Ha. apply Hsub. by right.
      - rewrite Forall_forall in *. intros y Hy. rewrite !Hp by (apply Hsub; by (left + right)).
        specialize (Hx _ Hy). lia. }
    by apply Hgen.
  - apply Forall_forall. intros a Ha. simpl. rewrite decide_True by done.
    rewrite decide_False by (by intros ->).
    assert (∀ l, 0 <= position a l) as Hpos; [|specialize (Hpos names); lia].
    intros l. induction l as [|b l IHl]; simpl; [lia|]. case_decide; lia.
Qed.

(** A list selected from a sorted one, keeping the order. *)
Lemma pending_ranks (rank : string → Z) order tables pending :
  StronglySorted (λ a b, rank a < rank b) tables.*1 →
  StronglySorted (λ p q : string * list row, rank p.1 < rank q.1) (pending_inserts order tables pending).
Proof.
  unfold pending_inserts. induction tables as [|[r cols] tables IH]; csimpl; [constructor|].
  inv 1. destruct (pending r) as [|x rows]; [by apply IH|].
  constructor; [by apply IH|]. apply Forall_forall. intros [r' rows'] Hin. simpl.
  apply list_elem_of_omap in Hin as ([r1 cols1] & Hin & Hp). simpl in Hp.
  destruct (pending r1); simplify_eq. rewrite Forall_forall in *.
  match goal with H : ∀ x, x ∈ tables.*1 → _ |- _ => apply H end.
  apply list_elem_of_fmap. by exists (r', cols1).
Qed.

Lemma pending_elem order tables pending p :
  p ∈ pending_inserts order tables pending → p.1 ∈ tables.*1 ∧ p.2 = sort_by order (pending p.1).
Proof.
  intros ([r cols] & Hin & Hp)%list_elem_of_omap. simpl in Hp.
  destruct (pending r) eqn:E; simplify_eq/=. rewrite E. split; [|done].
  apply list_elem_of_fmap. by exists (r, cols).
Qed.

Lemma edge_order_refl x : _edge_order x x = true.
Proof. destruct (edge_order_total x x); done. Qed.

Lemma edge_order_cons v x y : _edge_order (v :: x) (v :: y) = _edge_order x y.
Proof. cbn [_edge_order]. by rewrite decide_True. Qed.

Lemma vertex_offer_in_order ph i x y :
  _vertex_order x y = true →
  _edge_order (VInt ph :: VInt i :: take 1 x) (VInt ph :: VInt i :: take 1 y) = true.
Proof.
  rewrite !edge_order_cons. destruct x as [|v x], y as [|w y]; simpl; try done.
  by case_decide.
Qed.

Lemma insert_block_sorted order tables pending :
  (∀ x y, order x y = true ∨ order y x = true) →
  (∀ x y z, order x y = true → order y z = true → order x z = true) →
  ∀ p, p ∈ pending_inserts order tables pending → StronglySorted (λ a b, order a b = true) p.2.
Proof.
  intros Ht Htr p [_ ->]%pending_elem. by apply sort_by_sorted.
Qed.

Lemma offers_app p q : offers (p ++ q) = offers p ++ offers q.
Proof. apply bind_app. Qed.

Lemma vertex_edge_disjoint r : r ∈ EDGE_COLUMNS.*1 → r ∉ VERTEX_COLUMNS.*1.
Proof.
  intros Hr Hv.
  assert (forallb (λ r, negb (bool_decide (r ∈ VERTEX_COLUMNS.*1))) EDGE_COLUMNS.*1 = true) as H
    by (vm_compute; reflexivity).
  rewrite forallb_forall in H. apply list_elem_of_In in Hr. apply H in Hr.
  by rewrite bool_decide_eq_true_2 in Hr.
Qed.

(** The inserts of a block offer the blocks of its relations, in table order. *)
Lemma insert_offers ss ps : Forall2 inserts ss ps → offers ss = ps ≫= λ p, offer p.1 <$> p.2.
Proof.
  induction 1 as [|s p ss ps (arrays & -> & Hu) _ IH]; [done|].
  change (offers (Insert p.1 arrays :: ss)) with ((offer p.1 <$> unnest arrays) ++ offers ss). csimpl. by rewrite IH, Hu.
Qed.

Lemma vertex_offer r x : r ∈ VERTEX_COLUMNS.*1 → offer r x = VInt 0 :: VInt (position r VERTEX_COLUMNS.*1) :: take 1 x.
Proof. intros Hr. unfold offer. by rewrite bool_decide_eq_true_2. Qed.

Lemma edge_offer r x : r ∈ EDGE_COLUMNS.*1 → offer r x = VInt 1 :: VInt (position r EDGE_COLUMNS.*1) :: x.
Proof. intros Hr. unfold offer. by rewrite bool_decide_eq_false_2 by (by apply vertex_edge_disjoint). Qed.

Lemma sorted_before {A} (R : A → A → Prop) l a b : StronglySorted R l → before l a b → R a b.
Proof.
  intros Hs (i & j & Hij & Hi & Hj). revert i j Hij Hi Hj. induction Hs as [|x l _ IH Hx]; intros i j Hij Hi Hj; [done|].
  destruct j as [|j]; [lia|]. destruct i as [|i]; simpl in *.
  - simplify_eq. rewrite Forall_forall in Hx. apply Hx. by eapply list_elem_of_lookup_2.
  - apply (IH i j); [lia|done..].
Qed.

Lemma block_first i y j z : i < j → _edge_order (VInt i :: y) (VInt j :: z) = true.
Proof. intros Hlt. cbn [_edge_order]. rewrite decide_False by (intros [=]; lia). simpl. apply Z.leb_le. lia. Qed.

Lemma replaced_relations_sorted documents :
  StronglySorted (λ r s, String.leb r s = true) (replaced_relations documents) ∧
  NoDup (replaced_relations documents).
Proof.
  unfold replaced_relations, sort_strings. split.
  - apply sort_by_sorted; eauto with loader.
  - rewrite sort_by_perm. apply NoDup_unique.
Qed.

Section insert_order.
Context `{CommonRuntime}.

Lemma vertex_offers_in_order data_type documents :
  in_order (vertex_inserts data_type documents ≫= λ p, offer p.1 <$> p.2).
Proof.
  apply (blocks_in_order (λ p, position p.1 VERTEX_COLUMNS.*1) _ 0).
  - intros p Hp. destruct (pending_elem _ _ _ _ Hp) as [Hr _]. split.
    + eapply StronglySorted_fmap; [intros x y; rewrite !vertex_offer by done; apply vertex_offer_in_order|].
      apply (insert_block_sorted _ _ _ vertex_order_total vertex_order_trans _ Hp).
    + intros x (y & -> & _)%list_elem_of_fmap. rewrite vertex_offer by done. eauto.
  - apply (pending_ranks (λ r, position r VERTEX_COLUMNS.*1)), position_ranks. decide_now.
Qed.

Lemma edge_offers_in_order data_type documents :
  in_order (edge_inserts data_type documents ≫= λ p, offer p.1 <$> p.2).
Proof.
  apply (blocks_in_order (λ p, position p.1 EDGE_COLUMNS.*1) _ 1).
  - intros p Hp. destruct (pending_elem _ _ _ _ Hp) as [Hr _]. split.
    + apply (StronglySorted_fmap (λ a b, _edge_order a b = true));
        [intros x y Hxy; by rewrite !edge_offer, !edge_order_cons by done|].
      apply (insert_block_sorted _ _ _ edge_order_total edge_order_trans _ Hp).
    + intros x (y & -> & _)%list_elem_of_fmap. rewrite edge_offer by done. eauto.
  - apply (pending_ranks (λ r, position r EDGE_COLUMNS.*1)), position_ranks. decide_now.
Qed.

Lemma deletes_offer_nothing documents rs : offers (scoped_delete_of documents <$> rs) = [].
Proof.
  induction rs as [|r rs IH]; [done|].
  change (offers ([scoped_delete_of documents r] ++ (scoped_delete_of documents <$> rs)) = []).
  rewrite offers_app, IH, app_nil_r. unfold scoped_delete_of. by destruct (od_get r _DOCUMENT_SCOPE) as [[? ?]|].
Qed.

(** The offers of a plan are those of its vertex inserts, then those of its edge inserts. *)
Lemma plan_offers data_type documents plan :
  write_plan data_type documents = Ok plan →
  offers plan = (vertex_inserts data_type documents ≫= λ p, offer p.1 <$> p.2) ++
                (edge_inserts data_type documents ≫= λ p, offer p.1 <$> p.2).
Proof.
  intros Hplan. destruct (write_plan_shape data_type documents) as (vs & es & Hp & Hv & He).
  rewrite Hp in Hplan. injection Hplan as <-. rewrite !offers_app, (insert_offers _ _ Hv), (insert_offers _ _ He).
  by rewrite deletes_offer_nothing.
Qed.

Lemma plan_in_order data_type documents plan : write_plan data_type documents = Ok plan → in_order (offers plan).
Proof.
  intros ->%plan_offers. apply StronglySorted_app_intro; [apply vertex_offers_in_order|apply edge_offers_in_order|].
  intros x y (p & (x' & -> & _)%list_elem_of_fmap & [Hp _]%pending_elem)%list_elem_of_bind
    (q & (y' & -> & _)%list_elem_of_fmap & [Hq _]%pending_elem)%list_elem_of_bind.
  rewrite vertex_offer, edge_offer by done. by apply block_first.
Qed.

Lemma elem_of_offers order tables pending v :
  v ∈ pending_inserts order tables pending ≫= (λ p, offer p.1 <$> p.2) ↔
  ∃ r x, r ∈ tables.*1 ∧ x ∈ pending r ∧ v = offer r x.
Proof.
  rewrite list_elem_of_bind. split.
  - intros (p & (x & -> & Hx)%list_elem_of_fmap & Hp). destruct (pending_elem _ _ _ _ Hp) as [Hr Hrows].
    exists p.1, x. split_and!; [done| |done]. rewrite Hrows in Hx. by apply elem_of_sort_by in Hx.
  - intros (r & x & ([r' cols] & -> & Hr)%list_elem_of_fmap & Hx & ->). cbn [fst] in *.
    exists (r', sort_by order (pending r')). split; [apply list_elem_of_fmap; exists x; split; [done|]; by apply elem_of_sort_by|].
    apply list_elem_of_omap. exists (r', cols). split; [done|]. simpl. destruct (pending r'); [by apply elem_of_nil in Hx|done].
Qed.

Lemma rows_of_table {V : Type} (P : string → list row → Prop) (tables : list (string * V)) m r x :
  map_Forall (λ r rows, r ∈ tables.*1 ∧ P r rows) m → x ∈ rows_of m r → r ∈ tables.*1.
Proof. intros Hm (rows & Hr & _)%rows_of_elem. exact (proj1 (Hm _ _ Hr)). Qed.

End insert_order.

Lemma derived_rows_fit_witness :
  let data := [("genres", JList [JStr "Jazz"])] in
  let g := derive_document (H:=sample_runtime) "releases" "7" data in
  [VText "7"; VText "Jazz"] ∈ rows_of (edges g) "in_genre" ∧
  column_value "in_genre" "release_id" [VText "7"; VText "Jazz"] = Some (VText "7").
Proof.
  intros data g. assert ([VText "7"; VText "Jazz"] ∈ rows_of (edges g) "in_genre") as Hin by decide_now.
  split; [exact Hin|].
  refine (proj1 (proj2 (proj2 (proj2 (derived_rows_fit (H:=sample_runtime) "releases" "7" data)))
    "in_genre" "release_id" false _ eq_refl Hin)).
Defined.
