(* ===== verification/GraphEffect.v ===== *)
(** * What the graph statements do to the tables: [graph_writer.py]

    The plan of [GraphWriter] executed against the tables: the table contract of a batch and
    its refinement, replacement of exactly the documents' own rows, idempotence, and the
    purge of vanished documents. *)

From S2P Require Import Prelude Json Runtime Media Derivation GraphWriter.

(** ** What a batch does to one table *)

(** The first row of a list under a key: the row a conflict-free insert would keep. *)
Fixpoint first_under (key : row → list val) (k : list val) (rows : list row) : option row :=
  match rows with
  | [] => None
  | x :: rows => if decide (key x = k) then Some x else first_under key k rows
  end.

Lemma first_under_Some key k rows x : first_under key k rows = Some x → x ∈ rows ∧ key x = k.
Proof.
  induction rows as [|y rows IH]; simpl; [done|]. case_decide; intros Hx; simplify_eq.
  - by split; [left|].
  - destruct (IH Hx). by split; [right|].
Qed.

Lemma first_under_None key k rows : first_under key k rows = None ↔ ∀ x, x ∈ rows → key x ≠ k.
Proof.
  induction rows as [|y rows IH]; simpl; [by split; [set_solver|]|].
  case_decide; split; try done.
  - intros Hx. by destruct (Hx y); [left|].
  - intros Hn x [->|Hx]%elem_of_cons; [done|]. by apply IH.
  - intros Hx. apply IH. intros x Hin. apply Hx. by right.
Qed.

Section effect.
Context (key_of : string → row → list val).

Lemma insert_rows_lookup r rows t k :
  insert_rows key_of r rows t !! k =
    match t !! k with Some x => Some x | None => first_under (key_of r) k rows end.
Proof.
  unfold insert_rows. revert t. induction rows as [|x rows IH]; intros t; simpl; [by destruct (t !! k)|].
  rewrite IH. unfold insert_row. destruct (t !! key_of r x) as [y|] eqn:Hy.
  - case_decide; [|done]. subst. by rewrite Hy.
  - destruct (decide (key_of r x = k)) as [<-|Hne].
    + by rewrite lookup_insert_eq, Hy.
    + by rewrite lookup_insert_ne by done.
Qed.

Lemma delete_rows_lookup (p : row → bool) (t : table) k :
  delete_rows p t !! k = match t !! k with Some x => if p x then None else Some x | None => None end.
Proof.
  unfold delete_rows. rewrite map_lookup_filter. destruct (t !! k) as [x|]; [|done]. simpl.
  case_guard as Hg; simpl in *; destruct (p x); done.
Qed.

Definition step_on (r : string) (t : table) (s : stmt) : table :=
  match s with
  | Insert r' arrays => if decide (r' = r) then insert_rows key_of r (unnest arrays) t else t
  | ScopedDelete r' column source_scoped ids =>
      if decide (r' = r) then delete_rows (in_scope r column source_scoped ids) t else t
  end.

Lemma tbl_run plan db r : tbl (run key_of plan db) r = foldl (step_on r) (tbl db r) plan.
Proof.
  revert db. induction plan as [|s plan IH]; intros db; [done|]. simpl. rewrite IH. f_equal.
  unfold tbl. destruct s as [r' a|r' c ss ids]; simpl; case_decide; subst;
    by rewrite ?lookup_insert_eq, ?lookup_insert_ne.
Qed.

Lemma inserts_elsewhere r t ss ps :
  Forall2 inserts ss ps → r ∉ ps.*1 → foldl (step_on r) t ss = t.
Proof.
  induction 1 as [|s p ss ps (a & -> & _) _ IH] in t |- *; csimpl; [done|].
  intros [Hr Hps]%not_elem_of_cons. rewrite decide_False by done. by apply IH.
Qed.

Lemma pending_names order tables pending r :
  r ∈ (pending_inserts order tables pending).*1 → r ∈ tables.*1.
Proof. intros (p & -> & Hp)%list_elem_of_fmap. by apply pending_elem in Hp as [? _]. Qed.

Lemma inserts_on order tables pending r t ss :
  NoDup tables.*1 → r ∈ tables.*1 → Forall2 inserts ss (pending_inserts order tables pending) →
  foldl (step_on r) t ss = insert_rows key_of r (sort_by order (pending r)) t.
Proof.
  intros Hnd. revert ss. induction tables as [|[r' cols] tables IH]; intros ss; csimpl in *; [set_solver|].
  apply NoDup_cons in Hnd as [Hr' Hnd]. unfold pending_inserts. csimpl.
  fold (pending_inserts order tables pending).
  intros [->|Hr]%elem_of_cons HF.
  - assert (r' ∉ (pending_inserts order tables pending).*1) as Hout by (intros ?%pending_names; done).
    destruct (pending r') eqn:Hp; [by eapply inserts_elsewhere|].
    inv HF. match goal with H : inserts _ _ |- _ => destruct H as (a & -> & Hu) end. simpl in *.
    rewrite decide_True by done. rewrite Hu. by eapply inserts_elsewhere.
  - destruct (pending r') eqn:Hp; [by apply IH|].
    inv HF. match goal with H : inserts _ _ |- _ => destruct H as (a & -> & Hu) end. simpl in *.
    rewrite decide_False by (by intros ->). by apply IH.
Qed.

(** The rows of [r] the documents' replacements drop. *)
Definition dropped (documents : list (string * DocumentGraph)) (r : string) (x : row) : bool :=
  match od_get r _DOCUMENT_SCOPE with
  | Some (column, source_scoped) =>
      in_scope r column source_scoped (sort_strings (replaced_ids documents r)) x
  | None => false
  end.

Lemma delete_nothing (p : row → bool) (t : table) : (∀ x, p x = false) → delete_rows p t = t.
Proof.
  intros Hp. apply map_eq. intros k. rewrite delete_rows_lookup.
  destruct (t !! k); [|done]. by rewrite Hp.
Qed.

Lemma in_scope_nil r c ss x : in_scope r c ss [] x = false.
Proof. unfold in_scope. rewrite bool_decide_eq_false_2; [done|]. csimpl. apply not_elem_of_nil. Qed.

Lemma step_delete documents r r' t :
  step_on r t (scoped_delete_of documents r') =
    if decide (r' = r) then delete_rows (dropped documents r) t else t.
Proof.
  unfold scoped_delete_of, dropped. case_decide as Hr.
  - subst. destruct (od_get r _DOCUMENT_SCOPE) as [[c ss]|]; cbn [step_on]; rewrite decide_True by done;
      [done|]. rewrite !delete_nothing; [done|done|intros; apply in_scope_nil].
  - destruct (od_get r' _DOCUMENT_SCOPE) as [[c ss]|]; cbn [step_on]; by rewrite decide_False.
Qed.

Lemma deletes_elsewhere documents r t rs :
  r ∉ rs → foldl (step_on r) t (scoped_delete_of documents <$> rs) = t.
Proof.
  induction rs as [|r' rs IH] in t |- *; [done|]. intros [Hr Hrs]%not_elem_of_cons.
  cbn [fmap list_fmap foldl]. rewrite step_delete, decide_False by done. by apply IH.
Qed.

Lemma deletes_on documents r t rs :
  NoDup rs → (r ∉ rs → replaced_ids documents r = []) →
  foldl (step_on r) t (scoped_delete_of documents <$> rs) = delete_rows (dropped documents r) t.
Proof.
  intros Hnd Hout. destruct (decide (r ∈ rs)) as [Hin|Hni].
  - clear Hout. induction Hnd as [|r' rs Hr' Hnd IH] in t, Hin |- *; [set_solver|].
    cbn [fmap list_fmap foldl]. rewrite step_delete. case_decide as Hd.
    + subst r'. by apply deletes_elsewhere.
    + apply IH. apply elem_of_cons in Hin as [?|?]; [congruence|done].
  - rewrite deletes_elsewhere, delete_nothing; [done| |done]. intros x. unfold dropped.
    rewrite (Hout Hni). destruct (od_get _ _) as [[c ss]|]; [|done]. apply in_scope_nil.
Qed.
End effect.

Lemma vertex_names_NoDup : NoDup VERTEX_COLUMNS.*1.
Proof. decide_now. Qed.
Lemma edge_names_NoDup : NoDup EDGE_COLUMNS.*1.
Proof. decide_now. Qed.

Section contract.
Context `{CommonRuntime} (key_of : string → row → list val).

(** What a batch promises of one table: the rows its documents replace are dropped, then
    the batch's rows go in, a key that is taken keeping its row. *)
Definition write_spec (data_type : string) (documents : list (string * dict)) (r : string)
    (t : table) : table :=
  let derived := derived_documents data_type documents in
  if decide (r ∈ VERTEX_COLUMNS.*1) then
    insert_rows key_of r (sort_by _vertex_order (merged vertices derived.*2 r)) t
  else if decide (r ∈ EDGE_COLUMNS.*1) then
    insert_rows key_of r (sort_by _edge_order (merged edges derived.*2 r))
      (delete_rows (dropped derived r) t)
  else t.

Lemma replaced_is_edge data_type data_id data r :
  r ∈ replaced (derive_document data_type data_id data) → r ∈ EDGE_COLUMNS.*1.
Proof.
  intros [_ [x Hr%od_get_Some_elem]]%replaced_in_scope.
  assert (forallb (λ s, bool_decide (s ∈ EDGE_COLUMNS.*1)) _DOCUMENT_SCOPE.*1 = true) as Hall
    by (vm_compute; reflexivity).
  rewrite forallb_forall in Hall. eapply bool_decide_eq_true, Hall, list_elem_of_In, list_elem_of_fmap.
  by exists (r, x).
Qed.

Lemma no_replaced_ids data_type documents r :
  r ∉ replaced_relations (derived_documents data_type documents) →
  replaced_ids (derived_documents data_type documents) r = [].
Proof.
  intros Hr. apply elem_of_nil_inv. intros i (da & Hin & Hre)%elem_of_replaced_ids.
  apply Hr, elem_of_replaced_relations. eauto.
Qed.

Lemma write_tables data_type documents db :
  ∃ db', write_document_graph key_of data_type documents db = Ok db' ∧
    ∀ r, tbl db' r = write_spec data_type documents r (tbl db r).
Proof.
  destruct (write_plan_shape data_type documents) as (vs & es & Hp & Hv & He).
  unfold write_document_graph. rewrite Hp. eexists. split; [done|]. intros r.
  rewrite tbl_run, !foldl_app. rewrite deletes_on;
    [|apply replaced_relations_sorted|apply no_replaced_ids].
  unfold write_spec. case_decide as Hrv; [|case_decide as Hre].
  - rewrite (inserts_on key_of _ _ _ _ _ _ vertex_names_NoDup Hrv Hv).
    rewrite (inserts_elsewhere key_of _ _ _ _ He).
    2: { intros Hr%pending_names. by apply vertex_edge_disjoint in Hr. }
    rewrite delete_nothing; [done|]. intros x. unfold dropped.
    rewrite no_replaced_ids.
    + destruct (od_get _ _) as [[c ss]|]; [|done]. apply in_scope_nil.
    + intros (i & da & _ & Hr%replaced_is_edge)%elem_of_replaced_relations.
      by apply vertex_edge_disjoint in Hr.
  - rewrite (inserts_elsewhere key_of _ _ _ _ Hv) by (by intros ?%pending_names).
    by rewrite (inserts_on key_of _ _ _ _ _ _ edge_names_NoDup Hre He).
  - rewrite (inserts_elsewhere key_of _ _ _ _ Hv) by (by intros ?%pending_names).
    rewrite (inserts_elsewhere key_of _ _ _ _ He) by (by intros ?%pending_names).
    apply delete_nothing. intros x. unfold dropped. rewrite no_replaced_ids.
    + destruct (od_get _ _) as [[c ss]|]; [|done]. apply in_scope_nil.
    + by intros (i & da & _ & Hr%replaced_is_edge)%elem_of_replaced_relations.
Qed.

(** C33 The writer implements its table contract: the statement sequence of one batch,
    vertices, then document-scoped deletes, then edges, run against any database, always
    completes and has on every table exactly the effect of the specification
    [write_spec]. *)
Theorem write_document_graph_refines data_type documents db :
  ∃ db', write_document_graph key_of data_type documents db = Ok db' ∧
    ∀ r, tbl db' r = write_spec data_type documents r (tbl db r).
Proof. apply write_tables. Qed.

Lemma elem_of_dropped data_type documents r x :
  dropped (derived_documents data_type documents) r x = true ↔
  ∃ column source_scoped data_id data,
    od_get r _DOCUMENT_SCOPE = Some (column, source_scoped) ∧ (data_id, data) ∈ documents ∧
    r ∈ replaced (derive_document data_type data_id data) ∧
    column_value r column x = Some (VText data_id) ∧
    (source_scoped = true → column_value r "source" x = Some (VText DISCOGS_SOURCE)).
Proof.
  unfold dropped. destruct (od_get r _DOCUMENT_SCOPE) as [[c ss]|] eqn:Hsc; [|naive_solver].
  unfold in_scope. rewrite andb_true_iff, orb_true_iff, negb_true_iff, !bool_decide_eq_true.
  rewrite list_elem_of_fmap. split.
  - intros [(i & Hv & Hi) Hss]. unfold sort_strings in Hi. rewrite elem_of_sort_by in Hi.
    apply elem_of_replaced_ids in Hi as (da & Hin & Hr). exists c, ss, i, da.
    split_and!; [done..|]. intros ->. by destruct Hss.
  - intros (c' & ss' & i & da & [= <- <-] & Hin & Hr & Hv & Hss). split.
    + exists i. split; [done|]. unfold sort_strings. rewrite elem_of_sort_by.
      apply elem_of_replaced_ids. eauto.
    + destruct ss; auto.
Qed.

Lemma write_spec_edge data_type documents r t k :
  r ∈ EDGE_COLUMNS.*1 →
  write_spec data_type documents r t !! k =
    match t !! k with
    | Some x => if dropped (derived_documents data_type documents) r x
        then first_under (key_of r) k (sort_by _edge_order (merged edges (derived_documents data_type documents).*2 r))
        else Some x
    | None => first_under (key_of r) k (sort_by _edge_order (merged edges (derived_documents data_type documents).*2 r))
    end.
Proof.
  intros Hr. unfold write_spec. rewrite decide_False by (by apply vertex_edge_disjoint).
  rewrite decide_True by done. rewrite insert_rows_lookup, delete_rows_lookup.
  destruct (t !! k); [|done]. by destruct (dropped _ _ _).
Qed.

(** C21 A batch replaces exactly what its documents own.  On each edge table: a row that
    belongs to no document of the batch that replaces the relation (another document's
    row, or a shared row of another source) is kept as it was; a row left in the table
    that does belong to one of them is a row that document derives now, so rows it no
    longer states are gone; and every row the batch derives has its key in the table. *)
Theorem write_replaces_exactly data_type documents db :
  ∃ db', write_document_graph key_of data_type documents db = Ok db' ∧
  ∀ r, r ∈ EDGE_COLUMNS.*1 →
  (∀ k x, tbl db r !! k = Some x →
     (∀ column source_scoped data_id data,
        od_get r _DOCUMENT_SCOPE = Some (column, source_scoped) → (data_id, data) ∈ documents →
        r ∈ replaced (derive_document data_type data_id data) →
        column_value r column x = Some (VText data_id) →
        source_scoped = true ∧ column_value r "source" x ≠ Some (VText DISCOGS_SOURCE)) →
     tbl db' r !! k = Some x) ∧
  (∀ k x column source_scoped data_id data,
     od_get r _DOCUMENT_SCOPE = Some (column, source_scoped) → (data_id, data) ∈ documents →
     r ∈ replaced (derive_document data_type data_id data) →
     tbl db' r !! k = Some x → column_value r column x = Some (VText data_id) →
     (source_scoped = true → column_value r "source" x = Some (VText DISCOGS_SOURCE)) →
     ∃ data', (data_id, data') ∈ documents ∧
       x ∈ rows_of (edges (derive_document data_type data_id data')) r ∧ key_of r x = k) ∧
  (∀ x data_id data, (data_id, data) ∈ documents →
     x ∈ rows_of (edges (derive_document data_type data_id data)) r →
     is_Some (tbl db' r !! key_of r x)).
Proof.
  destruct (write_tables data_type documents db) as (db' & Hw & Ht).
  exists db'. split; [done|]. intros r Hr.
  assert (∀ k, tbl db' r !! k = _) as Hl by (intros k; rewrite Ht; by apply write_spec_edge).
  split_and!.
  - intros k x Hx Hout. rewrite Hl, Hx. destruct (dropped _ _ _) eqn:Hd; [|done].
    apply elem_of_dropped in Hd as (c & ss & i & da & Hsc & Hin & Hre & Hv & Hss).
    destruct (Hout c ss i da) as [-> Hn]; try done. by destruct Hn; apply Hss.
  - intros k x c ss i da Hsc Hin Hre Hx Hv Hss. rewrite Hl in Hx.
    assert (first_under (key_of r) k (sort_by _edge_order
      (merged edges (derived_documents data_type documents).*2 r)) = Some x) as Hf.
    { destruct (tbl db r !! k) as [y|]; [|done]. destruct (dropped _ _ _) eqn:Hd; [done|]. simplify_eq.
      rewrite (proj2 (elem_of_dropped _ _ _ _)) in Hd; [done|]. naive_solver. }
    apply first_under_Some in Hf as [Hf Hk]. rewrite elem_of_sort_by in Hf.
    apply elem_of_merged in Hf as (i' & da' & Hin' & Hx').
    destruct (derived_row_scoped data_type i' da' _ _ _ _ Hsc Hx') as [Hv' _].
    assert (i = i') as <- by congruence. eauto.
  - intros x i da Hin Hx. rewrite Hl.
    destruct (first_under (key_of r) (key_of r x) _) eqn:Hf.
    + destruct (tbl db r !! _); [destruct (dropped _ _ _)|]; eauto.
    + rewrite first_under_None in Hf. destruct (Hf x); [|done]. rewrite elem_of_sort_by.
      apply elem_of_merged. eauto.
Qed.

Lemma write_spec_idempotent data_type documents r t :
  write_spec data_type documents r (write_spec data_type documents r t) =
  write_spec data_type documents r t.
Proof.
  apply map_eq. intros k. destruct (decide (r ∈ VERTEX_COLUMNS.*1)) as [Hv|Hv].
  - unfold write_spec. rewrite !decide_True by done. rewrite !insert_rows_lookup.
    by repeat (case_match; simplify_eq).
  - destruct (decide (r ∈ EDGE_COLUMNS.*1)) as [He|He].
    + rewrite write_spec_edge, !write_spec_edge by done.
      by repeat (case_match; simplify_eq).
    + unfold write_spec. by rewrite !decide_False.
Qed.

(** Redelivery is safe: a batch written a second time, to the tables the first write
    left, leaves every table as it is.  AMQP redelivers, so a document is written again
    whenever its acknowledgement is lost. *)
Theorem write_document_graph_idempotent data_type documents db :
  ∃ db' db'', write_document_graph key_of data_type documents db = Ok db' ∧
    write_document_graph key_of data_type documents db' = Ok db'' ∧
    ∀ r, tbl db'' r = tbl db' r.
Proof.
  destruct (write_tables data_type documents db) as (db' & Hw & Ht).
  destruct (write_tables data_type documents db') as (db'' & Hw' & Ht').
  exists db', db''. split_and!; [done..|]. intros r.
  rewrite Ht', Ht. apply write_spec_idempotent.
Qed.
End contract.

(** ** The purge of documents that disappeared *)

Section purge.
Context (key_of : string → row → list val).

Definition purge_delete_of (stale : list string) (r : string) : stmt :=
  match od_get r _DOCUMENT_SCOPE with
  | Some (column, source_scoped) => ScopedDelete r column source_scoped stale
  | None => ScopedDelete r "" false []
  end.

Lemma purge_scope_known data_type r :
  r ∈ default [] (od_get data_type _PURGE_SCOPE) → is_Some (od_get r _DOCUMENT_SCOPE).
Proof.
  destruct (od_get data_type _PURGE_SCOPE) as [rs|] eqn:Hd; [|intros []%elem_of_nil].
  change (default [] (Some rs)) with rs.
  apply od_get_Some_elem in Hd. intros Hr.
  assert (forallb (λ p, forallb (λ r, match od_get r _DOCUMENT_SCOPE with Some _ => true | None => false end)
    p.2) _PURGE_SCOPE = true) as Hall by (vm_compute; reflexivity).
  rewrite forallb_forall in Hall. apply list_elem_of_In in Hd. specialize (Hall _ Hd).
  rewrite forallb_forall in Hall. apply list_elem_of_In in Hr. specialize (Hall _ Hr). cbv beta in Hall.
  destruct (od_get r _DOCUMENT_SCOPE); [by eexists|done].
Qed.

Lemma purge_plan_ok data_type stale :
  purge_plan data_type stale = Ok (purge_delete_of stale <$> default [] (od_get data_type _PURGE_SCOPE)).
Proof.
  apply map_result_ok. intros r [[c ss] Hr]%purge_scope_known. unfold purge_delete_of. by rewrite Hr.
Qed.

Definition purged (stale : list string) (r : string) (x : row) : bool :=
  match od_get r _DOCUMENT_SCOPE with
  | Some (column, source_scoped) => in_scope r column source_scoped stale x
  | None => false
  end.

Lemma step_purge stale r r' t :
  step_on key_of r t (purge_delete_of stale r') =
    if decide (r' = r) then delete_rows (purged stale r) t else t.
Proof.
  unfold purge_delete_of, purged. case_decide as Hr.
  - subst. destruct (od_get r _DOCUMENT_SCOPE) as [[c ss]|]; cbn [step_on]; rewrite decide_True by done;
      [done|]. rewrite !delete_nothing; [done|done|intros; apply in_scope_nil].
  - destruct (od_get r' _DOCUMENT_SCOPE) as [[c ss]|]; cbn [step_on]; by rewrite decide_False.
Qed.

Lemma delete_rows_idem (p : row → bool) (t : table) : delete_rows p (delete_rows p t) = delete_rows p t.
Proof.
  apply map_eq. intros k. rewrite !delete_rows_lookup. destruct (t !! k) as [x|]; [|done].
  destruct (p x) eqn:E; [done|by rewrite E].
Qed.

Lemma purges_on stale r t rs :
  foldl (step_on key_of r) t (purge_delete_of stale <$> rs) =
    if decide (r ∈ rs) then delete_rows (purged stale r) t else t.
Proof.
  induction rs as [|r' rs IH] in t |- *; [done|].
  cbn [fmap list_fmap foldl]. rewrite step_purge, IH. destruct (decide (r' = r)) as [->|Hne].
  - rewrite (decide_True (P := r ∈ r :: rs)) by (by left). case_decide; [apply delete_rows_idem|done].
  - destruct (decide (r ∈ rs)); [by rewrite decide_True by (by right)|].
    rewrite decide_False; [done|]. apply not_elem_of_cons. by split.
Qed.
End purge.

Section purge_contract.
Context `{CommonRuntime} (key_of : string → row → list val).

Lemma purge_scope_of data_type r :
  (r ∈ default [] (od_get data_type _PURGE_SCOPE) ↔
   ∃ data_id data, r ∈ replaced (derive_document data_type data_id data)).
Proof.
  split; [|intros (i & da & Hr); by apply replaced_in_scope in Hr as [? _]].
  intros Hr. exists "1", [("companies", JObj [])].
  destruct (decide (data_type = "releases")) as [->|Hrel];
    [|destruct (decide (data_type = "masters")) as [->|Hmas];
      [|destruct (decide (data_type = "artists")) as [->|Hart]]].
  - change (r ∈ release_replaced (JObj [])). unfold release_replaced. cbn [is_dict].
    revert Hr. change (default [] _) with
      ["by_artist"; "on_label"; "derived_from"; "in_genre"; "in_style"; "credited_on";
       "credited_to"; "issued_on"; "track_credited_on"; "track_by_artist"].
    rewrite !elem_of_cons, elem_of_nil, !elem_of_union, !elem_of_singleton. tauto.
  - change (r ∈ ({["master_by_artist"; "master_in_genre"; "master_in_style"]} : gset string)).
    revert Hr. change (default [] _) with ["master_by_artist"; "master_in_genre"; "master_in_style"].
    rewrite !elem_of_cons, elem_of_nil, !elem_of_union, !elem_of_singleton. tauto.
  - change (r ∈ ({["alias_of"]} : gset string)).
    revert Hr. change (default [] _) with ["alias_of"].
    by rewrite list_elem_of_singleton, elem_of_singleton.
  - exfalso. revert Hr. unfold _PURGE_SCOPE. cbn [od_get]. rewrite !decide_False by done.
    case_decide; apply not_elem_of_nil.
Qed.

(** The end-of-run purge takes out of the graph exactly the vanished documents' rows:
    it completes for every data type, the relations it touches are exactly those a
    document of that type can replace, and on each of them a row is removed iff its
    document column names a stale document (and, on a shared relation, the row is a
    Discogs row).  Every other relation is untouched. *)
Theorem purge_document_graph_exact data_type stale db :
  ∃ db', purge_document_graph key_of data_type stale db = Ok db' ∧
  ∀ r k x, tbl db' r !! k = Some x ↔
    tbl db r !! k = Some x ∧
    ~ ((∃ data_id data, r ∈ replaced (derive_document data_type data_id data)) ∧
       ∃ column source_scoped i,
         od_get r _DOCUMENT_SCOPE = Some (column, source_scoped) ∧ i ∈ stale ∧
         column_value r column x = Some (VText i) ∧
         (source_scoped = false ∨ column_value r "source" x = Some (VText DISCOGS_SOURCE))).
Proof.
  unfold purge_document_graph. rewrite purge_plan_ok. eexists. split; [done|]. intros r k x.
  rewrite (tbl_run key_of), purges_on, <-purge_scope_of. case_decide as Hr.
  2: { split; [|tauto]. intros ?. split; [done|]. by intros [? _]. }
  rewrite delete_rows_lookup. destruct (tbl db r !! k) as [y|]; [|naive_solver].
  assert (purged stale r y = true ↔ ∃ column source_scoped i,
    od_get r _DOCUMENT_SCOPE = Some (column, source_scoped) ∧ i ∈ stale ∧
    column_value r column y = Some (VText i) ∧
    (source_scoped = false ∨ column_value r "source" y = Some (VText DISCOGS_SOURCE))) as Hp.
  { unfold purged. destruct (od_get r _DOCUMENT_SCOPE) as [[c ss]|]; [|naive_solver].
    unfold in_scope. rewrite andb_true_iff, orb_true_iff, negb_true_iff, !bool_decide_eq_true,
      list_elem_of_fmap. naive_solver. }
  destruct (purged stale r y) eqn:E; [naive_solver|].
  split; [intros [= <-]; split; [done|]; intros [_ Hn]; by apply Hp in Hn|by intros [[= <-] _]].
Qed.
End purge_contract.

(** ** An instance *)

(** A key function that keeps every column, as on a relation whose key is the whole row. *)
Definition whole_row_key (r : string) (x : row) : list val := x.

Lemma write_replaces_exactly_witness :
  ∃ db', write_document_graph (H:=sample_runtime) whole_row_key "releases"
      [("7", [("genres", JList [JStr "Jazz"])])] ∅ = Ok db' ∧
    is_Some (tbl db' "in_genre" !! [VText "7"; VText "Jazz"]).
Proof.
  destruct (write_replaces_exactly (H:=sample_runtime) whole_row_key "releases"
    [("7", [("genres", JList [JStr "Jazz"])])] ∅) as (db' & Hw & Hr).
  exists db'. split; [exact Hw|].
  refine (proj2 (proj2 (Hr "in_genre" _)) [VText "7"; VText "Jazz"] "7" [("genres", JList [JStr "Jazz"])] _ _).
  - decide_now.
  - left.
  - decide_now.
Defined.
