(* ===== verification/Entities.v ===== *)
(** * Entity rows: [batch_writer.py] and [record_persistence.py]

    The loader's database is the four entity tables, the alias service's tables and the
    graph tables.  Each write runs in one transaction: a body that raises leaves the store
    as it was.  [NOW()] is the transaction's time, one value per transaction. *)

From S2P Require Import Prelude Json Runtime Media Identity Derivation GraphWriter GraphEffect.
From Stdlib Require Import SpecFloat.

(** A row of [artists], [labels], [masters] or [releases]; only [releases] has a [media]
    column, the other tables keep [None] there.  [None] is SQL [NULL]. *)
Record entity := {
  hash : option string;
  data : dict;
  media : option dict;
  gm_item_id : option native_id;
  updated_at : Z;
}.

(** [BatchRecord]. *)
Record BatchRecord := { data_id : string; payload : dict; sha256 : string }.

Record BatchWriteResult := {
  unchanged_ids : gset string;
  media_backfilled_ids : gset string;
  identity_backfilled_ids : gset string;
}.

Definition has_media (data_type : string) : bool := bool_decide (data_type = "releases").

Abbreviation entity_table := (gmap string entity).

(** ** The statements on one entity table *)

Definition touch (now : Z) (e : entity) : entity :=
  {| hash := hash e; data := data e; media := media e; gm_item_id := gm_item_id e; updated_at := now |}.

(** [UPDATE ... SET updated_at = NOW() WHERE data_id = ANY(ids)] *)
Definition refresh_rows (now : Z) (ids : list string) (t : entity_table) : entity_table :=
  foldr (alter (touch now)) t ids.

Definition set_media (now : Z) (m : dict) (e : entity) : entity :=
  {| hash := hash e; data := data e; media := Some m; gm_item_id := gm_item_id e; updated_at := now |}.

Definition set_identity (now : Z) (n : native_id) (e : entity) : entity :=
  {| hash := hash e; data := data e; media := media e; gm_item_id := Some n; updated_at := now |}.

(** [_backfill]: one column of the rows that exist. *)
Definition _backfill {A} (set : A → entity → entity) (values : list (A * string)) (t : entity_table)
    : entity_table :=
  foldl (λ t '(v, id), alter (set v) id t) t values.

(** A row of the upsert's arrays; [None] for the media of a table without that column. *)
Record upsert_row := {
  u_hash : string;
  u_data_id : string;
  u_data : dict;
  u_media : option dict;
  u_native : native_id;
}.

(** [_upsert]: every column of a taken key is overwritten. *)
Definition _upsert (now : Z) (rows : list upsert_row) (t : entity_table) : entity_table :=
  foldl (λ t r, <[u_data_id r := {| hash := Some (u_hash r); data := u_data r; media := u_media r;
                                   gm_item_id := Some (u_native r); updated_at := now |}]> t) t rows.

(** [{msg.data_id: msg for msg in messages}.values()]: the last delivery of each document,
    at its first position. *)
Definition latest (messages : list BatchRecord) : list BatchRecord :=
  (foldl (λ d m, od_set (data_id m) m d) [] messages).*2.

Section entities.
Context `{CommonRuntime} {IS : IdentityService} (key_of : string → row → list val).

(** The loader's resolver is [media_for_release]. *)
Definition media_resolver (d : dict) : dict := media_for_release d.

Record store := {
  entities : gmap string entity_table;
  aliases : alias_db;
  graph : graph_db;
}.

Definition table_of (st : store) (data_type : string) : entity_table := default ∅ (entities st !! data_type).

Definition set_table (data_type : string) (t : entity_table) (st : store) : store :=
  {| entities := <[data_type := t]> (entities st); aliases := aliases st; graph := graph st |}.

(** [conn.transaction()]: commit what the body did, or keep the store and raise. *)
Definition transaction {A} (st : store) (body : store → result (store * A)) : store * result A :=
  match body st with
  | Ok (st', a) => (st', Ok a)
  | Raise e => (st, Raise e)
  end.

(** ** One batch *)

(** The loop's accumulators over [latest]. *)
Record gate := {
  records_to_upsert : list upsert_row;
  changed_documents : list (string * dict);
  g_unchanged : list string;
  media_backfills : list (dict * string);
  identity_backfills : list (native_id * string);
}.

Definition empty_gate : gate :=
  {| records_to_upsert := []; changed_documents := []; g_unchanged := []; media_backfills := [];
     identity_backfills := [] |}.

(** One iteration: the content-hash gate of one message. *)
Definition gate_step (data_type : string) (t : entity_table) (g : gate) (mn : BatchRecord * native_id) : gate :=
  let '(msg, native) := mn in
  let id := data_id msg in
  let existing_hash := t !! id ≫= hash in
  if bool_decide (existing_hash = Some (sha256 msg)) then
    {| records_to_upsert := records_to_upsert g; changed_documents := changed_documents g;
       g_unchanged := g_unchanged g ++ [id];
       media_backfills := media_backfills g ++
         (match t !! id with
          | Some e => if has_media data_type && bool_decide (media e = None)
                      then [(media_resolver (payload msg), id)] else []
          | None => [] end);
       identity_backfills := identity_backfills g ++
         (match t !! id with
          | Some e => if bool_decide (gm_item_id e = None) then [(native, id)] else []
          | None => [] end) |}
  else
    {| records_to_upsert := records_to_upsert g ++
         [{| u_hash := sha256 msg; u_data_id := id; u_data := payload msg;
             u_media := if has_media data_type then Some (media_resolver (payload msg)) else None;
             u_native := native |}];
       changed_documents := changed_documents g ++ [(id, payload msg)];
       g_unchanged := g_unchanged g; media_backfills := media_backfills g;
       identity_backfills := identity_backfills g |}.

Definition upsert_order (x y : upsert_row) : bool := String.leb (u_data_id x) (u_data_id y).

(** The entity statements, in the order the transaction runs them. *)
Definition write_entities (now : Z) (g : gate) (t : entity_table) : entity_table :=
  let backfilled := (media_backfills g).*2 ++ (identity_backfills g).*2 in
  let refresh_ids := filter (λ i, i ∉ backfilled) (g_unchanged g) in
  let t := refresh_rows now refresh_ids t in
  let t := _backfill (set_media now) (media_backfills g) t in
  let t := _backfill (set_identity now) (identity_backfills g) t in
  _upsert now (sort_by upsert_order (records_to_upsert g)) t.

(** [native_ids[refs[msg.data_id]]] for each message, once every reference is resolved. *)
Definition resolved (native_ids : gmap AliasRef native_id) (mr : BatchRecord * AliasRef)
    : result (BatchRecord * native_id) :=
  match native_ids !! mr.2 with Some n => Ok (mr.1, n) | None => Raise RuntimeError end.

Definition _process_batch (now : Z) (data_type : string) (messages : list BatchRecord) (st : store)
    : store * result BatchWriteResult :=
  transaction st (λ st,
    let msgs := latest messages in
    let t := table_of st data_type in
    let! refs := map_result (λ m, let! r := alias_ref data_type (data_id m) in Ok (m, r)) msgs in
    let! '(adb, native_ids) := resolve_aliases (aliases st) refs.*2 in
    let! natives := map_result (resolved native_ids) refs in
    let! targets := alias_targets data_type ((λ '(m, n), (payload m, n)) <$> natives) in
    let g := foldl (gate_step data_type t) empty_gate natives in
    let t := write_entities now g t in
    let! '(adb, _) := attach_alias_targets adb targets in
    let! gr := write_document_graph key_of data_type (changed_documents g) (graph st) in
    Ok ({| entities := <[data_type := t]> (entities st); aliases := adb; graph := gr |},
        {| unchanged_ids := list_to_set (g_unchanged g);
           media_backfilled_ids := list_to_set (media_backfills g).*2;
           identity_backfilled_ids := list_to_set (identity_backfills g).*2 |})).

(** [process_batch]: refused until the shared writer admission exists. *)
Definition process_batch (admission : bool) (now : Z) (data_type : string) (messages : list BatchRecord)
    (st : store) : store * result BatchWriteResult :=
  if negb admission then (st, Raise DatabaseUnavailableError)
  else _process_batch now data_type messages st.

(** ** One record *)

(** [data.get("sha256", "")] as a statement parameter: text, or [NULL]; the driver has no
    text form for the other JSON types against a text column. *)
Definition sha_param (d : dict) : result (option string) :=
  match jget_default "sha256" (JStr "") d with
  | JStr s => Ok (Some s)
  | JNull => Ok None
  | _ => Raise (OtherError "UndefinedFunction")
  end.

(** SQL [a <> b], which is not true on [NULL]. *)
Definition sql_neq (a b : option string) : bool :=
  match a, b with Some x, Some y => bool_decide (x ≠ y) | _, _ => false end.

(** SQL [COALESCE(a = b, false)]. *)
Definition sql_eq (a b : option string) : bool :=
  match a, b with Some x, Some y => bool_decide (x = y) | _, _ => false end.

(** The conflict arm of [persist_record]'s upsert. *)
Definition merge_row (now : Z) (data_type : string) (sha : option string) (d : dict) (native : native_id)
    (old : entity) : entity :=
  {| hash := if sql_neq (hash old) sha then sha else hash old;
     data := if sql_neq (hash old) sha then d else data old;
     media := if has_media data_type then
                if sql_neq (hash old) sha || bool_decide (media old = None)
                then Some (media_resolver d) else media old
              else media old;
     gm_item_id := Some native;
     updated_at := now |}.

Definition fresh_row (now : Z) (data_type : string) (sha : option string) (d : dict) (native : native_id) : entity :=
  {| hash := sha; data := d; media := if has_media data_type then Some (media_resolver d) else None;
     gm_item_id := Some native; updated_at := now |}.

Definition persist_record (now : Z) (data_type id : string) (d : dict) (st : store)
    : store * result string :=
  transaction st (λ st,
    let! ref := alias_ref data_type id in
    let! '(adb, native_ids) := resolve_aliases (aliases st) [ref] in
    match native_ids !! ref with
    | None => Raise RuntimeError
    | Some native =>
        let! sha := sha_param d in
        let t := table_of st data_type in
        let prior := t !! id in
        let row := match prior with
                   | Some old => merge_row now data_type sha d native old
                   | None => fresh_row now data_type sha d native
                   end in
        let terminal_outcome :=
          match prior with
          | Some old => if has_media data_type && sql_eq (hash old) sha && bool_decide (media old = None)
                        then "media_backfilled" else "processed"
          | None => "processed"
          end in
        let content_changed := match prior with Some old => bool_decide (hash old ≠ sha) | None => true end in
        let! targets := alias_targets data_type [(d, native)] in
        let! '(adb, _) := attach_alias_targets adb targets in
        let! gr := (if content_changed : bool then write_document_graph key_of data_type [(id, d)] (graph st)
                    else Ok (graph st)) in
        Ok ({| entities := <[data_type := <[id := row]> t]> (entities st); aliases := adb; graph := gr |},
            terminal_outcome)
    end).

(** ** The purge of rows the extraction did not refresh *)

(** An [int] below 2^53 as a double, and [a / b] on two of them: Python's true division is
    the correctly rounded quotient. *)
Definition float_of (n : Z) : spec_float := binary_normalize 53 1024 n 0 false.
Definition true_div (a b : Z) : spec_float := SFdiv 53 1024 (float_of a) (float_of b).

(** [SELECT count( * ) FROM table WHERE updated_at < started] and its rows. *)
Definition is_stale (started : Z) (e : entity) : bool := updated_at e <? started.
Definition stale_rows (started : Z) (t : entity_table) : entity_table :=
  filter (λ ke, is_stale started ke.2 = true) t.
Definition fresh_rows (started : Z) (t : entity_table) : entity_table :=
  filter (λ ke, is_stale started ke.2 = false) t.

Inductive purge_outcome :=
  | NoStartedAt
  | NoRecords
  | TableEmpty
  | NothingStale
  | OverCap
  | Purged (deleted : nat).

(** [fromisoformat started_at] is the instant the text denotes, a naive text read as UTC;
    [cap] is [purge_max_delete_fraction]. *)
Definition purge_stale_rows (fromisoformat : string → result Z) (cap : spec_float)
    (data_type started_at : string) (record_count : option Z) (st : store)
    : store * result purge_outcome :=
  if bool_decide (started_at = "") then (st, Ok NoStartedAt)
  else if bool_decide (record_count = Some 0) then (st, Ok NoRecords)
  else
    match fromisoformat started_at with
    | Raise e => (st, Raise e)
    | Ok started =>
        transaction st (λ st,
          let t := table_of st data_type in
          let total_count := Z.of_nat (size t) in
          let stale_count := Z.of_nat (size (stale_rows started t)) in
          if total_count =? 0 then Ok (st, TableEmpty)
          else if stale_count =? 0 then Ok (st, NothingStale)
          else if SFleb cap (true_div stale_count total_count) then Ok (st, OverCap)
          else
            let! gr := purge_document_graph key_of data_type (map_to_list (stale_rows started t)).*1 (graph st) in
            Ok ({| entities := <[data_type := fresh_rows started t]> (entities st);
                   aliases := aliases st; graph := gr |},
                Purged (size (stale_rows started t))))
    end.

(** ** The latest delivery of each document *)

Lemma latest_foldl (messages : list BatchRecord) d :
  NoDup d.*1 → (∀ i m, (i, m) ∈ d → i = data_id m) →
  let d' := foldl (λ d m, od_set (data_id m) m d) d messages in
  NoDup d'.*1 ∧ (∀ i m, (i, m) ∈ d' → i = data_id m).
Proof.
  induction messages as [|m messages IH] in d |- *; simpl; [done|]. intros Hnd Hk.
  apply IH; [by apply NoDup_od_set|]. intros i m' Hin.
  apply (od_get_elem _ _ _ (NoDup_od_set (data_id m) m d Hnd)) in Hin.
  rewrite od_get_set in Hin. case_decide; simplify_eq; [done|].
  by apply Hk, od_get_Some_elem.
Qed.

Fixpoint last_delivery (id : string) (messages : list BatchRecord) : option BatchRecord :=
  match messages with
  | [] => None
  | m :: messages =>
      match last_delivery id messages with
      | Some m' => Some m'
      | None => if decide (id = data_id m) then Some m else None
      end
  end.

Lemma latest_get messages d id :
  od_get id (foldl (λ d m, od_set (data_id m) m d) d messages) =
    match last_delivery id messages with Some m => Some m | None => od_get id d end.
Proof.
  induction messages as [|m messages IH] in d |- *; simpl; [done|].
  rewrite IH, od_get_set. destruct (last_delivery id messages); [done|]. by case_decide.
Qed.

Lemma latest_ids messages : NoDup (data_id <$> latest messages).
Proof.
  unfold latest. destruct (latest_foldl messages []) as [Hnd Hk];
    [constructor|by intros ? ? ?%elem_of_nil|].
  replace (data_id <$> _) with (foldl (λ d m, od_set (data_id m) m d) [] messages).*1; [done|].
  rewrite <-list_fmap_compose. apply list_fmap_ext. intros k [i m] Hi. simpl.
  apply Hk. apply list_elem_of_lookup. eauto.
Qed.

Lemma elem_of_latest messages m :
  m ∈ latest messages ↔ last_delivery (data_id m) messages = Some m.
Proof.
  unfold latest. destruct (latest_foldl messages []) as [Hnd Hk];
    [constructor|by intros ? ? ?%elem_of_nil|].
  pose proof (latest_get messages [] (data_id m)) as Hg.
  rewrite list_elem_of_fmap. split.
  - intros ([i m'] & -> & Hin). simpl in *. pose proof (Hk _ _ Hin) as ->.
    rewrite (od_get_elem _ _ _ Hnd Hin) in Hg. by destruct (last_delivery _ _).
  - intros Hl. rewrite Hl in Hg. exists (data_id m, m). split; [done|]. by apply od_get_Some_elem.
Qed.
End entities.

(** ** One id through the entity statements *)

Lemma touch_touch now e : touch now (touch now e) = touch now e.
Proof. done. Qed.

Lemma refresh_lookup now ids t id :
  refresh_rows now ids t !! id = if decide (id ∈ ids) then touch now <$> t !! id else t !! id.
Proof.
  induction ids as [|i ids IH]; simpl; [done|].
  destruct (decide (id = i)) as [->|Hne].
  - rewrite lookup_alter_eq, IH. rewrite (decide_True (P := i ∈ i :: ids)) by (by left).
    case_decide; [|done]. by destruct (t !! i).
  - rewrite lookup_alter_ne by done. rewrite IH.
    destruct (decide (id ∈ ids)); [by rewrite decide_True by (by right)|].
    rewrite decide_False; [done|]. by apply not_elem_of_cons.
Qed.

Lemma refresh_cases now ids t id e :
  t !! id = Some e →
  refresh_rows now ids t !! id = Some (touch now e) ∨ refresh_rows now ids t !! id = Some e.
Proof. intros He. rewrite refresh_lookup, He. destruct (decide (id ∈ ids)); auto. Qed.

Lemma backfill_out {A} (set : A → entity → entity) values t id :
  id ∉ values.*2 → _backfill set values t !! id = t !! id.
Proof.
  unfold _backfill. induction values as [|[v i] values IH] in t |- *; csimpl; [done|].
  intros [Hi Hids]%not_elem_of_cons. rewrite IH by done. by apply lookup_alter_ne.
Qed.

Lemma backfill_in {A} (set : A → entity → entity) values t id v :
  NoDup values.*2 → (v, id) ∈ values → _backfill set values t !! id = set v <$> t !! id.
Proof.
  unfold _backfill. induction values as [|[w i] values IH] in t |- *; csimpl; [set_solver|].
  intros [Hi Hnd]%NoDup_cons. rewrite elem_of_cons. intros [[= <- <-]|Hin].
  - fold (_backfill set values (alter (set v) id t)). rewrite backfill_out by done. apply lookup_alter_eq.
  - rewrite IH by done. rewrite lookup_alter_ne; [done|]. intros ->. apply Hi.
    apply list_elem_of_fmap. by exists (v, id).
Qed.

Definition upserted (now : Z) (r : upsert_row) : entity :=
  {| hash := Some (u_hash r); data := u_data r; media := u_media r; gm_item_id := Some (u_native r);
     updated_at := now |}.

Lemma upsert_out now rows t id : id ∉ u_data_id <$> rows → _upsert now rows t !! id = t !! id.
Proof.
  unfold _upsert. induction rows as [|r rows IH] in t |- *; csimpl; [done|].
  intros [Hi Hids]%not_elem_of_cons. rewrite IH by done. by apply lookup_insert_ne.
Qed.

Lemma upsert_in now rows t r :
  NoDup (u_data_id <$> rows) → r ∈ rows → _upsert now rows t !! u_data_id r = Some (upserted now r).
Proof.
  unfold _upsert. induction rows as [|r' rows IH] in t |- *; csimpl; [set_solver|].
  intros [Hi Hnd]%NoDup_cons. rewrite elem_of_cons. intros [->|Hin]; [|by apply IH].
  change (_upsert now rows (<[u_data_id r' := upserted now r']> t) !! u_data_id r' = Some (upserted now r')).
  rewrite upsert_out by done. apply lookup_insert_eq.
Qed.

Lemma upsert_at now rows t r id :
  NoDup (u_data_id <$> rows) → r ∈ rows → u_data_id r = id →
  _upsert now rows t !! id = Some (upserted now r).
Proof. intros Hnd Hin <-. by apply upsert_in. Qed.

Section entities.
Context `{CommonRuntime} {IS : IdentityService} (key_of : string → row → list val).

(** ** The gate's lists, message by message *)

Definition unchanged (t : entity_table) (m : BatchRecord) : bool :=
  bool_decide (t !! data_id m ≫= hash = Some (sha256 m)).

Definition media_of (data_type : string) (d : dict) : option dict :=
  if has_media data_type then Some (media_resolver d) else None.

Definition gate_unchanged (t : entity_table) (mn : BatchRecord * native_id) : option string :=
  if unchanged t mn.1 then Some (data_id mn.1) else None.
Definition gate_changed (t : entity_table) (mn : BatchRecord * native_id) : option (string * dict) :=
  if unchanged t mn.1 then None else Some (data_id mn.1, payload mn.1).
Definition gate_upsert (data_type : string) (t : entity_table) (mn : BatchRecord * native_id)
    : option upsert_row :=
  if unchanged t mn.1 then None
  else Some {| u_hash := sha256 mn.1; u_data_id := data_id mn.1; u_data := payload mn.1;
               u_media := media_of data_type (payload mn.1); u_native := mn.2 |}.
Definition gate_media (data_type : string) (t : entity_table) (mn : BatchRecord * native_id)
    : option (dict * string) :=
  match t !! data_id mn.1 with
  | Some e => if unchanged t mn.1 && (has_media data_type && bool_decide (media e = None))
              then Some (media_resolver (payload mn.1), data_id mn.1) else None
  | None => None
  end.
Definition gate_identity (t : entity_table) (mn : BatchRecord * native_id) : option (native_id * string) :=
  match t !! data_id mn.1 with
  | Some e => if unchanged t mn.1 && bool_decide (gm_item_id e = None) then Some (mn.2, data_id mn.1) else None
  | None => None
  end.

Lemma gate_closed data_type t natives g :
  foldl (gate_step data_type t) g natives =
    {| records_to_upsert := records_to_upsert g ++ omap (gate_upsert data_type t) natives;
       changed_documents := changed_documents g ++ omap (gate_changed t) natives;
       g_unchanged := g_unchanged g ++ omap (gate_unchanged t) natives;
       media_backfills := media_backfills g ++ omap (gate_media data_type t) natives;
       identity_backfills := identity_backfills g ++ omap (gate_identity t) natives |}.
Proof.
  induction natives as [|[m n] natives IH] in g |- *.
  - csimpl. rewrite !app_nil_r. by destruct g.
  - cbn [foldl]. rewrite IH. clear IH. unfold gate_step. csimpl.
    unfold gate_upsert, gate_changed, gate_unchanged, gate_media, gate_identity, unchanged, media_of. simpl.
    destruct (bool_decide (t !! data_id m ≫= hash = Some (sha256 m))); cbn [records_to_upsert
      changed_documents g_unchanged media_backfills identity_backfills andb].
    + destruct (t !! data_id m) as [e|]; [|by rewrite <-!app_assoc, !app_nil_l].
      destruct (has_media data_type && bool_decide (media e = None)), (bool_decide (gm_item_id e = None));
        by rewrite <-!app_assoc.
    + by destruct (t !! data_id m); rewrite <-!app_assoc.
Qed.

Ltac gate_fields :=
  cbn [records_to_upsert changed_documents g_unchanged media_backfills identity_backfills app].

(** What the batch promises of one row. *)
Definition batch_row (now : Z) (data_type : string) (mn : BatchRecord * native_id) (old : option entity)
    : entity :=
  let renewed :=
    {| hash := Some (sha256 mn.1); data := payload mn.1; media := media_of data_type (payload mn.1);
       gm_item_id := Some mn.2; updated_at := now |} in
  match old with
  | Some e =>
      if bool_decide (hash e = Some (sha256 mn.1)) then
        {| hash := hash e; data := data e;
           media := if has_media data_type && bool_decide (media e = None)
                    then Some (media_resolver (payload mn.1)) else media e;
           gm_item_id := match gm_item_id e with Some n => Some n | None => Some mn.2 end;
           updated_at := now |}
      else renewed
  | None => renewed
  end.

Abbreviation mn_id := (λ mn : BatchRecord * native_id, data_id mn.1).

Lemma gate_keys data_type t :
  (∀ mn i, gate_unchanged t mn = Some i → i = mn_id mn) ∧
  (∀ mn c, gate_changed t mn = Some c → c.1 = mn_id mn) ∧
  (∀ mn u, gate_upsert data_type t mn = Some u → u_data_id u = mn_id mn) ∧
  (∀ mn m, gate_media data_type t mn = Some m → m.2 = mn_id mn) ∧
  (∀ mn m, gate_identity t mn = Some m → m.2 = mn_id mn).
Proof.
  unfold gate_unchanged, gate_changed, gate_upsert, gate_media, gate_identity.
  split_and!; intros mn x Hx; repeat (case_match; simplify_eq/=); done.
Qed.

Lemma write_entities_out now data_type t natives id :
  id ∉ mn_id <$> natives →
  write_entities now (foldl (gate_step data_type t) empty_gate natives) t !! id = t !! id.
Proof.
  intros Hid. rewrite gate_closed. unfold write_entities, empty_gate. cbv zeta. gate_fields.
  destruct (gate_keys data_type t) as (Ku & _ & Kr & Km & Ki).
  assert (∀ a, a ∈ natives → mn_id a ≠ id) as Hne.
  { intros a Ha <-. apply Hid, list_elem_of_fmap. by exists a. }
  rewrite upsert_out, backfill_out, backfill_out, refresh_lookup, decide_False; [done| | | |].
  - intros [_ Hin]%list_elem_of_filter.
    apply list_elem_of_omap in Hin as (a & Ha & Hf). apply Ku in Hf. by destruct (Hne a).
  - intros (a & b & Ha & _ & Hk)%(elem_of_omap_keys _ mn_id snd _ _ Km). by destruct (Hne a).
  - intros (a & b & Ha & _ & Hk)%(elem_of_omap_keys _ mn_id snd _ _ Ki). by destruct (Hne a).
  - rewrite sort_by_perm. intros (a & b & Ha & _ & Hk)%(elem_of_omap_keys _ mn_id u_data_id _ _ Kr).
    by destruct (Hne a).
Qed.

Lemma gate_absent {B} (f : BatchRecord * native_id → option B) (kb : B → string) natives mn :
  (∀ a b, f a = Some b → kb b = mn_id a) → NoDup (mn_id <$> natives) → mn ∈ natives → f mn = None →
  mn_id mn ∉ kb <$> omap f natives.
Proof.
  intros Hk Hnd Hin Hf (a & b & Ha & Hb & Heq)%(elem_of_omap_keys _ mn_id kb _ _ Hk).
  rewrite (keyed_unique mn_id natives a mn Hnd Ha Hin Heq) in Hb. congruence.
Qed.

Lemma gate_unchanged_row t mn e :
  t !! mn_id mn = Some e → unchanged t mn.1 = bool_decide (hash e = Some (sha256 mn.1)).
Proof. intros He. unfold unchanged. by rewrite He. Qed.

(** A row whose hash matches goes through the refresh and the backfills only. *)
Lemma write_entities_unchanged now data_type t natives mn e :
  NoDup (mn_id <$> natives) → mn ∈ natives → t !! mn_id mn = Some e → hash e = Some (sha256 mn.1) →
  write_entities now (foldl (gate_step data_type t) empty_gate natives) t !! mn_id mn =
    Some (batch_row now data_type mn (Some e)).
Proof.
  intros Hnd Hin He Hh. rewrite gate_closed. unfold write_entities, empty_gate. cbv zeta. gate_fields.
  destruct (gate_keys data_type t) as (Ku & _ & Kr & Km & Ki).
  pose proof (NoDup_omap_keys _ _ snd natives Km Hnd) as NDm.
  pose proof (NoDup_omap_keys _ _ snd natives Ki Hnd) as NDi.
  assert (unchanged t mn.1 = true) as Hu by (rewrite (gate_unchanged_row _ _ _ He); by apply bool_decide_eq_true).
  rewrite upsert_out.
  2: { rewrite sort_by_perm. apply gate_absent; [done..|]. unfold gate_upsert. by rewrite Hu. }
  unfold batch_row. rewrite (bool_decide_eq_true_2 _ Hh).
  assert (gate_media data_type t mn = if has_media data_type && bool_decide (media e = None)
    then Some (media_resolver (payload mn.1), data_id mn.1) else None) as Gm.
  { unfold gate_media. by rewrite He, Hu. }
  assert (gate_identity t mn = if bool_decide (gm_item_id e = None) then Some (mn.2, data_id mn.1) else None) as Gi.
  { unfold gate_identity. by rewrite He, Hu. }
  pose proof (refresh_cases now (filter (λ i, i ∉ (omap (gate_media data_type t) natives).*2
    ++ (omap (gate_identity t) natives).*2) (omap (gate_unchanged t) natives)) t _ _ He) as Hrefresh.
  destruct (has_media data_type && bool_decide (media e = None)) eqn:Em, (bool_decide (gm_item_id e = None)) eqn:Ei.
  - erewrite backfill_in; [|exact NDi|apply list_elem_of_omap; eauto].
    erewrite backfill_in; [|exact NDm|apply list_elem_of_omap; eauto].
    apply bool_decide_eq_true in Ei. rewrite Ei. by destruct Hrefresh as [-> | ->].
  - rewrite backfill_out by (by apply (gate_absent _ snd)).
    erewrite backfill_in; [|exact NDm|apply list_elem_of_omap; eauto].
    apply bool_decide_eq_false in Ei. destruct (gm_item_id e) eqn:Eg; [|done].
    destruct Hrefresh as [-> | ->]; simpl; unfold set_media; simpl; by rewrite Eg.
  - erewrite backfill_in; [|exact NDi|apply list_elem_of_omap; eauto].
    rewrite backfill_out by (by apply (gate_absent _ snd)).
    apply bool_decide_eq_true in Ei. rewrite Ei. by destruct Hrefresh as [-> | ->].
  - rewrite !backfill_out by (by apply (gate_absent _ snd)). rewrite refresh_lookup, He.
    rewrite decide_True; [apply bool_decide_eq_false in Ei|].
    { destruct (gm_item_id e) eqn:Eg; [|done]. simpl. unfold touch. by rewrite Eg. }
    apply list_elem_of_filter. split; [|apply list_elem_of_omap; exists mn; unfold gate_unchanged; by rewrite Hu].
    rewrite not_elem_of_app. split; by apply (gate_absent _ snd).
Qed.

(** A new or changed document is upserted. *)
Lemma write_entities_changed now data_type t natives mn :
  NoDup (mn_id <$> natives) → mn ∈ natives → unchanged t mn.1 = false →
  write_entities now (foldl (gate_step data_type t) empty_gate natives) t !! mn_id mn =
    Some (batch_row now data_type mn (t !! mn_id mn)).
Proof.
  intros Hnd Hin Hu. rewrite gate_closed. unfold write_entities, empty_gate. cbv zeta. gate_fields.
  destruct (gate_keys data_type t) as (_ & _ & Kr & _ & _).
  assert (NoDup (u_data_id <$> sort_by upsert_order (omap (gate_upsert data_type t) natives))) as NDr.
  { rewrite sort_by_perm. by apply (NoDup_omap_keys _ mn_id). }
  assert (∃ u, gate_upsert data_type t mn = Some u ∧ u_data_id u = mn_id mn ∧
    upserted now u = batch_row now data_type mn (t !! mn_id mn)) as (u & Gu & Hid & Hrow).
  { unfold gate_upsert. rewrite Hu. eexists. split_and!; [done..|]. unfold upserted, batch_row. simpl.
    unfold unchanged in Hu. apply bool_decide_eq_false in Hu.
    destruct (t !! data_id mn.1) as [e|]; [|done]. simpl in Hu. by rewrite bool_decide_eq_false_2. }
  rewrite <-Hrow. apply upsert_at; [done| |done]. apply elem_of_sort_by, list_elem_of_omap. eauto.
Qed.

Lemma write_entities_in now data_type t natives mn :
  NoDup (mn_id <$> natives) → mn ∈ natives →
  write_entities now (foldl (gate_step data_type t) empty_gate natives) t !! mn_id mn =
    Some (batch_row now data_type mn (t !! mn_id mn)).
Proof.
  intros Hnd Hin. destruct (unchanged t mn.1) eqn:Hu; [|by apply write_entities_changed].
  unfold unchanged in Hu. apply bool_decide_eq_true in Hu.
  destruct (t !! data_id mn.1) as [e|] eqn:He; [|done]. by apply write_entities_unchanged.
Qed.

(** ** The batch's contract *)

Lemma map_result_spec {A B} (f : A → result B) l l' :
  map_result f l = Ok l' → Forall2 (λ a b, f a = Ok b) l l'.
Proof.
  induction l as [|a l IH] in l' |- *; simpl; [intros [= <-]; constructor|].
  destruct (f a) as [b|] eqn:Hf; [|done]. simpl. destruct (map_result f l) as [bs|]; [|done].
  intros [= <-]. constructor; [done|]. by apply IH.
Qed.

(** The messages with their native ids: each message once, its reference resolved. *)
Lemma natives_of_messages data_type msgs refs native_ids natives :
  map_result (λ m, let! r := alias_ref data_type (data_id m) in Ok (m, r)) msgs = Ok refs →
  map_result (resolved native_ids) refs = Ok natives →
  natives.*1 = msgs ∧
  (∀ m n, (m, n) ∈ natives → ∃ r, alias_ref data_type (data_id m) = Ok r ∧ native_ids !! r = Some n).
Proof.
  intros Hr%map_result_spec Hn%map_result_spec.
  induction Hr as [|m [m' r] msgs refs Hm Hr IH] in natives, Hn |- *; inv Hn.
  - split; [done|]. by intros ? ? ?%elem_of_nil.
  - destruct (alias_ref data_type (data_id m)) as [r'|] eqn:Ha; simplify_eq/=.
    match goal with H : resolved _ _ = _ |- _ => unfold resolved in H; simpl in H end.
    destruct (native_ids !! r) as [n|] eqn:Hl; simplify_eq/=.
    destruct (IH _ ltac:(done)) as [Hfst Hall]. csimpl. split; [by f_equal|].
    intros m2 n2 [?|Hin]%elem_of_cons; simplify_eq; eauto.
Qed.

Lemma natives_ids messages (natives : list (BatchRecord * native_id)) :
  natives.*1 = latest messages → NoDup (mn_id <$> natives).
Proof.
  intros Hf. replace (mn_id <$> natives) with (data_id <$> natives.*1) by (by rewrite <-list_fmap_compose).
  rewrite Hf. apply latest_ids.
Qed.

Lemma last_delivery_id id messages m : last_delivery id messages = Some m → data_id m = id.
Proof.
  induction messages as [|m' ms IH]; simpl; [done|].
  destruct (last_delivery id ms); [done|]. by case_decide; intros [= <-].
Qed.

Lemma native_of_delivery messages (natives : list (BatchRecord * native_id)) id m :
  natives.*1 = latest messages → last_delivery id messages = Some m →
  ∃ n, (m, n) ∈ natives ∧ data_id m = id.
Proof.
  intros Hf Hl. pose proof (last_delivery_id _ _ _ Hl) as Hid.
  assert (m ∈ natives.*1) as Hin by (rewrite Hf; apply elem_of_latest; by rewrite Hid).
  apply list_elem_of_fmap in Hin as ([m' n] & -> & Hin). eauto.
Qed.

Definition document_changed (t : entity_table) (messages : list BatchRecord) (id : string) (d : dict) : Prop :=
  ∃ m, last_delivery id messages = Some m ∧ d = payload m ∧ (t !! id ≫= hash) ≠ Some (sha256 m).

Lemma changed_documents_spec data_type t messages natives :
  natives.*1 = latest messages →
  let docs := changed_documents (foldl (gate_step data_type t) empty_gate natives) in
  NoDup docs.*1 ∧ ∀ id d, (id, d) ∈ docs ↔ document_changed t messages id d.
Proof.
  intros Hf docs. subst docs. rewrite gate_closed. cbn [changed_documents empty_gate app].
  destruct (gate_keys data_type t) as (_ & Kc & _). split.
  - by apply (NoDup_omap_keys _ mn_id fst), (natives_ids messages).
  - intros id d. rewrite list_elem_of_omap. split.
    + intros ([m n] & Hin & Hg). unfold gate_changed in Hg. simpl in Hg.
      destruct (unchanged t m) eqn:Hu; [done|]. simplify_eq. exists m.
      split_and!; [|done|].
      * apply elem_of_latest. rewrite <-Hf. apply list_elem_of_fmap. by exists (m, n).
      * unfold unchanged in Hu. by apply bool_decide_eq_false in Hu.
    + intros (m & Hl & -> & Hh). destruct (native_of_delivery _ _ _ _ Hf Hl) as (n & Hin & <-).
      exists (m, n). split; [done|]. unfold gate_changed, unchanged. simpl. by rewrite bool_decide_eq_false_2.
Qed.

Lemma unchanged_ids_spec data_type t messages natives :
  natives.*1 = latest messages →
  ∀ id, id ∈ g_unchanged (foldl (gate_step data_type t) empty_gate natives) ↔
    ∃ m, last_delivery id messages = Some m ∧ (t !! id ≫= hash) = Some (sha256 m).
Proof.
  intros Hf id. rewrite gate_closed. cbn [g_unchanged empty_gate app]. rewrite list_elem_of_omap. split.
  - intros ([m n] & Hin & Hg). unfold gate_unchanged in Hg. simpl in Hg.
    destruct (unchanged t m) eqn:Hu; [|done]. simplify_eq. exists m. split.
    + apply elem_of_latest. rewrite <-Hf. apply list_elem_of_fmap. by exists (m, n).
    + unfold unchanged in Hu. by apply bool_decide_eq_true in Hu.
  - intros (m & Hl & Hh). destruct (native_of_delivery _ _ _ _ Hf Hl) as (n & Hin & <-).
    exists (m, n). split; [done|]. unfold gate_unchanged, unchanged. simpl. by rewrite bool_decide_eq_true_2.
Qed.

Lemma batch_table_lookup now data_type t messages natives id :
  natives.*1 = latest messages →
  ∃ n, write_entities now (foldl (gate_step data_type t) empty_gate natives) t !! id =
    (match last_delivery id messages with
     | Some m => Some (batch_row now data_type (m, n) (t !! id))
     | None => t !! id
     end) ∧ ∀ m, last_delivery id messages = Some m → (m, n) ∈ natives.
Proof.
  intros Hf. pose proof (natives_ids _ _ Hf) as Hnd.
  destruct (last_delivery id messages) as [m|] eqn:Hl.
  - destruct (native_of_delivery _ _ _ _ Hf Hl) as (n & Hin & <-). exists n. split; [|by intros ? [= <-]].
    apply (write_entities_in now data_type t natives (m, n) Hnd Hin).
  - exists 1%positive. split; [|done]. apply write_entities_out.
    intros ([m n] & -> & Hin)%list_elem_of_fmap. simpl in Hl.
    assert (m ∈ latest messages) as Hm by (rewrite <-Hf; apply list_elem_of_fmap; by exists (m, n)).
    apply elem_of_latest in Hm. congruence.
Qed.

Lemma table_of_insert data_type t es adb gr :
  table_of {| entities := <[data_type := t]> es; aliases := adb; graph := gr |} data_type = t.
Proof. unfold table_of. cbn [entities]. by rewrite lookup_insert_eq. Qed.

(** What a committed batch did. *)
Definition batch_committed (now : Z) (data_type : string) (messages : list BatchRecord) (st st' : store)
    (r : BatchWriteResult) : Prop :=
      let t := table_of st data_type in
      (∃ refs adb native_ids, resolve_aliases (aliases st) refs = Ok (adb, native_ids) ∧
         ∀ id, match last_delivery id messages with
               | Some m => ∃ ref n, alias_ref data_type id = Ok ref ∧ native_ids !! ref = Some n ∧
                   table_of st' data_type !! id = Some (batch_row now data_type (m, n) (t !! id))
               | None => table_of st' data_type !! id = t !! id
               end) ∧
      (∀ other, other = data_type ∨ table_of st' other = table_of st other) ∧
      (∀ id, id ∈ unchanged_ids r ↔
         ∃ m, last_delivery id messages = Some m ∧ (t !! id ≫= hash) = Some (sha256 m)) ∧
      ∃ docs, NoDup docs.*1 ∧ (∀ id d, (id, d) ∈ docs ↔ document_changed t messages id d) ∧
        write_document_graph key_of data_type docs (graph st) = Ok (graph st').

Lemma process_batch_committed now data_type messages st st' r :
  _process_batch key_of now data_type messages st = (st', Ok r) →
  batch_committed now data_type messages st st' r.
Proof.
  unfold batch_committed. cbv zeta.
  unfold _process_batch, transaction. cbv zeta.
  destruct (map_result _ (latest messages)) as [refs|] eqn:Hrefs; [|done]; cbn [bind].
  destruct (resolve_aliases _ _) as [[adb native_ids]|] eqn:Hres; [|done]; cbn [bind].
  destruct (map_result _ refs) as [natives|] eqn:Hnat; [|done]; cbn [bind].
  destruct (alias_targets _ _) as [targets|]; [|done]; cbn [bind].
  destruct (attach_alias_targets _ _) as [[adb' cf]|]; [|done]; cbn [bind].
  destruct (write_document_graph _ _ _ _) as [gr|] eqn:Hgr; [|done]; cbn [bind].
  intros [= <- <-]. destruct (natives_of_messages _ _ _ _ _ Hrefs Hnat) as [Hf Hnative].
  split_and!.
  - exists refs.*2, adb, native_ids. split; [done|]. intros id.
    rewrite table_of_insert.
    destruct (batch_table_lookup now data_type (table_of st data_type) messages natives id Hf) as (n & Hn & Hin).
    destruct (last_delivery id messages) as [m|] eqn:Hl; [|done].
    destruct (Hnative m n (Hin _ eq_refl)) as (ref & Href & Hlk).
    rewrite (last_delivery_id _ _ _ Hl) in Href. exists ref, n. done.
  - intros other. destruct (decide (other = data_type)) as [|Hne]; [by left|right].
    unfold table_of. cbn [entities]. by rewrite lookup_insert_ne.
  - intros id. cbn [unchanged_ids]. rewrite elem_of_list_to_set. by apply unchanged_ids_spec.
  - eexists. destruct (changed_documents_spec data_type (table_of st data_type) messages natives Hf) as [Hnd Hdocs].
    split_and!; [exact Hnd|exact Hdocs|exact Hgr].
Qed.

Lemma process_batch_raised now data_type messages st st' e :
  _process_batch key_of now data_type messages st = (st', Raise e) → st' = st.
Proof. unfold _process_batch, transaction. by case_match; [destruct a|]; intros [= <- <-]. Qed.

(** C13 A batch is one atomic step on rows, aliases and graph.  It either raises and leaves
    the whole store as it was, or commits and then: of each document in the batch the last
    delivery decides; a row whose stored hash is that delivery's keeps its hash and data,
    has only a missing media and a missing native id filled in, and is stamped with the
    transaction's time; any other such row is written anew with the native id its
    reference resolved to; rows of no document in the batch and the other tables are
    untouched; and the graph is rewritten for exactly the documents the hash gate let
    through, each once. *)
Theorem process_batch_contract now data_type messages st :
  match _process_batch key_of now data_type messages st with
  | (st', Raise _) => st' = st
  | (st', Ok r) =>
      let t := table_of st data_type in
      (∃ refs adb native_ids, resolve_aliases (aliases st) refs = Ok (adb, native_ids) ∧
         ∀ id, match last_delivery id messages with
               | Some m => ∃ ref n, alias_ref data_type id = Ok ref ∧ native_ids !! ref = Some n ∧
                   table_of st' data_type !! id = Some (batch_row now data_type (m, n) (t !! id))
               | None => table_of st' data_type !! id = t !! id
               end) ∧
      (∀ other, other = data_type ∨ table_of st' other = table_of st other) ∧
      (∀ id, id ∈ unchanged_ids r ↔
         ∃ m, last_delivery id messages = Some m ∧ (t !! id ≫= hash) = Some (sha256 m)) ∧
      ∃ docs, NoDup docs.*1 ∧ (∀ id d, (id, d) ∈ docs ↔ document_changed t messages id d) ∧
        write_document_graph key_of data_type docs (graph st) = Ok (graph st')
  end.
Proof.
  destruct (_process_batch _ _ _ _ _) as [st' [r|e]] eqn:Hb.
  - exact (process_batch_committed _ _ _ _ _ _ Hb).
  - by apply process_batch_raised in Hb.
Qed.

Lemma batch_row_hash now data_type mn old : hash (batch_row now data_type mn old) = Some (sha256 mn.1).
Proof. unfold batch_row. destruct old as [e|]; [|done]. by case_bool_decide. Qed.

Lemma batch_row_native now data_type mn old : is_Some (gm_item_id (batch_row now data_type mn old)).
Proof.
  unfold batch_row. destruct old as [e|]; [|eauto]. case_bool_decide; [|eauto]. simpl.
  destruct (gm_item_id e); eauto.
Qed.

Lemma batch_row_media now data_type mn old :
  has_media data_type = true → media (batch_row now data_type mn old) ≠ None.
Proof.
  intros Hd. unfold batch_row, media_of. rewrite Hd. destruct old as [e|]; [|done].
  case_bool_decide; [|done]. simpl. case_bool_decide; done.
Qed.

Lemma batch_row_settled now now' data_type m n n' old :
  batch_row now' data_type (m, n') (Some (batch_row now data_type (m, n) old)) =
    touch now' (batch_row now data_type (m, n) old).
Proof.
  unfold batch_row at 1. rewrite (bool_decide_eq_true_2 _ (batch_row_hash now data_type (m, n) old)).
  destruct (batch_row_native now data_type (m, n) old) as [g Hg]. unfold touch. rewrite Hg. f_equal.
  destruct (has_media data_type) eqn:Hd; [|done]. simpl.
  by rewrite bool_decide_eq_false_2 by (by apply batch_row_media).
Qed.

Lemma write_nothing data_type gr : write_document_graph key_of data_type [] gr = Ok gr.
Proof. done. Qed.

(** Redelivering a batch that committed changes nothing but the refresh stamp: the second
    run finds every document of the batch unchanged, leaves the graph exactly as it was,
    and leaves every row as it was except that the batch's rows carry the second run's
    time, so they survive the end-of-run purge. *)
Theorem process_batch_redelivery now now' data_type messages st st1 st2 r1 r2 :
  _process_batch key_of now data_type messages st = (st1, Ok r1) →
  _process_batch key_of now' data_type messages st1 = (st2, Ok r2) →
  graph st2 = graph st1 ∧
  (∀ id, id ∈ unchanged_ids r2 ↔ is_Some (last_delivery id messages)) ∧
  (∀ id, table_of st2 data_type !! id =
     match last_delivery id messages with
     | Some _ => touch now' <$> table_of st1 data_type !! id
     | None => table_of st1 data_type !! id
     end).
Proof.
  intros Hb1%process_batch_committed Hb2%process_batch_committed.
  destruct Hb1 as ((refs & adb & nids & Hres & Hrow1) & _).
  destruct Hb2 as ((refs2 & adb2 & nids2 & Hres2 & Hrow2) & _ & Hun & docs & _ & Hdocs & Hgr).
  assert (∀ id m, last_delivery id messages = Some m →
    ∃ n, table_of st1 data_type !! id = Some (batch_row now data_type (m, n) (table_of st data_type !! id))) as Hrow.
  { intros id m Hl. specialize (Hrow1 id). rewrite Hl in Hrow1. destruct Hrow1 as (ref & n & _ & _ & Hr). eauto. }
  split_and!.
  - assert (docs = []) as ->.
    { apply elem_of_nil_inv. intros [id d] (m & Hl & _ & Hne)%Hdocs. destruct (Hrow _ _ Hl) as [n Hn].
      apply Hne. rewrite Hn. simpl. apply batch_row_hash. }
    rewrite write_nothing in Hgr. by simplify_eq.
  - intros id. rewrite Hun. split; [by intros (m & -> & _)|]. intros [m Hl].
    exists m. split; [done|]. destruct (Hrow _ _ Hl) as [n Hn]. rewrite Hn. simpl. apply batch_row_hash.
  - intros id. specialize (Hrow2 id). destruct (last_delivery id messages) as [m|] eqn:Hl; [|done].
    destruct Hrow2 as (ref & n2 & _ & _ & Hr2). destruct (Hrow _ _ Hl) as [n Hn].
    rewrite Hr2, Hn. simpl. f_equal. apply batch_row_settled.
Qed.

(** ** One record is a batch of one *)

(** The stored row agrees with what the statements assume of it: it has a hash, its media
    column exists only on releases, and its native id, when set, is the one its reference
    resolves to. *)
Definition row_agrees (data_type id : string) (st : store) (e : entity) : Prop :=
  hash e ≠ None ∧ (has_media data_type = false → media e = None) ∧
  ∀ ref adb native_ids n, alias_ref data_type id = Ok ref →
    resolve_aliases (aliases st) [ref] = Ok (adb, native_ids) → native_ids !! ref = Some n →
    gm_item_id e = None ∨ gm_item_id e = Some n.

Lemma write_entities_single now data_type t m n :
  write_entities now (gate_step data_type t empty_gate (m, n)) t =
    <[data_id m := batch_row now data_type (m, n) (t !! data_id m)]> t.
Proof.
  apply map_eq. intros id.
  change (gate_step data_type t empty_gate (m, n)) with (foldl (gate_step data_type t) empty_gate [(m, n)]).
  destruct (decide (id = data_id m)) as [->|Hne].
  - rewrite lookup_insert_eq. apply (write_entities_in now data_type t [(m, n)] (m, n)); [|by left].
    apply NoDup_singleton.
  - rewrite lookup_insert_ne by done. apply write_entities_out. csimpl. by rewrite list_elem_of_singleton.
Qed.

(** The statement's conflict arm computes the row the batch writes. *)
Lemma merge_row_batch now data_type m n e :
  hash e ≠ None → (has_media data_type = false → media e = None) →
  (gm_item_id e = None ∨ gm_item_id e = Some n) →
  merge_row now data_type (Some (sha256 m)) (payload m) n e = batch_row now data_type (m, n) (Some e).
Proof.
  intros Hh Hm Hg. unfold merge_row, batch_row, media_of. simpl.
  destruct (hash e) as [h|]; [|done]. simpl.
  assert (Some n = match gm_item_id e with Some n0 => Some n0 | None => Some n end) as Hn
    by (by destruct Hg as [-> | ->]).
  destruct (decide (h = sha256 m)) as [->|Hne].
  - rewrite bool_decide_eq_false_2 by (intros Hx; by apply Hx).
    rewrite (bool_decide_eq_true_2 (Some _ = Some _)) by done.
    rewrite <-Hn. f_equal. by destruct (has_media data_type).
  - rewrite (bool_decide_eq_true_2 (h ≠ _)) by done. rewrite (bool_decide_eq_false_2 (Some h = _)) by congruence.
    f_equal. destruct (has_media data_type); [done|]. by apply Hm.
Qed.

Lemma gate_single data_type t m n :
  changed_documents (gate_step data_type t empty_gate (m, n)) =
    (if bool_decide (t !! data_id m ≫= hash = Some (sha256 m)) then [] else [(data_id m, payload m)]) ∧
  (data_id m ∈ (media_backfills (gate_step data_type t empty_gate (m, n))).*2 ↔
     ∃ e, t !! data_id m = Some e ∧ hash e = Some (sha256 m) ∧ has_media data_type = true ∧ media e = None).
Proof.
  unfold gate_step, empty_gate. cbn [changed_documents media_backfills].
  destruct (t !! data_id m) as [e|]; simpl.
  - destruct (decide (hash e = Some (sha256 m))) as [Hh|Hh].
    + rewrite bool_decide_eq_true_2 by done. cbn. split; [done|].
      destruct (has_media data_type); simpl; [|split; [intros []%elem_of_nil|naive_solver]].
      destruct (decide (media e = None)) as [Hm|Hm].
      * rewrite bool_decide_eq_true_2 by done. csimpl. rewrite list_elem_of_singleton. naive_solver.
      * rewrite bool_decide_eq_false_2 by done. csimpl. split; [intros []%elem_of_nil|naive_solver].
    + rewrite bool_decide_eq_false_2 by done. cbn. split; [done|].
      split; [intros []%elem_of_nil|naive_solver].
  - cbn. split; [done|]. split; [intros []%elem_of_nil|naive_solver].
Qed.

(** [persist_record]'s decision of its outcome and of the graph rewrite, on the stored row. *)
Lemma persist_decisions data_type m e :
  (has_media data_type && sql_eq (hash e) (Some (sha256 m)) && bool_decide (media e = None) = true ↔
     hash e = Some (sha256 m) ∧ has_media data_type = true ∧ media e = None).
Proof.
  rewrite !andb_true_iff, bool_decide_eq_true. unfold sql_eq.
  destruct (hash e) as [h|]; [rewrite bool_decide_eq_true|]; naive_solver.
Qed.

(** C34 The two write paths agree: storing one record does what a batch of that one record
    does.  Both fail alike and then change nothing, or both commit the same rows, aliases
    and graph, and the record path reports [media_backfilled] exactly when the batch
    counts the record among its media backfills. *)
Theorem persist_record_singleton_batch now data_type id d sha st :
  jget_default "sha256" (JStr "") d = JStr sha →
  (∀ e, table_of st data_type !! id = Some e → row_agrees data_type id st e) →
  let m := {| data_id := id; payload := d; sha256 := sha |} in
  match persist_record key_of now data_type id d st with
  | (st', Raise e) => _process_batch key_of now data_type [m] st = (st', Raise e)
  | (st', Ok outcome) =>
      ∃ r, _process_batch key_of now data_type [m] st = (st', Ok r) ∧
        (outcome = "media_backfilled" ↔ id ∈ media_backfilled_ids r)
  end.
Proof.
  intros Hsha Hagree m. unfold persist_record, _process_batch, transaction. cbv zeta.
  change (latest [m]) with [m]. cbn [map_result bind]. change (data_id m) with id.
  destruct (alias_ref data_type id) as [ref|] eqn:Href; [|done]. cbn [bind fmap list_fmap snd].
  destruct (resolve_aliases (aliases st) [ref]) as [[adb nids]|] eqn:Hres; [|done].
  cbn [bind map_result]. unfold resolved. cbn [fst snd].
  destruct (nids !! ref) as [n|] eqn:Hn; [|done].
  unfold sha_param. rewrite Hsha. cbn [bind fmap list_fmap].
  change (payload m) with d.
  destruct (alias_targets data_type [(d, n)]) as [targets|]; [|done]. cbn [bind foldl].
  destruct (attach_alias_targets adb targets) as [[adb' cf]|]; [|done]. cbn [bind].
  set (t := table_of st data_type) in *.
  destruct (gate_single data_type t m n) as [Hdocs Hmedia].
  rewrite (write_entities_single now data_type t m n), Hdocs.
  change (data_id m) with id in *. change (payload m) with d in *. change (sha256 m) with sha in *.
  assert (match t !! id with Some old => merge_row now data_type (Some sha) d n old
          | None => fresh_row now data_type (Some sha) d n end = batch_row now data_type (m, n) (t !! id)) as ->.
  { destruct (t !! id) as [e|] eqn:He; [|done]. destruct (Hagree e eq_refl) as (Hh & Hm & Hg).
    apply (merge_row_batch now data_type m n e Hh Hm). by eapply Hg. }
  assert ((if match t !! id with Some old => bool_decide (hash old ≠ Some sha) | None => true end
           then write_document_graph key_of data_type [(id, d)] (graph st) else Ok (graph st)) =
          write_document_graph key_of data_type
            (if bool_decide (t !! id ≫= hash = Some sha) then [] else [(id, d)]) (graph st)) as ->.
  { destruct (t !! id) as [e|]; [|done]. simpl. by repeat case_bool_decide. }
  destruct (write_document_graph _ _ _ _) as [gr|]; [|done]. cbn [bind].
  eexists. split; [done|]. cbn [media_backfilled_ids]. rewrite elem_of_list_to_set, Hmedia.
  destruct (t !! id) as [e|]; [|split; [done|naive_solver]].
  pose proof (persist_decisions data_type m e) as Hd. change (sha256 m) with sha in Hd.
  destruct (_ && bool_decide _); naive_solver.
Qed.

(** ** The purge *)

Lemma size_stale started t :
  size t = (size (stale_rows started t) + size (fresh_rows started t))%nat.
Proof.
  unfold stale_rows, fresh_rows.
  rewrite <-(map_filter_union_complement (λ ke, is_stale started ke.2 = true) t) at 1.
  rewrite map_size_disj_union by apply map_disjoint_filter_complement.
  f_equal. f_equal. apply map_filter_ext. intros i e _. simpl. by destruct (is_stale started e).
Qed.

(** The end-of-run purge is guarded and exact.  A purge that reports deletions had a
    start time, a record count other than zero, a non-empty table, and a stale fraction
    below the cap; it removed exactly the rows older than the start, reported their number,
    kept every other row and table, and took those documents, and no others, out of the
    graph.  Any other outcome, an exception included, changed nothing. *)
Theorem purge_stale_rows_exact fromisoformat cap data_type started_at record_count st :
  match purge_stale_rows key_of fromisoformat cap data_type started_at record_count st with
  | (st', Ok (Purged deleted)) =>
      ∃ started, fromisoformat started_at = Ok started ∧ started_at ≠ "" ∧ record_count ≠ Some 0 ∧
        let t := table_of st data_type in
        (0 < deleted)%nat ∧
        SFleb cap (true_div (Z.of_nat deleted) (Z.of_nat (size t))) = false ∧
        (size t = deleted + size (table_of st' data_type))%nat ∧
        (∀ id e, table_of st' data_type !! id = Some e ↔ t !! id = Some e ∧ started <= updated_at e) ∧
        (∀ other, other = data_type ∨ table_of st' other = table_of st other) ∧
        aliases st' = aliases st ∧
        ∃ stale, (∀ id, id ∈ stale ↔ ∃ e, t !! id = Some e ∧ updated_at e < started) ∧
          purge_document_graph key_of data_type stale (graph st) = Ok (graph st')
  | (st', _) => st' = st
  end.
Proof.
  unfold purge_stale_rows. case_bool_decide as Hs; [done|]. case_bool_decide as Hc; [done|].
  destruct (fromisoformat started_at) as [started|] eqn:Hiso; [|done].
  unfold transaction. cbv zeta. destruct (_ =? 0) eqn:Ht; [done|].
  destruct (Z.of_nat (size (stale_rows started _)) =? 0) eqn:Hn; [done|].
  destruct (SFleb _ _) eqn:Hcap; [done|].
  destruct (purge_document_graph _ _ _ _) as [gr|] eqn:Hgr; [|done]. cbn [bind].
  set (t := table_of st data_type) in *. exists started. rewrite !table_of_insert.
  split_and!; [done..|lia|done|apply size_stale| | |done|].
  - intros id e. unfold fresh_rows. rewrite map_lookup_filter_Some. simpl. unfold is_stale.
    rewrite Z.ltb_ge. done.
  - intros other. destruct (decide (other = data_type)) as [|Hne]; [by left|right].
    unfold table_of. cbn [entities]. by rewrite lookup_insert_ne.
  - eexists. split; [|exact Hgr]. intros id. rewrite list_elem_of_fmap. split.
    + intros ([i e] & -> & Hin%elem_of_map_to_list). unfold stale_rows in Hin.
      apply map_lookup_filter_Some in Hin as [He Hst]. exists e. split; [done|]. by apply Z.ltb_lt.
    + intros (e & He & Hst). exists (id, e). split; [done|]. apply elem_of_map_to_list.
      unfold stale_rows. apply map_lookup_filter_Some. split; [done|]. by apply Z.ltb_lt.
Qed.
End entities.

(** ** Instances *)

(** One release: stored, delivered again, and delivered through the batch path. *)
Definition empty_store : @store sample_identity :=
  {| entities := ∅; aliases := ([], 1%positive); graph := ∅ |}.

Definition sample_message : BatchRecord :=
  {| data_id := "7"; payload := [("sha256", JStr "aa")]; sha256 := "aa" |}.

Abbreviation first_run :=
  (_process_batch (H:=sample_runtime) whole_row_key 10 "labels" [sample_message] empty_store).

Lemma process_batch_redelivery_witness :
  let second_run := _process_batch (H:=sample_runtime) whole_row_key 20 "labels" [sample_message] first_run.1 in
  is_ok first_run.2 = true ∧ is_ok second_run.2 = true ∧ graph second_run.1 = graph first_run.1.
Proof.
  intros second_run.
  assert (is_ok first_run.2 = true) as H1 by (vm_compute; reflexivity).
  assert (is_ok second_run.2 = true) as H2 by (vm_compute; reflexivity).
  split; [exact H1|]. split; [exact H2|]. revert H1 H2. subst second_run.
  destruct first_run as [st1 [r1|]] eqn:E1; [|discriminate]. cbn [fst snd].
  destruct (_process_batch _ 20 _ _ st1) as [st2 [r2|]] eqn:E2; [|discriminate]. intros _ _.
  exact (proj1 (process_batch_redelivery whole_row_key 10 20 "labels" [sample_message] _ _ _ _ _ E1 E2)).
Defined.

Lemma persist_record_singleton_batch_witness :
  let run := persist_record (H:=sample_runtime) whole_row_key 10 "labels" "7" [("sha256", JStr "aa")] empty_store in
  is_ok run.2 = true ∧ first_run.1 = run.1.
Proof.
  intros run. assert (is_ok run.2 = true) as Hok by (vm_compute; reflexivity). split; [exact Hok|].
  revert Hok. subst run.
  pose proof (persist_record_singleton_batch (H:=sample_runtime) whole_row_key 10 "labels" "7"
    [("sha256", JStr "aa")] "aa" empty_store eq_refl) as Hp.
  destruct (persist_record _ _ _ _ _ _) as [st1 [o|]]; [|discriminate]. intros _.
  destruct Hp as (r & Hr & _).
  - intros e He. vm_compute in He. discriminate He.
  - unfold sample_message. rewrite Hr. reflexivity.
Defined.
