(* ===== verification/Mirror.v ===== *)
(** * The graph mirrors the catalog: [batch_writer.py], [record_persistence.py], [graph_writer.py]

    The composition of [Entities] and [GraphEffect].  A stored document and the graph rows it
    asserts are written by different statements of one transaction, gated by a hash, and
    purged together; this file proves that they stay in step: whatever batches, single
    records and purges run, in any order, each stored document's edges and vertices are in the
    graph, and a row that a document of the type may replace belongs to a stored document and
    is one its stored data derives. *)

From S2P Require Import Prelude Json Runtime Identity Derivation GraphWriter GraphEffect Entities.
From Stdlib Require Import SpecFloat.

(** ** Which rows belong to which type *)

(** The purge of the type sweeps the relation. *)
Definition swept_by (data_type r : string) : Prop := r ∈ default [] (od_get data_type _PURGE_SCOPE).

#[export] Instance swept_by_dec data_type r : Decision (swept_by data_type r).
Proof. unfold swept_by. apply _. Defined.

Section scopes.
Context `{CommonRuntime}.

(** A scoped relation a type writes is one its purge sweeps. *)
Lemma scoped_edges_swept data_type data_id data :
  map_Forall (λ r _, is_Some (od_get r _DOCUMENT_SCOPE) → swept_by data_type r)
    (edges (derive_document data_type data_id data)).
Proof.
  unfold derive_document, swept_by. repeat case_bool_decide; subst;
    cbn [edges derive_artist derive_master derive_release empty_graph]; unfold release_edges; cbv zeta;
    repeat (apply put_Forall; [|intros _]); try apply map_Forall_empty; intros Hs; try decide_now;
    by destruct Hs.
Qed.

Lemma derived_swept data_type data_id data r x column source_scoped :
  od_get r _DOCUMENT_SCOPE = Some (column, source_scoped) →
  x ∈ rows_of (edges (derive_document data_type data_id data)) r → swept_by data_type r.
Proof.
  intros Hs (rows & Hr & _)%rows_of_elem. by eapply (scoped_edges_swept _ _ _ _ _ Hr), mk_is_Some.
Qed.

(** No relation is swept by two types. *)
Lemma swept_by_one d d' r : swept_by d r → swept_by d' r → d = d'.
Proof.
  assert (∀ d, swept_by d r → ∃ rs, (d, rs) ∈ _PURGE_SCOPE ∧ r ∈ rs) as Hin.
  { intros e. unfold swept_by. destruct (od_get e _PURGE_SCOPE) as [rs|] eqn:E; [|by intros []%elem_of_nil].
    apply od_get_Some_elem in E. eauto. }
  assert (forallb (λ p, forallb (λ q, bool_decide (p.1 = q.1) || forallb (λ r, bool_decide (r ∉ q.2)) p.2) _PURGE_SCOPE)
    _PURGE_SCOPE = true) as Hall by (vm_compute; reflexivity).
  intros (rs & Hp & Hr)%Hin (rs' & Hp' & Hr')%Hin. apply list_elem_of_In in Hp, Hp', Hr.
  rewrite forallb_forall in Hall. specialize (Hall _ Hp). rewrite forallb_forall in Hall. specialize (Hall _ Hp').
  apply orb_true_iff in Hall as [Heq|Hno]; [by apply bool_decide_eq_true in Heq|].
  rewrite forallb_forall in Hno. specialize (Hno _ Hr). by apply bool_decide_eq_true in Hno.
Qed.

Lemma swept_edge d r : swept_by d r → r ∈ EDGE_COLUMNS.*1.
Proof.
  unfold swept_by. destruct (od_get d _PURGE_SCOPE) as [rs|] eqn:E; [|by intros []%elem_of_nil].
  assert (forallb (λ p, forallb (λ r, bool_decide (r ∈ EDGE_COLUMNS.*1)) p.2) _PURGE_SCOPE = true) as Hall
    by (vm_compute; reflexivity).
  apply od_get_Some_elem, list_elem_of_In in E. intros Hr%list_elem_of_In. rewrite forallb_forall in Hall.
  specialize (Hall _ E). rewrite forallb_forall in Hall. by apply Hall, bool_decide_eq_true in Hr.
Qed.

Lemma replaced_swept data_type data_id data r :
  r ∈ replaced (derive_document data_type data_id data) → swept_by data_type r.
Proof. by intros [? _]%replaced_in_scope. Qed.

(** The document a row of a scoped relation belongs to. *)
Definition owned (r data_id : string) (x : row) : Prop :=
  ∃ column source_scoped, od_get r _DOCUMENT_SCOPE = Some (column, source_scoped) ∧
    column_value r column x = Some (VText data_id) ∧
    (source_scoped = true → column_value r "source" x = Some (VText DISCOGS_SOURCE)).

Lemma owned_one r i j x : owned r i x → owned r j x → i = j.
Proof. intros (c & ss & H1 & H2 & _) (c' & ss' & H1' & H2' & _). congruence. Qed.

Lemma derived_owned data_type i d r x :
  is_Some (od_get r _DOCUMENT_SCOPE) → x ∈ rows_of (edges (derive_document data_type i d)) r → owned r i x.
Proof. intros [[c ss] Hs] Hx. exists c, ss. split; [done|]. by eapply derived_row_scoped. Qed.

Lemma owned_scoped r i x : owned r i x → is_Some (od_get r _DOCUMENT_SCOPE).
Proof. intros (c & ss & ? & _). eauto. Qed.
End scopes.

(** ** One write of the graph, row by row *)

Section graph_rows.
Context `{CommonRuntime} (key_of : string → row → list val).

Definition well_keyed (gr : graph_db) : Prop := ∀ r k x, tbl gr r !! k = Some x → key_of r x = k.

(** The rows a document asserts, edges and vertices. *)
Definition asserts (data_type data_id : string) (data : dict) (r : string) (x : row) : Prop :=
  let g := derive_document data_type data_id data in x ∈ rows_of (edges g) r ∨ x ∈ rows_of (vertices g) r.

Lemma asserts_edge data_type i d r x :
  r ∈ EDGE_COLUMNS.*1 → asserts data_type i d r x → x ∈ rows_of (edges (derive_document data_type i d)) r.
Proof.
  intros Hr [Hx|(rows & Hl & _)%rows_of_elem]; [done|].
  apply (proj1 (document_rows_fit data_type i d)) in Hl as (Hv & _). by apply vertex_edge_disjoint in Hr.
Qed.

Lemma asserts_vertex data_type i d r x :
  r ∈ VERTEX_COLUMNS.*1 → asserts data_type i d r x → x ∈ rows_of (vertices (derive_document data_type i d)) r.
Proof.
  intros Hr [(rows & Hl & _)%rows_of_elem|Hx]; [|done].
  apply (proj2 (document_rows_fit data_type i d)) in Hl as (He & _). by apply vertex_edge_disjoint in He.
Qed.

Lemma asserts_table data_type i d r x : asserts data_type i d r x → r ∈ EDGE_COLUMNS.*1 ∨ r ∈ VERTEX_COLUMNS.*1.
Proof.
  intros [(rows & Hl & _)%rows_of_elem|(rows & Hl & _)%rows_of_elem]; [left|right].
  - by apply (proj2 (document_rows_fit data_type i d)) in Hl as (? & _).
  - by apply (proj1 (document_rows_fit data_type i d)) in Hl as (? & _).
Qed.

(** A document of the batch takes the row away. *)
Definition loses (data_type : string) (docs : list (string * dict)) (r : string) (x : row) : Prop :=
  ∃ i d, (i, d) ∈ docs ∧ r ∈ replaced (derive_document data_type i d) ∧ owned r i x.

Lemma loses_dropped data_type docs r x :
  dropped (derived_documents data_type docs) r x = true ↔ loses data_type docs r x.
Proof.
  rewrite (elem_of_dropped key_of). split.
  - intros (c & ss & i & d & Hs & Hin & Hr & Hv & Hss). exists i, d. split_and!; [done..|]. by exists c, ss.
  - intros (i & d & Hin & Hr & c & ss & Hs & Hv & Hss). by exists c, ss, i, d.
Qed.

Lemma write_row data_type docs r t k :
  write_spec key_of data_type docs r t !! k =
    match t !! k with
    | Some x => if dropped (derived_documents data_type docs) r x then
        first_under (key_of r) k (sort_by _edge_order (merged edges (derived_documents data_type docs).*2 r))
      else Some x
    | None => if decide (r ∈ VERTEX_COLUMNS.*1)
        then first_under (key_of r) k (sort_by _vertex_order (merged vertices (derived_documents data_type docs).*2 r))
        else if decide (r ∈ EDGE_COLUMNS.*1)
        then first_under (key_of r) k (sort_by _edge_order (merged edges (derived_documents data_type docs).*2 r))
        else None
    end.
Proof.
  assert (r ∉ EDGE_COLUMNS.*1 → ∀ x, dropped (derived_documents data_type docs) r x = false) as Hnd.
  { intros Hr x. apply not_true_is_false. intros (i & d & _ & Hre & _)%loses_dropped. by apply replaced_is_edge in Hre. }
  destruct (decide (r ∈ EDGE_COLUMNS.*1)) as [He|He].
  - rewrite write_spec_edge by done. rewrite decide_False by (by apply vertex_edge_disjoint). done.
  - unfold write_spec. destruct (decide (r ∈ VERTEX_COLUMNS.*1)).
    + rewrite insert_rows_lookup. destruct (t !! k); [by rewrite Hnd|done].
    + rewrite decide_False by done. destruct (t !! k); [by rewrite Hnd|done].
Qed.

Lemma first_asserts data_type docs sel order r k x :
  (∀ i d, x ∈ rows_of (sel (derive_document data_type i d)) r → asserts data_type i d r x) →
  first_under (key_of r) k (sort_by order (merged sel (derived_documents data_type docs).*2 r)) = Some x →
  ∃ i d, (i, d) ∈ docs ∧ asserts data_type i d r x ∧ key_of r x = k.
Proof.
  intros Hsel [Hx Hk]%first_under_Some. rewrite elem_of_sort_by in Hx.
  apply elem_of_merged in Hx as (i & d & Hin & Hx). eauto 6.
Qed.

Lemma first_present data_type docs sel order r i d x :
  (i, d) ∈ docs → x ∈ rows_of (sel (derive_document data_type i d)) r →
  is_Some (first_under (key_of r) (key_of r x) (sort_by order (merged sel (derived_documents data_type docs).*2 r))).
Proof.
  intros Hin Hx. destruct (first_under _ _ _) eqn:Hf; [done|]. rewrite first_under_None in Hf.
  destruct (Hf x); [|done]. rewrite elem_of_sort_by. apply elem_of_merged. eauto.
Qed.

Context (data_type : string) (docs : list (string * dict)) (gr gr' : graph_db)
  (Hw : write_document_graph key_of data_type docs gr = Ok gr').

Lemma written_tables r : tbl gr' r = write_spec key_of data_type docs r (tbl gr r).
Proof.
  destruct (write_tables key_of data_type docs gr) as (db & Hdb & Ht). rewrite Hw in Hdb. injection Hdb as <-. apply Ht.
Qed.

Lemma row_origin r k x :
  tbl gr' r !! k = Some x →
  (tbl gr r !! k = Some x ∧ ~ loses data_type docs r x) ∨
  ∃ i d, (i, d) ∈ docs ∧ asserts data_type i d r x ∧ key_of r x = k.
Proof.
  rewrite written_tables, write_row. destruct (tbl gr r !! k) as [y|] eqn:Hy.
  - destruct (dropped _ _ _) eqn:Hd.
    + intros Hf. right. eapply first_asserts, Hf. intros. by left.
    + intros [= ->]. left. split; [done|]. intros Hl%loses_dropped. congruence.
  - repeat case_decide; [| |done]; intros Hf; right; (eapply first_asserts, Hf); intros; [by right|by left].
Qed.

Lemma row_kept r k x :
  tbl gr r !! k = Some x → ~ loses data_type docs r x → tbl gr' r !! k = Some x.
Proof.
  intros Hx Hl. rewrite written_tables, write_row, Hx. destruct (dropped _ _ _) eqn:Hd; [|done].
  by apply loses_dropped in Hd.
Qed.

Lemma row_present i d r x :
  (i, d) ∈ docs → asserts data_type i d r x → is_Some (tbl gr' r !! key_of r x).
Proof.
  intros Hin Ha. rewrite written_tables, write_row. destruct (asserts_table _ _ _ _ _ Ha) as [He|Hv].
  - rewrite (decide_False (P := r ∈ VERTEX_COLUMNS.*1)), decide_True by (done || by apply vertex_edge_disjoint).
    pose proof (first_present data_type docs edges _edge_order r i d x Hin (asserts_edge _ _ _ _ _ He Ha)) as Hf.
    destruct (tbl gr r !! _); [destruct (dropped _ _ _)|]; eauto.
  - rewrite decide_True by done.
    pose proof (first_present data_type docs vertices _vertex_order r i d x Hin (asserts_vertex _ _ _ _ _ Hv Ha)) as Hf.
    destruct (tbl gr r !! _) as [y|] eqn:Hy; [|done]. destruct (dropped _ _ _) eqn:Hd; [|done].
    exfalso. apply loses_dropped in Hd as (j & e & _ & Hre & _).
    apply replaced_is_edge in Hre. by apply vertex_edge_disjoint in Hre.
Qed.

Lemma written_keyed : well_keyed gr → well_keyed gr'.
Proof. intros Hk r k x [[Hx _]|(i & d & _ & _ & Hx)]%row_origin; [by apply Hk|done]. Qed.
End graph_rows.

(** ** Stored documents and their rows *)

Section mirror.
Context `{CommonRuntime} {IS : IdentityService} (key_of : string → row → list val).
Implicit Types (st : @store IS).

(** The key of a scoped relation includes the columns that name the row's document, as the
    primary keys of the declared schema do. *)
Definition key_names_document : Prop := ∀ r x y i,
  key_of r x = key_of r y → owned r i x → owned r i y.

(** Of one document: every row its stored data asserts has its key in the graph, and a row
    it owns means that it is stored and, in a relation it replaces, is one its data derives. *)
Definition complete (data_type id : string) st : Prop := ∀ e r x,
  table_of st data_type !! id = Some e → asserts data_type id (data e) r x → is_Some (tbl (graph st) r !! key_of r x).

Definition sound (data_type id : string) st : Prop := ∀ r k x,
  swept_by data_type r → tbl (graph st) r !! k = Some x → owned r id x →
  ∃ e, table_of st data_type !! id = Some e ∧
    (r ∈ replaced (derive_document data_type id (data e)) → x ∈ rows_of (edges (derive_document data_type id (data e))) r).

Definition mirrored (data_type id : string) st : Prop := complete data_type id st ∧ sound data_type id st.

(** What a transaction that stores documents does to the catalog and the graph: the rows of
    [docs] now hold their data, all other rows keep theirs, and the graph is written for
    [docs]. *)
Definition wrote (data_type : string) (docs : list (string * dict)) st st' : Prop :=
  NoDup docs.*1 ∧ write_document_graph key_of data_type docs (graph st) = Ok (graph st') ∧
  (∀ other, other = data_type ∨ table_of st' other = table_of st other) ∧
  (∀ id d, (id, d) ∈ docs → data <$> table_of st' data_type !! id = Some d) ∧
  (∀ id, id ∉ docs.*1 → data <$> table_of st' data_type !! id = data <$> table_of st data_type !! id).

Context (Hkeys : key_names_document).

Section write_step.
Context (data_type : string) (docs : list (string * dict)) (st st' : @store IS).
Hypothesis Hwrote : wrote data_type docs st st'.

Let Hw : write_document_graph key_of data_type docs (graph st) = Ok (graph st').
Proof. apply Hwrote. Qed.

Lemma wrote_doc id d : (id, d) ∈ docs → ∃ e, table_of st' data_type !! id = Some e ∧ data e = d.
Proof. intros Hin. apply Hwrote in Hin. by apply fmap_Some in Hin as (e & He & ->); eauto. Qed.

Lemma wrote_doc_unique id d d' : (id, d) ∈ docs → (id, d') ∈ docs → d = d'.
Proof. intros Hd Hd'. destruct (wrote_doc id d Hd) as (e & He & <-), (wrote_doc id d' Hd') as (e' & He' & <-). congruence. Qed.

(** A document in the batch that changed is mirrored afterwards, whatever was there before. *)
Lemma wrote_mirrored id : well_keyed key_of (graph st) → id ∈ docs.*1 → mirrored data_type id st'.
Proof.
  intros Hkeyed ([id' d] & -> & Hin)%list_elem_of_fmap. cbn [fst]. destruct (wrote_doc id' d Hin) as (e & He & Hd).
  split.
  - intros e' r x He' Ha. assert (e' = e) as -> by congruence. rewrite Hd in Ha. by eapply (row_present key_of), Ha.
  - intros r k x Hsw Hx Ho. exists e. split; [done|]. rewrite Hd. intros Hre.
    apply (row_origin key_of _ _ _ _ Hw) in Hx as [[_ Hl]|(j & f & Hj & Ha & _)].
    + destruct Hl. by exists id', d.
    + apply asserts_edge in Ha; [|by eapply replaced_is_edge].
      assert (owned r j x) as Hoj by (eapply derived_owned, Ha; by eapply owned_scoped).
      assert (j = id') as -> by by eapply owned_one. by rewrite (wrote_doc_unique id' d f).
Qed.

Section another.
Context (other id : string) (Hout : other = data_type → id ∉ docs.*1).

Lemma other_row : data <$> table_of st' other !! id = data <$> table_of st other !! id.
Proof.
  destruct Hwrote as (_ & _ & Hother & _ & Hrest). destruct (Hother other) as [->|Heq]; [by apply Hrest, Hout|].
  by rewrite Heq.
Qed.

Lemma wrote_complete : well_keyed key_of (graph st) → complete other id st → complete other id st'.
Proof.
  intros Hkeyed Hc e' r x He' Ha. pose proof other_row as Hrow. rewrite He' in Hrow. symmetry in Hrow.
  apply fmap_Some in Hrow as (e & He & Hd). rewrite Hd in Ha. destruct (Hc e r x He Ha) as [y Hy].
  rewrite (row_kept key_of _ _ _ _ Hw _ _ _ Hy); [done|]. intros (i & d & Hin & Hre & Ho).
  pose proof (replaced_swept _ _ _ _ Hre) as Hsw. apply asserts_edge in Ha; [|by eapply swept_edge].
  pose proof (owned_scoped _ _ _ Ho) as [[c ss] Hsc].
  assert (owned r id y) as Hy'.
  { eapply Hkeys; [symmetry; by apply Hkeyed|by eapply derived_owned]. }
  assert (i = id) as -> by by eapply owned_one.
  apply Hout; [by eapply swept_by_one, Hsw; eapply derived_swept|]. apply list_elem_of_fmap. by exists (id, d).
Qed.

Lemma wrote_sound : sound other id st → sound other id st'.
Proof.
  intros Hs r k x Hsw Hx Ho. apply (row_origin key_of _ _ _ _ Hw) in Hx as [[Hx _]|(i & d & Hin & Ha & _)].
  - destruct (Hs r k x Hsw Hx Ho) as (e & He & Hder). pose proof other_row as Hrow. rewrite He in Hrow.
    apply fmap_Some in Hrow as (e' & He' & Hd). exists e'. split; [done|]. by rewrite <-Hd.
  - exfalso. apply asserts_edge in Ha; [|by eapply swept_edge]. pose proof (owned_scoped _ _ _ Ho) as [[c ss] Hsc].
    assert (i = id) as -> by (eapply owned_one, Ho; by eapply derived_owned).
    apply Hout; [by eapply swept_by_one, derived_swept|]. apply list_elem_of_fmap. by exists (id, d).
Qed.
End another.

Lemma wrote_step :
  well_keyed key_of (graph st) → well_keyed key_of (graph st') ∧
  ∀ other id, mirrored other id st → mirrored other id st'.
Proof.
  intros Hkeyed. split; [by eapply written_keyed|]. intros other id [Hc Hs].
  destruct (decide (other = data_type ∧ id ∈ docs.*1)) as [[-> Hid]|Hout]; [by apply wrote_mirrored|].
  split; [apply wrote_complete|apply wrote_sound]; naive_solver.
Qed.
End write_step.

(** ** The transactions *)

Lemma batch_wrote now data_type messages st st' r :
  _process_batch key_of now data_type messages st = (st', Ok r) →
  ∃ docs, (∀ id d, (id, d) ∈ docs ↔ document_changed (table_of st data_type) messages id d) ∧ wrote data_type docs st st'.
Proof.
  intros (Hrows & Hother & _ & docs & Hnd & Hdocs & Hgr)%process_batch_committed. exists docs.
  destruct Hrows as (refs & adb & nids & _ & Hrows).
  split; [exact Hdocs|]. split; [exact Hnd|]. split; [exact Hgr|]. split; [exact Hother|]. split.
  - intros id d (m & Hl & -> & Hh)%Hdocs. specialize (Hrows id). rewrite Hl in Hrows.
    destruct Hrows as (ref & n & _ & _ & Hrow). rewrite Hrow. simpl. f_equal. unfold batch_row.
    destruct (table_of st data_type !! id) as [e|]; [|done]. simpl in Hh. by rewrite bool_decide_eq_false_2.
  - intros id Hid. specialize (Hrows id). destruct (last_delivery id messages) as [m|] eqn:Hl; [|by rewrite Hrows].
    destruct Hrows as (ref & n & _ & _ & Hrow). rewrite Hrow.
    assert (table_of st data_type !! id ≫= hash = Some (sha256 m)) as Hh.
    { apply dec_stable. intros Hne. apply Hid, list_elem_of_fmap. exists (id, payload m). split; [done|].
      apply Hdocs. by exists m. }
    destruct (table_of st data_type !! id) as [e|]; [|done]. simpl in Hh |- *. unfold batch_row.
    by rewrite bool_decide_eq_true_2.
Qed.

(** Every stored row has a hash. *)
Definition hashed st : Prop := ∀ data_type id e, table_of st data_type !! id = Some e → hash e ≠ None.

(** The record's hash, as the upsert stores it, is text: [sha256] is text or absent. *)
Definition hash_is_text (d : dict) : Prop := ∃ sha, jget_default "sha256" (JStr "") d = JStr sha.

(** The row the upsert of one record leaves. *)
Definition record_row (now : Z) (data_type : string) (sha : option string) (d : dict) (n : native_id) (old : option entity)
    : entity :=
  match old with Some e => merge_row now data_type sha d n e | None => fresh_row now data_type sha d n end.

Definition content_changed (sha : option string) (old : option entity) : bool :=
  match old with Some e => bool_decide (hash e ≠ sha) | None => true end.

Lemma record_committed now data_type id d st st' outcome :
  persist_record key_of now data_type id d st = (st', Ok outcome) →
  let old := table_of st data_type !! id in
  ∃ sha n adb gr, sha_param d = Ok sha ∧
    st' = {| entities := <[data_type := <[id := record_row now data_type sha d n old]> (table_of st data_type)]> (entities st);
             aliases := adb; graph := gr |} ∧
    (if content_changed sha old then write_document_graph key_of data_type [(id, d)] (graph st) = Ok gr else gr = graph st).
Proof.
  unfold persist_record, transaction. destruct (alias_ref _ _) as [ref|]; [|done].
  cbn [bind]. destruct (resolve_aliases _ _) as [[adb nids]|]; [|done]. cbn [bind].
  destruct (nids !! ref) as [n|]; [|done]. destruct (sha_param d) as [sha|]; [|done]. cbn [bind]. cbv zeta.
  destruct (alias_targets _ _) as [targets|]; [|done]. cbn [bind].
  destruct (attach_alias_targets _ _) as [[adb' cf]|]; [|done]. cbn [bind].
  fold (content_changed sha (table_of st data_type !! id)).
  destruct (content_changed sha _) eqn:Hch.
  - destruct (write_document_graph _ _ _ _) as [gr|] eqn:Hgr; [|done]. intros [= <- _].
    exists sha, n, adb', gr. by rewrite Hch.
  - intros [= <- _]. exists sha, n, adb', (graph st). by rewrite Hch.
Qed.

Lemma table_of_other data_type t st adb gr other :
  other = data_type ∨ table_of {| entities := <[data_type := t]> (entities st); aliases := adb; graph := gr |} other = table_of st other.
Proof.
  destruct (decide (other = data_type)) as [|Hne]; [by left|right]. unfold table_of. cbn [entities].
  by rewrite lookup_insert_ne.
Qed.

Lemma record_row_hash now data_type sha d n old :
  (∀ e, old = Some e → hash e ≠ None) → hash (record_row now data_type (Some sha) d n old) ≠ None.
Proof.
  intros Ho. destruct old as [e|]; [|done]. simpl. specialize (Ho e eq_refl). destruct (hash e); [|done].
  by repeat case_match.
Qed.

Lemma record_row_data now data_type sha d n old :
  (∀ e, old = Some e → hash e ≠ None) →
  Some (data (record_row now data_type (Some sha) d n old)) =
    if content_changed (Some sha) old then Some d else data <$> old.
Proof.
  intros Ho. destruct old as [e|]; [|done]. simpl. specialize (Ho e eq_refl). unfold sql_neq.
  destruct (hash e) as [h|]; [|done]. destruct (decide (h = sha)) as [->|Hne].
  - by rewrite !bool_decide_eq_false_2 by congruence.
  - by rewrite !bool_decide_eq_true_2 by congruence.
Qed.

Lemma record_wrote now data_type id d st st' outcome :
  hashed st → hash_is_text d → persist_record key_of now data_type id d st = (st', Ok outcome) →
  (∃ docs, wrote data_type docs st st') ∧ hashed st'.
Proof.
  intros Hhashed [sha Hsha] (sha' & n & adb & gr & Hparam & -> & Hgr)%record_committed.
  unfold sha_param in Hparam. rewrite Hsha in Hparam. injection Hparam as <-.
  pose proof (λ e, Hhashed data_type id e) as Hold.
  pose proof (record_row_data now data_type sha d n _ Hold) as Hdata. split.
  - exists (if content_changed (Some sha) (table_of st data_type !! id) then [(id, d)] else []).
    split; [destruct (content_changed _ _); [apply NoDup_singleton|constructor]|].
    split; [destruct (content_changed _ _); [exact Hgr|by rewrite Hgr]|].
    split; [intros other; apply table_of_other|]. split.
    + intros i e Hin. destruct (content_changed _ _); [|by apply elem_of_nil in Hin].
      apply list_elem_of_singleton in Hin as [= -> ->]. by rewrite table_of_insert, lookup_insert_eq.
    + intros i Hi. rewrite table_of_insert. destruct (decide (i = id)) as [->|Hne]; [|by rewrite lookup_insert_ne].
      rewrite lookup_insert_eq. simpl. rewrite Hdata. destruct (content_changed _ _); [|done].
      destruct Hi. by left.
  - intros dt i e. destruct (table_of_other data_type
      (<[id := record_row now data_type (Some sha) d n (table_of st data_type !! id)]> (table_of st data_type)) st adb gr dt)
      as [->|Heq]; [|rewrite Heq; apply Hhashed].
    rewrite table_of_insert, lookup_insert_Some. intros [[<- <-]|[_ He]]; [by apply record_row_hash|by eapply Hhashed].
Qed.

(** ** The purge *)

Lemma purged_row data_type stale gr gr' r k x :
  purge_document_graph key_of data_type stale gr = Ok gr' →
  tbl gr' r !! k = Some x ↔
    tbl gr r !! k = Some x ∧ ~ (swept_by data_type r ∧ ∃ i, i ∈ stale ∧ owned r i x).
Proof.
  unfold purge_document_graph. rewrite purge_plan_ok. intros [= <-]. rewrite (tbl_run key_of), purges_on.
  case_decide as Hr.
  2: { split; [|by intros [? _]]. intros Hx. split; [done|]. by intros [? _]. }
  rewrite delete_rows_lookup. destruct (tbl gr r !! k) as [y|]; [|naive_solver].
  assert (purged stale r y = true ↔ ∃ i, i ∈ stale ∧ owned r i y) as Hp.
  { unfold purged, owned. destruct (od_get r _DOCUMENT_SCOPE) as [[c ss]|]; [|naive_solver].
    unfold in_scope. rewrite andb_true_iff, orb_true_iff, negb_true_iff, !bool_decide_eq_true, list_elem_of_fmap. split.
    - intros [(i & Hv & Hi) Hss]. exists i. split; [done|]. exists c, ss. split_and!; [done..|]. intros ->. by destruct Hss.
    - intros (i & Hi & c' & ss' & [= <- <-] & Hv & Hss). split; [eauto|]. destruct ss; auto. }
  destruct (purged stale r y) eqn:E.
  - split; [done|]. intros [[= <-] Hn]. destruct Hn. split; [done|]. by apply Hp.
  - split; [|by intros [? _]]. intros [= <-]. split; [done|]. intros [_ Hi%Hp]. congruence.
Qed.

(** A purge leaves the store, or leaves the fresh rows and takes the stale documents out of
    the graph. *)
Lemma purge_cases fromisoformat cap data_type started_at record_count st :
  let st' := (purge_stale_rows key_of fromisoformat cap data_type started_at record_count st).1 in
  st' = st ∨ ∃ started,
    purge_document_graph key_of data_type (map_to_list (stale_rows started (table_of st data_type))).*1 (graph st) = Ok (graph st') ∧
    (∀ other, other = data_type ∨ table_of st' other = table_of st other) ∧
    table_of st' data_type = fresh_rows started (table_of st data_type).
Proof.
  unfold purge_stale_rows. repeat (case_bool_decide; [by left|]). destruct (fromisoformat started_at) as [started|]; [|by left].
  unfold transaction. cbv zeta. destruct (_ =? 0); [by left|]. destruct (_ =? 0); [by left|]. destruct (SFleb _ _); [by left|].
  destruct (purge_document_graph _ _ _ _) as [gr|] eqn:Hgr; [|by left]. right. exists started. cbn [bind fst graph].
  split; [done|]. split; [intros other; apply table_of_other|apply table_of_insert].
Qed.

Lemma stale_ids started (t : entity_table) id :
  id ∈ (map_to_list (stale_rows started t)).*1 ↔ ∃ e, t !! id = Some e ∧ fresh_rows started t !! id = None.
Proof.
  rewrite list_elem_of_fmap. unfold stale_rows, fresh_rows. split.
  - intros ([i e] & -> & Hin%elem_of_map_to_list). apply map_lookup_filter_Some in Hin as [He Hs]. exists e. split; [done|].
    rewrite map_lookup_filter. cbn [fst]. rewrite He. simpl in *. by rewrite Hs.
  - intros (e & He & Hf). exists (id, e). split; [done|]. apply elem_of_map_to_list, map_lookup_filter_Some. split; [done|].
    rewrite map_lookup_filter, He in Hf. simpl in *. destruct (is_stale started e); done.
Qed.

Section purge_run.
Context (data_type : string) (started : Z) (st st' : @store IS).
Hypothesis Hgr : purge_document_graph key_of data_type (map_to_list (stale_rows started (table_of st data_type))).*1 (graph st)
                 = Ok (graph st').
Hypothesis Hother : ∀ other, other = data_type ∨ table_of st' other = table_of st other.
Hypothesis Htable : table_of st' data_type = fresh_rows started (table_of st data_type).

Lemma purge_sub other id e : table_of st' other !! id = Some e → table_of st other !! id = Some e.
Proof.
  destruct (Hother other) as [-> | ->]; [|done]. rewrite Htable. unfold fresh_rows. by intros [? _]%map_lookup_filter_Some.
Qed.

Lemma purge_rows_sub r k x : tbl (graph st') r !! k = Some x → tbl (graph st) r !! k = Some x.
Proof. by intros [? _]%(purged_row _ _ _ _ _ _ _ Hgr). Qed.

Lemma purge_complete other id : well_keyed key_of (graph st) → complete other id st → complete other id st'.
Proof.
  intros Hkeyed Hc e r x He Ha. destruct (Hc e r x (purge_sub _ _ _ He) Ha) as [y Hy].
  exists y. apply (purged_row _ _ _ _ _ _ _ Hgr). split; [done|]. intros (Hsw & i & Hi & Ho).
  apply asserts_edge in Ha; [|by eapply swept_edge]. pose proof (owned_scoped _ _ _ Ho) as [[c ss] Hsc].
  assert (owned r id y) as Hy' by (eapply Hkeys; [symmetry; by apply Hkeyed|by eapply derived_owned]).
  assert (i = id) as -> by by eapply owned_one.
  assert (other = data_type) as -> by (eapply swept_by_one, Hsw; by eapply derived_swept).
  apply stale_ids in Hi as (e' & _ & Hf). rewrite Htable in He. congruence.
Qed.

Lemma purge_sound other id : sound other id st → sound other id st'.
Proof.
  intros Hs r k x Hsw Hx Ho. destruct (Hs r k x Hsw (purge_rows_sub _ _ _ Hx) Ho) as (e & He & Hder).
  exists e. split; [|done]. destruct (Hother other) as [->|Heq]; [|by rewrite Heq].
  apply (purged_row _ _ _ _ _ _ _ Hgr) in Hx as [_ Hn]. rewrite Htable.
  destruct (fresh_rows started (table_of st data_type) !! id) as [e'|] eqn:Hf.
  - unfold fresh_rows in Hf. apply map_lookup_filter_Some in Hf as [? _]. congruence.
  - destruct Hn. split; [done|]. exists id. split; [|done]. apply stale_ids. eauto.
Qed.
End purge_run.

Lemma purge_step fromisoformat cap data_type started_at record_count st :
  well_keyed key_of (graph st) → hashed st →
  let st' := (purge_stale_rows key_of fromisoformat cap data_type started_at record_count st).1 in
  well_keyed key_of (graph st') ∧ hashed st' ∧ ∀ other id, mirrored other id st → mirrored other id st'.
Proof.
  intros Hkeyed Hhashed st'.
  destruct (purge_cases fromisoformat cap data_type started_at record_count st) as [Heq|(started & Hgr & Hother & Htable)];
    [fold st' in Heq; by rewrite Heq|fold st' in Hgr, Hother, Htable].
  split; [intros r k x Hx; by eapply Hkeyed, purge_rows_sub|]. split; [intros dt id e He; by eapply Hhashed, purge_sub|].
  intros other id [Hc Hs]. split; [by eapply purge_complete|by eapply purge_sound].
Qed.

(** ** Any run *)

(** What the loader does to the store: a batch, one record, the purge of a type. *)
Inductive catalog_step st : store → Prop :=
  | step_batch admission now data_type messages :
      catalog_step st (process_batch key_of admission now data_type messages st).1
  | step_record now data_type id d :
      hash_is_text d → catalog_step st (persist_record key_of now data_type id d st).1
  | step_purge fromisoformat cap data_type started_at record_count :
      catalog_step st (purge_stale_rows key_of fromisoformat cap data_type started_at record_count st).1.

Lemma batch_hashed now data_type messages st st' r :
  _process_batch key_of now data_type messages st = (st', Ok r) → hashed st → hashed st'.
Proof.
  intros ((refs & adb & nids & _ & Hrows) & Hother & _)%process_batch_committed Hh dt id e He.
  destruct (Hother dt) as [->|Heq]; [|rewrite Heq in He; by eapply Hh].
  specialize (Hrows id). destruct (last_delivery id messages) as [m|]; [|rewrite Hrows in He; by eapply Hh].
  destruct Hrows as (ref & n & _ & _ & Hrow). rewrite Hrow in He. injection He as <-. by rewrite batch_row_hash.
Qed.

Lemma catalog_step_mirrors st st' :
  catalog_step st st' → well_keyed key_of (graph st) → hashed st →
  well_keyed key_of (graph st') ∧ hashed st' ∧ ∀ data_type id, mirrored data_type id st → mirrored data_type id st'.
Proof.
  intros [admission now data_type messages|now data_type id d Htext|fromisoformat cap data_type started_at record_count] Hkeyed Hh.
  - unfold process_batch. destruct admission; [|done]. cbn [negb].
    destruct (_process_batch _ _ _ _ _) as [st1 [r|e]] eqn:Hb; cbn [fst].
    + split_and!; [|by eapply batch_hashed|]; apply batch_wrote in Hb as (docs & _ & Hwr); by apply (wrote_step _ _ _ _ Hwr).
    + by apply process_batch_raised in Hb as ->.
  - destruct (persist_record _ _ _ _ _ _) as [st1 [o|e]] eqn:Hr; cbn [fst].
    + destruct (record_wrote _ _ _ _ _ _ _ Hh Htext Hr) as [[docs Hwr] Hh'].
      split_and!; [|done|]; by apply (wrote_step _ _ _ _ Hwr).
    + assert (st1 = st) as ->; [|done]. revert Hr. unfold persist_record, transaction. by case_match; [destruct a|]; intros [= <- _].
  - by apply purge_step.
Qed.

Lemma catalog_run_mirrors st st' :
  rtc catalog_step st st' → well_keyed key_of (graph st) → hashed st →
  well_keyed key_of (graph st') ∧ hashed st' ∧ ∀ data_type id, mirrored data_type id st → mirrored data_type id st'.
Proof.
  induction 1 as [st|st st1 st2 Hstep _ IH]; [done|]. intros Hk Hh.
  destruct (catalog_step_mirrors _ _ Hstep Hk Hh) as (Hk1 & Hh1 & Hm1). destruct (IH Hk1 Hh1) as (Hk2 & Hh2 & Hm2).
  split_and!; auto.
Qed.

End mirror.

(** ** A concrete run *)

Lemma whole_row_names_document : key_names_document whole_row_key.
Proof. intros r x y i Hxy. unfold whole_row_key in Hxy. by subst. Qed.

Lemma empty_keyed : well_keyed whole_row_key (graph empty_store).
Proof. intros r k x Hx. change (tbl (graph empty_store) r) with (default ∅ ((∅ : graph_db) !! r)) in Hx.
  rewrite lookup_empty in Hx. simpl in Hx. by rewrite lookup_empty in Hx. Qed.

Lemma empty_hashed : hashed empty_store.
Proof. intros dt id e He. unfold table_of, empty_store in He. cbn [entities] in He.
  rewrite lookup_empty in He. simpl in He. by rewrite lookup_empty in He. Qed.

Definition jazz_release : BatchRecord :=
  {| data_id := "7"; payload := [("genres", JList [JStr "Jazz"]); ("sha256", JStr "aa")]; sha256 := "aa" |}.

Abbreviation jazz_run :=
  (_process_batch (H:=sample_runtime) whole_row_key 10 "releases" [jazz_release] empty_store).

