(* ===== verification/Counters.v ===== *)
(** * The end-of-extraction pass: [graph_counters.py]

    What the whole catalog asserts: the reconciliation of the two additive relations by
    keyset pages, the seven counter bodies as queries on the edge tables, and the one
    transaction that runs both with the schema's path functions and the durable worker's
    fences. *)

From S2P Require Import Prelude Json Runtime Media Identity Derivation GraphWriter GraphEffect Entities.

Definition PATH_REFRESH_FUNCTIONS : list string := ["refresh_artist_member_of"; "refresh_vertex_degree"].
Definition DOCUMENT_PAGE_SIZE : nat := Z.to_nat 2000.

(** [jsonb_typeof(v) = 'array' AND jsonb_array_length(v) > 0]; an absent key is [NULL],
    which selects nothing. *)
Definition nonempty_array (v : json) : bool :=
  match v with JList (_ :: _) => true | _ => false end.

(** The relation, the entity table whose documents assert it, and the page's predicate. *)
Definition ADDITIVE_RELATIONS : list (string * (string * (dict → bool))) :=
  [("member_of", ("artists", λ d, nonempty_array (jget "members" d) || nonempty_array (jget "groups" d)));
   ("same_as", ("releases", λ d, nonempty_array (jget "extraartists" d)))].

(** ** Keyset pages *)

Definition id_order (x y : string * dict) : bool := String.leb x.1 y.1.

(** [a > b] on ids. *)
Definition id_after (a b : string) : bool := String.leb b a && bool_decide (a ≠ b).

Definition documents_of (t : entity_table) : list (string * dict) :=
  (λ '(i, e), (i, data e)) <$> map_to_list t.

(** [SELECT data_id, data WHERE (predicate) AND data_id > last ORDER BY data_id LIMIT n] *)
Definition _document_page (n : nat) (predicate : dict → bool) (t : entity_table) (last : string)
    : list (string * dict) :=
  take n (sort_by id_order (filter (λ d, predicate d.2 && id_after d.1 last) (documents_of t))).

Section reconcile.
Context `{CommonRuntime} (key_of : string → row → list val).

Definition _asserted_rows (relation data_type : string) (documents : list (string * dict)) : list row :=
  unique (documents ≫= λ '(data_id, d), rows_of (edges (derive_document data_type data_id d)) relation).

(** The paging loop: the rows copied so far, or nothing when the fuel runs out. *)
Fixpoint page_loop (fuel n : nat) (relation table : string) (predicate : dict → bool) (t : entity_table)
    (last_id : string) (asserted : list row) : option (list row) :=
  match fuel with
  | O => None
  | S fuel =>
      let page := _document_page n predicate t last_id in
      match last page with
      | None => Some asserted
      | Some (id, _) =>
          let asserted := asserted ++ _asserted_rows relation table page in
          if Nat.ltb (length page) n then Some asserted
          else page_loop fuel n relation table predicate t id asserted
      end
  end.

(** Enough rounds for any table: each full page consumes at least one document. *)
Definition page_fuel (t : entity_table) : nat := S (S (size t)).

(** [_insert_asserted] and [_delete_unasserted] on the relation's table. *)
Definition reconcile_table (relation : string) (asserted : list row) (t : table) : table :=
  delete_rows (λ x, bool_decide (x ∉ asserted)) (insert_rows key_of relation asserted t).

Definition reconcile_relation (entities : string → entity_table) (gr : graph_db)
    (a : string * (string * (dict → bool))) : option graph_db :=
  let '(relation, (table, predicate)) := a in
  let t := entities table in
  if bool_decide (size t = 0%nat) then Some gr
  else
    match page_loop (page_fuel t) DOCUMENT_PAGE_SIZE relation table predicate t "" [] with
    | Some asserted => Some (<[relation := reconcile_table relation asserted (tbl gr relation)]> gr)
    | None => None
    end.

Definition reconcile_additive_edges (entities : string → entity_table) (gr : graph_db) : option graph_db :=
  foldl (λ gr a, gr ← gr; reconcile_relation entities gr a) (Some gr) ADDITIVE_RELATIONS.

(** ** Pages cover the selected documents *)

Lemma id_after_trans a b c : id_after a b = true → id_after b c = true → id_after a c = true.
Proof.
  unfold id_after. rewrite !andb_true_iff, !bool_decide_eq_true. intros [H1 N1] [H2 N2]. split.
  - by eapply string_leb_trans.
  - intros ->. apply N1. by apply String.leb_antisym.
Qed.

Lemma id_after_irrefl a : id_after a a = false.
Proof. unfold id_after. rewrite bool_decide_eq_false_2; [by rewrite andb_false_r|]. by intros []. Qed.

Lemma id_after_cases a b : a = b ∨ id_after a b = true ∨ id_after b a = true.
Proof.
  destruct (decide (a = b)) as [->|Hne]; [by left|right]. unfold id_after.
  rewrite !bool_decide_eq_true_2, !andb_true_r by done. destruct (string_leb_total a b); auto.
Qed.

Abbreviation selected := (λ (predicate : dict → bool) (last : string) (d : string * dict),
  predicate d.2 && id_after d.1 last).

Lemma documents_unique t d1 d2 :
  d1 ∈ documents_of t → d2 ∈ documents_of t → d1.1 = d2.1 → d1 = d2.
Proof.
  unfold documents_of. rewrite !list_elem_of_fmap.
  intros ([i1 e1] & -> & H1%elem_of_map_to_list) ([i2 e2] & -> & H2%elem_of_map_to_list). simpl.
  intros ->. by simplify_eq.
Qed.

Lemma elem_of_documents t id d : (id, d) ∈ documents_of t ↔ ∃ e, t !! id = Some e ∧ data e = d.
Proof.
  unfold documents_of. rewrite list_elem_of_fmap. split.
  - intros ([i e] & [= -> ->] & Hin%elem_of_map_to_list). eauto.
  - intros (e & He & <-). exists (id, e). split; [done|]. by apply elem_of_map_to_list.
Qed.

(** A page's last document is the greatest of the page, and what the page leaves out comes
    after it. *)
Lemma sorted_last_max (l : list (string * dict)) d x :
  StronglySorted (λ a b, id_order a b = true) l → last l = Some d → x ∈ l → id_order x d = true.
Proof.
  induction 1 as [|a l Hl IH Ha]; [done|]. intros Hd [->|Hx]%elem_of_cons.
  - destruct l as [|b l]; simpl in Hd; simplify_eq.
    + unfold id_order. destruct (string_leb_total d.1 d.1); done.
    + rewrite Forall_forall in Ha. apply Ha. by apply last_Some_elem_of.
  - apply IH; [|done]. destruct l; [by apply elem_of_nil in Hx|done].
Qed.

Lemma filter_length_le (P Q : (string * dict) → bool) (l : list (string * dict)) :
  (∀ x, x ∈ l → P x = true → Q x = true) →
  (length (filter (λ x, P x) l) ≤ length (filter (λ x, Q x) l))%nat.
Proof.
  induction l as [|a l IH]; intros HPQ; [done|].
  assert (length (filter (λ x, P x) l) ≤ length (filter (λ x, Q x) l))%nat as Hle.
  { apply IH. intros x Hx. apply HPQ. by right. }
  rewrite !filter_cons. pose proof (HPQ a (list_elem_of_here _ _)).
  destruct (P a), (Q a); simpl in *; try lia; exfalso; intuition discriminate.
Qed.

Lemma filter_length_lt (P Q : (string * dict) → bool) (l : list (string * dict)) y :
  (∀ x, x ∈ l → P x = true → Q x = true) → y ∈ l → P y = false → Q y = true →
  (length (filter (λ x, P x) l) < length (filter (λ x, Q x) l))%nat.
Proof.
  induction l as [|a l IH]; intros HPQ Hy HP HQ; [by apply elem_of_nil in Hy|].
  assert (∀ x, x ∈ l → P x = true → Q x = true) as HPQ' by (intros x Hx; apply HPQ; by right).
  pose proof (filter_length_le P Q l HPQ') as Hle. rewrite !filter_cons.
  apply elem_of_cons in Hy as [->|Hy].
  - rewrite HP, HQ. simpl. lia.
  - specialize (IH HPQ' Hy HP HQ). pose proof (HPQ a (list_elem_of_here _ _)).
    destruct (P a), (Q a); simpl in *; try lia; exfalso; intuition discriminate.
Qed.

(** The documents a page selects from. *)
Definition docs_after (predicate : dict → bool) (t : entity_table) (last : string) : list (string * dict) :=
  filter (λ d, selected predicate last d) (documents_of t).

Lemma docs_after_NoDup predicate t last_id : NoDup (docs_after predicate t last_id).
Proof.
  apply NoDup_filter. unfold documents_of. apply NoDup_fmap_2_strong; [|apply NoDup_map_to_list].
  intros [i1 e1] [i2 e2] H1%elem_of_map_to_list H2%elem_of_map_to_list [= -> _]. by simplify_eq.
Qed.

Lemma elem_of_docs_after predicate t last_id d :
  d ∈ docs_after predicate t last_id ↔ d ∈ documents_of t ∧ predicate d.2 = true ∧ id_after d.1 last_id = true.
Proof.
  unfold docs_after. rewrite list_elem_of_filter, andb_True, !Is_true_true. tauto.
Qed.

Lemma page_elem n predicate t last_id d :
  d ∈ _document_page n predicate t last_id → d ∈ docs_after predicate t last_id.
Proof.
  intros Hd. apply (elem_of_sort_by id_order). unfold _document_page in Hd.
  fold (docs_after predicate t last_id) in Hd.
  rewrite <-(take_drop n (sort_by id_order (docs_after predicate t last_id))). apply elem_of_app. by left.
Qed.

Lemma page_step n predicate t last_id d x :
  last (_document_page n predicate t last_id) = Some d →
  x ∈ docs_after predicate t last_id ↔
    x ∈ _document_page n predicate t last_id ∨ x ∈ docs_after predicate t d.1.
Proof.
  intros Hd. assert (d ∈ _document_page n predicate t last_id) as Hdin by (by apply last_Some_elem_of).
  pose proof (page_elem _ _ _ _ _ Hdin) as Hdsel. apply elem_of_docs_after in Hdsel as (Hdd & Hdp & Hda).
  split.
  2: { intros [Hx|Hx]; [by eapply page_elem|]. apply elem_of_docs_after in Hx as (Hxd & Hxp & Hxa).
       apply elem_of_docs_after. split_and!; [done..|]. by eapply id_after_trans. }
  intros Hx. assert (Hx' := Hx). apply elem_of_docs_after in Hx' as (Hxd & Hxp & Hxa).
  set (l := sort_by id_order (docs_after predicate t last_id)).
  assert (StronglySorted (λ a b, id_order a b = true) l) as Hs.
  { apply sort_by_sorted; unfold id_order; eauto with loader. }
  assert (NoDup l) as Hnd by (unfold l; rewrite sort_by_perm; apply docs_after_NoDup).
  assert (x ∈ take n l ++ drop n l) as Hxl by (rewrite take_drop; by apply elem_of_sort_by).
  apply elem_of_app in Hxl as [Hxl|Hxl]; [by left|right].
  apply elem_of_docs_after. split_and!; [done..|].
  change (_document_page n predicate t last_id) with (take n l) in Hdin.
  rewrite <-(take_drop n l) in Hnd, Hs. apply NoDup_app in Hnd as (_ & Hdisj & _).
  apply StronglySorted_app in Hs as (Hle & _ & _). specialize (Hle _ _ Hdin Hxl).
  unfold id_after. unfold id_order in Hle. rewrite Hle. apply bool_decide_eq_true. intros Heq.
  by rewrite (documents_unique t x d Hxd Hdd Heq) in Hxl; destruct (Hdisj _ Hdin).
Qed.

Lemma page_short n predicate t last_id x :
  (length (_document_page n predicate t last_id) < n)%nat →
  x ∈ docs_after predicate t last_id → x ∈ _document_page n predicate t last_id.
Proof.
  unfold _document_page. rewrite length_take. intros Hlen Hx.
  rewrite take_ge by lia. by apply elem_of_sort_by.
Qed.

Lemma page_progress n predicate t last_id d :
  last (_document_page n predicate t last_id) = Some d →
  (length (docs_after predicate t d.1) < length (docs_after predicate t last_id))%nat.
Proof.
  intros Hd%last_Some_elem_of%page_elem. apply elem_of_docs_after in Hd as (Hdd & Hdp & Hda).
  apply (filter_length_lt _ _ _ d); [|done| |by rewrite Hdp].
  - intros x _. rewrite !andb_true_iff. intros [? ?]. split; [done|]. by eapply id_after_trans.
  - by rewrite id_after_irrefl, andb_false_r.
Qed.

Lemma elem_of_asserted_rows relation data_type documents x :
  x ∈ _asserted_rows relation data_type documents ↔
  ∃ data_id d, (data_id, d) ∈ documents ∧ x ∈ rows_of (edges (derive_document data_type data_id d)) relation.
Proof.
  unfold _asserted_rows. rewrite elem_of_unique, list_elem_of_bind. split.
  - intros ([i d] & Hx & Hin). eauto.
  - intros (i & d & Hin & Hx). by exists (i, d).
Qed.

(** Enough fuel gives the rows of every selected document. *)
Lemma page_loop_complete fuel n relation data_type predicate t last_id acc :
  (0 < n)%nat → (length (docs_after predicate t last_id) < fuel)%nat →
  ∃ asserted, page_loop fuel n relation data_type predicate t last_id acc = Some asserted ∧
    ∀ x, x ∈ asserted ↔ x ∈ acc ∨ ∃ data_id d, (data_id, d) ∈ docs_after predicate t last_id ∧
      x ∈ rows_of (edges (derive_document data_type data_id d)) relation.
Proof.
  intros Hn. induction fuel as [|fuel IH] in last_id, acc |- *; intros Hf; [lia|]. cbn [page_loop].
  destruct (last (_document_page n predicate t last_id)) as [[id d]|] eqn:Hlast.
  - pose proof (page_progress _ _ _ _ _ Hlast) as Hprog. cbn [fst] in Hprog.
    destruct (Nat.ltb_spec (length (_document_page n predicate t last_id)) n) as [Hlt|Hge].
    + eexists. split; [done|]. intros x. rewrite elem_of_app, elem_of_asserted_rows.
      split; (intros [?|(i & da & Hin & Hx)]; [by left|right; exists i, da; split; [|done]]).
      * by eapply page_elem.
      * by apply page_short.
    + destruct (IH id (acc ++ _asserted_rows relation data_type (_document_page n predicate t last_id)))
        as (asserted & Ha & Hspec); [lia|].
      exists asserted. split; [done|]. intros x. rewrite Hspec, elem_of_app, elem_of_asserted_rows.
      setoid_rewrite (page_step _ _ _ _ _ _ Hlast). cbn [fst]. naive_solver.
  - apply last_None in Hlast. eexists. split; [done|]. intros x. split; [by left|].
    intros [?|(i & da & Hin & _)]; [done|]. exfalso.
    assert ((i, da) ∈ _document_page n predicate t last_id) as Hp by (apply page_short; [by rewrite Hlast|done]).
    rewrite Hlast in Hp. by apply elem_of_nil in Hp.
Qed.

(** ** What the reconciliation leaves *)

(** [x] is a row some current document of [table] derives for [relation]. *)
Definition asserted_by (entities : string → entity_table) (table relation : string) (x : row) : Prop :=
  ∃ data_id e, entities table !! data_id = Some e ∧
    x ∈ rows_of (edges (derive_document table data_id (data e))) relation.

(** The conflict key of a two-column additive relation is the row, and the table is keyed
    by it. *)
Definition keyed_by_row (relation : string) (t : table) : Prop :=
  (∀ x, key_of relation x = x) ∧ ∀ k x, t !! k = Some x → x = k.

Lemma reconcile_table_lookup relation asserted t k :
  reconcile_table relation asserted t !! k =
    match (match t !! k with Some x => Some x | None => first_under (key_of relation) k asserted end) with
    | Some x => if bool_decide (x ∈ asserted) then Some x else None
    | None => None
    end.
Proof.
  unfold reconcile_table. rewrite delete_rows_lookup, insert_rows_lookup.
  destruct (match t !! k with Some _ => _ | None => _ end) as [x|]; [|done]. by repeat case_bool_decide.
Qed.

Lemma reconcile_table_exact relation asserted t k x :
  keyed_by_row relation t →
  reconcile_table relation asserted t !! k = Some x ↔ x = k ∧ x ∈ asserted.
Proof.
  intros [Hkey Ht]. rewrite reconcile_table_lookup. split.
  - destruct (t !! k) as [y|] eqn:Hy.
    + case_bool_decide; [|done]. intros [= <-]. split; [by eapply Ht|done].
    + destruct (first_under _ _ _) as [y|] eqn:Hf; [|done].
      apply first_under_Some in Hf as [Hin Hk]. rewrite Hkey in Hk.
      rewrite bool_decide_eq_true_2 by done. by intros [= <-].
  - intros [-> Hin]. destruct (t !! k) as [y|] eqn:Hy.
    + apply Ht in Hy as ->. by rewrite bool_decide_eq_true_2.
    + destruct (first_under _ _ _) as [y|] eqn:Hf.
      * apply first_under_Some in Hf as [Hin' Hk]. rewrite Hkey in Hk. subst.
        by rewrite bool_decide_eq_true_2.
      * rewrite first_under_None in Hf. by destruct (Hf k).
Qed.

Lemma docs_after_start predicate t data_id d :
  (data_id, d) ∈ docs_after predicate t "" ↔
    data_id ≠ "" ∧ predicate d = true ∧ ∃ e, t !! data_id = Some e ∧ data e = d.
Proof.
  rewrite elem_of_docs_after, elem_of_documents. cbn [fst snd]. unfold id_after.
  rewrite andb_true_iff, bool_decide_eq_true. split; [naive_solver|].
  intros (Hne & Hp & He). split_and!; [done|done| |done]. by destruct data_id.
Qed.

Lemma docs_after_size predicate t last_id : (length (docs_after predicate t last_id) ≤ size t)%nat.
Proof.
  unfold docs_after. etrans; [apply length_filter|]. unfold documents_of.
  by rewrite length_fmap, length_map_to_list.
Qed.

(** One relation: skipped on an empty table, otherwise exactly the rows of the documents
    the predicate selects. *)
Lemma reconcile_relation_spec entities gr relation table predicate :
  ∃ gr', reconcile_relation entities gr (relation, (table, predicate)) = Some gr' ∧
    (∀ r, r ≠ relation → tbl gr' r = tbl gr r) ∧
    (entities table = ∅ → tbl gr' relation = tbl gr relation) ∧
    (entities table ≠ ∅ → keyed_by_row relation (tbl gr relation) → ∀ k x,
       tbl gr' relation !! k = Some x ↔ x = k ∧ ∃ data_id e, data_id ≠ "" ∧
         predicate (data e) = true ∧ entities table !! data_id = Some e ∧
         x ∈ rows_of (edges (derive_document table data_id (data e))) relation).
Proof.
  unfold reconcile_relation. case_bool_decide as Hsize.
  - exists gr. split_and!; [done|done|done|]. intros Hne. by destruct Hne; apply map_size_empty_iff.
  - destruct (page_loop_complete (page_fuel (entities table)) DOCUMENT_PAGE_SIZE relation table predicate
      (entities table) "" []) as (asserted & Ha & Hspec).
    + unfold DOCUMENT_PAGE_SIZE. lia.
    + unfold page_fuel. pose proof (docs_after_size predicate (entities table) ""). lia.
    + rewrite Ha. eexists. split; [done|]. split_and!.
      * intros r Hr. unfold tbl. by rewrite lookup_insert_ne.
      * intros He. by rewrite He, map_size_empty in Hsize.
      * intros _ Hkey k x. unfold tbl at 1. rewrite lookup_insert_eq. simpl.
        rewrite reconcile_table_exact, Hspec by done. setoid_rewrite docs_after_start.
        split; (intros [-> Hx]; split; [done|]).
        -- destruct Hx as [[]%elem_of_nil|(i & d & (Hne & Hp & e & He & <-) & Hx)]. eauto 10.
        -- destruct Hx as (i & e & Hne & Hp & He & Hx). right. eauto 10.
Qed.

Lemma elements_of_array v : nonempty_array v = false → _element_ids v = [].
Proof. destruct v as [| | | | |[|x l]|]; try done. Qed.

(** The page predicate of [member_of] rejects only documents that derive no row. *)
Lemma member_of_predicate_exact data_id d :
  nonempty_array (jget "members" d) || nonempty_array (jget "groups" d) = false →
  rows_of (edges (derive_document "artists" data_id d)) "member_of" = [].
Proof.
  intros [Hm Hg]%orb_false_iff.
  change (derive_document "artists" data_id d) with (derive_artist data_id d).
  rewrite (proj1 (artist_rows data_id d)), (elements_of_array _ Hm), (elements_of_array _ Hg). done.
Qed.

Lemma reconcile_both entities gr :
  ∃ gr1 gr2,
    reconcile_relation entities gr ("member_of", ("artists", λ d, nonempty_array (jget "members" d) || nonempty_array (jget "groups" d))) = Some gr1 ∧
    reconcile_relation entities gr1 ("same_as", ("releases", λ d, nonempty_array (jget "extraartists" d))) = Some gr2 ∧
    reconcile_additive_edges entities gr = Some gr2.
Proof.
  destruct (reconcile_relation_spec entities gr "member_of" "artists"
    (λ d, nonempty_array (jget "members" d) || nonempty_array (jget "groups" d))) as (gr1 & H1 & _).
  destruct (reconcile_relation_spec entities gr1 "same_as" "releases"
    (λ d, nonempty_array (jget "extraartists" d))) as (gr2 & H2 & _).
  exists gr1, gr2. split_and!; [done..|]. unfold reconcile_additive_edges. cbn [foldl ADDITIVE_RELATIONS].
  cbn [mbind option_bind]. rewrite H1. cbn [mbind option_bind]. exact H2.
Qed.

(** C35 The sweep makes [member_of] exactly what the catalog asserts: the paged pass always
    terminates, skips an empty artist table (a failed load asserts nothing), and otherwise
    leaves a membership row in the table iff some current artist document derives it, so a
    membership withdrawn from both documents goes and a missing one appears; relations
    other than [member_of] and [same_as] are not touched. *)
Theorem reconcile_member_of_exact entities gr :
  keyed_by_row "member_of" (tbl gr "member_of") →
  (∀ data_id, entities "artists" !! data_id ≠ None → data_id ≠ "") →
  ∃ gr', reconcile_additive_edges entities gr = Some gr' ∧
    (entities "artists" = ∅ → tbl gr' "member_of" = tbl gr "member_of") ∧
    (entities "artists" ≠ ∅ → ∀ k x,
       tbl gr' "member_of" !! k = Some x ↔ x = k ∧ asserted_by entities "artists" "member_of" x) ∧
    (∀ r, r ≠ "member_of" → r ≠ "same_as" → tbl gr' r = tbl gr r).
Proof.
  intros Hkey Hids. destruct (reconcile_both entities gr) as (gr1 & gr2 & H1 & H2 & H12).
  destruct (reconcile_relation_spec entities gr "member_of" "artists"
    (λ d, nonempty_array (jget "members" d) || nonempty_array (jget "groups" d))) as (? & H1' & F1 & E1 & X1).
  destruct (reconcile_relation_spec entities gr1 "same_as" "releases"
    (λ d, nonempty_array (jget "extraartists" d))) as (? & H2' & F2 & _).
  simplify_eq. exists gr2. split_and!; [done| | |].
  - intros He. by rewrite (F2 "member_of") by done; auto.
  - intros Hne k x. rewrite (F2 "member_of") by done. rewrite (X1 Hne Hkey).
    split; (intros [-> Hx]; split; [done|]).
    + destruct Hx as (i & e & _ & _ & He & Hx). by exists i, e.
    + destruct Hx as (i & e & He & Hx). exists i, e. split_and!; [by apply Hids; rewrite He| |done|done].
      destruct (_ || _) eqn:Hp; [done|]. rewrite (member_of_predicate_exact i _ Hp) in Hx.
      by apply elem_of_nil in Hx.
  - intros r Hm Hs. by rewrite F2, F1.
Qed.
End reconcile.

(** ** The predicate of [same_as] is not exact *)

(** A release whose only credit is on a track. *)
Definition track_credit_release : dict :=
  [("tracklist", JList [JObj [("extraartists",
     JList [JObj [("name", JStr "Kat"); ("role", JStr "Written-By"); ("id", JInt 9)]])]])].

Definition one_release : string → entity_table := λ table,
  if bool_decide (table = "releases")
  then {["1" := {| hash := Some "aa"; data := track_credit_release; media := None; gm_item_id := None; updated_at := 0 |}]}
  else ∅.

(** The sweep deletes [same_as] rows current documents assert: a release whose credits are
    on its tracks derives a [same_as] row, the writer stores it, and the reconciliation,
    whose page predicate looks at the release-level [extraartists] alone, never reads that
    document and removes the row. *)
Theorem same_as_track_credit_swept :
  let x := [VText "Kat"; VText "9"] in
  asserted_by (H:=sample_runtime) one_release "releases" "same_as" x ∧
  match write_document_graph (H:=sample_runtime) whole_row_key "releases" [("1", track_credit_release)] ∅ with
  | Ok gr =>
      tbl gr "same_as" !! x = Some x ∧
      match reconcile_additive_edges (H:=sample_runtime) whole_row_key one_release gr with
      | Some gr' => tbl gr' "same_as" !! x = None
      | None => False
      end
  | Raise _ => False
  end.
Proof.
  split.
  - eexists "1", _. split; [vm_compute; reflexivity|]. decide_now.
  - vm_compute. split; reflexivity.
Qed.

(** ** The counter bodies

    A query reads a table as its rows; [column r c] is [SELECT c FROM graph.r]. *)

Definition rows (db : graph_db) (r : string) : list row := (map_to_list (tbl db r)).*2.
Definition column (db : graph_db) (r c : string) : list val := omap (column_value r c) (rows db r).

(** [count(DISTINCT ...)] and [GROUP BY key] with [count( * )]. *)
Definition count_distinct (l : list val) : Z := Z.of_nat (length (unique l)).
Definition occurrences {A} `{EqDecision A} (k : A) (l : list A) : Z := Z.of_nat (length (filter (λ x, x = k) l)).
Definition group_count (l : list val) : list row := (λ k, [k; VInt (occurrences k l)]) <$> unique l.

Definition where_eq (r c : string) (v : val) (l : list row) : list row :=
  filter (λ x, column_value r c x = Some v) l.

(** [SELECT far.c FROM near JOIN far ON far.release_id = near.release_id WHERE near.nc = v] *)
Definition joined (db : graph_db) (near nc : string) (v : val) (far c : string) : list val :=
  e ← where_eq near nc v (rows db near);
  match column_value near "release_id" e with
  | Some release => omap (column_value far c) (where_eq far "release_id" release (rows db far))
  | None => []
  end.

(** [data ->> 'year']; the text of an array or an object is never decimal digits. *)
Definition json_text (v : json) : option string :=
  match v with
  | JStr s => Some s
  | JInt z => Some (py_str_int z)
  | JFloat s => Some s
  | JBool b => Some (if b then "true" else "false")
  | JNull | JList _ | JObj _ => None
  end.

(** [btrim(s)] strips spaces. *)
Definition btrim (s : string) : string :=
  let sp c := bool_decide (c = " ") in
  concat_chars (reverse (drop_while sp (reverse (drop_while sp (chars s))))).

(** A release's year, when it is a positive decimal; the cast to a 32-bit [integer] raises
    above its range. *)
Definition release_year (d : dict) : result (option Z) :=
  match json_text (jget "year" d) with
  | Some text =>
      let text := btrim text in
      if all_digits text && (0 <? digits_value text) then
        if digits_value text <=? 2147483647 then Ok (Some (digits_value text))
        else Raise (OtherError "NumericValueOutOfRange")
      else Ok None
  | None => Ok None
  end.

Definition min_year (l : list Z) : val :=
  match l with [] => VNull | y :: l => VInt (foldr Z.min y l) end.

(** [min(btrim(year)::integer)] over the releases of one tag's edges. *)
Definition first_year (db : graph_db) (releases : entity_table) (edge tag : string) (name : val) : result val :=
  let ids := omap (column_value edge "release_id") (where_eq edge tag name (rows db edge)) in
  let! years := map_result (λ i,
    match i with
    | VText id => match releases !! id with Some e => release_year (data e) | None => Ok None end
    | _ => Ok None
    end) ids in
  Ok (min_year (omap id years)).

Definition tag_stats (vertex edge tag other other_tag : string) (db : graph_db) (releases : entity_table)
    : result (list row) :=
  map_result (λ x,
    match x with
    | name :: _ =>
        let! year := first_year db releases edge tag name in
        Ok [name;
            VInt (Z.of_nat (length (where_eq edge tag name (rows db edge))));
            VInt (count_distinct (joined db edge tag name "by_artist" "artist_id"));
            VInt (count_distinct (joined db edge tag name "on_label" "label_id"));
            VInt (count_distinct (joined db edge tag name other other_tag));
            year]
    | [] => Ok []
    end) (rows db vertex).

Definition genre_stats := tag_stats "genre" "in_genre" "genre_name" "in_style" "style_name".
Definition style_stats := tag_stats "style" "in_style" "style_name" "in_genre" "genre_name".

(** [graph.label] is the schema's own relation of label ids. *)
Definition label_stats (db : graph_db) (_ : entity_table) : result (list row) :=
  Ok ((λ x, match x with
    | label :: _ =>
        [label;
         VInt (count_distinct (omap (column_value "on_label" "release_id")
                                 (where_eq "on_label" "label_id" label (rows db "on_label"))));
         VInt (count_distinct (joined db "on_label" "label_id" label "by_artist" "artist_id"));
         VInt (count_distinct (joined db "on_label" "label_id" label "in_genre" "genre_name"))]
    | [] => [] end) <$> rows db "label").

Definition artist_endpoints : list (string * string) :=
  [("by_artist", "artist_id"); ("master_by_artist", "artist_id"); ("same_as", "artist_id");
   ("member_of", "member_artist_id"); ("member_of", "group_artist_id");
   ("alias_of", "alias_artist_id"); ("alias_of", "artist_id")].

Definition release_endpoints : list (string * string) :=
  (λ r, (r, "release_id")) <$>
    ["by_artist"; "on_label"; "in_genre"; "in_style"; "derived_from"; "credited_on"; "credited_to"; "issued_on"].

Definition endpoints (ends : list (string * string)) (db : graph_db) : list val :=
  ends ≫= λ '(r, c), column db r c.

Definition artist_degree (db : graph_db) (_ : entity_table) : result (list row) :=
  Ok (group_count (endpoints artist_endpoints db)).
Definition release_degree_base (db : graph_db) (_ : entity_table) : result (list row) :=
  Ok (group_count (endpoints release_endpoints db)).

(** [near JOIN in_genre ON release_id GROUP BY near.c, genre_name]. *)
Definition genre_pairs (near c : string) (db : graph_db) (_ : entity_table) : result (list row) :=
  let triples := e ← rows db near; g ← rows db "in_genre";
    match column_value near c e, column_value near "release_id" e,
          column_value "in_genre" "release_id" g, column_value "in_genre" "genre_name" g with
    | Some a, Some release, Some release', Some genre =>
        if decide (release = release') then [(a, genre, release)] else []
    | _, _, _, _ => []
    end in
  Ok ((λ '(a, genre), [a; genre; VInt (Z.of_nat (length (unique
         (filter (λ t, t.1 = (a, genre)) triples))))]) <$> unique triples.*1).

Definition COUNTER_BODIES : list (string * (graph_db → entity_table → result (list row))) :=
  [("genre_stats", genre_stats); ("style_stats", style_stats); ("label_stats", label_stats);
   ("artist_degree", artist_degree); ("release_degree_base", release_degree_base);
   ("artist_genre", genre_pairs "by_artist" "artist_id");
   ("label_genre", genre_pairs "on_label" "label_id")].

Definition COUNTER_COLUMNS : list (string * list string) :=
  [("genre_stats", ["name"; "release_count"; "artist_count"; "label_count"; "style_count"; "first_year"]);
   ("style_stats", ["name"; "release_count"; "artist_count"; "label_count"; "genre_count"; "first_year"]);
   ("label_stats", ["label_id"; "release_count"; "artist_count"; "genre_count"]);
   ("artist_degree", ["artist_id"; "degree"]);
   ("release_degree_base", ["release_id"; "degree"]);
   ("artist_genre", ["artist_id"; "genre_name"; "release_count"]);
   ("label_genre", ["label_id"; "genre_name"; "release_count"])].

Definition REFRESH_ORDER : list string := COUNTER_BODIES.*1.

Abbreviation counter_db := (gmap string (list row)).

(** [_truncate] then [_refill], one relation after the other. *)
Definition refresh_one (db : graph_db) (releases : entity_table) (counters : result counter_db) (relation : string)
    : result counter_db :=
  let! counters := counters in
  let emptied := <[relation := []]> counters in
  match od_get relation COUNTER_BODIES with
  | Some body => let! rs := body db releases in
                 Ok (<[relation := default [] (emptied !! relation) ++ rs]> emptied)
  | None => Raise KeyError
  end.

Definition refresh_counter_relations (db : graph_db) (releases : entity_table) (counters : counter_db)
    : result counter_db :=
  foldl (refresh_one db releases) (Ok counters) REFRESH_ORDER.

(** ** The counters are projections of the edges *)

Lemma refresh_raised db releases rels e : foldl (refresh_one db releases) (Raise e) rels = Raise e.
Proof. by induction rels. Qed.

Lemma refresh_fold db releases rels c c' :
  NoDup rels → foldl (refresh_one db releases) (Ok c) rels = Ok c' →
  (∀ r, r ∈ rels → ∃ body rs, od_get r COUNTER_BODIES = Some body ∧ body db releases = Ok rs ∧ c' !! r = Some rs) ∧
  (∀ r, r ∉ rels → c' !! r = c !! r).
Proof.
  intros Hnd. induction Hnd as [|r rels Hr Hnd IH] in c |- *; cbn [foldl].
  { intros [= <-]. split; [by intros r ?%elem_of_nil|done]. }
  destruct (refresh_one db releases (Ok c) r) as [c1|e] eqn:H1; [|by rewrite refresh_raised].
  intros Hc'. destruct (IH _ Hc') as [Hin Hout]. unfold refresh_one in H1. cbn [bind] in H1. cbv zeta in H1.
  destruct (od_get r COUNTER_BODIES) as [body|] eqn:Hb; [|done].
  destruct (body db releases) as [rs|] eqn:Hbody; [|done]. cbn [bind] in H1. simplify_eq.
  rewrite lookup_insert_eq in *. simpl in *. split.
  - intros s [->|Hs]%elem_of_cons; [|by apply Hin]. exists body, rs. split_and!; [done..|].
    rewrite Hout by done. apply lookup_insert_eq.
  - intros s [Hne Hs]%not_elem_of_cons. rewrite Hout by done. by rewrite !lookup_insert_ne.
Qed.

Lemma refresh_reproduces db releases rels c c' :
  (∀ r, r ∈ rels → ∃ body rs, od_get r COUNTER_BODIES = Some body ∧ body db releases = Ok rs ∧ c' !! r = Some rs) →
  (∀ r, r ∉ rels → c !! r = c' !! r) →
  ∃ c'', foldl (refresh_one db releases) (Ok c) rels = Ok c'' ∧ c'' = c'.
Proof.
  induction rels as [|r rels IH] in c |- *; intros Hin Hout; cbn [foldl].
  { exists c. split; [done|]. apply map_eq. intros i. apply Hout, not_elem_of_nil. }
  destruct (Hin r ltac:(by left)) as (body & rs & Hb & Hbody & Hc).
  unfold refresh_one at 2. cbn [bind]. cbv zeta. rewrite Hb, Hbody. cbn [bind]. apply IH.
  - intros s Hs. apply Hin. by right.
  - intros s Hs. destruct (decide (s = r)) as [->|Hne].
    + by rewrite !lookup_insert_eq, Hc.
    + rewrite !lookup_insert_ne by done. apply Hout. by apply not_elem_of_cons.
Qed.

Lemma refresh_order_NoDup : NoDup REFRESH_ORDER.
Proof. decide_now. Qed.

(** A refresh makes each counter relation the projection of the edges present: whatever the
    counters held before, afterwards each of the seven relations is exactly the rows of its
    body over the edge tables, no other relation changes, and a second refresh, or a
    refresh from any other contents of the seven, gives the same counters. *)
Theorem refresh_counters_project db releases c c' :
  refresh_counter_relations db releases c = Ok c' →
  (∀ r, r ∈ REFRESH_ORDER → ∃ body rs, od_get r COUNTER_BODIES = Some body ∧
     body db releases = Ok rs ∧ c' !! r = Some rs) ∧
  (∀ r, r ∉ REFRESH_ORDER → c' !! r = c !! r) ∧
  (∀ d : counter_db, (∀ r, r ∉ REFRESH_ORDER → d !! r = c !! r) →
     refresh_counter_relations db releases d = Ok c').
Proof.
  intros Hc. destruct (refresh_fold _ _ _ _ _ refresh_order_NoDup Hc) as [Hin Hout].
  split_and!; [done..|]. intros d Hd.
  destruct (refresh_reproduces db releases REFRESH_ORDER d c' Hin) as (c'' & Hr & ->); [|done].
  intros r Hr. by rewrite Hd, Hout.
Qed.

(** ** Degrees *)

Lemma occurrences_app {A} `{EqDecision A} (k : A) l1 l2 :
  occurrences k (l1 ++ l2) = occurrences k l1 + occurrences k l2.
Proof. unfold occurrences. rewrite filter_app, length_app. lia. Qed.

Definition sum_list (l : list Z) : Z := foldr Z.add 0 l.

Lemma occurrences_bind {A} (k : val) (f : A → list val) l :
  occurrences k (l ≫= f) = sum_list ((λ a, occurrences k (f a)) <$> l).
Proof. induction l as [|a l IH]; [done|]. csimpl. by rewrite occurrences_app, IH. Qed.

Lemma occurrences_zero (k : val) l : k ∉ l → occurrences k l = 0.
Proof.
  intros Hk. unfold occurrences. assert (filter (λ x, x = k) l = []) as ->; [|done].
  apply elem_of_nil_inv. by intros x [-> Hx]%list_elem_of_filter.
Qed.

Lemma occurrences_positive (k : val) l : k ∈ l → 1 <= occurrences k l.
Proof.
  intros Hk. unfold occurrences. destruct (filter (λ x, x = k) l) as [|y l'] eqn:E; simpl; [|lia].
  assert (k ∈ filter (λ x, x = k) l) as Hin by (by apply list_elem_of_filter).
  rewrite E in Hin. by apply elem_of_nil in Hin.
Qed.

Lemma filter_other_occurrences (k y : val) l :
  y ≠ k → occurrences k (filter (λ x, x ≠ y) l) = occurrences k l.
Proof.
  intros Hne. unfold occurrences. rewrite list_filter_filter. f_equal. f_equal.
  apply list_filter_iff. intros x. naive_solver.
Qed.

(** Splitting a list by distinct values keeps every element once. *)
Lemma sum_occurrences (ks l : list val) :
  NoDup ks → (∀ x, x ∈ l → x ∈ ks) → sum_list ((λ k, occurrences k l) <$> ks) = Z.of_nat (length l).
Proof.
  intros Hnd. induction l as [|x l IH]; intros Hin.
  - clear. induction ks as [|k ks IHk]; [done|]. csimpl. by rewrite IHk.
  - assert (sum_list ((λ k, occurrences k (x :: l)) <$> ks)
      = sum_list ((λ k, occurrences k l) <$> ks) + occurrences x ks) as ->.
    { clear. induction ks as [|k ks IHk]; [done|]. csimpl. rewrite IHk. unfold occurrences.
      rewrite !filter_cons. repeat case_decide; subst; simpl; try done; lia. }
    rewrite IH by (intros y Hy; apply Hin; by right).
    assert (occurrences x ks = 1) as ->; [|simpl; lia].
    specialize (Hin x ltac:(by left)). clear IH. induction Hnd as [|k ks Hk Hnd IHk]; [by apply elem_of_nil in Hin|].
    apply elem_of_cons in Hin as [<-|Hin].
    + unfold occurrences. rewrite filter_cons, decide_True by done. simpl.
      pose proof (occurrences_zero x ks Hk) as Hz. unfold occurrences in Hz. lia.
    + unfold occurrences. rewrite filter_cons, decide_False by (by intros ->).
      by apply IHk.
Qed.

(** The degree relations count every edge endpoint once: an entity has a row iff it is an
    endpoint of some counted table, with a positive degree equal to the sum over the
    counted columns of its occurrences there, one row per entity, and the degrees of a
    relation add up to the number of rows of the tables it unions. *)
Theorem degree_counts_endpoints ends db :
  let l := group_count (endpoints ends db) in
  (∀ v n, [v; VInt n] ∈ l ↔
     v ∈ endpoints ends db ∧ n = sum_list ((λ '(r, c), occurrences v (column db r c)) <$> ends)) ∧
  (∀ x, x ∈ l → ∃ v n, x = [v; VInt n] ∧ 1 <= n) ∧
  NoDup l ∧
  sum_list ((λ x : row, match x with [_; VInt n] => n | _ => 0 end) <$> l) =
    sum_list ((λ '(r, c), Z.of_nat (length (column db r c))) <$> ends).
Proof.
  intros l. subst l. unfold group_count.
  assert (∀ v, occurrences v (endpoints ends db) = sum_list ((λ '(r, c), occurrences v (column db r c)) <$> ends)) as Hocc.
  { intros v. unfold endpoints. rewrite occurrences_bind. f_equal. apply list_fmap_ext. by intros i [r c] _. }
  split_and!.
  - intros v n. rewrite <-Hocc, list_elem_of_fmap. setoid_rewrite elem_of_unique. naive_solver.
  - intros x (v & -> & Hv)%list_elem_of_fmap. rewrite elem_of_unique in Hv.
    exists v, (occurrences v (endpoints ends db)). split; [done|]. by apply occurrences_positive.
  - apply (NoDup_fmap_2_strong _ _); [|apply NoDup_unique]. naive_solver.
  - rewrite <-list_fmap_compose.
    transitivity (sum_list ((λ k, occurrences k (endpoints ends db)) <$> unique (endpoints ends db))).
    { f_equal. }
    rewrite sum_occurrences; [|apply NoDup_unique|intros x; by rewrite elem_of_unique].
    unfold endpoints. induction ends as [|[r c] ends IH]; [done|]. csimpl. rewrite length_app, Nat2Z.inj_add.
    rewrite IH; [done|]. intros v. unfold endpoints. rewrite occurrences_bind. f_equal. apply list_fmap_ext. by intros i [? ?] _.
Qed.

(** ** Genre and style rows *)

Lemma release_year_range d y : release_year d = Ok (Some y) → 1 <= y <= 2147483647.
Proof.
  unfold release_year. destruct (json_text _) as [s|]; [|done]. cbv zeta.
  destruct (all_digits _ && (0 <? digits_value _)) eqn:E; [|done].
  destruct (_ <=? _) eqn:E2; [|done]. intros [= <-]. apply andb_true_iff in E as [_ E]. lia.
Qed.

Lemma map_result_elem {A B} (f : A → result B) l l' b :
  map_result f l = Ok l' → b ∈ l' → ∃ a, a ∈ l ∧ f a = Ok b.
Proof.
  intros H%map_result_spec. induction H as [|x y l l' Hf H IH]; [by intros ?%elem_of_nil|].
  intros [->|Hb]%elem_of_cons; [exists x; by split; [left|]|].
  destruct (IH Hb) as (a & Ha & Hfa). exists a. by split; [right|].
Qed.

Lemma map_result_elem_l {A B} (f : A → result B) l l' a :
  map_result f l = Ok l' → a ∈ l → ∃ b, b ∈ l' ∧ f a = Ok b.
Proof.
  intros H%map_result_spec. induction H as [|x y l l' Hf H IH]; [by intros ?%elem_of_nil|].
  intros [->|Ha]%elem_of_cons; [exists y; by split; [left|]|].
  destruct (IH Ha) as (b & Hb & Hfb). exists b. by split; [right|].
Qed.

Lemma min_year_range l :
  (∀ y, y ∈ l → 1 <= y <= 2147483647) →
  min_year l = VNull ∨ ∃ y, min_year l = VInt y ∧ y ∈ l ∧ ∀ z, z ∈ l → y <= z.
Proof.
  destruct l as [|y l]; [by left|]. intros _. right. simpl.
  assert (∀ l, foldr Z.min y l ∈ y :: l ∧ ∀ z, z ∈ y :: l → foldr Z.min y l <= z) as Hmin.
  { clear. intros l. induction l as [|x l [IH1 IH2]]; simpl.
    - split; [by left|]. intros z [->|[]%elem_of_nil]%elem_of_cons. lia.
    - split.
      + destruct (Z.min_spec x (foldr Z.min y l)) as [[_ ->]|[_ ->]]; [right; by left|].
        apply elem_of_cons in IH1 as [->|IH1]; [by left|by right; right].
      + intros z [->|[->|Hz]%elem_of_cons]%elem_of_cons.
        * specialize (IH2 y ltac:(by left)). lia.
        * lia.
        * specialize (IH2 z ltac:(by right)). lia. }
  eexists. split; [done|]. apply Hmin.
Qed.

Lemma first_year_spec db releases edge tag name y :
  first_year db releases edge tag name = Ok y →
  (where_eq edge tag name (rows db edge) = [] → y = VNull) ∧
  (y = VNull ∨ ∃ n, y = VInt n ∧ 1 <= n <= 2147483647).
Proof.
  unfold first_year. cbv zeta. destruct (map_result _ _) as [years|] eqn:Hy; [|done]. cbn [bind].
  intros [= <-]. split.
  - intros He. rewrite He in Hy. cbn in Hy. by simplify_eq.
  - assert (∀ n, n ∈ omap id years → 1 <= n <= 2147483647) as Hr.
    { intros n (o & Ho & Hid)%list_elem_of_omap. unfold id in Hid. subst o.
      destruct (map_result_elem _ _ _ _ Hy Ho) as (i & _ & Hi).
      destruct i as [|s|]; simplify_eq. destruct (releases !! s); simplify_eq. by eapply release_year_range. }
    destruct (min_year_range _ Hr) as [->|(n & -> & Hn & _)]; [by left|right]. eauto.
Qed.

Lemma joined_nothing db near nc v far c : where_eq near nc v (rows db near) = [] → joined db near nc v far c = [].
Proof. unfold joined. by intros ->. Qed.

(** Every genre (and style) vertex has a statistics row whose counts are numbers, never
    [NULL]: the release count is the number of its edges; a tag with no edge left has the
    explicit zeros and an unknown first year; and a first year, when known, is a positive
    32-bit integer. *)
Theorem tag_stats_explicit vertex edge tag other other_tag db releases rs :
  tag_stats vertex edge tag other other_tag db releases = Ok rs →
  length rs = length (rows db vertex) ∧
  ∀ name rest, name :: rest ∈ rows db vertex →
    ∃ release_count artist_count label_count other_count year,
      [name; VInt release_count; VInt artist_count; VInt label_count; VInt other_count; year] ∈ rs ∧
      release_count = Z.of_nat (length (where_eq edge tag name (rows db edge))) ∧
      0 <= artist_count ∧ 0 <= label_count ∧ 0 <= other_count ∧
      (release_count = 0 → artist_count = 0 ∧ label_count = 0 ∧ other_count = 0 ∧ year = VNull) ∧
      (year = VNull ∨ ∃ n, year = VInt n ∧ 1 <= n <= 2147483647).
Proof.
  intros Hrs. split; [symmetry; apply (Forall2_length _ _ _ (map_result_spec _ _ _ Hrs))|].
  intros name rest Hin. destruct (map_result_elem_l _ _ _ _ Hrs Hin) as (b & Hb & Hf).
  destruct (first_year db releases edge tag name) as [year|] eqn:Hy; [|done]. cbn [bind] in Hf. simplify_eq.
  destruct (first_year_spec _ _ _ _ _ _ Hy) as [Hy0 Hyr].
  eexists _, _, _, _, _. split_and!; [exact Hb|done|unfold count_distinct; lia..| |done].
  intros Hz. assert (where_eq edge tag name (rows db edge) = []) as He.
  { apply length_zero_iff_nil. lia. }
  unfold count_distinct. rewrite !joined_nothing by done. split_and!; [done..|by apply Hy0].
Qed.

(** ** The whole pass, one transaction *)

Section pass.
Context `{CommonRuntime} (key_of : string → row → list val).
(** The schema's path functions, on a state of their own, and what the caller hangs on the
    transaction: the durable worker's fences and the latch stamp, on its tables. *)
Context {Path Ext : Type} (path_function : string → graph_db → Path → result Path).

Record derived := {
  d_graph : graph_db;
  d_counters : counter_db;
  d_path : Path;
  d_ext : Ext;
}.

Definition refresh_derived_relations (entities : string → entity_table)
    (before_refresh before_commit : Ext → result Ext) (mark : Ext → Ext) (s : derived) : derived * result unit :=
  let body :=
    let! ext := before_refresh (d_ext s) in
    match reconcile_additive_edges key_of entities (d_graph s) with
    | None => Raise (OtherError "unreachable")
    | Some gr =>
        let! counters := refresh_counter_relations gr (entities "releases") (d_counters s) in
        let! path := foldl (λ p f, let! p := p in path_function f gr p) (Ok (d_path s)) PATH_REFRESH_FUNCTIONS in
        let! ext := before_commit ext in
        Ok {| d_graph := gr; d_counters := counters; d_path := path; d_ext := mark ext |}
    end in
  match body with
  | Ok s' => (s', Ok ())
  | Raise e => (s, Raise e)
  end.

(** The pass is all or nothing and runs in dependency order: it commits exactly when both
    fences hold, every counter body and both path functions succeed, and then the counters
    are the bodies over the reconciled edges, the membership union is refreshed before the
    degrees that sum it, and the fences and the latch stamp are in the same commit;
    otherwise it raises and edges, counters, paths and latch are all as they were. *)
Theorem refresh_derived_atomic entities before_refresh before_commit mark s :
  match refresh_derived_relations entities before_refresh before_commit mark s with
  | (s', Raise e) => s' = s ∧
      (before_refresh (d_ext s) = Raise e ∨
       ∃ ext gr, before_refresh (d_ext s) = Ok ext ∧ reconcile_additive_edges key_of entities (d_graph s) = Some gr ∧
         (refresh_counter_relations gr (entities "releases") (d_counters s) = Raise e ∨
          path_function "refresh_artist_member_of" gr (d_path s) = Raise e ∨
          (∃ path, path_function "refresh_artist_member_of" gr (d_path s) = Ok path ∧
             path_function "refresh_vertex_degree" gr path = Raise e) ∨
          before_commit ext = Raise e))
  | (s', Ok _) =>
      ∃ ext ext' path, before_refresh (d_ext s) = Ok ext ∧ before_commit ext = Ok ext' ∧
        d_ext s' = mark ext' ∧
        reconcile_additive_edges key_of entities (d_graph s) = Some (d_graph s') ∧
        refresh_counter_relations (d_graph s') (entities "releases") (d_counters s) = Ok (d_counters s') ∧
        path_function "refresh_artist_member_of" (d_graph s') (d_path s) = Ok path ∧
        path_function "refresh_vertex_degree" (d_graph s') path = Ok (d_path s')
  end.
Proof.
  unfold refresh_derived_relations. cbv zeta.
  destruct (before_refresh (d_ext s)) as [ext|e] eqn:H1; [|split; [done|by left]]. cbn [bind].
  destruct (reconcile_both key_of entities (d_graph s)) as (gr1 & gr & _ & _ & Hgr). rewrite Hgr.
  destruct (refresh_counter_relations gr (entities "releases") (d_counters s)) as [c|e] eqn:H2;
    [|split; [done|right; exists ext, gr; auto]].
  cbn [bind foldl PATH_REFRESH_FUNCTIONS].
  destruct (path_function "refresh_artist_member_of" gr (d_path s)) as [p1|e] eqn:H3;
    [|split; [done|right; exists ext, gr; auto]]. cbn [bind].
  destruct (path_function "refresh_vertex_degree" gr p1) as [p2|e] eqn:H4;
    [|split; [done|right; exists ext, gr; eauto 8]]. cbn [bind].
  destruct (before_commit ext) as [ext'|e] eqn:H5; [|split; [done|right; exists ext, gr; auto 8]]. cbn [bind].
  exists ext, ext', p1. by split_and!.
Qed.
End pass.

(** ** Instances *)

Definition one_artist : string → entity_table := λ table,
  if bool_decide (table = "artists")
  then {["1" := {| hash := Some "aa"; data := [("members", JList [JObj [("id", JInt 2)]])];
                   media := None; gm_item_id := None; updated_at := 0 |}]}
  else ∅.

Lemma reconcile_member_of_exact_witness :
  ∃ gr', reconcile_additive_edges whole_row_key one_artist ∅ = Some gr' ∧
    tbl gr' "member_of" !! [VText "2"; VText "1"] = Some [VText "2"; VText "1"].
Proof.
  destruct (reconcile_member_of_exact (H:=sample_runtime) whole_row_key one_artist ∅) as (gr' & Hgr & _ & Hex & _).
  - split; [reflexivity|]. intros k x Hx. change (tbl ∅ "member_of") with (∅ : table) in Hx.
    rewrite lookup_empty in Hx. discriminate Hx.
  - intros data_id Hin ->. apply Hin. vm_compute. reflexivity.
  - exists gr'. split; [exact Hgr|]. refine (proj2 (Hex _ _ _) _).
    + intros He. apply (f_equal (λ t, t !! "1")) in He. vm_compute in He. discriminate He.
    + split; [reflexivity|]. eexists "1", _. split; [vm_compute; reflexivity|]. decide_now.
Defined.

Lemma refresh_counters_project_witness :
  is_ok (refresh_counter_relations ∅ ∅ ∅) = true ∧
  refresh_counter_relations ∅ ∅ (<["genre_stats" := [[VText "Jazz"; VInt 9]]]> ∅) = refresh_counter_relations ∅ ∅ ∅.
Proof.
  assert (is_ok (refresh_counter_relations ∅ ∅ ∅) = true) as Hok by (vm_compute; reflexivity).
  split; [exact Hok|]. destruct (refresh_counter_relations ∅ ∅ ∅) as [c|] eqn:Hc; [|discriminate Hok].
  refine (proj2 (proj2 (refresh_counters_project ∅ ∅ ∅ c Hc)) (<["genre_stats" := [[VText "Jazz"; VInt 9]]]> ∅) _).
  intros r Hr. rewrite lookup_insert_ne; [reflexivity|]. intros <-. apply Hr. left.
Defined.

Definition jazz_graph : graph_db := {["genre" := {[ [VText "Jazz"] := [VText "Jazz"] ]}]}.

Lemma tag_stats_explicit_witness :
  is_ok (tag_stats "genre" "in_genre" "genre_name" "in_style" "style_name" jazz_graph ∅) = true ∧
  ∃ rs, tag_stats "genre" "in_genre" "genre_name" "in_style" "style_name" jazz_graph ∅ = Ok rs ∧ 
    length rs = length (rows jazz_graph "genre").
Proof.
  assert (is_ok (tag_stats "genre" "in_genre" "genre_name" "in_style" "style_name" jazz_graph ∅) = true) as Hok
    by (vm_compute; reflexivity).
  split; [exact Hok|].
  destruct (tag_stats "genre" "in_genre" "genre_name" "in_style" "style_name" jazz_graph ∅) as [rs|] eqn:Hrs;
    [|discriminate Hok].
  exists rs. split; [reflexivity|].
  exact (proj1 (tag_stats_explicit _ _ _ _ _ _ _ _ Hrs)).
Defined.
