(* ===== verification/Latch.v ===== *)
(** * The extraction latch: [extraction_latch.py]

    The shared relation [loader_extraction_latch], keyed by loader and version, as a finite
    map; each statement of [LatchRelation] is a function on it, each run in a transaction of
    its own at a time [now].  A [text[]] column that only ever holds sorted distinct values
    is a set of texts. *)

From S2P Require Import Prelude Json Contract.

Definition LOADER_DISCRIMINATOR : string := "discogs".
Definition LOADER_COLUMN : string := "loader".
Definition LATCH_RELATION : string * string := ("public", "loader_extraction_latch").
Definition KEY_COLUMNS : list string := [LOADER_COLUMN; "version"].

(** A column's declared type, and its [udt_name] where that matters. *)
Definition REQUIRED_COLUMNS : list (string * (string * option string)) :=
  [(LOADER_COLUMN, ("text", None));
   ("version", ("text", None));
   ("signals", ("ARRAY", Some "_text"));
   ("created_at", ("timestamp with time zone", None));
   ("updated_at", ("timestamp with time zone", None));
   ("refreshed_at", ("timestamp with time zone", None));
   ("purge_vetoed", ("ARRAY", Some "_text"))].

Record latch_row := {
  signals : gset string;
  refreshed_at : option Z;
  generation : option Z;
  purge_vetoed : gset string;
  created_at : Z;
  l_updated_at : Z;
}.

Abbreviation latch_table := (gmap (string * string) latch_row).

(** The row a statement's key predicate selects: this loader's, at a version. *)
Definition key (version : string) : string * string := (LOADER_DISCRIMINATOR, version).

(** The columns an insert does not name take the declared defaults: no signal, no veto. *)
Definition fresh_latch (now : Z) : latch_row :=
  {| signals := ∅; refreshed_at := None; generation := None; purge_vetoed := ∅;
     created_at := now; l_updated_at := now |}.

(** [ExtractionLatch]. *)
Record ExtractionLatch := {
  el_version : string;
  el_signals : gset string;
  already_signalled : bool;
  already_refreshed : bool;
  superseded : bool;
}.

Definition should_refresh (l : ExtractionLatch) (data_types : list string) : bool :=
  forallb (λ t, bool_decide (t ∈ el_signals l)) data_types && negb (already_refreshed l) && negb (superseded l).

Definition pending (l : ExtractionLatch) (data_types : list string) : list string :=
  sort_strings (unique (filter (λ t, t ∉ el_signals l) data_types)).

(** ** The statements *)

Definition add_signal (now : Z) (data_type : string) (r : latch_row) : latch_row :=
  {| signals := signals r ∪ {[data_type]}; refreshed_at := refreshed_at r; generation := generation r;
     purge_vetoed := purge_vetoed r; created_at := created_at r; l_updated_at := now |}.

Definition add_veto (now : Z) (data_type : string) (r : latch_row) : latch_row :=
  {| signals := signals r; refreshed_at := refreshed_at r; generation := generation r;
     purge_vetoed := purge_vetoed r ∪ {[data_type]}; created_at := created_at r; l_updated_at := now |}.

Definition stamp (now : Z) (r : latch_row) : latch_row :=
  {| signals := signals r; refreshed_at := Some now; generation := generation r;
     purge_vetoed := purge_vetoed r; created_at := created_at r; l_updated_at := now |}.

(** [EXISTS (SELECT 1 ... newer.created_at > created AND newer.loader = ours)] *)
Definition newer_exists (created : Z) (t : latch_table) : bool :=
  existsb (λ '((loader, _), r), bool_decide (loader = LOADER_DISCRIMINATOR) && (created <? created_at r))
    (map_to_list t).

(** [record_statement]: [prior] and [newer] read the snapshot the statement started from. *)
Definition record_extraction_signal (now : Z) (version data_type : string) (t : latch_table)
    : latch_table * ExtractionLatch :=
  let prior := t !! key version in
  let row := add_signal now data_type (default (fresh_latch now) prior) in
  (<[key version := row]> t,
   {| el_version := version; el_signals := signals row;
      already_signalled := match prior with Some r => bool_decide (data_type ∈ signals r) | None => false end;
      already_refreshed := bool_decide (refreshed_at row ≠ None);
      superseded := newer_exists (created_at row) t |}).

(** [veto_statement] *)
Definition record_purge_veto (now : Z) (version data_type : string) (t : latch_table) : latch_table :=
  <[key version := add_veto now data_type (default (fresh_latch now) (t !! key version))]> t.

(** [vetoed_statement]; no row is no veto. *)
Definition purge_was_vetoed (version data_type : string) (t : latch_table) : bool :=
  match t !! key version with Some r => bool_decide (data_type ∈ purge_vetoed r) | None => false end.

(** [stamp_statement]: an update of the row that exists. *)
Definition mark_extraction_refreshed (now : Z) (version : string) (t : latch_table) : latch_table :=
  alter (stamp now) (key version) t.

(** [veto_history_statement]: this loader's rows, newest version first. *)
Definition history_order (x y : string * latch_row) : bool := String.leb y.1 x.1.

Definition veto_history (t : latch_table) : list (string * latch_row) :=
  sort_by history_order
    (omap (λ '((loader, version), r), if decide (loader = LOADER_DISCRIMINATOR) then Some (version, r) else None)
       (map_to_list t)).

Fixpoint count_vetoes (data_type : string) (rows : list (string * latch_row)) : Z :=
  match rows with
  | [] => 0
  | (_, r) :: rows =>
      if decide (data_type ∈ purge_vetoed r) then 1 + count_vetoes data_type rows
      else if decide (data_type ∈ signals r) then 0
      else count_vetoes data_type rows
  end.

Definition consecutive_purge_vetoes (data_type : string) (t : latch_table) : Z :=
  count_vetoes data_type (veto_history t).

(** ** The key of a message *)

Section keys.
(** [str] of a JSON array or object. *)
Context (py_repr : json → string).

(** [str(value or "")] *)
Definition str_or_empty (v : json) : string :=
  if truthy v then
    match v with
    | JStr s => s
    | JInt z => py_str_int z
    | JBool _ => "True"
    | JFloat s => s
    | JNull | JList _ | JObj _ => py_repr v
    end
  else "".

Definition extraction_latch_key (d : dict) : option string :=
  let version := py_strip (str_or_empty (jget "version" d)) in
  if bool_decide (version = "") then
    let started := py_strip (str_or_empty (jget "started_at" d)) in
    if bool_decide (started = "") then None else Some started
  else Some version.
End keys.

(** ** The startup probe *)

(** What the catalog answers: the columns, then the column sets of the keys, or an error. *)
Record catalog := {
  cat_columns : result (list (string * (string * string)));
  cat_keys : result (list (list string));
}.

Definition _has_declared_columns (columns : list (string * (string * string))) : bool :=
  forallb (λ '(name, (expected_type, expected_udt)),
    match od_get name columns with
    | None => false
    | Some (found_type, found_udt) =>
        bool_decide (found_type = expected_type) &&
        match expected_udt with None => true | Some udt => bool_decide (found_udt = udt) end
    end) REQUIRED_COLUMNS.

(** [{name: ... for ... in rows}]: the last row of a name wins. *)
Definition columns_dict (rows : list (string * (string * string))) : list (string * (string * string)) :=
  foldl (λ d '(name, c), od_set name c d) [] rows.

Definition probe_latch_relation (c : catalog) : option (string * string) :=
  match cat_columns c with
  | Raise _ => None
  | Ok [] => None
  | Ok rows =>
      if _has_declared_columns (columns_dict rows) then
        match cat_keys c with
        | Raise _ => None
        | Ok keys => if bool_decide (sort_strings KEY_COLUMNS ∈ sort_strings <$> keys)
                     then Some LATCH_RELATION else None
        end
      else None
  end.

(** ** Traces *)

Inductive op :=
  | Signal (now : Z) (version data_type : string)
  | Veto (now : Z) (version data_type : string)
  | Stamp (now : Z) (version : string).

Definition apply_op (t : latch_table) (o : op) : latch_table :=
  match o with
  | Signal now v d => (record_extraction_signal now v d t).1
  | Veto now v d => record_purge_veto now v d t
  | Stamp now v => mark_extraction_refreshed now v t
  end.

Definition run_ops (ops : list op) (t : latch_table) : latch_table := foldl apply_op t ops.

Definition op_version (o : op) : string :=
  match o with Signal _ v _ | Veto _ v _ | Stamp _ v => v end.

Lemma key_inj v w : key v = key w → v = w.
Proof. by intros [= ->]. Qed.

(** An operation changes no row but its version's, and no other loader's. *)
Lemma apply_op_frame t o k : k ≠ key (op_version o) → apply_op t o !! k = t !! k.
Proof.
  intros Hk. destruct o; simpl; unfold record_purge_veto, mark_extraction_refreshed;
    by rewrite ?lookup_insert_ne, ?lookup_alter_ne.
Qed.

Definition op_on (o : op) (r : option latch_row) : option latch_row :=
  match o with
  | Signal now _ d => Some (add_signal now d (default (fresh_latch now) r))
  | Veto now _ d => Some (add_veto now d (default (fresh_latch now) r))
  | Stamp now _ => stamp now <$> r
  end.

Lemma apply_op_row t o v :
  apply_op t o !! key v = if decide (v = op_version o) then op_on o (t !! key v) else t !! key v.
Proof.
  case_decide as Hv.
  - subst. destruct o; simpl; unfold record_purge_veto, mark_extraction_refreshed;
      by rewrite ?lookup_insert_eq, ?lookup_alter_eq.
  - apply apply_op_frame. intros Hk. by apply Hv, key_inj.
Qed.

Definition signalled (ops : list op) (v d : string) : Prop := ∃ now, Signal now v d ∈ ops.
Lemma signalled_app ops o v d :
  signalled (ops ++ [o]) v d ↔ signalled ops v d ∨ ∃ now, o = Signal now v d.
Proof. unfold signalled. setoid_rewrite elem_of_app. setoid_rewrite list_elem_of_singleton. naive_solver. Qed.

Lemma run_ops_refreshed ops t v r :
  t !! key v = Some r → refreshed_at r ≠ None →
  ∃ r', run_ops ops t !! key v = Some r' ∧ refreshed_at r' ≠ None.
Proof.
  unfold run_ops. induction ops as [|o ops IH] in t, r |- *; simpl; [eauto|]. intros Hr Hf.
  pose proof (apply_op_row t o v) as Hrow. rewrite Hr in Hrow.
  case_decide; [|by eapply IH]. destruct o; simpl in Hrow; by eapply IH.
Qed.

(** *** What a run leaves of a version *)

(** When the row of a version was created: before the run, or by the run's first signal or
    veto of the version. *)
Fixpoint first_seen (v : string) (ops : list op) : option Z :=
  match ops with
  | [] => None
  | Signal now w _ :: ops | Veto now w _ :: ops => if decide (w = v) then Some now else first_seen v ops
  | Stamp _ _ :: ops => first_seen v ops
  end.

Definition born (t : latch_table) (ops : list op) (v : string) : option Z :=
  match t !! key v with Some r => Some (created_at r) | None => first_seen v ops end.

(** A type's signal for a version, before the run or in it. *)
Definition announced (t : latch_table) (ops : list op) (v d : string) : Prop :=
  signalled ops v d ∨ ∃ r, t !! key v = Some r ∧ d ∈ signals r.

(** A pass of the version is stamped: before the run, or in it once the row was there. *)
Definition stamped (t : latch_table) (ops : list op) (v : string) : Prop :=
  (∃ pre n post, ops = pre ++ Stamp n v :: post ∧ born t pre v ≠ None) ∨ ∃ r, t !! key v = Some r ∧ refreshed_at r ≠ None.

Lemma first_seen_app v ops o :
  first_seen v (ops ++ [o]) = match first_seen v ops with Some n => Some n | None => first_seen v [o] end.
Proof. induction ops as [|[n w d|n w d|n w] ops IH]; simpl; try case_decide; done. Qed.

Lemma born_app t ops o v : born t (ops ++ [o]) v = match born t ops v with Some n => Some n | None => first_seen v [o] end.
Proof. unfold born. destruct (t !! key v); [done|]. apply first_seen_app. Qed.

Lemma stamped_app t ops o v :
  stamped t (ops ++ [o]) v ↔ stamped t ops v ∨ ((∃ n, o = Stamp n v) ∧ born t ops v ≠ None).
Proof.
  unfold stamped. split.
  - intros [(pre & n & post & E & Hb)|Hr]; [|by left; right].
    destruct post as [|o' post _] using rev_ind.
    + apply app_inj_tail in E as [-> ->]. right. eauto.
    + rewrite app_comm_cons, app_assoc in E. apply app_inj_tail in E as [-> ->]. left; left. eauto.
  - intros [[(pre & n & post & -> & Hb)|Hr]|[[n ->] Hb]]; [left|by right|left].
    + exists pre, n, (post ++ [o]). by rewrite <-app_assoc.
    + by exists ops, n, [].
Qed.

Lemma announced_app t ops o v d : announced t (ops ++ [o]) v d ↔ announced t ops v d ∨ ∃ n, o = Signal n v d.
Proof. unfold announced. rewrite signalled_app. tauto. Qed.

(** A version's row holds exactly what the run and the table before it say. *)
Definition row_matches (t : latch_table) (ops : list op) (v : string) (row : option latch_row) : Prop :=
  match row with
  | Some r =>
      (∀ d, d ∈ signals r ↔ announced t ops v d) ∧ (refreshed_at r ≠ None ↔ stamped t ops v) ∧ born t ops v = Some (created_at r)
  | None => (∀ d, ¬ announced t ops v d) ∧ ¬ stamped t ops v ∧ born t ops v = None
  end.

Lemma row_matches_created t ops v now row :
  row_matches t ops v row →
  let r := default (fresh_latch now) row in
  (∀ d, d ∈ signals r ↔ announced t ops v d) ∧ (refreshed_at r ≠ None ↔ stamped t ops v) ∧
  default now (born t ops v) = created_at r.
Proof.
  destruct row as [r|]; cbn; [by intros (? & ? & ->)|]. intros (H1 & H2 & ->). split_and!; [|naive_solver|done].
  intros d. rewrite elem_of_empty. naive_solver.
Qed.

Lemma row_matches_step t ops v o row :
  row_matches t ops v row →
  row_matches t (ops ++ [o]) v (if decide (v = op_version o) then op_on o row else row).
Proof.
  intros Hrow. case_decide as Hv.
  - subst v. destruct o as [now w d'|now w d'|now w]; cbn [op_version op_on] in *.
    1, 2: destruct (row_matches_created t ops w now row Hrow) as (H1 & H2 & H3); cbn; split_and!;
      [intros d; rewrite announced_app, ?elem_of_union, ?elem_of_singleton, H1; naive_solver
      |rewrite stamped_app, H2; naive_solver
      |rewrite born_app; cbn [first_seen]; rewrite decide_True by done; destruct (born t ops w); simpl in *; congruence].
    destruct row as [r|]; cbn in *.
    + destruct Hrow as (H1 & H2 & H3). split_and!.
      * intros d. rewrite announced_app, H1. naive_solver.
      * rewrite stamped_app, H3. naive_solver.
      * by rewrite born_app, H3.
    + destruct Hrow as (H1 & H2 & H3). split_and!.
      * intros d. rewrite announced_app. naive_solver.
      * rewrite stamped_app, H3. naive_solver.
      * by rewrite born_app, H3.
  - assert (∀ d, announced t (ops ++ [o]) v d ↔ announced t ops v d) as Ha.
    { intros d. rewrite announced_app. split; [|by left]. intros [?|[n ->]]; [done|]. by destruct Hv. }
    assert (stamped t (ops ++ [o]) v ↔ stamped t ops v) as Hst.
    { rewrite stamped_app. split; [|by left]. intros [?|[[n ->] _]]; [done|]. by destruct Hv. }
    assert (born t (ops ++ [o]) v = born t ops v) as Hb.
    { rewrite born_app. destruct o; simpl in *; rewrite ?decide_False by congruence; by destruct (born t ops v). }
    unfold row_matches in *. rewrite Hb. destruct row as [r|]; rewrite Hst; setoid_rewrite Ha; done.
Qed.

Lemma run_ops_row ops t v : row_matches t ops v (run_ops ops t !! key v).
Proof.
  unfold run_ops. induction ops as [|o ops IH] using rev_ind.
  - cbn. assert (∀ d, ¬ signalled [] v d) as Hno by (intros d (n & []%elem_of_nil)).
    assert (∀ pre n post, ([] : list op) ≠ pre ++ Stamp n v :: post) as Hne by (intros [] ? ?; done).
    unfold row_matches, announced, stamped, born. destruct (t !! key v) as [r|] eqn:E; split_and!; naive_solver.
  - rewrite foldl_app. simpl. rewrite apply_op_row. by apply row_matches_step.
Qed.

(** An extraction newer than [created] has a row. *)
Lemma newer_exists_born ops t created :
  newer_exists created (run_ops ops t) = true ↔ ∃ w n, born t ops w = Some n ∧ created < n.
Proof.
  unfold newer_exists. rewrite existsb_exists. split.
  - intros ([[loader w] r] & Hin & Hx). apply list_elem_of_In, elem_of_map_to_list in Hin.
    apply andb_true_iff in Hx as [->%bool_decide_eq_true Hlt%Z.ltb_lt].
    pose proof (run_ops_row ops t w) as Hrow. change (LOADER_DISCRIMINATOR, w) with (key w) in Hin. rewrite Hin in Hrow.
    destruct Hrow as (_ & _ & Hb). eauto.
  - intros (w & n & Hb & Hlt). pose proof (run_ops_row ops t w) as Hrow.
    destruct (run_ops ops t !! key w) as [r|] eqn:E; destruct Hrow as (_ & _ & Hb'); [|congruence].
    exists (key w, r). split; [by apply list_elem_of_In, elem_of_map_to_list|]. simpl.
    apply Z.ltb_lt. rewrite Hb' in Hb. by injection Hb as ->.
Qed.

(** C30 The latch fires exactly when its extraction is complete.  After any interleaving of
    signals, vetoes and stamps of any versions, on any table, recording a signal asks for the
    refresh iff every required type has signalled this very version (no other version's
    signal counts), no pass of it is stamped, before the run or in it once its row was
    there, and no extraction of this loader was first seen later than this one; it reports a
    redelivery exactly when the type had signalled before, and the types still to come are
    exactly those that have not signalled. *)
Theorem latch_fires_when_complete ops t version data_type now types :
  let l := (record_extraction_signal now version data_type (run_ops ops t)).2 in
  (should_refresh l types = true ↔
     (∀ d, d ∈ types → d = data_type ∨ announced t ops version d) ∧ ¬ stamped t ops version ∧
     ¬ ∃ w n, born t ops w = Some n ∧ default now (born t ops version) < n) ∧
  (already_signalled l = true ↔ announced t ops version data_type) ∧
  (∀ d, d ∈ pending l types ↔ d ∈ types ∧ d ≠ data_type ∧ ¬ announced t ops version d).
Proof.
  intros l. destruct (row_matches_created t ops version now _ (run_ops_row ops t version)) as (H1 & H2 & H3).
  assert (∀ d, d ∈ el_signals l ↔ d = data_type ∨ announced t ops version d) as Hsig.
  { intros d. subst l. cbn. rewrite elem_of_union, elem_of_singleton, H1. tauto. }
  split_and!.
  - unfold should_refresh. rewrite !andb_true_iff, !negb_true_iff, forallb_forall.
    assert (already_refreshed l = false ↔ ¬ stamped t ops version) as ->.
    { subst l. cbn. rewrite bool_decide_eq_false, H2. done. }
    assert (superseded l = false ↔ ¬ ∃ w n, born t ops w = Some n ∧ default now (born t ops version) < n) as ->.
    { subst l. cbn [record_extraction_signal snd superseded created_at add_signal]. rewrite H3, <-newer_exists_born.
      by rewrite not_true_iff_false. }
    setoid_rewrite <-list_elem_of_In. setoid_rewrite bool_decide_eq_true. setoid_rewrite Hsig. tauto.
  - subst l. cbn. pose proof (run_ops_row ops t version) as Hrow.
    destruct (run_ops ops t !! key version) as [r|]; cbn in *; [rewrite bool_decide_eq_true; by apply Hrow|].
    split; [done|]. intros Hd. by destruct (proj1 Hrow data_type).
  - intros d. unfold pending, sort_strings. rewrite elem_of_sort_by, elem_of_unique, list_elem_of_filter, Hsig. tauto.
Qed.

(** A stamped extraction never refreshes again, and extractions do not interfere: once a
    version's row is stamped, whatever is recorded later, no signal of it asks for a
    refresh; and no sequence of operations on other versions touches its row, nor does any
    sequence touch another loader's rows. *)
Theorem latch_stamp_is_final ops t version r data_type now types :
  t !! key version = Some r → refreshed_at r ≠ None →
  should_refresh (record_extraction_signal now version data_type (run_ops ops t)).2 types = false ∧
  (∀ k, (k.1 ≠ LOADER_DISCRIMINATOR ∨ ∀ o, o ∈ ops → op_version o ≠ k.2) → run_ops ops t !! k = t !! k).
Proof.
  intros Hr Hf. split.
  - destruct (run_ops_refreshed ops t version r Hr Hf) as (r' & Hr' & Hf').
    unfold should_refresh, record_extraction_signal. cbn [snd already_refreshed]. rewrite Hr'. cbn.
    rewrite bool_decide_eq_true_2 by done. by rewrite andb_false_r.
  - intros k Hk. unfold run_ops. clear r Hr Hf. induction ops as [|o ops IH] in t, Hk |- *; [done|]. simpl.
    rewrite IH.
    + apply apply_op_frame. destruct Hk as [Hk|Hk].
      * intros ->. by apply Hk.
      * intros ->. apply (Hk o); [by left|done].
    + destruct Hk as [Hk|Hk]; [by left|right]. intros o' Ho'. apply Hk. by right.
Qed.

(** ** The run of vetoes *)

Definition clean (data_type : string) (r : latch_row) : bool :=
  bool_decide (data_type ∉ purge_vetoed r ∧ data_type ∈ signals r).

Definition after (v w : string) : bool := String.leb w v && bool_decide (v ≠ w).

(** The vetoed versions newer than every clean one. *)
Definition unbroken (data_type : string) (rows : list (string * latch_row)) (x : string * latch_row) : bool :=
  bool_decide (data_type ∈ purge_vetoed x.2) &&
  forallb (λ y : string * latch_row, negb (clean data_type y.2) || after x.1 y.1) rows.

Lemma count_vetoes_nonneg d rows : 0 <= count_vetoes d rows.
Proof. induction rows as [|[v r] rows IH]; simpl; [lia|]. repeat case_decide; lia. Qed.

Lemma count_vetoes_spec d (pre rows : list (string * latch_row)) :
  StronglySorted (λ x y, history_order x y = true) rows → NoDup rows.*1 →
  (∀ y, y ∈ pre → clean d y.2 = false) →
  count_vetoes d rows = Z.of_nat (length (filter (λ x, unbroken d (pre ++ rows) x) rows)).
Proof.
  intros Hs Hnd. revert pre. induction Hs as [|[v r] rows Hs IH Hv]; intros pre Hpre; [done|].
  cbn [fmap list_fmap fst] in Hnd. apply NoDup_cons in Hnd as [Hvn Hnd].
  assert (pre ++ (v, r) :: rows = (pre ++ [(v, r)]) ++ rows) as Happ by (by rewrite <-app_assoc).
  assert (∀ x, x ∈ rows → after v x.1 = true) as Hafter.
  { intros [w s] Hx. rewrite Forall_forall in Hv. specialize (Hv _ Hx). unfold history_order in Hv. simpl in *.
    unfold after. rewrite Hv. apply bool_decide_eq_true. intros ->. apply Hvn.
    apply list_elem_of_fmap. by exists (w, s). }
  cbn [count_vetoes]. rewrite filter_cons. case_decide as Hd.
  - assert (unbroken d (pre ++ (v, r) :: rows) (v, r) = true) as Hun.
    { unfold unbroken. rewrite bool_decide_eq_true_2 by done. simpl. apply forallb_forall.
      intros y Hy. apply list_elem_of_In in Hy. apply elem_of_app in Hy as [Hy|[->|Hy]%elem_of_cons].
      - by rewrite Hpre.
      - simpl. unfold clean. rewrite bool_decide_eq_false_2; [done|]. naive_solver.
      - rewrite (Hafter _ Hy). by rewrite orb_true_r. }
    rewrite (decide_True (P := Is_true (unbroken d (pre ++ (v, r) :: rows) (v, r)))) by (by rewrite Hun). cbn [length]. rewrite Happ, (IH Hnd (pre ++ [(v, r)])); [lia|].
    intros y [Hy|Hy]%elem_of_app; [by apply Hpre|]. apply list_elem_of_singleton in Hy as ->. simpl. unfold clean.
    rewrite bool_decide_eq_false_2; [done|]. naive_solver.
  - assert (unbroken d (pre ++ (v, r) :: rows) (v, r) = false) as Hun.
    { unfold unbroken. by rewrite bool_decide_eq_false_2. }
    rewrite (decide_False (P := Is_true (unbroken d (pre ++ (v, r) :: rows) (v, r)))) by (rewrite Hun; by intros []). case_decide as Hsg.
    + assert (filter (λ x, unbroken d (pre ++ (v, r) :: rows) x) rows = []) as ->; [|done].
      apply elem_of_nil_inv. intros [w s] [Hx Hin]%list_elem_of_filter. apply Is_true_true in Hx.
      unfold unbroken in Hx. apply andb_true_iff in Hx as [_ Hx]. rewrite forallb_forall in Hx.
      specialize (Hx (v, r)). rewrite <-list_elem_of_In in Hx. specialize (Hx ltac:(set_solver)). simpl in Hx.
      unfold clean in Hx. rewrite bool_decide_eq_true_2 in Hx by done. simpl in Hx.
      pose proof (Hafter _ Hin) as Ha. unfold after in *. simpl in *.
      apply andb_true_iff in Ha as [Ha1 Ha2], Hx as [Hx1 Hx2]. apply bool_decide_eq_true in Ha2.
      apply Ha2. by apply String.leb_antisym.
    + rewrite Happ. apply IH; [done|]. intros y [Hy|Hy]%elem_of_app; [by apply Hpre|]. apply list_elem_of_singleton in Hy as ->.
      simpl. unfold clean. apply bool_decide_eq_false_2. naive_solver.
Qed.

Lemma veto_history_elem t v r : (v, r) ∈ veto_history t ↔ t !! key v = Some r.
Proof.
  unfold veto_history. rewrite elem_of_sort_by, list_elem_of_omap. split.
  - intros ([[l w] s] & Hin%elem_of_map_to_list & Hx). case_decide; simplify_eq. done.
  - intros Hr. exists ((LOADER_DISCRIMINATOR, v), r). split; [by apply elem_of_map_to_list|].
    by rewrite decide_True.
Qed.

Lemma veto_history_sorted t :
  StronglySorted (λ x y, history_order x y = true) (veto_history t) ∧ NoDup (veto_history t).*1.
Proof.
  unfold veto_history. split.
  - apply sort_by_sorted; unfold history_order; [intros x y; apply string_leb_total|].
    intros x y z H1 H2. by eapply string_leb_trans.
  - rewrite sort_by_perm. apply (NoDup_fmap_1 key). rewrite <-list_fmap_compose.
    apply (NoDup_omap_keys _ fst (λ x, key x.1)); [|apply NoDup_fst_map_to_list].
    intros [[l w] s] y Hy. case_decide; by simplify_eq.
Qed.

(** The reported run of vetoes is the number of this loader's extractions that vetoed the
    type and are newer than its last clean one, an extraction that signalled the type
    without a veto; extractions that never reached the type neither extend nor break it. *)
Theorem consecutive_vetoes_spec data_type t :
  ∃ l, NoDup l ∧ consecutive_purge_vetoes data_type t = Z.of_nat (length l) ∧
  ∀ v, v ∈ l ↔ ∃ r, t !! key v = Some r ∧ data_type ∈ purge_vetoed r ∧
    ∀ w s, t !! key w = Some s → data_type ∈ signals s → data_type ∉ purge_vetoed s →
      String.leb w v = true ∧ w ≠ v.
Proof.
  destruct (veto_history_sorted t) as [Hs Hnd].
  exists (filter (λ x, unbroken data_type (veto_history t) x) (veto_history t)).*1. split_and!.
  - eapply sublist_NoDup; [exact Hnd|]. apply fmap_sublist, sublist_filter.
  - unfold consecutive_purge_vetoes. rewrite (count_vetoes_spec data_type [] _ Hs Hnd); [by rewrite length_fmap|].
    by intros ? ?%elem_of_nil.
  - intros v. rewrite list_elem_of_fmap. split.
    + intros ([w r] & -> & [Hu Hin]%list_elem_of_filter). apply Is_true_true in Hu. simpl in *.
      unfold unbroken in Hu. apply andb_true_iff in Hu as [Hv Hall]. apply bool_decide_eq_true in Hv.
      exists r. split_and!; [by apply veto_history_elem|done|]. intros w' s Hs' Hsig Hnv.
      rewrite forallb_forall in Hall. apply veto_history_elem in Hs'. apply list_elem_of_In in Hs'.
      specialize (Hall _ Hs'). simpl in Hall. unfold clean in Hall.
      rewrite bool_decide_eq_true_2 in Hall by done. simpl in Hall. unfold after in Hall.
      apply andb_true_iff in Hall as [H1 H2]. apply bool_decide_eq_true in H2. done.
    + intros (r & Hr & Hv & Hall). exists (v, r). split; [done|]. apply list_elem_of_filter.
      split; [|by apply veto_history_elem]. apply Is_true_true. unfold unbroken.
      rewrite bool_decide_eq_true_2 by done. simpl. apply forallb_forall. intros [w s] Hws.
      apply list_elem_of_In, veto_history_elem in Hws. simpl. unfold clean. case_bool_decide as Hc; [|done].
      destruct Hc as [Hnv Hsig]. destruct (Hall _ _ Hws Hsig Hnv) as [H1 H2]. simpl. unfold after.
      rewrite H1. apply bool_decide_eq_true. done.
Qed.

(** ** The probe *)

Lemma sort_strings_eq l k : sort_strings l = sort_strings k ↔ l ≡ₚ k.
Proof.
  unfold sort_strings. split.
  - intros He. by rewrite <-(sort_by_perm String.leb l), He, sort_by_perm.
  - intros Hp. apply (StronglySorted_unique_strong (λ a b, String.leb a b = true)).
    + intros x y _ _. apply String.leb_antisym.
    + apply sort_by_sorted; eauto with loader.
    + apply sort_by_sorted; eauto with loader.
    + by rewrite !sort_by_perm.
Qed.

(** The startup probe accepts exactly the declared relation and never raises: it returns the
    relation iff the catalog could be read, every required column is there at its declared
    type, and some primary or unique key covers exactly loader and version, in any order;
    so an accepted relation cannot fail the upsert's conflict target on the first signal. *)
Theorem probe_latch_relation_exact c :
  (probe_latch_relation c = None ∨ probe_latch_relation c = Some LATCH_RELATION) ∧
  (probe_latch_relation c = Some LATCH_RELATION ↔
   ∃ rows keys, cat_columns c = Ok rows ∧ cat_keys c = Ok keys ∧
     (∀ name expected udt, (name, (expected, udt)) ∈ REQUIRED_COLUMNS →
        ∃ found, od_get name (columns_dict rows) = Some (expected, found) ∧
          (udt = None ∨ udt = Some found)) ∧
     ∃ k, k ∈ keys ∧ k ≡ₚ KEY_COLUMNS).
Proof.
  assert (∀ rows, _has_declared_columns (columns_dict rows) = true ↔
    (∀ name expected udt, (name, (expected, udt)) ∈ REQUIRED_COLUMNS →
       ∃ found, od_get name (columns_dict rows) = Some (expected, found) ∧ (udt = None ∨ udt = Some found))) as Hcols.
  { intros rows. unfold _has_declared_columns. rewrite forallb_forall. split.
    - intros Hall name expected udt Hin. apply list_elem_of_In in Hin. specialize (Hall _ Hin). simpl in Hall.
      destruct (od_get name (columns_dict rows)) as [[ft fu]|]; [|done].
      apply andb_true_iff in Hall as [Ht Hu]. apply bool_decide_eq_true in Ht as ->. exists fu. split; [done|].
      destruct udt; [right|by left]. apply bool_decide_eq_true in Hu. by subst.
    - intros Hall [name [expected udt]] Hin. apply list_elem_of_In in Hin.
      destruct (Hall _ _ _ Hin) as (found & -> & Hu). rewrite bool_decide_eq_true_2 by done. simpl.
      destruct Hu as [->| ->]; [done|]. by apply bool_decide_eq_true. }
  assert (∀ keys : list (list string), sort_strings KEY_COLUMNS ∈ sort_strings <$> keys ↔ ∃ k, k ∈ keys ∧ k ≡ₚ KEY_COLUMNS) as Hkeys.
  { intros keys. rewrite list_elem_of_fmap. setoid_rewrite sort_strings_eq.
    split; intros (k & H1 & H2); exists k; split; done. }
  unfold probe_latch_relation. destruct (cat_columns c) as [rows|] eqn:Hc; [|naive_solver].
  destruct rows as [|row rows].
  { split; [by left|]. split; [done|]. intros (rows & keys & [= <-] & _ & Hall & _).
    destruct (Hall "version" "text" None) as (found & Hf & _); [decide_now|done]. }
  destruct (_has_declared_columns _) eqn:Hd.
  - destruct (cat_keys c) as [keys|]; [|naive_solver]. pose proof (proj1 (Hcols (row :: rows)) Hd) as Hdecl. case_bool_decide as Hk.
    + split; [by right|]. split; [|done]. intros _. exists (row :: rows), keys. by rewrite <-Hkeys.
    + split; [by left|]. split; [done|]. intros (? & ? & [= <-] & [= <-] & _ & Hk'). by rewrite <-Hkeys in Hk'.
  - split; [by left|]. split; [done|]. intros (? & ? & [= <-] & _ & Hall & _).
    pose proof (proj2 (Hcols (row :: rows)) Hall). congruence.
Qed.

(** ** Instances *)

Definition four_signals : list op :=
  [Signal 1 "20260101" "artists"; Signal 2 "20260101" "labels"; Signal 3 "20260101" "masters"].

(** The fourth type completes the extraction; not once it is stamped, nor when a newer one was
    seen. *)
Example latch_fires_once :
  let asks ops := should_refresh (record_extraction_signal 9 "20260101" "releases" (run_ops ops ∅)).2 DATA_TYPES in
  asks four_signals = true ∧
  asks (four_signals ++ [Stamp 5 "20260101"]) = false ∧
  asks (four_signals ++ [Veto 5 "20260201" "artists"]) = false ∧
  asks (Veto 0 "20251201" "artists" :: four_signals) = true.
Proof. vm_compute. repeat split; reflexivity. Qed.

Definition stamped_latch : latch_table := {[key "20260101" := stamp 5 (fresh_latch 1)]}.

Lemma latch_stamp_is_final_witness :
  refreshed_at (stamp 5 (fresh_latch 1)) ≠ None ∧
  should_refresh (record_extraction_signal 9 "20260101" "releases" (run_ops four_signals stamped_latch)).2
    DATA_TYPES = false.
Proof.
  split; [discriminate|].
  refine (proj1 (latch_stamp_is_final four_signals stamped_latch "20260101" (stamp 5 (fresh_latch 1)) "releases" 9
    DATA_TYPES _ _)); [reflexivity|discriminate].
Defined.

Example consecutive_vetoes_example :
  consecutive_purge_vetoes "labels" (run_ops [Veto 1 "20260101" "labels"; Veto 2 "20260201" "labels"] ∅) = 2.
Proof. vm_compute. reflexivity. Qed.
