(* ===== verification/Durable.v ===== *)
(** * Durable, fenced scheduling of the refresh: [durable_refresh.py]

    The cursor row, the job rows and the latch rows of this loader.  Every function that
    opens a transaction is one step on that state at a database time [now]; the worker's own
    clock, which [_owns_lease] reads, is a separate argument.  What an insert leaves to the
    declared defaults belongs to the schema and is the class [DurableSchema]. *)

From S2P Require Import Prelude Json Contract Latch.

Definition _LEASE_SECONDS : Z := 120.
Definition _STALE_SECONDS : Z := 300.
Definition _STALE_SIGNALS_SECONDS : Z := 86400.
Definition _MAX_BACKOFF_SECONDS : Z := 300.

Record cursor_row := { c_generation : Z; c_version : option string; c_updated_at : Z }.

Inductive job_state := Pending | Leased | Retry | Completed | Superseded.

#[export] Instance job_state_eq_dec : EqDecision job_state.
Proof. solve_decision. Defined.

Record job := {
  j_generation : Z;
  j_state : job_state;
  j_attempts : Z;
  j_next : option Z;
  j_owner : option string;
  j_token : option positive;
  j_epoch : Z;
  j_expires : option Z;
  j_error : option string;
  j_created : Z;
  j_started : option Z;
  j_completed : option Z;
  j_superseded : option Z;
}.

(** The declared defaults: a new cursor's generation, and a new job, which is pending, due
    at once and unleased. *)
Class DurableSchema := {
  initial_generation : Z;
  new_job : Z → Z → job;
  new_job_generation now g : j_generation (new_job now g) = g;
  new_job_state now g : j_state (new_job now g) = Pending;
  new_job_due now g : j_next (new_job now g) = Some now;
}.

Record durable := {
  cursor : option cursor_row;
  jobs : gmap string job;
  latch : latch_table;
}.

(** [DurableSignal] and [ClaimedJob]. *)
Record DurableSignal := {
  d_version : string;
  d_generation : option Z;
  d_signals : gset string;
  d_scheduled : bool;
  d_superseded : bool;
  d_already_refreshed : bool;
}.

Record ClaimedJob := {
  k_version : string;
  k_generation : Z;
  k_token : positive;
  k_epoch : Z;
  k_attempts : Z;
}.

(** ** Ordered versions *)

Definition substring_value (start len : nat) (s : string) : Z := digits_value (substring start len s).

Definition is_leap (y : Z) : bool :=
  (y mod 4 =? 0) && (negb (y mod 100 =? 0) || (y mod 400 =? 0)).

Definition days_in_month (y m : Z) : Z :=
  if m =? 2 then if is_leap y then 29 else 28
  else if bool_decide (m ∈ [4; 6; 9; 11]) then 30 else 31.

(** [date.fromisoformat] on four, two and two digits. *)
Definition valid_date (y m d : Z) : bool :=
  (1 <=? y) && (1 <=? m) && (m <=? 12) && (1 <=? d) && (d <=? days_in_month y m).

(** [_VERSION_RE.fullmatch] *)
Definition version_shape (s : string) : bool := all_digits s && Nat.eqb (String.length s) 8.

Definition version_date (s : string) : bool :=
  valid_date (substring_value 0 4 s) (substring_value 4 2 s) (substring_value 6 2 s).

Definition ordered_text (s : string) : result string :=
  let version := py_strip s in
  if version_shape version && version_date version then Ok version else Raise ValueError.

(** [str(value or "")] is [Latch.str_or_empty]. *)
Definition ordered_version (py_repr : json → string) (value : json) : result string :=
  ordered_text (str_or_empty py_repr value).

(** [a < b] on texts. *)
Definition text_lt (a b : string) : bool := negb (String.leb b a).

(** ** Statements *)

Definition active (j : job) : bool :=
  match j_state j with Pending | Leased | Retry => true | _ => false end.

Definition supersede (now : Z) (j : job) : job :=
  {| j_generation := j_generation j; j_state := Superseded; j_attempts := j_attempts j; j_next := None;
     j_owner := None; j_token := None; j_epoch := j_epoch j; j_expires := None; j_error := j_error j;
     j_created := j_created j; j_started := j_started j; j_completed := j_completed j; j_superseded := Some now |}.

(** [next_attempt_at = NOW() + delay], the lease cleared. *)
Definition retry_later (now delay : Z) (error : string) (j : job) : job :=
  {| j_generation := j_generation j; j_state := Retry; j_attempts := j_attempts j; j_next := Some (now + delay);
     j_owner := None; j_token := None; j_epoch := j_epoch j; j_expires := None; j_error := Some error;
     j_created := j_created j; j_started := j_started j; j_completed := j_completed j; j_superseded := j_superseded j |}.

Definition lease (now : Z) (owner : string) (token : positive) (j : job) : job :=
  {| j_generation := j_generation j; j_state := Leased; j_attempts := j_attempts j + 1; j_next := None;
     j_owner := Some owner; j_token := Some token; j_epoch := j_epoch j + 1;
     j_expires := Some (now + _LEASE_SECONDS); j_error := j_error j;
     j_created := j_created j; j_started := Some (default now (j_started j)); j_completed := j_completed j;
     j_superseded := j_superseded j |}.

Definition complete (now : Z) (j : job) : job :=
  {| j_generation := j_generation j; j_state := Completed; j_attempts := j_attempts j; j_next := j_next j;
     j_owner := None; j_token := None; j_epoch := j_epoch j; j_expires := None; j_error := j_error j;
     j_created := j_created j; j_started := j_started j; j_completed := Some now; j_superseded := j_superseded j |}.

Definition renew (now : Z) (j : job) : job :=
  {| j_generation := j_generation j; j_state := j_state j; j_attempts := j_attempts j; j_next := j_next j;
     j_owner := j_owner j; j_token := j_token j; j_epoch := j_epoch j; j_expires := Some (now + _LEASE_SECONDS);
     j_error := j_error j; j_created := j_created j; j_started := j_started j; j_completed := j_completed j;
     j_superseded := j_superseded j |}.

(** [min(_MAX_BACKOFF_SECONDS, 2 ** min(attempts, 8))] *)
Definition backoff (attempts : Z) : Z := Z.min _MAX_BACKOFF_SECONDS (2 ^ Z.min attempts 8).

Definition set_jobs (js : gmap string job) (s : durable) : durable :=
  {| cursor := cursor s; jobs := js; latch := latch s |}.
Definition set_latch (t : latch_table) (s : durable) : durable :=
  {| cursor := cursor s; jobs := jobs s; latch := t |}.

(** [SELECT generation, version]: the pair a worker compares with its job. *)
Definition cursor_is (job : ClaimedJob) (s : durable) : bool :=
  match cursor s with
  | Some c => bool_decide (c_generation c = k_generation job) && bool_decide (c_version c = Some (k_version job))
  | None => false
  end.

Section durable.
Context `{DurableSchema}.

Definition _lock_cursor (now : Z) (s : durable) : durable * (Z * option string) :=
  match cursor s with
  | Some c => (s, (c_generation c, c_version c))
  | None =>
      ({| cursor := Some {| c_generation := initial_generation; c_version := None; c_updated_at := now |};
          jobs := jobs s; latch := latch s |}, (initial_generation, None))
  end.

Definition _advance_cursor (now generation : Z) (version : string) (s : durable) : durable :=
  {| cursor := Some {| c_generation := generation; c_version := Some version; c_updated_at := now |};
     jobs := (λ j, if (j_generation j <? generation) && active j then supersede now j else j) <$> jobs s;
     latch := latch s |}.

Definition _upsert_job (now : Z) (version : string) (generation : Z) (s : durable) : durable :=
  match jobs s !! version with
  | Some _ => s
  | None => set_jobs (<[version := new_job now generation]> (jobs s)) s
  end.

(** The generation a latch row without one receives. *)
Definition assign (now generation : Z) (r : latch_row) : latch_row :=
  match Latch.generation r with
  | Some _ => r
  | None => {| signals := signals r; refreshed_at := refreshed_at r; Latch.generation := Some generation;
               purge_vetoed := purge_vetoed r; created_at := created_at r; l_updated_at := now |}
  end.

Definition has_all (required_types : list string) (signals : gset string) : bool :=
  forallb (λ t, bool_decide (t ∈ signals)) required_types.

(** [SELECT version, signals, refreshed_at ... generation IS NULL ORDER BY version] *)
Definition unordered_rows (t : latch_table) : list (string * latch_row) :=
  sort_by (λ x y, String.leb x.1 y.1)
    (omap (λ '((loader, version), r),
       if decide (loader = LOADER_DISCRIMINATOR ∧ Latch.generation r = None) then Some (version, r) else None)
       (map_to_list t)).

(** One row of the loop: the state, the generation and the current version. *)
Definition reconcile_row (now : Z) (required_types : list string)
    (acc : result (durable * Z * option string)) (row : string * latch_row)
    : result (durable * Z * option string) :=
  let! ' (s, generation, current) := acc in
  let '(raw_version, r) := row in
  if negb (bool_decide (refreshed_at r = None)) && negb (version_shape raw_version) then Ok (s, generation, current)
  else
    let! version := ordered_text raw_version in
    if match current with Some c => text_lt version c | None => false end then Ok (s, generation, current)
    else
      let '(s, generation, current) :=
        if match current with Some c => text_lt c version | None => true end
        then (_advance_cursor now (generation + 1) version s, generation + 1, Some version)
        else (s, generation, current) in
      let s := set_latch (alter (assign now generation) (key version) (latch s)) s in
      let s := if bool_decide (refreshed_at r = None) && has_all required_types (signals r)
               then _upsert_job now version generation s else s in
      Ok (s, generation, current).

Definition _reconcile_legacy (now : Z) (required_types : list string) (s : durable)
    : result (durable * Z * option string) :=
  let '(s, (generation, current)) := _lock_cursor now s in
  foldl (reconcile_row now required_types) (Ok (s, generation, current)) (unordered_rows (latch s)).

(** Commit, or keep the state and raise. *)
Definition committed {A} (s : durable) (r : result (durable * A)) : durable * result A :=
  match r with Ok (s', a) => (s', Ok a) | Raise e => (s, Raise e) end.

Definition reconcile_legacy_latches (now : Z) (required_types : list string) (s : durable) : durable * result unit :=
  committed s (let! ' (s, _, _) := _reconcile_legacy now required_types s in Ok (s, ())).

(** The latch upsert of [record_durable_signal]. *)
Definition signal_latch (now : Z) (data_type : string) (accepted : option Z) (old : option latch_row) : latch_row :=
  match old with
  | None => {| signals := {[data_type]}; refreshed_at := None; Latch.generation := accepted; purge_vetoed := ∅;
               created_at := now; l_updated_at := now |}
  | Some r => {| signals := signals r ∪ {[data_type]}; refreshed_at := refreshed_at r;
                 Latch.generation := match Latch.generation r with Some g => Some g | None => accepted end;
                 purge_vetoed := purge_vetoed r; created_at := created_at r; l_updated_at := now |}
  end.

Definition record_durable_signal (py_repr : json → string) (now : Z) (version_value : json) (data_type : string)
    (required_types : list string) (s : durable) : durable * result DurableSignal :=
  match ordered_version py_repr version_value with
  | Raise e => (s, Raise e)
  | Ok version =>
      if negb (bool_decide (data_type ∈ required_types)) then (s, Raise ValueError)
      else committed s (
        let! ' (s, generation, current) := _reconcile_legacy now required_types s in
        let superseded := match current with Some c => text_lt version c | None => false end in
        let '(s, generation) :=
          if match current with Some c => text_lt c version | None => true end
          then (_advance_cursor now (generation + 1) version s, generation + 1)
          else (s, generation) in
        let accepted := if superseded then None else Some generation in
        let row := signal_latch now data_type accepted (latch s !! key version) in
        let s := set_latch (<[key version := row]> (latch s)) s in
        let already_refreshed := negb (bool_decide (refreshed_at row = None)) in
        let answer scheduled :=
          {| d_version := version; d_generation := Latch.generation row; d_signals := signals row;
             d_scheduled := scheduled; d_superseded := superseded; d_already_refreshed := already_refreshed |} in
        if negb superseded && negb already_refreshed && has_all required_types (signals row) then
          if bool_decide (Latch.generation row ≠ Some generation) then Raise DurableSchemaUnavailable
          else Ok (_upsert_job now version generation s, answer true)
        else Ok (s, answer false))
  end.

(** [state IN ('pending', 'retry') AND next_attempt_at <= NOW() OR state = 'leased' AND
    lease_expires_at <= NOW()] *)
Definition due (now : Z) (j : job) : bool :=
  match j_state j with
  | Pending | Retry => match j_next j with Some n => n <=? now | None => false end
  | Leased => match j_expires j with Some e => e <=? now | None => false end
  | _ => false
  end.

(** [ORDER BY generation DESC, next_attempt_at NULLS LAST] *)
Definition claim_order (x y : string * job) : bool :=
  if j_generation x.2 =? j_generation y.2 then
    match j_next x.2, j_next y.2 with
    | _, None => true
    | None, Some _ => false
    | Some a, Some b => a <=? b
    end
  else j_generation y.2 <? j_generation x.2.

Definition live_lease (now : Z) (j : job) : bool :=
  bool_decide (j_state j = Leased) && match j_expires j with Some e => now <? e | None => false end.

(** [claim_due_job]; [token] is the fresh [uuid4()]. *)
Definition claim_due_job (now : Z) (owner : string) (token : positive) (s : durable)
    : durable * option ClaimedJob :=
  let '(s, (current_generation, _)) := _lock_cursor now s in
  if existsb (λ '(_, j), live_lease now j) (map_to_list (jobs s)) then (s, None)
  else
    match sort_by claim_order (filter (λ vj, due now vj.2) (map_to_list (jobs s))) with
    | [] => (s, None)
    | (version, j) :: _ =>
        if negb (j_generation j =? current_generation) then
          (set_jobs (alter (supersede now) version (jobs s)) s, None)
        else if bool_decide (j_state j = Leased) then
          (set_jobs (alter (retry_later now (backoff (j_attempts j)) "lease_expired") version (jobs s)) s, None)
        else
          (set_jobs (alter (lease now owner token) version (jobs s)) s,
           Some {| k_version := version; k_generation := j_generation j; k_token := token;
                   k_epoch := j_epoch j + 1; k_attempts := j_attempts j + 1 |})
    end.

(** [state = 'leased' AND lease_token = %s AND lease_epoch = %s] *)
Definition holds (c : ClaimedJob) (j : job) : bool :=
  bool_decide (j_state j = Leased) && bool_decide (j_token j = Some (k_token c)) && (j_epoch j =? k_epoch c).

Definition _owns_lease (clock : Z) (c : ClaimedJob) (s : durable) : bool :=
  match jobs s !! k_version c with
  | Some j => holds c j && match j_expires j with Some e => clock <? e | None => false end
  | None => false
  end.

Definition _before_refresh (clock : Z) (c : ClaimedJob) (s : durable) : result durable :=
  if negb (cursor_is c s) || negb (_owns_lease clock c s) then Raise SupersededJob else Ok s.

Definition stampable (c : ClaimedJob) (r : latch_row) : bool :=
  bool_decide (Latch.generation r = Some (k_generation c)) && bool_decide (refreshed_at r = None).

Definition _before_commit (now clock : Z) (c : ClaimedJob) (s : durable) : result durable :=
  if negb (cursor_is c s) || negb (_owns_lease clock c s) then Raise SupersededJob
  else
    match latch s !! key (k_version c) with
    | Some r =>
        if stampable c r then
          let s := set_latch (<[key (k_version c) := stamp now r]> (latch s)) s in
          match jobs s !! k_version c with
          | Some j =>
              if (j_generation j =? k_generation c) && bool_decide (j_token j = Some (k_token c))
                 && (j_epoch j =? k_epoch c)
              then Ok (set_jobs (<[k_version c := complete now j]> (jobs s)) s)
              else Raise SupersededJob
          | None => Raise SupersededJob
          end
        else Raise SupersededJob
    | None => Raise SupersededJob
    end.

(** One beat: the renewed state, and whether the lease was lost. *)
Definition heartbeat (now : Z) (c : ClaimedJob) (s : durable) : durable * bool :=
  match jobs s !! k_version c with
  | Some j => if holds c j && match j_expires j with Some e => now <? e | None => false end
              then (set_jobs (<[k_version c := renew now j]> (jobs s)) s, false)
              else (s, true)
  | None => (s, true)
  end.

Definition _mark_after_failure (now : Z) (c : ClaimedJob) (error : string) (s : durable) : durable :=
  match jobs s !! k_version c with
  | Some j =>
      if holds c j then
        set_jobs (<[k_version c := if cursor_is c s
                     then retry_later now (backoff (k_attempts c)) (substring 0 1024 error) j
                     else supersede now j]> (jobs s)) s
      else s
  | None => s
  end.

(** One worker round.  [pass] is the refresh between the fences, which may fail; [meanwhile]
    is what other sessions commit while it runs; [lost] what the heartbeat saw before each
    fence. *)
Record round := {
  r_claim_at : Z;
  r_start_clock : Z;
  r_lost_at_start : bool;
  r_meanwhile : durable → durable;
  r_pass : result unit;
  r_lost_at_finish : bool;
  r_commit_at : Z;
  r_commit_clock : Z;
  r_fail_at : Z;
}.

Definition error_name (e : exn) : string :=
  match e with
  | SupersededJob => "lease_lost_or_superseded"
  | ValueError => "ValueError"
  | KeyError => "KeyError"
  | TypeError => "TypeError"
  | AttributeError => "AttributeError"
  | RuntimeError => "RuntimeError"
  | DatabaseUnavailableError => "DatabaseUnavailableError"
  | DurableSchemaUnavailable => "DurableSchemaUnavailable"
  | StartupFailure => "StartupFailure"
  | OtherError class => class
  end.

Definition run_worker_once (owner : string) (token : positive) (r : round) (s : durable) : durable * bool :=
  let '(s, claimed) := claim_due_job (r_claim_at r) owner token s in
  match claimed with
  | None => (s, false)
  | Some c =>
      let started := if r_lost_at_start r then Raise SupersededJob else _before_refresh (r_start_clock r) c s in
      let s := r_meanwhile r s in
      let finished :=
        let! _ := started in
        let! _ := r_pass r in
        if r_lost_at_finish r then Raise SupersededJob
        else _before_commit (r_commit_at r) (r_commit_clock r) c s in
      match finished with
      | Ok s => (s, true)
      | Raise e => (_mark_after_failure (r_fail_at r) c (error_name e) s, true)
      end
  end.

(** ** Health *)

Inductive phase := PhaseJob (st : job_state) | WaitingForSignals | NoPhase.

Definition newest_first (x y : string * job) : bool := j_generation y.2 <=? j_generation x.2.

Record refresh_health := {
  h_degraded : bool;
  h_generation : Z;
  h_version : option string;
  h_newest_completed : option string;
  h_active : option string;
  h_phase : phase;
  h_pending_age : option Z;
  h_attempts : Z;
  h_superseded : Z;
}.

Definition read_refresh_health (clock : Z) (s : durable) : refresh_health :=
  let rows := sort_by newest_first (map_to_list (jobs s)) in
  let legacy_superseded :=
    match cursor s with
    | Some {| c_version := Some v |} =>
        Z.of_nat (length (filter (λ vr, bool_decide (refreshed_at vr.2 = None) && text_lt vr.1 v)
                            (unordered_rows (latch s))))
    | _ => 0
    end in
  let newest_completed := head (filter (λ vj : string * job, j_state vj.2 = Completed) rows) in
  let current := head (filter (λ vj, active vj.2) rows) in
  let version := c ← cursor s; c_version c in
  let waiting := bool_decide (current = None) && bool_decide (version ≠ None)
                 && bool_decide (fst <$> newest_completed ≠ version) in
  let pending_age :=
    match current with
    | Some (_, j) => Some (Z.max 0 (clock - j_created j))
    | None => if waiting then (λ c, Z.max 0 (clock - c_updated_at c)) <$> cursor s else None
    end in
  let ph := match current with
            | Some (_, j) => PhaseJob (j_state j)
            | None => if waiting then WaitingForSignals else NoPhase
            end in
  let older_than seconds := match pending_age with Some a => seconds <? a | None => false end in
  let degraded :=
    match ph with
    | PhaseJob Retry => true
    | PhaseJob Pending => older_than _STALE_SECONDS
    | WaitingForSignals => older_than _STALE_SIGNALS_SECONDS
    | PhaseJob Leased =>
        match current with
        | Some (_, j) => match j_expires j with Some e => e <=? clock | None => false end
        | None => false
        end
    | _ => false
    end in
  {| h_degraded := degraded;
     h_generation := match cursor s with Some c => c_generation c | None => 0 end;
     h_version := version;
     h_newest_completed := fst <$> newest_completed;
     h_active := fst <$> current;
     h_phase := ph;
     h_pending_age := pending_age;
     h_attempts := match current with Some (_, j) => j_attempts j | None => 0 end;
     h_superseded := legacy_superseded
       + Z.of_nat (length (filter (λ vj : string * job, j_state vj.2 = Superseded) rows)) |}.

(** ** The startup probe *)

(** What the durable path needs declared: the columns of its three relations with their
    types, the keys, and the two scheduler indexes. *)
Definition DURABLE_COLUMNS : list (string * list (string * string)) :=
  [("loader_extraction_latch",
      [("loader", "text"); ("version", "text"); ("signals", "ARRAY"); ("refreshed_at", "timestamp with time zone");
       ("generation", "bigint")]);
   ("loader_derived_refresh_cursor", [("loader", "text"); ("generation", "bigint"); ("version", "text")]);
   ("loader_derived_refresh_job",
      [("loader", "text"); ("version", "text"); ("generation", "bigint"); ("state", "text");
       ("attempt_count", "integer"); ("next_attempt_at", "timestamp with time zone"); ("lease_owner", "text");
       ("lease_token", "uuid"); ("lease_epoch", "bigint"); ("lease_expires_at", "timestamp with time zone");
       ("last_error", "text"); ("created_at", "timestamp with time zone"); ("updated_at", "timestamp with time zone");
       ("started_at", "timestamp with time zone"); ("completed_at", "timestamp with time zone");
       ("superseded_at", "timestamp with time zone")])].

Definition DURABLE_KEYS : list (string * (string * list string)) :=
  [("public.loader_extraction_latch", ("p", ["loader"; "version"]));
   ("public.loader_derived_refresh_cursor", ("p", ["loader"]));
   ("public.loader_derived_refresh_job", ("p", ["loader"; "version"]));
   ("public.loader_derived_refresh_job", ("u", ["generation"; "loader"]));
   ("public.loader_derived_refresh_job", ("f", ["generation"; "loader"; "version"]))].

Definition DURABLE_INDEXES : list string :=
  ["idx_loader_derived_refresh_job_due"; "idx_loader_derived_refresh_job_lease_expiry"].

(** The catalog's answers to the three queries. *)
Record durable_catalog := {
  dc_columns : result (list (string * string * string));
  dc_keys : result (list (string * (string * list string)));
  dc_indexes : result (list string);
}.

(** [found]: a row of another table is a [KeyError]; the last row of a column wins. *)
Definition found_columns (rows : list (string * string * string)) : result (list (string * list (string * string))) :=
  foldl (λ acc '(table, column, data_type),
    let! found := acc in
    match od_get table found with
    | Some columns => Ok (od_set table (od_set column data_type columns) found)
    | None => Raise KeyError
    end) (Ok ((λ tc, (tc.1, [])) <$> DURABLE_COLUMNS)) rows.

Definition missing_columns (found : list (string * list (string * string))) : list (string * string) :=
  DURABLE_COLUMNS ≫= λ '(table, columns),
    (λ c : string * string, (table, c.1)) <$>
      filter (λ c : string * string, od_get c.1 (default [] (od_get table found)) ≠ Some c.2) columns.

Definition probe_durable_schema (c : durable_catalog) : bool :=
  match dc_columns c with
  | Raise _ => false
  | Ok rows =>
      match found_columns rows with
      | Raise _ => false
      | Ok found =>
          bool_decide (missing_columns found = []) &&
          match dc_keys c with
          | Raise _ => false
          | Ok keys =>
              forallb (λ k, bool_decide (k ∈ keys)) DURABLE_KEYS &&
              match dc_indexes c with
              | Raise _ => false
              | Ok indexes => forallb (λ i, bool_decide (i ∈ indexes)) DURABLE_INDEXES
              end
          end
      end
  end.

(** ** Invariant *)

Definition complete_row (required_types : list string) (r : latch_row) : Prop :=
  (∀ d, d ∈ required_types → d ∈ signals r) ∧ refreshed_at r = None.

(** What a job row may be, against the cursor's generation [g] and version [cur]. *)
Record job_wf (g : Z) (cur : option string) (t : latch_table) (v : string) (j : job) : Prop := {
  jw_bound : j_generation j <= g;
  jw_latch : ∃ r, t !! key v = Some r ∧ Latch.generation r = Some (j_generation j) ∧
               (j_state j = Completed → refreshed_at r ≠ None) ∧ (active j = true → refreshed_at r = None);
  jw_active : active j = true → j_generation j = g ∧ cur = Some v;
  jw_superseded : j_state j = Superseded → j_generation j < g;
  jw_due : (j_state j = Pending ∨ j_state j = Retry) → is_Some (j_next j);
  jw_leased : j_state j = Leased → is_Some (j_token j) ∧ is_Some (j_expires j);
}.

(** A latch row with a generation is of the current version at the current generation, or
    of an older version at an older one. *)
Definition row_wf (g : Z) (cur : option string) (v : string) (r : latch_row) : Prop :=
  ∀ n, Latch.generation r = Some n →
    (cur = Some v ∧ n = g) ∨ (∃ c, cur = Some c ∧ text_lt v c = true ∧ n < g).

Record wf (required_types : list string) (g : Z) (cur : option string) (s : durable) : Prop := {
  wf_jobs : ∀ v j, jobs s !! v = Some j → job_wf g cur (latch s) v j;
  wf_rows : ∀ v r, latch s !! key v = Some r → row_wf g cur v r;
  wf_keys : ∀ v r, latch s !! key v = Some r → py_strip v = v;
  wf_obligation : ∀ v r, cur = Some v → latch s !! key v = Some r → Latch.generation r = Some g →
    complete_row required_types r → ∃ j, jobs s !! v = Some j ∧ active j = true;
}.

(** The cursor of a state; before the first lock there is neither job nor generation. *)
Definition cursor_wf (required_types : list string) (s : durable) : Prop :=
  match cursor s with
  | Some c => wf required_types (c_generation c) (c_version c) s
  | None => wf required_types initial_generation None s
  end.

Lemma text_lt_irrefl a : text_lt a a = false.
Proof. unfold text_lt. destruct (string_leb_total a a) as [-> | ->]; done. Qed.

Lemma text_lt_trans a b c : text_lt a b = true → text_lt b c = true → text_lt a c = true.
Proof.
  unfold text_lt. rewrite !negb_true_iff. intros Hab Hbc. destruct (String.leb c a) eqn:Hca; [|done].
  destruct (string_leb_total a b) as [H1|H1]; [|congruence].
  rewrite (string_leb_trans c a b) in Hbc; done.
Qed.

Lemma text_lt_cases a b : text_lt a b = true ∨ a = b ∨ text_lt b a = true.
Proof.
  unfold text_lt. destruct (String.leb b a) eqn:H1; [|by left].
  destruct (String.leb a b) eqn:H2; [|by right; right]. right; left. by apply String.leb_antisym.
Qed.

Lemma active_supersede now j : active (supersede now j) = false.
Proof. done. Qed.

(** Advancing to a newer version supersedes every active job and keeps the rest. *)
Lemma advance_wf R now g cur v s :
  wf R g cur s → (∀ c, cur = Some c → text_lt c v = true) →
  wf R (g + 1) (Some v) (_advance_cursor now (g + 1) v s).
Proof.
  intros [Hjobs Hrows Hkeys Hob] Hnew.
  assert (∀ w r, latch s !! key w = Some r → row_wf (g + 1) (Some v) w r ∧ (w = v → Latch.generation r = None)) as Hr.
  { intros w r Hr. split.
    - intros n Hn. right. exists v. destruct (Hrows _ _ Hr n Hn) as [[Hc ->]|(c & Hc & Hlt & Hn')].
      + split_and!; [done|by apply Hnew|lia].
      + split_and!; [done| |lia]. eapply text_lt_trans; [done|]. by apply Hnew.
    - intros ->. destruct (Latch.generation r) as [n|] eqn:Hn; [|done]. exfalso.
      destruct (Hrows _ _ Hr n Hn) as [[Hc _]|(c & Hc & Hlt & _)]; specialize (Hnew _ Hc).
      + by rewrite text_lt_irrefl in Hnew.
      + pose proof (text_lt_trans _ _ _ Hlt Hnew) as Hbad. by rewrite text_lt_irrefl in Hbad. }
  constructor; cbn [jobs latch _advance_cursor].
  - intros w j Hj. rewrite lookup_fmap in Hj. destruct (jobs s !! w) as [j0|] eqn:Hj0; [|done].
    simpl in Hj. destruct (Hjobs _ _ Hj0) as [Hb Hl Ha Hs Hd Hle].
    destruct ((j_generation j0 <? g + 1) && active j0) eqn:Hcase; simplify_eq.
    + constructor; simpl; try done; try lia; [|naive_solver].
      destruct Hl as (r & Hr1 & Hr2 & Hr3). exists r. by split_and!.
    + rewrite (proj2 (Z.ltb_lt _ _)) in Hcase by lia. simpl in Hcase.
      constructor; [lia|done|congruence| |done|done].
      intros Hsup. specialize (Hs Hsup). lia.
  - intros w r Hrow. by apply Hr.
  - exact Hkeys.
  - intros w r [= <-] Hrow Hg. destruct (Hr _ _ Hrow) as [_ Hnone]. by rewrite Hnone in Hg.
Qed.

(** Writing one latch row that keeps what the jobs and the obligation need. *)
Lemma put_row_wf R g cur v r' s :
  wf R g cur s → py_strip v = v → row_wf g cur v r' →
  (∀ j, jobs s !! v = Some j → Latch.generation r' = Some (j_generation j) ∧
     (j_state j = Completed → refreshed_at r' ≠ None) ∧ (active j = true → refreshed_at r' = None)) →
  (cur = Some v → Latch.generation r' = Some g → complete_row R r' →
     ∃ j, jobs s !! v = Some j ∧ active j = true) →
  wf R g cur (set_latch (<[key v := r']> (latch s)) s).
Proof.
  intros [Hjobs Hrows Hkeys Hob] Hv Hrow Hj Hc. constructor; cbn [jobs latch set_latch].
  - intros w j Hwj. destruct (Hjobs _ _ Hwj) as [Hb Hl Ha Hs Hd Hle]. constructor; try done.
    destruct (decide (w = v)) as [->|Hne].
    + exists r'. rewrite lookup_insert_eq. destruct (Hj _ Hwj). done.
    + rewrite lookup_insert_ne by (intros ?%key_inj; done). done.
  - intros w r Hr. destruct (decide (w = v)) as [->|Hne].
    + rewrite lookup_insert_eq in Hr. by simplify_eq.
    + rewrite lookup_insert_ne in Hr by (intros ?%key_inj; done). by eapply Hrows.
  - intros w r Hr. destruct (decide (w = v)) as [->|Hne]; [done|].
    rewrite lookup_insert_ne in Hr by (intros ?%key_inj; done). by eapply Hkeys.
  - intros w r Hw Hr. destruct (decide (w = v)) as [->|Hne].
    + rewrite lookup_insert_eq in Hr. simplify_eq. by apply Hc.
    + rewrite lookup_insert_ne in Hr by (intros ?%key_inj; done). by eapply Hob.
Qed.

Lemma new_job_wf now g v t r :
  t !! key v = Some r → Latch.generation r = Some g → refreshed_at r = None → job_wf g (Some v) t v (new_job now g).
Proof.
  intros Hr Hg Hn. constructor; rewrite ?new_job_generation, ?new_job_state; try done.
  - exists r. done.
  - rewrite new_job_due. eauto.
Qed.

(** The current version's row, with its job when the row completes the extraction. *)
Lemma put_current_wf R now g v r' s :
  wf R g (Some v) s → py_strip v = v → Latch.generation r' = Some g →
  (∀ r n, latch s !! key v = Some r → Latch.generation r = Some n → refreshed_at r = refreshed_at r') →
  let s1 := set_latch (<[key v := r']> (latch s)) s in
  wf R g (Some v) (if bool_decide (refreshed_at r' = None) && has_all R (signals r')
                   then _upsert_job now v g s1 else s1).
Proof.
  intros Hwf Hv Hg Hsame s1. pose proof Hwf as [Hjobs Hrows Hkeys Hob].
  assert (row_wf g (Some v) v r') as Hrow by (intros n Hn; left; split; congruence).
  assert (∀ j, jobs s !! v = Some j → Latch.generation r' = Some (j_generation j) ∧
     (j_state j = Completed → refreshed_at r' ≠ None) ∧ (active j = true → refreshed_at r' = None)) as Hj.
  { intros j Hj. destruct (Hjobs _ _ Hj) as [_ (r & Hr & Hrg & Hrc) _ _ _ _].
    rewrite <-(Hsame _ _ Hr Hrg). split; [|done]. destruct (Hrows _ _ Hr _ Hrg) as [[_ ->]|(c & [= <-] & Hlt & _)]; [done|].
    by rewrite text_lt_irrefl in Hlt. }
  assert (complete_row R r' ↔ bool_decide (refreshed_at r' = None) && has_all R (signals r') = true) as Hcomp.
  { unfold complete_row, has_all. rewrite andb_true_iff, bool_decide_eq_true, forallb_forall.
    setoid_rewrite <-list_elem_of_In. setoid_rewrite bool_decide_eq_true. tauto. }
  destruct (jobs s !! v) as [j|] eqn:Hjv.
  - assert (_upsert_job now v g s1 = s1) as Hup by (unfold _upsert_job; cbn [jobs s1 set_latch]; by rewrite Hjv).
    rewrite Hup. assert (wf R g (Some v) s1) as Hs1; [|by destruct (_ && _)].
    apply put_row_wf; [done..| |].
    + intros j' Hj'. apply Hj. congruence.
    + intros _ _ [_ Hnone]. exists j. split; [done|].
      destruct (Hj _ eq_refl) as (Hgj & Hcj & _). destruct (Hjobs _ _ Hjv) as [_ _ _ Hs _ _].
      unfold active. destruct (j_state j); try done; [by destruct Hcj|]. specialize (Hs eq_refl).
      rewrite Hg in Hgj. simplify_eq. lia.
  - destruct (_ && _) eqn:Hc.
    + unfold _upsert_job. cbn [jobs s1 set_latch]. rewrite Hjv. subst s1.
      constructor; cbn [jobs latch set_jobs set_latch].
      * intros w j Hwj. destruct (decide (w = v)) as [->|Hne].
        -- rewrite lookup_insert_eq in Hwj. simplify_eq. apply (new_job_wf now g v _ r'); [apply lookup_insert_eq|done|].
           by apply andb_true_iff in Hc as [?%bool_decide_eq_true _].
        -- rewrite lookup_insert_ne in Hwj by done. destruct (Hjobs _ _ Hwj) as [Hb Hl Ha Hs Hd Hle].
           constructor; try done. by rewrite lookup_insert_ne by (intros ?%key_inj; done).
      * intros w r Hr. destruct (decide (w = v)) as [->|Hne].
        -- rewrite lookup_insert_eq in Hr. by simplify_eq.
        -- rewrite lookup_insert_ne in Hr by (intros ?%key_inj; done). by eapply Hrows.
      * intros w r Hr. destruct (decide (w = v)) as [->|Hne]; [done|].
        rewrite lookup_insert_ne in Hr by (intros ?%key_inj; done). by eapply Hkeys.
      * intros w r [= <-] _ _ _. exists (new_job now g). rewrite lookup_insert_eq. split; [done|].
        unfold active. by rewrite new_job_state.
    + apply put_row_wf; [done..|by rewrite Hjv|]. intros _ _ Hcr. apply Hcomp in Hcr. congruence.
Qed.

(** ** The legacy rows *)

Definition tied (g : Z) (cur : option string) (s : durable) : Prop :=
  c_generation <$> cursor s = Some g ∧ c_version <$> cursor s = Some cur.

(** The cursor never goes back. *)
Definition advances (g : Z) (cur : option string) (g' : Z) (cur' : option string) : Prop :=
  (g' = g ∧ cur' = cur) ∨ (g < g' ∧ ∃ v, cur' = Some v ∧ ∀ c, cur = Some c → text_lt c v = true).

Lemma advances_trans g1 c1 g2 c2 g3 c3 :
  advances g1 c1 g2 c2 → advances g2 c2 g3 c3 → advances g1 c1 g3 c3.
Proof.
  intros [[-> ->]|(Hg & v & -> & Hv)]; [done|].
  intros [[-> ->]|(Hg' & w & -> & Hw)]; right.
  - split; [done|]. exists v. done.
  - split; [lia|]. exists w. split; [done|]. intros c Hc. eapply text_lt_trans; [by apply Hv|by apply Hw].
Qed.

Lemma unordered_rows_spec t v r :
  (v, r) ∈ unordered_rows t ↔ t !! key v = Some r ∧ Latch.generation r = None.
Proof.
  unfold unordered_rows. rewrite elem_of_sort_by, list_elem_of_omap. split.
  - intros ([[l w] s] & Hin%elem_of_map_to_list & Hx). case_decide as Hd; simplify_eq.
    by destruct Hd as [-> ?].
  - intros [Hr Hg]. exists ((LOADER_DISCRIMINATOR, v), r). split; [by apply elem_of_map_to_list|].
    by rewrite decide_True.
Qed.

Lemma unordered_rows_NoDup t : NoDup (unordered_rows t).*1.
Proof.
  unfold unordered_rows. rewrite sort_by_perm. apply (NoDup_fmap_1 key). rewrite <-list_fmap_compose.
  apply (NoDup_omap_keys _ fst (λ x, key x.1)); [|apply NoDup_fst_map_to_list].
  intros [[l w] s] y Hy. case_decide as Hd; simplify_eq. by destruct Hd as [-> _].
Qed.

(** What a part of a transaction must preserve. *)
Definition good (R : list string) (g : Z) (cur : option string) (s : durable) : Prop := wf R g cur s ∧ tied g cur s.

Lemma advance_or_stay R now g cur v s s1 g1 :
  good R g cur s → (∀ c, cur = Some c → text_lt v c = false) →
  (if match cur with Some c => text_lt c v | None => true end
   then (_advance_cursor now (g + 1) v s, g + 1) else (s, g)) = (s1, g1) →
  good R g1 (Some v) s1 ∧ advances g cur g1 (Some v) ∧ latch s1 = latch s.
Proof.
  intros [Hwf Ht] Hv. destruct cur as [c|].
  - specialize (Hv c eq_refl). destruct (text_lt c v) eqn:Hlt; intros [= <- <-].
    + split_and!; [split; [apply (advance_wf R now g (Some c)); [done|]; by intros ? [= <-]|done]| |done].
      right. split; [lia|]. exists v. split; [done|]. by intros ? [= <-].
    + assert (c = v) as -> by (destruct (text_lt_cases c v) as [H1|[H1|H1]]; congruence).
      split_and!; [by split|by left|done].
  - intros [= <- <-]. split_and!; [split; [by apply (advance_wf R now g None)|done]| |done].
    right. split; [lia|]. by exists v.
Qed.

Lemma alter_insert_row (f : latch_row → latch_row) (v : string) (t : latch_table) r : t !! key v = Some r → alter f (key v) t = <[key v := f r]> t.
Proof.
  intros Hr. apply map_eq. intros k. destruct (decide (k = key v)) as [->|Hne].
  - by rewrite lookup_alter_eq, lookup_insert_eq, Hr.
  - by rewrite lookup_alter_ne, lookup_insert_ne.
Qed.

Lemma upsert_job_latch now v g s : latch (_upsert_job now v g s) = latch s ∧ cursor (_upsert_job now v g s) = cursor s.
Proof. unfold _upsert_job. by destruct (jobs s !! v). Qed.

Lemma reconcile_row_wf R now s g cur v r s' g' cur' :
  good R g cur s → latch s !! key v = Some r → Latch.generation r = None →
  reconcile_row now R (Ok (s, g, cur)) (v, r) = Ok (s', g', cur') →
  good R g' cur' s' ∧ advances g cur g' cur' ∧ ∀ w, w ≠ v → latch s' !! key w = latch s !! key w.
Proof.
  intros Hgood Hr Hg. unfold reconcile_row. cbn [bind]. destruct (_ && _).
  { intros [= <- <- <-]. split_and!; [done|by left|done]. }
  unfold ordered_text. rewrite (wf_keys _ _ _ _ (proj1 Hgood) _ _ Hr).
  destruct (version_shape v && version_date v); [|done]. cbn [bind].
  destruct (match cur with Some c => text_lt v c | None => false end) eqn:Hold.
  { intros [= <- <- <-]. split_and!; [done|by left|done]. }
  assert (∀ c, cur = Some c → text_lt v c = false) as Hv by (by intros c ->).
  destruct (if match cur with Some c => text_lt c v | None => true end
    then (_advance_cursor now (g + 1) v s, g + 1, Some v) else (s, g, cur)) as [[s1 g1] cur1] eqn:Hadv.
  assert (cur1 = Some v ∧ good R g1 (Some v) s1 ∧ advances g cur g1 (Some v) ∧ latch s1 = latch s)
    as (-> & [Hwf1 Ht1] & Ha1 & Hl1).
  { pose proof (advance_or_stay R now g cur v s s1 g1 Hgood Hv) as H1.
    destruct cur as [c|]; [destruct (text_lt c v) eqn:Hlt|]; simplify_eq; (split; [|by apply H1]); try done.
    f_equal. specialize (Hv c eq_refl). destruct (text_lt_cases c v) as [?|[?|?]]; congruence. }
  rewrite (alter_insert_row _ _ _ r) by (by rewrite Hl1).
  intros [= <- <- <-]. set (r' := assign now g1 r).
  assert (refreshed_at r' = refreshed_at r ∧ signals r' = signals r ∧ Latch.generation r' = Some g1) as (Hrf & Hrs & Hrg).
  { unfold r', assign. by rewrite Hg. }
  pose proof (put_current_wf R now g1 v r' s1 Hwf1) as Hput. rewrite Hrf, Hrs in Hput.
  split_and!; [split|done|].
  - apply Hput; [by eapply wf_keys; [|rewrite Hl1]|done|]. rewrite Hl1. intros r0 n Hr0 Hn. congruence.
  - destruct (_ && _); [|done]. unfold tied. by rewrite (proj2 (upsert_job_latch _ _ _ _)).
  - intros w Hw. assert (latch (set_latch (<[key v := r']> (latch s1)) s1) !! key w = latch s !! key w) as Hlw.
    { cbn [latch set_latch]. rewrite lookup_insert_ne by (intros ?%key_inj; done). by rewrite Hl1. }
    destruct (_ && _); [|done]. by rewrite (proj1 (upsert_job_latch _ _ _ _)).
Qed.

Lemma reconcile_raised now R e rows : foldl (reconcile_row now R) (Raise e) rows = Raise e.
Proof. induction rows as [|[v r] rows IH]; [done|]. exact IH. Qed.

Lemma reconcile_rows_wf R now rows s g cur s' g' cur' :
  NoDup rows.*1 → good R g cur s →
  (∀ v r, (v, r) ∈ rows → latch s !! key v = Some r ∧ Latch.generation r = None) →
  foldl (reconcile_row now R) (Ok (s, g, cur)) rows = Ok (s', g', cur') →
  good R g' cur' s' ∧ advances g cur g' cur'.
Proof.
  intros Hnd. induction rows as [|[v r] rows IH] in s, g, cur, Hnd |- *; intros Hgood Hrows.
  { intros [= <- <- <-]. split; [done|by left]. }
  cbn [foldl]. cbn [fmap list_fmap fst] in Hnd. apply NoDup_cons in Hnd as [Hv Hnd].
  destruct (reconcile_row now R (Ok (s, g, cur)) (v, r)) as [[[s1 g1] c1]|e] eqn:H1; [|by rewrite reconcile_raised].
  destruct (Hrows v r ltac:(by left)) as [Hr Hg].
  destruct (reconcile_row_wf _ _ _ _ _ _ _ _ _ _ Hgood Hr Hg H1) as (Hgood1 & Ha1 & Hframe).
  intros Hrest. destruct (IH s1 g1 c1 Hnd Hgood1) as [Hgood' Ha']; [|done|split; [done|by eapply advances_trans]].
  intros w q Hin. rewrite Hframe.
  - apply Hrows. by right.
  - intros ->. apply Hv, list_elem_of_fmap. by exists (v, q).
Qed.

Lemma lock_good R now s s' g cur :
  cursor_wf R s → _lock_cursor now s = (s', (g, cur)) → good R g cur s' ∧ latch s' = latch s ∧ jobs s' = jobs s ∧
  (∀ c, cursor s = Some c → g = c_generation c ∧ cur = c_version c).
Proof.
  unfold cursor_wf, _lock_cursor, good, tied. destruct (cursor s) as [c|] eqn:Hc.
  - intros Hwf [= <- <- <-]. rewrite Hc. split_and!; try done. by intros ? [= <-].
  - intros [H1 H2 H3 H4] [= <- <- <-]. split_and!; try done. 
Qed.

Lemma reconcile_good R now s s' g cur :
  cursor_wf R s → _reconcile_legacy now R s = Ok (s', g, cur) →
  good R g cur s' ∧ ∀ c, cursor s = Some c → advances (c_generation c) (c_version c) g cur.
Proof.
  unfold _reconcile_legacy. intros Hwf. destruct (_lock_cursor now s) as [s0 [g0 cur0]] eqn:Hl.
  destruct (lock_good _ _ _ _ _ _ Hwf Hl) as (Hgood & Hlatch & _ & Hcur). intros Hrows.
  destruct (reconcile_rows_wf R now _ _ _ _ _ _ _ (unordered_rows_NoDup _) Hgood
    ltac:(intros v r Hin; by apply unordered_rows_spec) Hrows) as [Hg Ha].
  split; [done|]. intros c Hc. by destruct (Hcur c Hc) as [-> ->].
Qed.

Lemma good_cursor_wf R g cur s : good R g cur s → cursor_wf R s.
Proof.
  intros [Hwf [Hg Hc]]. unfold cursor_wf. destruct (cursor s) as [c|]; [|done]. simpl in *. by simplify_eq.
Qed.

(** ** Each transaction preserves the invariant *)

Lemma digits_strip v : version_shape v = true → py_strip v = v.
Proof.
  unfold version_shape. intros [Hd _]%andb_true_iff. apply py_strip_plain.
  assert (string_forall is_digit v = true) as Hv by (by destruct v).
  eapply string_forall_impl; [|exact Hv]. intros c Hc. unfold is_plain. by rewrite Hc.
Qed.

Lemma ordered_text_ok s v : ordered_text s = Ok v → version_shape v = true ∧ version_date v = true ∧ v = py_strip s.
Proof.
  unfold ordered_text. destruct (_ && _) eqn:E; [|done]. intros [= <-].
  by apply andb_true_iff in E as [-> ->].
Qed.

Definition cursor_advances (s s' : durable) : Prop :=
  ∀ c, cursor s = Some c → ∃ c', cursor s' = Some c' ∧
    advances (c_generation c) (c_version c) (c_generation c') (c_version c').

Lemma good_advances R s g cur s' :
  good R g cur s' → (∀ c, cursor s = Some c → advances (c_generation c) (c_version c) g cur) → cursor_advances s s'.
Proof.
  intros [_ [Hg Hc]] Ha c Hs. destruct (cursor s') as [c'|]; [|done]. simpl in *. simplify_eq.
  exists c'. split; [done|]. by apply Ha.
Qed.

Lemma signal_latch_fields now d accepted old :
  let r' := signal_latch now d accepted old in
  refreshed_at r' = match old with Some r => refreshed_at r | None => None end ∧
  Latch.generation r' = match old with Some r => match Latch.generation r with Some g => Some g | None => accepted end
                        | None => accepted end.
Proof. by destruct old. Qed.

Lemma has_all_spec R S : has_all R S = true ↔ ∀ d, d ∈ R → d ∈ S.
Proof.
  unfold has_all. rewrite forallb_forall. setoid_rewrite <-list_elem_of_In.
  by setoid_rewrite bool_decide_eq_true.
Qed.

Lemma signal_latch_signals now d accepted old : d ∈ signals (signal_latch now d accepted old).
Proof. unfold signal_latch. destruct old; simpl; set_solver. Qed.

(** A signal of an older version is recorded without a generation of its own. *)
Lemma old_signal_good R now d v c g s :
  good R g (Some c) s → py_strip v = v → text_lt v c = true →
  good R g (Some c) (set_latch (<[key v := signal_latch now d None (latch s !! key v)]> (latch s)) s).
Proof.
  intros [Hwf Ht] Hv Hold. split; [|done].
  destruct (signal_latch_fields now d None (latch s !! key v)) as [Hf Hg]. apply put_row_wf; [done..| | |].
  - intros n Hn. rewrite Hg in Hn. destruct (latch s !! key v) as [r|] eqn:Hr; [|done].
    destruct (Latch.generation r) as [m|] eqn:Hm; [|done]. simplify_eq. by apply (wf_rows _ _ _ _ Hwf _ _ Hr).
  - intros j Hj. destruct (jw_latch _ _ _ _ _ (wf_jobs _ _ _ _ Hwf _ _ Hj)) as (r & Hr & Hrg & Hrc).
    rewrite Hg, Hf, Hr, Hrg. done.
  - intros [= ->]. by rewrite text_lt_irrefl in Hold.
Qed.

(** A signal of the current version has the current generation, and its job when it completes
    the extraction. *)
Lemma current_signal_good R now d v g s :
  good R g (Some v) s → py_strip v = v →
  let r := signal_latch now d (Some g) (latch s !! key v) in
  let s1 := set_latch (<[key v := r]> (latch s)) s in
  Latch.generation r = Some g ∧
  good R g (Some v) (if bool_decide (refreshed_at r = None) && has_all R (signals r) then _upsert_job now v g s1 else s1).
Proof.
  intros [Hwf Ht] Hv r s1. destruct (signal_latch_fields now d (Some g) (latch s !! key v)) as [Hf Hg]. fold r in Hf, Hg.
  assert (Latch.generation r = Some g) as Hg1.
  { rewrite Hg. destruct (latch s !! key v) as [q|] eqn:Hq; [|done].
    destruct (Latch.generation q) as [m|] eqn:Hm; [|done].
    destruct (wf_rows _ _ _ _ Hwf _ _ Hq m Hm) as [[_ ->]|(c & [= <-] & Hlt & _)]; [done|].
    by rewrite text_lt_irrefl in Hlt. }
  split; [done|]. split.
  - apply put_current_wf; [done..|]. intros q n Hq Hn. by rewrite Hf, Hq.
  - destruct (_ && _); [|done]. unfold tied. by rewrite (proj2 (upsert_job_latch _ _ _ _)).
Qed.

(** What a committed signal leaves, and answers. *)
Definition signal_outcome (R : list string) (d v : string) (s' : durable) (sig : DurableSignal) : Prop :=
  ∃ g cur r, good R g cur s' ∧ latch s' !! key v = Some r ∧ d ∈ signals r ∧
    d_version sig = v ∧ d_signals sig = signals r ∧ d_generation sig = Latch.generation r ∧
    (d_already_refreshed sig = true ↔ refreshed_at r ≠ None) ∧
    (d_superseded sig = true ↔ ∃ c, cur = Some c ∧ text_lt v c = true) ∧
    (d_superseded sig = false → cur = Some v ∧ Latch.generation r = Some g) ∧
    (d_scheduled sig = true ↔ d_superseded sig = false ∧ complete_row R r) ∧
    (d_scheduled sig = true → ∃ j, jobs s' !! v = Some j ∧ active j = true).

Lemma signal_old_outcome R now d v c g s :
  good R g (Some c) s → py_strip v = v → text_lt v c = true →
  let r := signal_latch now d None (latch s !! key v) in
  signal_outcome R d v (set_latch (<[key v := r]> (latch s)) s)
    {| d_version := v; d_generation := Latch.generation r; d_signals := signals r; d_scheduled := false;
       d_superseded := true; d_already_refreshed := negb (bool_decide (refreshed_at r = None)) |}.
Proof.
  intros Hgood Hv Hold r. exists g, (Some c), r. cbn [d_version d_generation d_signals d_scheduled d_superseded d_already_refreshed].
  split_and!; try done; [by apply old_signal_good|by apply lookup_insert_eq|apply signal_latch_signals| | |naive_solver].
  - by rewrite negb_true_iff, bool_decide_eq_false.
  - split; [|done]. intros _. by exists c.
Qed.

Lemma signal_current_outcome R now d v g s :
  good R g (Some v) s → py_strip v = v →
  let r := signal_latch now d (Some g) (latch s !! key v) in
  let s1 := set_latch (<[key v := r]> (latch s)) s in
  let complete := bool_decide (refreshed_at r = None) && has_all R (signals r) in
  signal_outcome R d v (if complete then _upsert_job now v g s1 else s1)
    {| d_version := v; d_generation := Latch.generation r; d_signals := signals r; d_scheduled := complete;
       d_superseded := false; d_already_refreshed := negb (bool_decide (refreshed_at r = None)) |}.
Proof.
  intros Hgood Hv r s1 complete. destruct (current_signal_good R now d v g s Hgood Hv) as [Hg Hgood'].
  fold r s1 complete in Hg, Hgood'.
  assert (complete = true ↔ complete_row R r) as Hc.
  { unfold complete, complete_row. rewrite andb_true_iff, bool_decide_eq_true, has_all_spec. tauto. }
  set (s' := if complete then _ else _) in *.
  assert (latch s' !! key v = Some r) as Hr.
  { unfold s'. destruct complete; rewrite ?(proj1 (upsert_job_latch _ _ _ _)); by apply lookup_insert_eq. }
  exists g, (Some v), r. cbn [d_version d_generation d_signals d_scheduled d_superseded d_already_refreshed].
  split_and!; try done; [apply signal_latch_signals| | |tauto|].
  - by rewrite negb_true_iff, bool_decide_eq_false.
  - split; [done|]. intros (c & [= <-] & Hlt). by rewrite text_lt_irrefl in Hlt.
  - intros ?%Hc. by apply (wf_obligation _ _ _ _ (proj1 Hgood') v r).
Qed.

Lemma signal_committed py R now value d s s' sig :
  cursor_wf R s → record_durable_signal py now value d R s = (s', Ok sig) →
  cursor_wf R s' ∧ cursor_advances s s' ∧ ∃ v, ordered_version py value = Ok v ∧ signal_outcome R d v s' sig.
Proof.
  intros Hcwf Hrec.
  assert (∃ v g cur, ordered_version py value = Ok v ∧ good R g cur s' ∧ signal_outcome R d v s' sig ∧
    ∀ c, cursor s = Some c → advances (c_generation c) (c_version c) g cur) as (v & g & cur & Hv & Hgood & Ho & Ha).
  2: { split_and!; [by eapply good_cursor_wf|by eapply good_advances|by exists v]. }
  revert Hrec. unfold record_durable_signal. destruct (ordered_version py value) as [v|] eqn:Hv; [|done].
  apply ordered_text_ok in Hv as (Hshape & _ & _). apply digits_strip in Hshape.
  destruct (negb _); [done|]. unfold committed.
  destruct (_reconcile_legacy now R s) as [[[s0 g0] cur0]|] eqn:Hrec; [|done]. cbn [bind].
  destruct (reconcile_good _ _ _ _ _ _ Hcwf Hrec) as [Hgood0 Ha0].
  destruct (match cur0 with Some c => text_lt v c | None => false end) eqn:Hold.
  - destruct cur0 as [c|]; [|done].
    assert (text_lt c v = false) as -> by (destruct (text_lt c v) eqn:H1; [|done];
      pose proof (text_lt_trans _ _ _ Hold H1) as Hb; by rewrite text_lt_irrefl in Hb).
    cbn [negb andb]. intros [= <- <-]. exists v, g0, (Some c).
    split_and!; [done|by apply old_signal_good|by eapply signal_old_outcome|done].
  - destruct (if match cur0 with Some c => text_lt c v | None => true end
      then (_advance_cursor now (g0 + 1) v s0, g0 + 1) else (s0, g0)) as [s1 g1] eqn:Hadv.
    destruct (advance_or_stay R now g0 cur0 v s0 s1 g1 Hgood0 ltac:(by intros c ->) Hadv) as (Hgood1 & Ha1 & _).
    pose proof (current_signal_good R now d v g1 s1 Hgood1 Hshape) as [Hg1 Hgood'].
    pose proof (signal_current_outcome R now d v g1 s1 Hgood1 Hshape) as Ho. cbv zeta in Hg1, Hgood', Ho |- *.
    rewrite Hg1 in *. rewrite (bool_decide_eq_false_2 (Some g1 ≠ Some g1)) by (intros Hn; by apply Hn).
    cbn [negb andb]. rewrite negb_involutive in *.
    destruct (bool_decide _ && has_all R _); intros [= <- <-]; exists v, g1, (Some v);
      (split_and!; [done..|]); intros c Hcc; (eapply advances_trans; [by apply Ha0|done]).
Qed.

(** ** Refusals *)

(** A row without a generation stops the transaction when its version cannot be ordered,
    unless it owes no work. *)
Definition row_ordered (row : string * latch_row) : Prop :=
  (refreshed_at row.2 ≠ None ∧ version_shape row.1 = false) ∨ ∃ v, ordered_text row.1 = Ok v.

Lemma reconcile_row_ok now R acc row :
  match reconcile_row now R (Ok acc) row with
  | Ok _ => row_ordered row
  | Raise e => e = ValueError ∧ ¬ row_ordered row
  end.
Proof.
  destruct acc as [[s g] cur], row as [v r]. unfold reconcile_row, row_ordered. cbn [bind fst snd].
  assert (ordered_text v = Raise ValueError ∨ ∃ w, ordered_text v = Ok w) as Hv.
  { unfold ordered_text. destruct (_ && _); [right; by eexists|by left]. }
  destruct (negb (bool_decide (refreshed_at r = None)) && negb (version_shape v)) eqn:Hskip.
  { left. by rewrite andb_true_iff, !negb_true_iff, bool_decide_eq_false in Hskip. }
  destruct Hv as [Hv|[w Hv]]; rewrite Hv; cbn [bind].
  - split; [done|]. intros [[Hr Hs]|[w Hw]]; [|done].
    by rewrite Hs, (bool_decide_eq_false_2 (refreshed_at r = None)) in Hskip.
  - destruct (match cur with Some c => text_lt w c | None => false end); [right; by exists w|].
    destruct (if match cur with Some c => text_lt c w | None => true end then _ else _) as [[??]?].
    right. by exists w.
Qed.

Lemma reconcile_rows_ok now R rows acc :
  match foldl (reconcile_row now R) (Ok acc) rows with
  | Ok _ => Forall row_ordered rows
  | Raise e => e = ValueError ∧ ¬ Forall row_ordered rows
  end.
Proof.
  induction rows as [|row rows IH] in acc |- *; cbn [foldl]; [done|].
  pose proof (reconcile_row_ok now R acc row) as H1. destruct (reconcile_row now R (Ok acc) row) as [acc1|e].
  - specialize (IH acc1). destruct (foldl _ _ _); [by constructor|]. destruct IH as [-> IH].
    split; [done|]. by intros [_ ?]%Forall_cons.
  - rewrite reconcile_raised. destruct H1 as [-> H1]. split; [done|]. by intros [? _]%Forall_cons.
Qed.

Definition legacy_ordered (t : latch_table) : Prop :=
  ∀ v r, t !! key v = Some r → Latch.generation r = None → row_ordered (v, r).

Lemma reconcile_ok now R s :
  match _reconcile_legacy now R s with
  | Ok _ => legacy_ordered (latch s)
  | Raise e => e = ValueError ∧ ¬ legacy_ordered (latch s)
  end.
Proof.
  unfold _reconcile_legacy.
  assert (∃ s0 gc, _lock_cursor now s = (s0, gc) ∧ latch s0 = latch s) as (s0 & [g cur] & -> & Hl).
  { unfold _lock_cursor. destruct (cursor s); eauto. }
  pose proof (reconcile_rows_ok now R (unordered_rows (latch s0)) (s0, g, cur)) as Hrows. rewrite Hl in *.
  assert (Forall row_ordered (unordered_rows (latch s)) ↔ legacy_ordered (latch s)) as Hiff.
  { rewrite Forall_forall. split.
    - intros Hall v r Hr Hg. apply Hall. by apply unordered_rows_spec.
    - intros Hall [v r] [Hr Hg]%unordered_rows_spec. by apply Hall. }
  destruct (foldl _ _ _); rewrite Hiff in Hrows; done.
Qed.

(** ** Jobs only move forward *)

Definition evolves (s s' : durable) : Prop :=
  ∀ v j, jobs s !! v = Some j → ∃ j', jobs s' !! v = Some j' ∧ j_generation j' = j_generation j ∧
    j_epoch j <= j_epoch j' ∧ (active j = false → j' = j).

Lemma evolves_refl s : evolves s s.
Proof. intros v j Hj. exists j. split_and!; [done..|lia|done]. Qed.

Lemma evolves_trans s1 s2 s3 : evolves s1 s2 → evolves s2 s3 → evolves s1 s3.
Proof.
  intros H12 H23 v j Hj. destruct (H12 _ _ Hj) as (j2 & Hj2 & Hg2 & He2 & Hi2).
  destruct (H23 _ _ Hj2) as (j3 & Hj3 & Hg3 & He3 & Hi3). exists j3. split_and!; [done|lia|lia|].
  intros Ha. specialize (Hi2 Ha). subst j2. auto.
Qed.

Lemma evolves_same_jobs s s' : jobs s' = jobs s → evolves s s'.
Proof. intros Hj v j Hv. exists j. rewrite Hj. split_and!; [done..|lia|done]. Qed.

Lemma evolves_at v f s :
  (∀ j, jobs s !! v = Some j → active j = true → j_generation (f j) = j_generation j ∧ j_epoch j <= j_epoch (f j)) →
  (∀ j, jobs s !! v = Some j → active j = true) →
  evolves s (set_jobs (alter f v (jobs s)) s).
Proof.
  intros Hf Ha w j Hj. cbn [jobs set_jobs]. destruct (decide (w = v)) as [->|Hne].
  - rewrite lookup_alter_eq, Hj. exists (f j). destruct (Hf _ Hj (Ha _ Hj)). split_and!; [done..|].
    intros Hi. by rewrite (Ha _ Hj) in Hi.
  - rewrite lookup_alter_ne by done. exists j. split_and!; [done..|lia|done].
Qed.

Lemma advance_evolves now g v s : evolves s (_advance_cursor now g v s).
Proof.
  intros w j Hj. cbn [jobs _advance_cursor]. rewrite lookup_fmap, Hj. simpl. eexists. split; [done|].
  destruct ((j_generation j <? g) && active j) eqn:E; simpl; split_and!; try done; try lia.
  intros Ha. by rewrite Ha, andb_false_r in E.
Qed.

Lemma upsert_evolves now v g s : evolves s (_upsert_job now v g s).
Proof.
  unfold _upsert_job. destruct (jobs s !! v) as [j0|] eqn:Hv; [apply evolves_refl|].
  intros w j Hj. cbn [jobs set_jobs]. exists j. rewrite lookup_insert_ne by congruence. split_and!; [done..|lia|done].
Qed.

Lemma lock_evolves now s s' gc : _lock_cursor now s = (s', gc) → evolves s s' ∧ jobs s' = jobs s ∧ latch s' = latch s.
Proof.
  unfold _lock_cursor. destruct (cursor s); intros [= <- <-]; split_and!; try done; [apply evolves_refl|].
  by apply evolves_same_jobs.
Qed.

Lemma reconcile_row_evolves now R s g cur row s' g' cur' :
  reconcile_row now R (Ok (s, g, cur)) row = Ok (s', g', cur') → evolves s s'.
Proof.
  unfold reconcile_row. cbn [bind]. destruct row as [v r]. destruct (_ && _).
  { intros [= <- _ _]. apply evolves_refl. }
  destruct (ordered_text v) as [w|]; [|done]. cbn [bind].
  destruct (match cur with Some c => text_lt w c | None => false end); [intros [= <- _ _]; apply evolves_refl|].
  destruct (match cur with Some c => text_lt c w | None => true end); intros [= <- _ _];
    destruct (bool_decide _ && has_all R _);
    repeat first
      [ apply evolves_same_jobs; done
      | eapply evolves_trans; [|apply upsert_evolves]
      | eapply evolves_trans; [apply advance_evolves|] ].
Qed.

Lemma reconcile_rows_evolve now R rows s g cur s' g' cur' :
  foldl (reconcile_row now R) (Ok (s, g, cur)) rows = Ok (s', g', cur') → evolves s s'.
Proof.
  induction rows as [|row rows IH] in s, g, cur |- *; cbn [foldl].
  { intros [= <- _ _]. apply evolves_refl. }
  destruct (reconcile_row now R (Ok (s, g, cur)) row) as [[[s1 g1] c1]|e] eqn:H1; [|by rewrite reconcile_raised].
  intros Hr. eapply evolves_trans; [by eapply reconcile_row_evolves|by eapply IH].
Qed.

Lemma reconcile_evolves now R s s' g cur : _reconcile_legacy now R s = Ok (s', g, cur) → evolves s s'.
Proof.
  unfold _reconcile_legacy. destruct (_lock_cursor now s) as [s0 [g0 cur0]] eqn:Hl.
  destruct (lock_evolves _ _ _ _ Hl) as (H0 & _). intros Hrows. eapply evolves_trans; [exact H0|].
  by eapply reconcile_rows_evolve.
Qed.

Lemma signal_evolves py R now value d s s' sig :
  record_durable_signal py now value d R s = (s', Ok sig) → evolves s s'.
Proof.
  unfold record_durable_signal. destruct (ordered_version py value) as [v|]; [|done].
  destruct (negb _); [done|]. unfold committed.
  destruct (_reconcile_legacy now R s) as [[[s0 g0] cur0]|] eqn:Hrec; [|done]. cbn [bind].
  apply reconcile_evolves in Hrec.
  assert (∀ s1 g1, (if match cur0 with Some c => text_lt c v | None => true end
      then (_advance_cursor now (g0 + 1) v s0, g0 + 1) else (s0, g0)) = (s1, g1) → evolves s s1) as Hadv.
  { intros s1 g1. destruct (match cur0 with Some c => text_lt c v | None => true end); intros [= <- _]; [|done].
    eapply evolves_trans; [done|apply advance_evolves]. }
  destruct (if match cur0 with Some c => text_lt c v | None => true end
      then (_advance_cursor now (g0 + 1) v s0, g0 + 1) else (s0, g0)) as [s1 g1] eqn:E.
  specialize (Hadv _ _ eq_refl). cbv zeta. destruct (_ && _ && _).
  - destruct (bool_decide _); [done|]. intros [= <- _]. eapply evolves_trans; [exact Hadv|].
    eapply evolves_trans; [|apply upsert_evolves]. by apply evolves_same_jobs.
  - intros [= <- _]. eapply evolves_trans; [exact Hadv|]. by apply evolves_same_jobs.
Qed.

(** ** Claims *)

Lemma due_active now j : due now j = true → active j = true.
Proof. unfold due, active. by destruct (j_state j). Qed.

(** What a claim may do: nothing but take the lock, or change one due job, which is at the
    current generation. *)
Lemma claim_cases R now owner token s s' oc :
  cursor_wf R s → claim_due_job now owner token s = (s', oc) →
  ∃ s0 g cur, good R g cur s0 ∧ evolves s s0 ∧ jobs s0 = jobs s ∧ latch s0 = latch s ∧
    (∀ c, cursor s = Some c → g = c_generation c ∧ cur = c_version c) ∧
    ((s' = s0 ∧ oc = None) ∨
     ∃ v j, jobs s0 !! v = Some j ∧ due now j = true ∧ j_generation j = g ∧ cur = Some v ∧
       (∀ w k, jobs s0 !! w = Some k → live_lease now k = false) ∧
       ((j_state j = Leased ∧ oc = None ∧
           s' = set_jobs (alter (retry_later now (backoff (j_attempts j)) "lease_expired") v (jobs s0)) s0) ∨
        (j_state j ≠ Leased ∧
           oc = Some {| k_version := v; k_generation := g; k_token := token; k_epoch := j_epoch j + 1;
                        k_attempts := j_attempts j + 1 |} ∧
           s' = set_jobs (alter (lease now owner token) v (jobs s0)) s0))).
Proof.
  intros Hcwf. unfold claim_due_job. destruct (_lock_cursor now s) as [s0 [g cur]] eqn:Hl.
  destruct (lock_good _ _ _ _ _ _ Hcwf Hl) as (Hgood & _ & _ & Hcur).
  destruct (lock_evolves _ _ _ _ Hl) as (He & Hj & Hlt).
  destruct (existsb _ _) eqn:Hlive.
  { intros [= <- <-]. exists s0, g, cur. split_and!; try done. by left. }
  destruct (sort_by _ _) as [|[v j] rest] eqn:Hsort.
  { intros [= <- <-]. exists s0, g, cur. split_and!; try done. by left. }
  assert ((v, j) ∈ sort_by claim_order (filter (λ vj, due now vj.2) (map_to_list (jobs s0)))) as Hin
    by (rewrite Hsort; by left).
  apply elem_of_sort_by, list_elem_of_filter in Hin as [Hdue Hin%elem_of_map_to_list].
  apply Is_true_true in Hdue. simpl in Hdue.
  pose proof (wf_jobs _ _ _ _ (proj1 Hgood) _ _ Hin) as Hjw.
  destruct (jw_active _ _ _ _ _ Hjw (due_active _ _ Hdue)) as [Hg Hv].
  rewrite (proj2 (Z.eqb_eq _ _) Hg). cbn [negb].
  assert (∀ w k, jobs s0 !! w = Some k → live_lease now k = false) as Hnone.
  { intros w k Hk. destruct (live_lease now k) eqn:E; [|done].
    assert (existsb (λ '(_, j), live_lease now j) (map_to_list (jobs s0)) = true); [|congruence].
    apply existsb_exists. exists (w, k). split; [|done]. by apply list_elem_of_In, elem_of_map_to_list. }
  case_bool_decide as Hst; intros [= <- <-]; exists s0, g, cur; (split_and!; [done..|]); right; exists v, j.
  - split_and!; [done..|]. by left.
  - split_and!; [done..|]. right. by rewrite Hg.
Qed.

(** ** One job's row *)

(** A change of one active job that keeps its generation and its obligation. *)
Lemma alter_job_wf R g cur v f j s :
  wf R g cur s → jobs s !! v = Some j → active j = true → active (f j) = true →
  j_generation (f j) = j_generation j →
  ((j_state (f j) = Pending ∨ j_state (f j) = Retry) → is_Some (j_next (f j))) →
  (j_state (f j) = Leased → is_Some (j_token (f j)) ∧ is_Some (j_expires (f j))) →
  wf R g cur (set_jobs (alter f v (jobs s)) s).
Proof.
  intros [Hjobs Hrows Hkeys Hob] Hj Ha Hfa Hfg Hd Hl. constructor; cbn [jobs latch set_jobs]; [|done..|].
  - intros w k Hk. destruct (decide (w = v)) as [->|Hne].
    + rewrite lookup_alter_eq, Hj in Hk. simpl in Hk. simplify_eq.
      destruct (Hjobs _ _ Hj) as [Hb (r & Hr & Hrg & _ & Hnone) Hact _ _ _]. constructor; rewrite ?Hfg; try done.
      * exists r. split_and!; [done..| |]; [|by auto]. intros Hc. unfold active in Hfa. by rewrite Hc in Hfa.
      * intros _. by apply Hact.
      * intros Hc. unfold active in Hfa. by rewrite Hc in Hfa.
    + rewrite lookup_alter_ne in Hk by done. by apply Hjobs.
  - intros w r Hw Hr Hg Hc. destruct (Hob w r Hw Hr Hg Hc) as (k & Hk & Hka).
    destruct (decide (w = v)) as [->|Hne].
    + exists (f j). rewrite lookup_alter_eq, Hj. done.
    + exists k. by rewrite lookup_alter_ne.
Qed.

Lemma holds_active c j : holds c j = true → active j = true ∧ j_state j = Leased.
Proof.
  unfold holds, active. rewrite !andb_true_iff. intros [[H1%bool_decide_eq_true _] _]. by rewrite H1.
Qed.

Lemma set_jobs_tied g cur js s : tied g cur s → tied g cur (set_jobs js s).
Proof. done. Qed.

Lemma cursor_advances_refl s : cursor_advances s s.
Proof. intros c Hc. exists c. split; [done|by left]. Qed.

Lemma same_cursor_advances s s' : cursor s' = cursor s → cursor_advances s s'.
Proof. intros Hs c Hc. exists c. split; [congruence|by left]. Qed.

Lemma cursor_advances_trans s1 s2 s3 : cursor_advances s1 s2 → cursor_advances s2 s3 → cursor_advances s1 s3.
Proof.
  intros H12 H23 c Hc. destruct (H12 _ Hc) as (c2 & Hc2 & Ha2). destruct (H23 _ Hc2) as (c3 & Hc3 & Ha3).
  exists c3. split; [done|]. by eapply advances_trans.
Qed.

(** What every transaction keeps. *)
Definition keeps (R : list string) (s s' : durable) : Prop :=
  cursor_wf R s' ∧ cursor_advances s s' ∧ evolves s s'.

Lemma keeps_refl R s : cursor_wf R s → keeps R s s.
Proof. intros Hs. split_and!; [done|apply cursor_advances_refl|apply evolves_refl]. Qed.

Lemma keeps_trans R s1 s2 s3 : keeps R s1 s2 → keeps R s2 s3 → keeps R s1 s3.
Proof.
  intros (H1 & Ha1 & He1) (H2 & Ha2 & He2). split_and!; [done|by eapply cursor_advances_trans|by eapply evolves_trans].
Qed.

Lemma signal_keeps py R now value d s s' res :
  cursor_wf R s → record_durable_signal py now value d R s = (s', res) → keeps R s s'.
Proof.
  intros Hs Hrec. destruct res as [sig|e].
  - destruct (signal_committed _ _ _ _ _ _ _ _ Hs Hrec) as (Hs' & Ha & _).
    split_and!; [done..|]. by eapply signal_evolves.
  - assert (s' = s) as ->; [|by apply keeps_refl]. revert Hrec. unfold record_durable_signal, committed.
    destruct (ordered_version py value); [|by intros [= <- _]].
    destruct (negb _); [by intros [= <- _]|].
    destruct (_reconcile_legacy now R s) as [[[s0 g0] cur0]|]; [|by intros [= <- _]]. cbn [bind].
    destruct (if match cur0 with Some c => text_lt c a | None => true end
      then (_advance_cursor now (g0 + 1) a s0, g0 + 1) else (s0, g0)) as [s1 g1]. cbv zeta.
    destruct (_ && _ && _); [|done]. by case_bool_decide; [intros [= <- _]|].
Qed.

Lemma reconcile_keeps R now s s' res :
  cursor_wf R s → reconcile_legacy_latches now R s = (s', res) → keeps R s s'.
Proof.
  intros Hs. unfold reconcile_legacy_latches, committed.
  destruct (_reconcile_legacy now R s) as [[[s0 g] cur]|] eqn:Hrec; cbn [bind];
    intros [= <- _]; [|by apply keeps_refl].
  destruct (reconcile_good _ _ _ _ _ _ Hs Hrec) as [Hgood Ha].
  split_and!; [by eapply good_cursor_wf|by eapply good_advances|by eapply reconcile_evolves].
Qed.

Lemma claim_keeps R now owner token s s' oc :
  cursor_wf R s → claim_due_job now owner token s = (s', oc) → keeps R s s'.
Proof.
  intros Hs Hc. destruct (claim_cases _ _ _ _ _ _ _ Hs Hc) as (s0 & g & cur & [Hwf Ht] & He & _ & _ & Hcur & Hcase).
  assert (∀ x, good R g cur x → cursor_advances s x) as Hadv.
  { intros x Hx. eapply good_advances; [done|]. intros c Hcc. destruct (Hcur _ Hcc) as [-> ->]. by left. }
  destruct Hcase as [[-> _]|(v & j & Hj & Hdue & Hg & Hv & _ & [(Hl & _ & ->)|(Hl & _ & ->)])].
  - split_and!; [by eapply good_cursor_wf|by apply Hadv|done].
  - assert (good R g cur (set_jobs (alter (retry_later now (backoff (j_attempts j)) "lease_expired") v (jobs s0)) s0)) as Hgood.
    { split; [|done]. eapply alter_job_wf; [done|done|by eapply due_active|done|done|eauto|done]. }
    split_and!; [by eapply good_cursor_wf|by apply Hadv|]. eapply evolves_trans; [done|].
    apply evolves_at; [done|]. intros k Hk. simplify_eq. by apply due_active in Hdue.
  - assert (good R g cur (set_jobs (alter (lease now owner token) v (jobs s0)) s0)) as Hgood.
    { split; [|done]. eapply alter_job_wf; [done|done|by eapply due_active|done|done|by intros [?|?]|eauto]. }
    split_and!; [by eapply good_cursor_wf|by apply Hadv|]. eapply evolves_trans; [done|].
    apply evolves_at; [|intros k Hk; simplify_eq; by apply due_active in Hdue].
    intros k Hk _. simpl. split; [done|lia].
Qed.

Lemma insert_alter_job (f : job → job) v j (js : gmap string job) : js !! v = Some j → <[v := f j]> js = alter f v js.
Proof.
  intros Hj. apply map_eq. intros k. destruct (decide (k = v)) as [->|Hne].
  - by rewrite lookup_alter_eq, lookup_insert_eq, Hj.
  - by rewrite lookup_alter_ne, lookup_insert_ne.
Qed.

Lemma wf_tied R s : cursor_wf R s → ∃ g cur, wf R g cur s ∧
  (cursor s = None ∧ g = initial_generation ∧ cur = None ∨ tied g cur s).
Proof.
  unfold cursor_wf, tied. destruct (cursor s) as [c|]; intros Hs; eexists _, _; (split; [exact Hs|]); [by right|by left].
Qed.

Lemma same_cursor_wf R g cur s s' :
  cursor s' = cursor s → (cursor s = None ∧ g = initial_generation ∧ cur = None ∨ tied g cur s) →
  wf R g cur s' → cursor_wf R s'.
Proof.
  unfold cursor_wf, tied. intros ->. destruct (cursor s) as [c|]; [|naive_solver].
  intros [[? _]|[Hg Hc]]; [done|]. simpl in *. by simplify_eq.
Qed.

Lemma heartbeat_keeps R now c s s' lost :
  cursor_wf R s → heartbeat now c s = (s', lost) → keeps R s s'.
Proof.
  intros Hs. unfold heartbeat. destruct (jobs s !! k_version c) as [j|] eqn:Hj;
    [|by intros [= <- _]; apply keeps_refl].
  destruct (holds c j && _) eqn:Hh; intros [= <- _]; [|by apply keeps_refl].
  apply andb_true_iff in Hh as [[Ha Hl]%holds_active _]. rewrite (insert_alter_job _ _ j) by done.
  destruct (wf_tied _ _ Hs) as (g & cur & Hwf & Ht). split_and!.
  - eapply same_cursor_wf; [|exact Ht|]; [done|]. eapply alter_job_wf; try done.
    + simpl. rewrite Hl. by intros [?|?].
    + intros _. split; [|eauto]. by apply (jw_leased _ _ _ _ _ (wf_jobs _ _ _ _ Hwf _ _ Hj)).
  - by apply same_cursor_advances.
  - apply evolves_at; [by simpl; split; [|lia]|]. intros k Hk. by simplify_eq.
Qed.

(** The state a commit leaves, when it passes every fence. *)
Lemma commit_cases now clock c s s' :
  _before_commit now clock c s = Ok s' →
  ∃ r j, cursor_is c s = true ∧ latch s !! key (k_version c) = Some r ∧ stampable c r = true ∧
    jobs s !! k_version c = Some j ∧ holds c j = true ∧ j_generation j = k_generation c ∧
    (∃ e, j_expires j = Some e ∧ clock < e) ∧
    s' = set_jobs (alter (complete now) (k_version c) (jobs s))
           (set_latch (<[key (k_version c) := stamp now r]> (latch s)) s).
Proof.
  unfold _before_commit, _owns_lease. destruct (cursor_is c s); [|done]. simpl.
  destruct (jobs s !! k_version c) as [j|] eqn:Hj; [|done].
  destruct (holds c j) eqn:Hh; [|done]. simpl. destruct (j_expires j) as [e|] eqn:He; [|done].
  destruct (clock <? e) eqn:Hlt; [|done]. simpl. destruct (latch s !! key (k_version c)) as [r|] eqn:Hr; [|done].
  destruct (stampable c r) eqn:Hst; [|done].
  destruct (j_generation j =? k_generation c) eqn:Hg; [|done]. simpl.
  destruct (_ && _) eqn:Hte; [|done]. intros [= <-]. exists r, j. cbn [jobs set_latch].
  rewrite <-(insert_alter_job _ _ j) by done. split_and!; try done; [lia|]. exists e. split; [done|lia].
Qed.

Lemma commit_keeps R now clock c s s' :
  cursor_wf R s → _before_commit now clock c s = Ok s' → keeps R s s'.
Proof.
  intros Hs Hc. destruct (commit_cases _ _ _ _ _ Hc) as (r & j & _ & Hr & Hst & Hj & Hh & Hg & _ & ->).
  destruct (holds_active _ _ Hh) as [Ha _]. unfold stampable in Hst. apply andb_true_iff in Hst as [Hrg _].
  apply bool_decide_eq_true in Hrg. destruct (wf_tied _ _ Hs) as (g & cur & [Hjobs Hrows Hkeys Hob] & Ht).
  split_and!; [eapply same_cursor_wf; [|exact Ht|]; [done|]|by apply same_cursor_advances|].
  - constructor; cbn [jobs latch set_jobs set_latch].
    + intros w k Hk. destruct (decide (w = k_version c)) as [->|Hne].
      * rewrite lookup_alter_eq, Hj in Hk. simpl in Hk. simplify_eq.
        destruct (Hjobs _ _ Hj) as [Hb _ _ _ _ _]. constructor; simpl; try done; [|by intros [?|?]].
        exists (stamp now r). rewrite lookup_insert_eq. split_and!; [done|simpl; congruence|done|done].
      * rewrite lookup_alter_ne in Hk by done. destruct (Hjobs _ _ Hk) as [Hb Hl Hact Hsup Hd Hle].
        constructor; try done. by rewrite lookup_insert_ne by (intros ?%key_inj; done).
    + intros w q Hq. destruct (decide (w = k_version c)) as [->|Hne].
      * rewrite lookup_insert_eq in Hq. simplify_eq. exact (Hrows _ _ Hr).
      * rewrite lookup_insert_ne in Hq by (intros ?%key_inj; done). by eapply Hrows.
    + intros w q Hq. destruct (decide (w = k_version c)) as [->|Hne]; [by eapply Hkeys|].
      rewrite lookup_insert_ne in Hq by (intros ?%key_inj; done). by eapply Hkeys.
    + intros w q Hw Hq Hqg [Hall Hnone]. destruct (decide (w = k_version c)) as [->|Hne].
      * rewrite lookup_insert_eq in Hq. by simplify_eq.
      * rewrite lookup_insert_ne in Hq by (intros ?%key_inj; done). rewrite lookup_alter_ne by done.
        by eapply Hob.
  - intros w k Hk. cbn [jobs set_jobs set_latch]. destruct (decide (w = k_version c)) as [->|Hne].
    + rewrite lookup_alter_eq, Hk. simpl. eexists. split; [done|]. simplify_eq. split_and!; [done|simpl; lia|].
      by rewrite Ha.
    + rewrite lookup_alter_ne by done. exists k. split_and!; [done..|lia|done].
Qed.

(** A claimant whose job still has the generation it claimed is never obsolete while it
    holds the lease. *)
Lemma held_is_current R c s j :
  cursor_wf R s → jobs s !! k_version c = Some j → holds c j = true → j_generation j = k_generation c →
  cursor_is c s = true.
Proof.
  intros Hs Hj [Ha _]%holds_active Hg. destruct (wf_tied _ _ Hs) as (g & cur & Hwf & Ht).
  destruct (jw_active _ _ _ _ _ (wf_jobs _ _ _ _ Hwf _ _ Hj) Ha) as [Hgg Hcur].
  unfold cursor_is. destruct Ht as [(_ & _ & ->)|[H1 H2]]; [done|].
  destruct (cursor s) as [cr|]; [|done]. simpl in *. simplify_eq. rewrite H2.
  by rewrite !bool_decide_eq_true_2 by congruence.
Qed.

Lemma mark_keeps R now c error s :
  cursor_wf R s → (∀ j, jobs s !! k_version c = Some j → j_generation j = k_generation c) →
  keeps R s (_mark_after_failure now c error s).
Proof.
  intros Hs Hg. unfold _mark_after_failure. destruct (jobs s !! k_version c) as [j|] eqn:Hj; [|by apply keeps_refl].
  destruct (holds c j) eqn:Hh; [|by apply keeps_refl].
  rewrite (held_is_current _ _ _ _ Hs Hj Hh (Hg _ eq_refl)).
  destruct (holds_active _ _ Hh) as [Ha _]. rewrite (insert_alter_job _ _ j) by done.
  destruct (wf_tied _ _ Hs) as (g & cur & Hwf & Ht). split_and!.
  - eapply same_cursor_wf; [|exact Ht|]; [done|]. eapply alter_job_wf; [done|done|done|done|done|eauto|done].
  - by apply same_cursor_advances.
  - apply evolves_at; [by intros k _ _; simpl; split; [|lia]|]. intros k Hk. by simplify_eq.
Qed.

(** [record_purge_veto] on the same relation. *)
Definition veto_state (now : Z) (version data_type : string) (s : durable) : durable :=
  set_latch (record_purge_veto now version data_type (latch s)) s.

Lemma veto_keeps R now v d s : cursor_wf R s → py_strip v = v → keeps R s (veto_state now v d s).
Proof.
  intros Hs Hv. destruct (wf_tied _ _ Hs) as (g & cur & Hwf & Ht).
  split_and!; [|by apply same_cursor_advances|by apply evolves_same_jobs].
  eapply same_cursor_wf; [|exact Ht|]; [done|]. unfold veto_state, record_purge_veto.
  pose proof Hwf as [Hjobs Hrows Hkeys Hob]. apply put_row_wf; [done..| | |];
    destruct (latch s !! key v) as [r|] eqn:Hr; simpl.
  - exact (Hrows _ _ Hr).
  - intros n Hn. done.
  - intros j Hj. destruct (jw_latch _ _ _ _ _ (Hjobs _ _ Hj)) as (q & Hq & Hqg & Hqc & Hqa). simplify_eq. done.
  - intros j Hj. destruct (jw_latch _ _ _ _ _ (Hjobs _ _ Hj)) as (q & Hq & _). congruence.
  - intros Hc Hg [Hall Hnone]. by eapply Hob.
  - done.
Qed.

(** ** Steps

    The transactions of any number of deliveries, scanners and workers in any order; the
    list records every claim handed out, which a worker may use late or never. *)

Inductive step (R : list string) : durable * list ClaimedJob → durable * list ClaimedJob → Prop :=
  | step_signal py now value d s s' res cs :
      record_durable_signal py now value d R s = (s', res) → step R (s, cs) (s', cs)
  | step_reconcile now s s' res cs : reconcile_legacy_latches now R s = (s', res) → step R (s, cs) (s', cs)
  | step_veto now v d s cs : py_strip v = v → step R (s, cs) (veto_state now v d s, cs)
  | step_idle now owner token s s' cs : claim_due_job now owner token s = (s', None) → step R (s, cs) (s', cs)
  | step_claim now owner token s s' c cs :
      claim_due_job now owner token s = (s', Some c) → step R (s, cs) (s', c :: cs)
  | step_heartbeat now c s s' lost cs : c ∈ cs → heartbeat now c s = (s', lost) → step R (s, cs) (s', cs)
  | step_commit now clock c s s' cs : c ∈ cs → _before_commit now clock c s = Ok s' → step R (s, cs) (s', cs)
  | step_fail now c error s cs : c ∈ cs → step R (s, cs) (_mark_after_failure now c error s, cs).

(** What the tables hold before the durable path first runs: no job, no cursor or a cursor
    without a version, and latch rows of the inline protocol, which have no generation. *)
Definition initial (s : durable) : Prop :=
  jobs s = ∅ ∧ (∀ c, cursor s = Some c → c_version c = None) ∧
  ∀ v r, latch s !! key v = Some r → Latch.generation r = None ∧ py_strip v = v.

Inductive reachable (R : list string) : durable * list ClaimedJob → Prop :=
  | reach_initial s : initial s → reachable R (s, [])
  | reach_step x y : reachable R x → step R x y → reachable R y.

(** Every claim handed out names a job with its generation, at that lease epoch or later. *)
Definition claims_wf (s : durable) (cs : list ClaimedJob) : Prop :=
  (∀ c, c ∈ cs → ∃ j, jobs s !! k_version c = Some j ∧ j_generation j = k_generation c ∧ k_epoch c <= j_epoch j) ∧
  NoDup ((λ c, (k_version c, k_epoch c)) <$> cs).

Lemma evolves_claims s s' cs : evolves s s' → claims_wf s cs → claims_wf s' cs.
Proof.
  intros He [Hc Hnd]. split; [|done]. intros c Hin. destruct (Hc _ Hin) as (j & Hj & Hg & Hk).
  destruct (He _ _ Hj) as (j' & Hj' & Hg' & Hk' & _). exists j'. split_and!; [done|congruence|lia].
Qed.

(** A new claim's epoch is above every claim of its version so far. *)
Lemma claim_fresh R now owner token s s' c cs :
  cursor_wf R s → claims_wf s cs → claim_due_job now owner token s = (s', Some c) →
  (∀ k, k ∈ cs → k_version k = k_version c → k_epoch k < k_epoch c) ∧
  ∃ j, jobs s' !! k_version c = Some j ∧ j_generation j = k_generation c ∧ j_epoch j = k_epoch c.
Proof.
  intros Hs [Hc _] Hclaim.
  destruct (claim_cases _ _ _ _ _ _ _ Hs Hclaim) as (s0 & g & cur & _ & _ & Hjobs & _ & _ & Hcase).
  destruct Hcase as [[_ ?]|(v & j & Hj & _ & Hg & _ & _ & [(_ & ? & _)|(_ & [= ->] & ->)])]; [done..|].
  cbn [k_version k_epoch k_generation]. split.
  - intros k Hk Hkv. destruct (Hc _ Hk) as (j1 & Hj1 & _ & He). rewrite Hkv, <-Hjobs in Hj1. simplify_eq. lia.
  - exists (lease now owner token j). cbn [jobs set_jobs]. by rewrite lookup_alter_eq, Hj.
Qed.

Lemma step_keeps R s cs s' cs' :
  cursor_wf R s → claims_wf s cs → step R (s, cs) (s', cs') → keeps R s s' ∧ claims_wf s' cs'.
Proof.
  intros Hs Hcs Hstep. assert (keeps R s s') as Hk.
  { inversion Hstep; subst; [by eapply signal_keeps|by eapply reconcile_keeps|by apply veto_keeps|by eapply claim_keeps
      |by eapply claim_keeps|by eapply heartbeat_keeps|by eapply commit_keeps|].
    apply mark_keeps; [done|]. intros j Hj.
    destruct (proj1 Hcs c ltac:(done)) as (j' & Hj' & Hg & _). by simplify_eq. }
  split; [done|]. pose proof (evolves_claims _ _ _ (proj2 (proj2 Hk)) Hcs) as Hcs'.
  inversion Hstep as [| | | |now owner token ? ? c ? Hclaim| | |]; subst; try done.
  destruct (claim_fresh _ _ _ _ _ _ _ _ Hs Hcs Hclaim) as (Hnew & j & Hj & Hg & He).
  destruct Hcs' as [Hc Hnd]. split.
  - intros k [->|Hk']%elem_of_cons; [|by apply Hc]. exists j. split_and!; [done..|lia].
  - rewrite fmap_cons. apply NoDup_cons. split; [|done]. intros (k & Hkk & Hk')%list_elem_of_fmap.
    injection Hkk as Hv Hke. specialize (Hnew k Hk' ltac:(congruence)). lia.
Qed.

Lemma initial_wf R s : initial s → cursor_wf R s.
Proof.
  intros (Hj & Hc & Hl). assert (∀ g, wf R g None s) as Hwf.
  { intros g. constructor.
    - intros v j. rewrite Hj. by rewrite lookup_empty.
    - intros v r Hr n Hn. destruct (Hl _ _ Hr). congruence.
    - intros v r Hr. by apply (Hl _ _ Hr).
    - done. }
  unfold cursor_wf. destruct (cursor s) as [c|] eqn:Hcc; [|done]. by rewrite (Hc _ eq_refl).
Qed.

Lemma reachable_wf R x : reachable R x → cursor_wf R x.1 ∧ claims_wf x.1 x.2.
Proof.
  induction 1 as [s Hs|[s cs] [s' cs'] _ [IH1 IH2] Hstep].
  - split; [by apply initial_wf|]. split; [|apply NoDup_nil_2]. by intros c Hc%elem_of_nil.
  - destruct (step_keeps _ _ _ _ _ IH1 IH2 Hstep) as [[H1 _] H2]. done.
Qed.

Lemma steps_keep R x y : rtc (step R) x y → cursor_wf R x.1 → claims_wf x.1 x.2 →
  keeps R x.1 y.1 ∧ claims_wf y.1 y.2.
Proof.
  induction 1 as [x|[s cs] [s1 cs1] y Hstep _ IH]; intros Hs Hcs.
  - split; [by apply keeps_refl|done].
  - destruct (step_keeps _ _ _ _ _ Hs Hcs Hstep) as [Hk Hcs1]. simpl in *.
    destruct (IH (proj1 Hk) Hcs1) as [Hk' Hcs']. split; [by eapply keeps_trans|done].
Qed.

(** C20 The cursor and the jobs only move forward, whatever the interleaving of deliveries,
    scanners, heartbeats, commits and failures: from any state reachable from the inline
    protocol's tables, every later state keeps the invariant (a job has its latch row, at
    its generation; the active job is the current version's; a completed job's latch is
    stamped and an active job's is not), its cursor is at the same generation and version or
    at a greater generation and a later dump version, and every job is still there with its
    generation, no smaller a lease epoch, and, once completed or superseded, unchanged. *)
Theorem durable_state_monotone R x y :
  reachable R x → rtc (step R) x y →
  cursor_wf R y.1 ∧
  (∀ c, cursor x.1 = Some c → ∃ c', cursor y.1 = Some c' ∧
     ((c_generation c' = c_generation c ∧ c_version c' = c_version c) ∨
      (c_generation c < c_generation c' ∧
       ∃ v, c_version c' = Some v ∧ ∀ old, c_version c = Some old → text_lt old v = true))) ∧
  (∀ v j, jobs x.1 !! v = Some j → ∃ j', jobs y.1 !! v = Some j' ∧ j_generation j' = j_generation j ∧
     j_epoch j <= j_epoch j' ∧ (active j = false → j' = j)).
Proof.
  intros [Hs Hcs]%reachable_wf Hxy. destruct (steps_keep _ _ _ Hxy Hs Hcs) as [(Hy & Ha & He) _].
  split_and!; [done|exact Ha|exact He].
Qed.

(** ** Fencing *)

Lemma completed_not_held c j : j_state j = Completed → holds c j = false.
Proof. unfold holds. by intros ->. Qed.

Lemma not_held_no_commit now clock c s :
  (∀ j, jobs s !! k_version c = Some j → holds c j = false) → _before_commit now clock c s = Raise SupersededJob.
Proof.
  intros Hh. unfold _before_commit, _owns_lease. destruct (cursor_is c s); [|done]. simpl.
  destruct (jobs s !! k_version c) as [j|] eqn:Hj; [|done]. by rewrite (Hh _ eq_refl).
Qed.

(** C9 A commit is fenced.  When any claim handed out so far passes the commit fence, the
    cursor is at that claim's generation and version, its lease has not expired by the
    worker's clock, and it is the newest claim: no claim has a greater generation, and of
    the same version it has the greatest epoch.  And a version is published at most once:
    after the commit, in every later state, the commit of every claim of that version handed
    out before or after is refused as superseded. *)
Theorem commit_fenced R s cs now clock c s' :
  reachable R (s, cs) → c ∈ cs → _before_commit now clock c s = Ok s' →
  (∃ cr, cursor s = Some cr ∧ c_generation cr = k_generation c ∧ c_version cr = Some (k_version c)) ∧
  (∃ j e, jobs s !! k_version c = Some j ∧ j_expires j = Some e ∧ clock < e) ∧
  (∀ k, k ∈ cs → k_generation k <= k_generation c ∧ (k_version k = k_version c → k_epoch k <= k_epoch c)) ∧
  (∀ y k now' clock', rtc (step R) (s', cs) y → k ∈ y.2 → k_version k = k_version c →
     _before_commit now' clock' k y.1 = Raise SupersededJob).
Proof.
  intros Hr Hc Hcommit. destruct (reachable_wf _ _ Hr) as [Hs Hcs]. simpl in Hs, Hcs.
  destruct (commit_cases _ _ _ _ _ Hcommit) as (r & j & Hcur & _ & _ & Hj & Hh & Hg & (e & He & Hlt) & Hs').
  split_and!.
  - unfold cursor_is in Hcur. destruct (cursor s) as [cr|]; [|done]. exists cr.
    apply andb_true_iff in Hcur as [H1%bool_decide_eq_true H2%bool_decide_eq_true]. done.
  - by exists j, e.
  - intros k Hk. destruct (proj1 Hcs _ Hk) as (jk & Hjk & Hgk & Hek). split.
    + destruct (wf_tied _ _ Hs) as (g & cur & Hwf & _). rewrite <-Hgk, <-Hg.
      pose proof (jw_bound _ _ _ _ _ (wf_jobs _ _ _ _ Hwf _ _ Hjk)).
      destruct (jw_active _ _ _ _ _ (wf_jobs _ _ _ _ Hwf _ _ Hj) (proj1 (holds_active _ _ Hh))). lia.
    + intros Hv. rewrite Hv in Hjk. simplify_eq. unfold holds in Hh. apply andb_true_iff in Hh as [_ ?]. lia.
  - intros y k now' clock' Hy _ Hv. pose proof (commit_keeps _ _ _ _ _ _ Hs Hcommit) as Hk.
    destruct (steps_keep _ _ _ Hy (proj1 Hk) (evolves_claims _ _ _ (proj2 (proj2 Hk)) Hcs)) as [(_ & _ & He') _].
    apply not_held_no_commit. rewrite Hv. intros j' Hj'. destruct (He' (k_version c) (complete now j)) as (j2 & Hj2 & _ & _ & Hi).
    { subst s'. cbn [jobs set_jobs fst]. by rewrite lookup_alter_eq, Hj. }
    specialize (Hi eq_refl). simplify_eq. by apply completed_not_held.
Qed.

(** ** Obligations *)

Lemma claim_order_total : ∀ x y, claim_order x y = true ∨ claim_order y x = true.
Proof.
  intros [v x] [w y]. unfold claim_order. simpl. rewrite (Z.eqb_sym (j_generation y)).
  destruct (j_generation x =? j_generation y) eqn:E; [|lia].
  destruct (j_next x), (j_next y); try (by left); try (by right). lia.
Qed.

(** The only job that can be due or leased is the one active job. *)
Lemma claim_single R now owner token s c v j :
  cursor_wf R s → cursor s = Some c → c_version c = Some v → jobs s !! v = Some j → active j = true →
  live_lease now j = false → due now j = true →
  claim_due_job now owner token s =
    (if bool_decide (j_state j = Leased)
     then (set_jobs (alter (retry_later now (backoff (j_attempts j)) "lease_expired") v (jobs s)) s, None)
     else (set_jobs (alter (lease now owner token) v (jobs s)) s,
           Some {| k_version := v; k_generation := j_generation j; k_token := token; k_epoch := j_epoch j + 1;
                   k_attempts := j_attempts j + 1 |})).
Proof.
  intros Hs Hc Hv Hj Ha Hlive Hdue. unfold cursor_wf in Hs. rewrite Hc in Hs.
  assert (∀ w k, jobs s !! w = Some k → active k = true → (w, k) = (v, j)) as Hone.
  { intros w k Hk Hka. destruct (jw_active _ _ _ _ _ (wf_jobs _ _ _ _ Hs _ _ Hk) Hka) as [_ Hw]. congruence. }
  unfold claim_due_job, _lock_cursor. rewrite Hc.
  assert (existsb (λ '(_, j0), live_lease now j0) (map_to_list (jobs s)) = false) as ->.
  { apply not_true_is_false. intros ([w k] & Hin%list_elem_of_In & Hl)%existsb_exists.
    apply elem_of_map_to_list in Hin.
    assert (active k = true) as Hka by (unfold live_lease, active in *; by destruct (j_state k)).
    specialize (Hone _ _ Hin Hka). simplify_eq. congruence. }
  set (l := filter _ _). assert (l ≡ₚ [(v, j)]) as Hl.
  { apply NoDup_Permutation; [apply NoDup_filter, NoDup_map_to_list|apply NoDup_singleton|].
    intros [w k]. unfold l. rewrite list_elem_of_filter, elem_of_map_to_list, list_elem_of_singleton. split.
    - intros [Hd%Is_true_true Hk]. simpl in Hd. apply Hone; [done|]. by eapply due_active.
    - intros [= -> ->]. split; [by apply Is_true_true|done]. }
  assert (sort_by claim_order l = [(v, j)]) as ->.
  { apply Permutation_singleton_r. by rewrite sort_by_perm. }
  destruct (jw_active _ _ _ _ _ (wf_jobs _ _ _ _ Hs _ _ Hj) Ha) as [-> _].
  rewrite Z.eqb_refl. simpl. done.
Qed.

Lemma backoff_bound n : backoff n <= 256.
Proof.
  unfold backoff, _MAX_BACKOFF_SECONDS. etrans; [apply Z.le_min_r|].
  change 256 with (2 ^ 8). apply Z.pow_le_mono_r; lia.
Qed.

(** When an active job's turn comes. *)
Definition ready_at (j : job) : Z :=
  match j_state j with
  | Leased => default 0 (j_expires j)
  | _ => default 0 (j_next j)
  end.

Lemma ready_due g cur t v j now :
  job_wf g cur t v j → active j = true → ready_at j <= now → due now j = true ∧ live_lease now j = false.
Proof.
  intros [_ _ _ _ Hd Hl] Ha. unfold active, due, live_lease, ready_at in *.
  destruct (j_state j); try done.
  - destruct Hd as [n ->]; [by left|]. simpl. intros ?. split; [lia|done].
  - destruct Hl as [_ [e ->]]; [done|]. simpl. intros ?. split; [lia|]. destruct (now <? e) eqn:E; [lia|done].
  - destruct Hd as [n ->]; [by right|]. simpl. intros ?. split; [lia|done].
Qed.

(** C1 No refresh obligation is lost.  In every reachable state, when the current version's
    latch holds every required signal at the current generation and is not stamped, from
    some time on a scanner gets the job of that version: at once when it is pending or
    waiting to be retried; and when its worker died holding the lease, the first scan after
    the expiry fences that worker and any scan from 256 seconds later hands out the job. *)
Theorem refresh_obligation_never_lost R s cs c v r :
  reachable R (s, cs) → cursor s = Some c → c_version c = Some v → latch s !! key v = Some r →
  Latch.generation r = Some (c_generation c) → (∀ d, d ∈ R → d ∈ signals r) → refreshed_at r = None →
  ∃ T, ∀ t1 t2 owner1 owner2 token1 token2, T <= t1 → t1 + 256 <= t2 →
    let '(s1, claimed) := claim_due_job t1 owner1 token1 s in
    (∃ k, claimed = Some k ∧ k_version k = v) ∨
    (claimed = None ∧ ∃ k, (claim_due_job t2 owner2 token2 s1).2 = Some k ∧ k_version k = v).
Proof.
  intros [Hs _]%reachable_wf Hc Hv Hr Hg Hall Hnone. simpl in Hs.
  assert (wf R (c_generation c) (c_version c) s) as Hwf by (unfold cursor_wf in Hs; by rewrite Hc in Hs).
  destruct (wf_obligation _ _ _ _ Hwf v r Hv Hr Hg ltac:(done)) as (j & Hj & Ha).
  exists (ready_at j). intros t1 t2 o1 o2 k1 k2 Ht1 Ht2.
  destruct (ready_due _ _ _ _ _ _ (wf_jobs _ _ _ _ Hwf _ _ Hj) Ha Ht1) as [Hdue Hlive].
  pose proof (claim_single _ t1 o1 k1 _ _ _ _ Hs Hc Hv Hj Ha Hlive Hdue) as Hclaim.
  pose proof (claim_keeps R t1 o1 k1 s) as Hkeep. rewrite Hclaim in Hkeep |- *. case_bool_decide as Hst; [|left; by eexists].
  right. split; [done|]. specialize (Hkeep _ _ Hs eq_refl) as [Hs1 _].
  set (j1 := retry_later t1 (backoff (j_attempts j)) "lease_expired" j).
  set (s1 := set_jobs (alter (retry_later t1 (backoff (j_attempts j)) "lease_expired") v (jobs s)) s) in *.
  assert (jobs s1 !! v = Some j1) as Hj1 by (unfold s1; cbn [jobs set_jobs]; by rewrite lookup_alter_eq, Hj).
  assert (due t2 j1 = true) as Hdue2.
  { unfold due, j1. simpl. pose proof (backoff_bound (j_attempts j)). lia. }
  rewrite (claim_single _ t2 o2 k2 s1 c v j1 Hs1 Hc Hv Hj1 eq_refl eq_refl Hdue2). simpl. by eexists.
Qed.

(** ** One worker round *)

Lemma claimed_job R now owner token s s1 k :
  cursor_wf R s → claim_due_job now owner token s = (s1, Some k) →
  cursor_is k s1 = true ∧
  ∃ j, jobs s1 !! k_version k = Some j ∧ holds k j = true ∧ j_generation j = k_generation k ∧
    j_expires j = Some (now + _LEASE_SECONDS).
Proof.
  intros Hs Hclaim.
  destruct (claim_cases _ _ _ _ _ _ _ Hs Hclaim) as (s0 & g & cur & [_ [Hg Hc]] & _ & _ & _ & _ & Hcase).
  destruct Hcase as [[_ ?]|(v & j & Hj & _ & Hjg & -> & _ & [(_ & ? & _)|(_ & [= ->] & ->)])]; [done..|].
  split.
  - unfold cursor_is. cbn [cursor set_jobs k_generation k_version]. destruct (cursor s0) as [cr|]; [|done].
    simpl in *. simplify_eq. by rewrite !bool_decide_eq_true_2 by congruence.
  - exists (lease now owner token j). cbn [jobs set_jobs k_version k_generation]. rewrite lookup_alter_eq, Hj.
    split_and!; [done| |done|done]. unfold holds. simpl. by rewrite !bool_decide_eq_true_2, Z.eqb_refl.
Qed.

(** The commit passes when the claimant is current and owns the lease. *)
Lemma commit_owner R now clock k s :
  cursor_wf R s → (∀ j, jobs s !! k_version k = Some j → j_generation j = k_generation k) →
  _owns_lease clock k s = true → ∃ s' r j,
    _before_commit now clock k s = Ok s' ∧ latch s !! key (k_version k) = Some r ∧
    latch s' = <[key (k_version k) := stamp now r]> (latch s) ∧
    jobs s !! k_version k = Some j ∧ jobs s' !! k_version k = Some (complete now j).
Proof.
  intros Hs Hgen Hown. unfold _before_commit. rewrite Hown. unfold _owns_lease in Hown.
  destruct (jobs s !! k_version k) as [j|] eqn:Hj; [|done]. apply andb_true_iff in Hown as [Hh _].
  rewrite (held_is_current _ _ _ _ Hs Hj Hh (Hgen _ eq_refl)). simpl.
  destruct (wf_tied _ _ Hs) as (g & cur & Hwf & _).
  destruct (jw_latch _ _ _ _ _ (wf_jobs _ _ _ _ Hwf _ _ Hj)) as (r & Hr & Hrg & _ & Hrn).
  rewrite Hr. unfold stampable. rewrite Hrg, (Hgen _ eq_refl), (Hrn (proj1 (holds_active _ _ Hh))).
  rewrite !bool_decide_eq_true_2 by done. simpl. unfold holds in Hh.
  apply andb_true_iff in Hh as [[_ Ht]%andb_true_iff He]. rewrite Hj, (Hgen _ eq_refl), Z.eqb_refl, Ht, He. simpl.
  eexists _, r, j. split_and!; [done|done|done|done|]. cbn [jobs set_jobs]. apply lookup_insert_eq.
Qed.

(** A failure of a claim of the current generation leaves its job to be retried, if it is
    still held. *)
Lemma mark_outcome R now k e s j :
  cursor_wf R s → jobs s !! k_version k = Some j → j_generation j = k_generation k →
  let s' := _mark_after_failure now k (error_name e) s in
  cursor s' = cursor s ∧ latch s' = latch s ∧
  ∃ j, jobs s !! k_version k = Some j ∧
    if holds k j
    then ∃ e', jobs s' = <[k_version k := retry_later now (backoff (k_attempts k))
                                            (substring 0 1024 (error_name e')) j]> (jobs s)
    else s' = s.
Proof.
  intros Hs Hj Hg. cbv zeta. unfold _mark_after_failure. rewrite Hj. destruct (holds k j) eqn:Hh.
  - rewrite (held_is_current _ _ _ _ Hs Hj Hh Hg). split_and!; [done..|].
    exists j. split; [done|]. rewrite Hh. by exists e.
  - split_and!; [done..|]. exists j. by rewrite Hh.
Qed.

(** C19 A worker round, on every branch.  In a reachable state with nothing to claim it
    reports no work and leaves no claim behind.  With a claim, let [s2] be the state that
    other sessions leave while the pass runs.  When neither fence saw a lost lease, the
    worker's clock was within the lease at the start, the pass succeeded, and it still owns
    the lease at the end, the version is published: its job is completed and its latch
    stamped, both at the commit.  Otherwise nothing is published: if the job is still held
    under this claim it waits, for the back-off of this attempt, with the error's class name
    as its last error, and if not the state is left as the other sessions made it. *)
Theorem worker_round_outcome R s cs owner token r :
  reachable R (s, cs) →
  match claim_due_job (r_claim_at r) owner token s with
  | (s1, None) => run_worker_once owner token r s = (s1, false)
  | (s1, Some k) =>
      let s2 := r_meanwhile r s1 in
      ∀ cs2, rtc (step R) (s1, k :: cs) (s2, cs2) →
      let s' := (run_worker_once owner token r s).1 in
      (run_worker_once owner token r s).2 = true ∧
      if negb (r_lost_at_start r) && (r_start_clock r <? r_claim_at r + _LEASE_SECONDS)
         && bool_decide (r_pass r = Ok ()) && negb (r_lost_at_finish r) && _owns_lease (r_commit_clock r) k s2
      then ∃ row j, latch s2 !! key (k_version k) = Some row ∧ jobs s2 !! k_version k = Some j ∧
             latch s' = <[key (k_version k) := stamp (r_commit_at r) row]> (latch s2) ∧
             jobs s' !! k_version k = Some (complete (r_commit_at r) j)
      else cursor s' = cursor s2 ∧ latch s' = latch s2 ∧
           ∃ j, jobs s2 !! k_version k = Some j ∧
             if holds k j
             then ∃ e, jobs s' = <[k_version k := retry_later (r_fail_at r) (backoff (k_attempts k))
                                                   (substring 0 1024 (error_name e)) j]> (jobs s2)
             else s' = s2
  end.
Proof.
  intros Hr. destruct (reachable_wf _ _ Hr) as [Hs Hcs]. simpl in Hs, Hcs. unfold run_worker_once.
  destruct (claim_due_job (r_claim_at r) owner token s) as [s1 [k|]] eqn:Hclaim; [|done].
  intros cs2 Hsteps. set (s2 := r_meanwhile r s1) in *.
  destruct (step_keeps R s cs s1 (k :: cs) Hs Hcs ltac:(by eapply step_claim)) as [[Hs1 _] Hcs1].
  destruct (steps_keep _ _ _ Hsteps Hs1 Hcs1) as [(Hs2 & _ & He2) _]. simpl in Hs2, He2.
  destruct (claimed_job _ _ _ _ _ _ _ Hs Hclaim) as (Hcur1 & j1 & Hj1 & Hh1 & Hg1 & Hexp1).
  destruct (He2 _ _ Hj1) as (j2 & Hj2 & Hg2 & _).
  pose proof (λ e, mark_outcome R (r_fail_at r) k e s2 j2 Hs2 Hj2 (eq_trans Hg2 Hg1)) as Hfail. cbv zeta in Hfail.
  assert (_before_refresh (r_start_clock r) k s1 =
    if r_start_clock r <? r_claim_at r + _LEASE_SECONDS then Ok s1 else Raise SupersededJob) as ->.
  { unfold _before_refresh, _owns_lease. rewrite Hj1, Hcur1, Hh1, Hexp1. simpl. by destruct (_ <? _). }
  destruct (r_lost_at_start r); [split; [done|exact (Hfail SupersededJob)]|].
  destruct (r_start_clock r <? r_claim_at r + _LEASE_SECONDS); [|split; [done|exact (Hfail SupersededJob)]]. cbn [negb orb andb bind].
  destruct (r_pass r) as [[]|e]; [|rewrite bool_decide_eq_false_2 by done; split; [done|exact (Hfail e)]]. rewrite bool_decide_eq_true_2 by done. cbn [bind].
  destruct (r_lost_at_finish r); [split; [done|exact (Hfail SupersededJob)]|]. cbn [negb andb].
  destruct (_owns_lease (r_commit_clock r) k s2) eqn:Hown.
  - destruct (commit_owner R (r_commit_at r) (r_commit_clock r) k s2 Hs2 ltac:(intros j Hj; congruence) Hown)
      as (s' & row & j & -> & Hrow & Hl & Hj & Hj').
    split; [done|]. by exists row, j.
  - assert (_before_commit (r_commit_at r) (r_commit_clock r) k s2 = Raise SupersededJob) as ->.
    { unfold _before_commit. rewrite Hown. by rewrite orb_true_r. }
    split; [done|exact (Hfail SupersededJob)].
Qed.

(** ** Signals *)

Lemma signal_refused py R now value d s s' e :
  cursor_wf R s → record_durable_signal py now value d R s = (s', Raise e) →
  s' = s ∧ e = ValueError ∧
  (ordered_version py value = Raise ValueError ∨ d ∉ R ∨ ¬ legacy_ordered (latch s)).
Proof.
  intros Hs. unfold record_durable_signal. destruct (ordered_version py value) as [v|e'] eqn:Hv.
  2: { intros [= <- <-]. unfold ordered_version, ordered_text in Hv. destruct (_ && _); [done|]. simplify_eq.
       split_and!; [done..|by left]. }
  apply ordered_text_ok in Hv as (Hshape & _ & _). apply digits_strip in Hshape.
  case_bool_decide as Hd; cbn [negb]; [|intros [= <- <-]; split_and!; [done..|by right; left]].
  unfold committed. pose proof (reconcile_ok now R s) as Hok.
  destruct (_reconcile_legacy now R s) as [[[s0 g0] cur0]|e'] eqn:Hrec; cbn [bind].
  2: { intros [= <- <-]. destruct Hok as [-> Hok]. split_and!; [done..|by right; right]. }
  destruct (reconcile_good _ _ _ _ _ _ Hs Hrec) as [Hgood0 _].
  destruct (match cur0 with Some c => text_lt v c | None => false end) eqn:Hold.
  { by destruct (if match cur0 with Some c => text_lt c v | None => true end then _ else _). }
  destruct (if match cur0 with Some c => text_lt c v | None => true end
    then (_advance_cursor now (g0 + 1) v s0, g0 + 1) else (s0, g0)) as [s1 g1] eqn:Hadv.
  destruct (advance_or_stay R now g0 cur0 v s0 s1 g1 Hgood0 ltac:(by intros c ->) Hadv) as (Hgood1 & _).
  destruct (current_signal_good R now d v g1 s1 Hgood1 Hshape) as [Hg1 _]. cbv zeta. cbn [negb andb].
  rewrite Hg1, (bool_decide_eq_false_2 (Some g1 ≠ Some g1)) by (intros Hn; by apply Hn).
  by destruct (_ && has_all _ _).
Qed.

Lemma signal_accepted py R now value d s s' sig :
  record_durable_signal py now value d R s = (s', Ok sig) → d ∈ R ∧ legacy_ordered (latch s).
Proof.
  unfold record_durable_signal. destruct (ordered_version py value) as [v|]; [|done].
  case_bool_decide as Hd; cbn [negb]; [|done]. unfold committed. pose proof (reconcile_ok now R s) as Hok.
  by destruct (_reconcile_legacy now R s).
Qed.

(** C12 What a durable signal promises its delivery before it is acknowledged, from any
    reachable state.  It is refused, with a [ValueError] and without any write, exactly when
    the version is not an ordered dump version, the type is unknown, or a latch row left by
    the inline protocol cannot be ordered; the two schema errors of the transaction cannot
    happen.  Otherwise one transaction stored the type's signal under that version and the
    answer tells what the latch then holds: superseded iff the cursor is at a later dump,
    else the cursor is at this version and the latch at its generation; scheduled iff not
    superseded, every required type has signalled and no pass is stamped, in which case an
    active job of this version is stored too. *)
Theorem durable_signal_contract py R now value d s cs :
  reachable R (s, cs) →
  let refusal := ordered_version py value = Raise ValueError ∨ d ∉ R ∨ ¬ legacy_ordered (latch s) in
  match record_durable_signal py now value d R s with
  | (s', Raise e) => s' = s ∧ e = ValueError ∧ refusal
  | (s', Ok sig) =>
      ¬ refusal ∧
      ∃ v c r, ordered_version py value = Ok v ∧ cursor s' = Some c ∧ latch s' !! key v = Some r ∧
        d ∈ signals r ∧ d_version sig = v ∧ d_signals sig = signals r ∧ d_generation sig = Latch.generation r ∧
        (d_already_refreshed sig = true ↔ refreshed_at r ≠ None) ∧
        (d_superseded sig = true ↔ ∃ newer, c_version c = Some newer ∧ text_lt v newer = true) ∧
        (d_superseded sig = false → c_version c = Some v ∧ Latch.generation r = Some (c_generation c)) ∧
        (d_scheduled sig = true ↔
           d_superseded sig = false ∧ (∀ t, t ∈ R → t ∈ signals r) ∧ refreshed_at r = None) ∧
        (d_scheduled sig = true → ∃ j, jobs s' !! v = Some j ∧ active j = true)
  end.
Proof.
  intros [Hs _]%reachable_wf refusal. simpl in Hs.
  destruct (record_durable_signal py now value d R s) as [s' [sig|e]] eqn:Hrec; [|by eapply signal_refused].
  destruct (signal_accepted _ _ _ _ _ _ _ _ Hrec) as [Hd Hl].
  destruct (signal_committed _ _ _ _ _ _ _ _ Hs Hrec) as (_ & _ & v & Hv & Ho).
  split. { intros [Hr|[Hr|Hr]]; [congruence|done|done]. }
  destruct Ho as (g & cur & r & [_ [Hg Hc]] & Ho). destruct (cursor s') as [c|] eqn:Hcc; [|done].
  simpl in Hg, Hc. simplify_eq. exists (d_version sig), c, r. destruct Ho as (?&?&<-&Ho). done.
Qed.

(** Dump versions are ordered as dates.  A version is accepted iff its stripped text is
    eight digits naming a day of the Gregorian calendar, the accepted version is that text,
    and of two accepted versions the cursor's text comparison is the comparison of year,
    month and day: an older dump never looks newer. *)
Theorem ordered_version_order py x y a b :
  ordered_version py x = Ok a → ordered_version py y = Ok b →
  (a = py_strip (str_or_empty py x) ∧ String.length a = 8%nat ∧ string_forall is_digit a = true) ∧
  (let '(year, month, day) := (substring_value 0 4 a, substring_value 4 2 a, substring_value 6 2 a) in
   valid_date year month day = true ∧ digits_value a = year * 10000 + month * 100 + day) ∧
  (text_lt a b = true ↔ digits_value a < digits_value b).
Proof.
  intros (Hsa & Hva & Ha)%ordered_text_ok (Hsb & Hvb & Hb)%ordered_text_ok.
  assert (∀ v, version_shape v = true → String.length v = 8%nat ∧ string_forall is_digit v = true) as Hsh.
  { intros v [Hd Hl]%andb_true_iff. apply Nat.eqb_eq in Hl. by destruct v. }
  destruct (Hsh _ Hsa) as [Hla Hda]. destruct (Hsh _ Hsb) as [Hlb Hdb]. split; [done|split; [split; [done|]|]].
  - unfold substring_value. clear -Hla.
    do 9 (destruct a as [|? a]; [try done|]); [|done]. cbn [substring]. rewrite !digits_value_cons.
    cbn [pow10_length]. change (digits_value "") with 0. lia.
  - unfold text_lt, String.leb. rewrite (digits_compare b a) by congruence.
    rewrite negb_true_iff. destruct (Z.compare_spec (digits_value b) (digits_value a)); split; try done; lia.
Qed.

(** ** Health *)

Lemma newest_first_total x y : newest_first x y = true ∨ newest_first y x = true.
Proof. unfold newest_first. lia. Qed.

Lemma newest_first_trans x y z : newest_first x y = true → newest_first y z = true → newest_first x z = true.
Proof. unfold newest_first. lia. Qed.

Lemma StronglySorted_filter {A} (ord : relation A) (P : A → Prop) `{∀ x, Decision (P x)} (l : list A) :
  StronglySorted ord l → StronglySorted ord (filter P l).
Proof.
  induction 1 as [|x l _ IH Hall]; [constructor|]. rewrite filter_cons. case_decide; [|done].
  constructor; [done|]. apply Forall_forall. intros y [_ Hy]%list_elem_of_filter.
  by eapply Forall_forall in Hall.
Qed.

(** The first row that a filter keeps is one of the rows, and newest among those kept. *)
Lemma head_filter_newest (P : string * job → Prop) `{∀ x, Decision (P x)} (js : gmap string job) :
  match head (filter P (sort_by newest_first (map_to_list js))) with
  | Some x => js !! x.1 = Some x.2 ∧ P x ∧
      ∀ v j, js !! v = Some j → P (v, j) → j_generation j <= j_generation x.2
  | None => ∀ v j, js !! v = Some j → ¬ P (v, j)
  end.
Proof.
  pose proof (sort_by_sorted newest_first newest_first_total newest_first_trans (map_to_list js)) as Hsort.
  assert (∀ v j, (v, j) ∈ sort_by newest_first (map_to_list js) ↔ js !! v = Some j) as Hin.
  { intros v j. by rewrite elem_of_sort_by, elem_of_map_to_list. }
  set (l := sort_by _ _) in *. clearbody l. assert (∀ v j, js !! v = Some j → P (v, j) → (v, j) ∈ filter P l) as Hf.
  { intros v j Hj HP. apply list_elem_of_filter. by rewrite Hin. }
  assert (∀ x, x ∈ filter P l → js !! x.1 = Some x.2 ∧ P x) as Hback.
  { intros [v j] [HP Hl]%list_elem_of_filter. by rewrite Hin in Hl. }
  assert (StronglySorted (λ x y, newest_first x y = true) (filter P l)) as Hsf by (by apply StronglySorted_filter).
  destruct (filter P l) as [|x rest]; simpl.
  - intros v j Hj HP. by apply Hf, elem_of_nil in HP.
  - destruct (Hback x ltac:(by left)) as [Hx HP]. split_and!; [done..|]. intros v j Hj HPj.
    apply Hf in HPj; [|done]. apply elem_of_cons in HPj as [<-|Hrest]; [simpl; lia|].
    inversion Hsf as [|? ? _ Hall]; subst. rewrite Forall_forall in Hall. specialize (Hall _ Hrest).
    unfold newest_first in Hall. simpl in Hall. lia.
Qed.

(** The current version's job row is either active or completed, and no other is active. *)
Lemma current_job g v t j :
  job_wf g (Some v) t v j → (∀ r, t !! key v = Some r → row_wf g (Some v) v r) →
  j_generation j = g ∧ (active j = true ∨ j_state j = Completed).
Proof.
  intros [_ (r & Hr & Hg & _) _ Hs _ _] Hrow.
  assert (j_generation j = g) as Hgen.
  { destruct (Hrow _ Hr _ Hg) as [[_ ?]|(c & [= <-] & Hlt & _)]; [done|]. by rewrite text_lt_irrefl in Hlt. }
  split; [done|]. unfold active. destruct (j_state j) eqn:Hst; auto. specialize (Hs eq_refl). lia.
Qed.

Lemma active_row R s c v :
  cursor_wf R s → cursor s = Some c → c_version c = Some v →
  head (filter (λ vj : string * job, active vj.2) (sort_by newest_first (map_to_list (jobs s)))) =
    (j ← jobs s !! v; if active j then Some (v, j) else None).
Proof.
  intros Hs Hc Hv. unfold cursor_wf in Hs. rewrite Hc in Hs.
  pose proof (head_filter_newest (λ vj : string * job, active vj.2) (jobs s)) as Hh. cbv beta in Hh.
  assert (∀ w k, jobs s !! w = Some k → active k = true → w = v) as Hone.
  { intros w k Hk Hka. destruct (jw_active _ _ _ _ _ (wf_jobs _ _ _ _ Hs _ _ Hk) Hka) as [_ Hw]. congruence. }
  destruct (head _) as [[w k]|].
  - destruct Hh as (Hk & Ha%Is_true_true & _). simpl in *. rewrite <-(Hone _ _ Hk Ha), Hk. simpl. by rewrite Ha.
  - destruct (jobs s !! v) as [j|] eqn:Hj; [|done]. specialize (Hh _ _ Hj). simpl in *.
    destruct (active j); [by exfalso; apply Hh|done].
Qed.

Lemma completed_row R s c v :
  cursor_wf R s → cursor s = Some c → c_version c = Some v →
  (fst <$> head (filter (λ vj : string * job, j_state vj.2 = Completed)
                   (sort_by newest_first (map_to_list (jobs s)))) = Some v ↔
   ∃ j, jobs s !! v = Some j ∧ j_state j = Completed).
Proof.
  intros Hs Hc Hv. unfold cursor_wf in Hs. rewrite Hc in Hs.
  pose proof (head_filter_newest (λ vj : string * job, j_state vj.2 = Completed) (jobs s)) as Hh. cbv beta in Hh.
  destruct (head _) as [[w k]|]; simpl.
  - destruct Hh as (Hk & Hst & Hmax). simpl in *. split; [intros [= ->]; by exists k|]. intros (j & Hj & Hjst).
    f_equal. specialize (Hmax _ _ Hj Hjst).
    rewrite Hv in Hs. destruct (current_job _ _ _ _ (wf_jobs _ _ _ _ Hs _ _ Hj) (wf_rows _ _ _ _ Hs v)) as [Hg _].
    destruct (wf_jobs _ _ _ _ Hs _ _ Hk) as [Hb (r & Hr & Hrg & _) _ _ _ _].
    destruct (wf_rows _ _ _ _ Hs _ _ Hr _ Hrg) as [[[= ->] _]|(? & _ & _ & Hlt)]; [done|lia].
  - split; [done|]. intros (j & Hj & Hst). by destruct (Hh _ _ Hj).
Qed.

(** Health never shows a stuck refresh as done.  In every reachable state with a current
    version, health names that version and generation.  While its job is not completed the
    phase is the job's state, and the report is degraded exactly when the job waits to be
    retried, has been pending for over 300 seconds, or its lease has expired; while it has no
    job the phase is waiting for signals, degraded after a day; and only when its job is
    completed is there no phase, no degradation, and this version the newest completed. *)
Theorem health_reports_stuck_refresh R s cs clock c v :
  reachable R (s, cs) → cursor s = Some c → c_version c = Some v →
  let h := read_refresh_health clock s in
  h_version h = Some v ∧ h_generation h = c_generation c ∧
  match jobs s !! v with
  | Some j =>
      match j_state j with
      | Completed => h_phase h = NoPhase ∧ h_degraded h = false ∧ h_newest_completed h = Some v
      | st => h_phase h = PhaseJob st ∧ h_active h = Some v ∧ h_newest_completed h ≠ Some v ∧
          (h_degraded h = true ↔
             st = Retry ∨ (st = Pending ∧ j_created j + _STALE_SECONDS < clock) ∨
             (st = Leased ∧ ∃ e, j_expires j = Some e ∧ e <= clock))
      end
  | None => h_phase h = WaitingForSignals ∧ h_newest_completed h ≠ Some v ∧
      (h_degraded h = true ↔ c_updated_at c + _STALE_SIGNALS_SECONDS < clock)
  end.
Proof.
  intros [Hs _]%reachable_wf Hc Hv h. simpl in Hs.
  pose proof (active_row _ _ _ _ Hs Hc Hv) as Hact. pose proof (completed_row _ _ _ _ Hs Hc Hv) as Hcomp.
  unfold h, read_refresh_health. cbv zeta.
  cbn [h_version h_generation h_phase h_active h_newest_completed h_degraded].
  rewrite Hc in *. cbn [mbind option_bind]. rewrite Hv. split; [done|]. split; [done|].
  rewrite Hact. destruct (jobs s !! v) as [j|] eqn:Hj; cbn [mbind option_bind].
  - assert (active j = true ∨ j_state j = Completed) as Hst.
    { unfold cursor_wf in Hs. rewrite Hc, Hv in Hs.
      by apply (current_job _ _ _ _ (wf_jobs _ _ _ _ Hs _ _ Hj) (wf_rows _ _ _ _ Hs v)). }
    unfold active in *. destruct (j_state j) eqn:Hjs; try (by destruct Hst); cbn [fst snd]; rewrite ?Hjs.
    + split_and!; [done|done|intros (j0 & [= <-] & ?)%Hcomp; congruence|]. unfold _STALE_SECONDS. split.
      * intros ?. right. left. split; [done|lia].
      * intros [?|[[_ ?]|[? _]]]; [done|lia|done].
    + split_and!; [done|done|intros (j0 & [= <-] & ?)%Hcomp; congruence|]. destruct (j_expires j) as [e|]; split.
      * intros ?. right. right. split; [done|]. exists e. split; [done|lia].
      * intros [?|[[? _]|(_ & e' & [= ->] & ?)]]; [done|done|lia].
      * done.
      * by intros [?|[[? _]|(_ & e' & ? & ?)]].
    + split_and!; [done|done|intros (j0 & [= <-] & ?)%Hcomp; congruence|]. split; [by left|done].
    + assert (∃ j0, Some j = Some j0 ∧ j_state j0 = Completed) as Hex by eauto.
      apply Hcomp in Hex. rewrite Hex. rewrite (bool_decide_eq_false_2 (Some v ≠ Some v)) by (intros Hn; by apply Hn).
      by rewrite andb_false_r.
  - assert (¬ ∃ j0, None = Some j0 ∧ j_state j0 = Completed) as Hex by naive_solver.
    rewrite <-Hcomp in Hex. rewrite (bool_decide_eq_true_2 _ Hex).
    rewrite !bool_decide_eq_true_2 by done. cbn [andb fmap option_fmap option_map].
    split_and!; [done..|]. unfold _STALE_SIGNALS_SECONDS. lia.
Qed.
(** ** Signals are never forgotten *)

Definition signals_grow (t t' : latch_table) : Prop :=
  ∀ k r, t !! k = Some r → ∃ r', t' !! k = Some r' ∧ signals r ⊆ signals r'.

Lemma signals_grow_refl t : signals_grow t t.
Proof. intros k r Hr. by exists r. Qed.

Lemma signals_grow_trans t1 t2 t3 : signals_grow t1 t2 → signals_grow t2 t3 → signals_grow t1 t3.
Proof.
  intros H12 H23 k r Hr. destruct (H12 _ _ Hr) as (r2 & Hr2 & Hs2). destruct (H23 _ _ Hr2) as (r3 & Hr3 & Hs3).
  exists r3. split; [done|]. by etrans.
Qed.

Lemma signals_grow_insert v r' t :
  (∀ r, t !! key v = Some r → signals r ⊆ signals r') → signals_grow t (<[key v := r']> t).
Proof.
  intros Hs k r Hr. destruct (decide (k = key v)) as [->|Hne].
  - exists r'. rewrite lookup_insert_eq. auto.
  - exists r. by rewrite lookup_insert_ne.
Qed.

Lemma reconcile_rows_grow now R rows s g cur s' g' cur' :
  foldl (reconcile_row now R) (Ok (s, g, cur)) rows = Ok (s', g', cur') → signals_grow (latch s) (latch s').
Proof.
  induction rows as [|[v r] rows IH] in s, g, cur |- *; cbn [foldl].
  { intros [= <- _ _]. apply signals_grow_refl. }
  destruct (reconcile_row now R (Ok (s, g, cur)) (v, r)) as [[[s1 g1] c1]|e] eqn:H1; [|by rewrite reconcile_raised].
  intros Hr. eapply signals_grow_trans; [|by eapply IH]. revert H1. unfold reconcile_row. cbn [bind].
  destruct (_ && _); [intros [= <- _ _]; apply signals_grow_refl|].
  destruct (ordered_text v) as [w|]; [|done]. cbn [bind].
  destruct (match cur with Some c => text_lt w c | None => false end); [intros [= <- _ _]; apply signals_grow_refl|].
  assert (∀ gg t, signals_grow t (alter (assign now gg) (key w) t)) as Halter.
  { intros gg t k q Hq. destruct (decide (k = key w)) as [->|Hne].
    - exists (assign now gg q). rewrite lookup_alter_eq, Hq. split; [done|]. unfold assign. by destruct (Latch.generation q).
    - exists q. by rewrite lookup_alter_ne. }
  destruct (match cur with Some c => text_lt c w | None => true end); intros [= <- _ _];
    destruct (bool_decide _ && has_all R _); rewrite ?(proj1 (upsert_job_latch _ _ _ _)); apply Halter.
Qed.

Lemma signal_stored py R now value d s s' sig :
  record_durable_signal py now value d R s = (s', Ok sig) →
  signals_grow (latch s) (latch s') ∧
  ∃ v r, ordered_version py value = Ok v ∧ latch s' !! key v = Some r ∧ d ∈ signals r.
Proof.
  unfold record_durable_signal. destruct (ordered_version py value) as [v|]; [|done]. destruct (negb _); [done|].
  unfold committed. destruct (_reconcile_legacy now R s) as [[[s0 g0] cur0]|] eqn:Hrec; [|done]. cbn [bind].
  assert (signals_grow (latch s) (latch s0)) as Hg0.
  { revert Hrec. unfold _reconcile_legacy. destruct (_lock_cursor now s) as [s1 [g1 c1]] eqn:Hl.
    destruct (lock_evolves _ _ _ _ Hl) as (_ & _ & Hlt). rewrite <-Hlt. apply reconcile_rows_grow. }
  destruct (if match cur0 with Some c => text_lt c v | None => true end
    then (_advance_cursor now (g0 + 1) v s0, g0 + 1) else (s0, g0)) as [s1 g1] eqn:Hadv.
  assert (latch s1 = latch s0) as Hl1.
  { destruct (match cur0 with Some c => text_lt c v | None => true end); by injection Hadv as <- _. }
  cbv zeta. set (row := signal_latch _ _ _ _).
  assert (signals_grow (latch s) (<[key v := row]> (latch s1))) as Hg.
  { eapply signals_grow_trans; [done|]. rewrite Hl1. apply signals_grow_insert. intros r Hr.
    unfold row, signal_latch. rewrite Hl1, Hr. simpl. set_solver. }
  assert (∀ t, t = <[key v := row]> (latch s1) → signals_grow (latch s) t ∧
    ∃ v0 r, Ok v = Ok v0 ∧ t !! key v0 = Some r ∧ d ∈ signals r) as Hdone.
  { intros t ->. split; [done|]. exists v, row. split_and!; [done|apply lookup_insert_eq|apply signal_latch_signals]. }
  destruct (_ && _ && _); [destruct (bool_decide _); [done|]|]; intros [= <- _]; apply Hdone; [|done].
  by rewrite (proj1 (upsert_job_latch _ _ _ _)).
Qed.
End durable.

(** ** A concrete run: one type, one dump, one worker *)

#[local] Instance demo_schema : DurableSchema := {|
  initial_generation := 0;
  new_job now g :=
    {| j_generation := g; j_state := Pending; j_attempts := 0; j_next := Some now; j_owner := None; j_token := None;
       j_epoch := 0; j_expires := None; j_error := None; j_created := now; j_started := None; j_completed := None;
       j_superseded := None |};
  new_job_generation _ _ := eq_refl;
  new_job_state _ _ := eq_refl;
  new_job_due _ _ := eq_refl;
|}.

Definition demo_types : list string := ["artists"].
Definition demo_start : durable := {| cursor := None; jobs := ∅; latch := ∅ |}.
Definition demo_repr (_ : json) : string := "".
Definition demo_signal := record_durable_signal demo_repr 0 (JStr "20240101") "artists" demo_types demo_start.
Definition demo_claim : ClaimedJob :=
  {| k_version := "20240101"; k_generation := 1; k_token := 1%positive; k_epoch := 1; k_attempts := 1 |}.
Definition demo_claimed : durable := (claim_due_job 1 "worker" 1%positive demo_signal.1).1.
Definition demo_round : round :=
  {| r_claim_at := 1; r_start_clock := 2; r_lost_at_start := false; r_meanwhile := id; r_pass := Ok ();
     r_lost_at_finish := false; r_commit_at := 60; r_commit_clock := 61; r_fail_at := 62 |}.

Lemma demo_initial : initial demo_start.
Proof.
  split; [done|]. split; [done|]. intros v r. cbn [latch demo_start]. by rewrite lookup_empty.
Qed.

Lemma demo_signal_step : step demo_types (demo_start, []) (demo_signal.1, []).
Proof. apply (step_signal _ demo_repr 0 (JStr "20240101") "artists" _ _ demo_signal.2). apply surjective_pairing. Qed.

Lemma demo_signalled : reachable demo_types (demo_signal.1, []).
Proof. eapply reach_step; [|apply demo_signal_step]. apply reach_initial, demo_initial. Qed.

Lemma demo_claim_eq : claim_due_job 1 "worker" 1%positive demo_signal.1 = (demo_claimed, Some demo_claim).
Proof.
  rewrite (surjective_pairing (claim_due_job _ _ _ _)). unfold demo_claimed. f_equal; vm_compute; reflexivity.
Qed.

Lemma demo_claim_step : step demo_types (demo_signal.1, []) (demo_claimed, [demo_claim]).
Proof. apply (step_claim _ 1 "worker" 1%positive), demo_claim_eq. Qed.

Lemma demo_reachable : reachable demo_types (demo_claimed, [demo_claim]).
Proof. eapply reach_step; [apply demo_signalled|apply demo_claim_step]. Qed.

Lemma durable_state_monotone_witness :
  reachable demo_types (demo_signal.1, []) ∧ ∃ c, cursor demo_claimed = Some c ∧ 1 <= c_generation c.
Proof.
  split; [exact demo_signalled|].
  destruct (durable_state_monotone demo_types _ _ demo_signalled (rtc_once _ _ demo_claim_step)) as (_ & Hc & _).
  destruct (cursor demo_signal.1) as [c0|] eqn:H0; [|by vm_compute in H0].
  assert (c_generation c0 = 1) as Hg.
  { assert (c_generation <$> cursor demo_signal.1 = Some 1) as H1 by (vm_compute; reflexivity).
    rewrite H0 in H1. by injection H1. }
  destruct (Hc c0 H0) as (c & Hcc & Hadv). exists c. split; [exact Hcc|]. lia.
Defined.

Lemma commit_fenced_witness :
  reachable demo_types (demo_claimed, [demo_claim]) ∧
  ∃ s', _before_commit 60 61 demo_claim demo_claimed = Ok s' ∧
    _before_commit 70 71 demo_claim s' = Raise SupersededJob.
Proof.
  split; [exact demo_reachable|].
  assert (is_ok (_before_commit 60 61 demo_claim demo_claimed) = true) as Hok by (vm_compute; reflexivity).
  destruct (_before_commit 60 61 demo_claim demo_claimed) as [s'|] eqn:Hc; [|done]. exists s'. split; [done|].
  assert (demo_claim ∈ [demo_claim]) as Hin by (by left).
  destruct (commit_fenced demo_types _ _ _ _ _ _ demo_reachable Hin Hc) as (_ & _ & _ & Hafter).
  apply (Hafter (s', [demo_claim]) demo_claim 70 71); [apply rtc_refl|done|done].
Defined.

Lemma refresh_obligation_never_lost_witness :
  ∃ T, ∀ t owner token, T <= t → ∃ s1 claimed, claim_due_job t owner token demo_claimed = (s1, claimed) ∧
    ((∃ k, claimed = Some k ∧ k_version k = "20240101") ∨
     (claimed = None ∧ ∃ k, (claim_due_job (t + 256) owner token s1).2 = Some k ∧ k_version k = "20240101")).
Proof.
  destruct (cursor demo_claimed) as [c|] eqn:Hc; [|by vm_compute in Hc].
  destruct (latch demo_claimed !! key "20240101") as [r|] eqn:Hr; [|by vm_compute in Hr].
  assert ((c_generation <$> cursor demo_claimed) = Some 1 ∧ (cursor demo_claimed ≫= c_version) = Some "20240101") as [Hg Hv]
    by (vm_compute; split; reflexivity).
  assert ((r ← latch demo_claimed !! key "20240101"; Some (Latch.generation r, refreshed_at r, has_all demo_types (signals r)))
          = Some (Some 1, None, true)) as Hrow by (vm_compute; reflexivity).
  rewrite Hc in Hg, Hv. rewrite Hr in Hrow. simpl in Hg, Hv, Hrow. injection Hg as Hg. injection Hrow as Hrg Hrn Hall.
  assert (Latch.generation r = Some (c_generation c)) as Hrc by congruence.
  destruct (refresh_obligation_never_lost demo_types _ _ c "20240101" r demo_reachable Hc Hv Hr Hrc
    (proj1 (has_all_spec demo_types (signals r)) Hall) Hrn) as [T HT].
  exists T. intros t owner token Ht. specialize (HT t (t + 256) owner owner token token Ht ltac:(lia)).
  destruct (claim_due_job t owner token demo_claimed) as [s1 claimed]. exists s1, claimed. split; [done|exact HT].
Defined.

Lemma worker_round_outcome_witness :
  reachable demo_types (demo_signal.1, []) ∧
  ∃ row j s', run_worker_once "worker" 1%positive demo_round demo_signal.1 = (s', true) ∧
    latch s' !! key "20240101" = Some (stamp 60 row) ∧
    jobs s' !! "20240101" = Some (complete 60 j).
Proof.
  split; [exact demo_signalled|].
  pose proof (worker_round_outcome demo_types _ _ "worker" 1%positive demo_round demo_signalled) as Hr.
  change (r_claim_at demo_round) with 1 in Hr. rewrite demo_claim_eq in Hr.
  specialize (Hr [demo_claim] (rtc_refl _ _)). destruct Hr as [Hok Hr].
  change (r_meanwhile demo_round demo_claimed) with demo_claimed in Hr.
  assert (_owns_lease (r_commit_clock demo_round) demo_claim demo_claimed = true) as Hown by (vm_compute; reflexivity).
  rewrite Hown in Hr. change (r_start_clock demo_round <? 1 + _LEASE_SECONDS) with true in Hr.
  change (r_pass demo_round) with (Ok () : result unit) in Hr. rewrite bool_decide_eq_true_2 in Hr by done.
  cbn [negb andb r_lost_at_start r_lost_at_finish demo_round] in Hr. destruct Hr as (row & j & _ & _ & Hl & Hj).
  exists row, j. eexists. split; [rewrite (surjective_pairing (run_worker_once _ _ _ _)), Hok; reflexivity|].
  split; [|exact Hj]. rewrite Hl. apply lookup_insert_eq.
Defined.

Lemma durable_signal_contract_witness :
  reachable demo_types (demo_signal.1, []) ∧
  ∃ sig, (record_durable_signal demo_repr 5 (JStr "20231201") "artists" demo_types demo_signal.1).2 = Ok sig ∧
    d_superseded sig = true ∧ d_version sig = "20231201".
Proof.
  split; [exact demo_signalled|].
  pose proof (durable_signal_contract demo_repr demo_types 5 (JStr "20231201") "artists" _ _ demo_signalled) as Hc.
  cbv zeta in Hc.
  assert (match (record_durable_signal demo_repr 5 (JStr "20231201") "artists" demo_types demo_signal.1).2 with
          | Ok sig => d_superseded sig | Raise _ => false end = true) as Hs by (vm_compute; reflexivity).
  destruct (record_durable_signal demo_repr 5 (JStr "20231201") "artists" demo_types demo_signal.1) as [s' [sig|]]; [|done].
  exists sig. split; [done|]. split; [exact Hs|]. destruct Hc as (_ & v & c & r & Hv & _ & _ & _ & -> & _).
  assert (ordered_version demo_repr (JStr "20231201") = Ok "20231201") as Hv' by (vm_compute; reflexivity). congruence.
Defined.

Lemma ordered_version_order_witness :
  ordered_version demo_repr (JStr " 20240229 ") = Ok "20240229" ∧ text_lt "20240229" "20240301" = true.
Proof.
  assert (ordered_version demo_repr (JStr " 20240229 ") = Ok "20240229") as Ha by (vm_compute; reflexivity).
  assert (ordered_version demo_repr (JStr "20240301") = Ok "20240301") as Hb by (vm_compute; reflexivity).
  split; [exact Ha|].
  destruct (ordered_version_order demo_repr _ _ _ _ Ha Hb) as (_ & _ & Hlt). apply Hlt. vm_compute. reflexivity.
Defined.

Lemma health_reports_stuck_refresh_witness :
  reachable demo_types (demo_signal.1, []) ∧ h_phase (read_refresh_health 301 demo_signal.1) = PhaseJob Pending ∧
  h_degraded (read_refresh_health 301 demo_signal.1) = true.
Proof.
  split; [exact demo_signalled|].
  destruct (cursor demo_signal.1) as [c|] eqn:Hc; [|by vm_compute in Hc].
  assert ((cursor demo_signal.1 ≫= c_version) = Some "20240101") as Hv by (vm_compute; reflexivity).
  assert ((j ← jobs demo_signal.1 !! "20240101"; Some (j_state j, j_created j)) = Some (Pending, 0)) as Hj
    by (vm_compute; reflexivity).
  rewrite Hc in Hv. simpl in Hv.
  pose proof (health_reports_stuck_refresh demo_types _ _ 301 c _ demo_signalled Hc Hv) as Hh. cbv zeta in Hh.
  simpl fst in Hh. destruct (jobs demo_signal.1 !! "20240101") as [j|]; [|done]. simpl in Hj. injection Hj as Hst Hcr.
  rewrite Hst in Hh. destruct Hh as (_ & _ & Hp & _ & _ & Hd). split; [exact Hp|]. apply Hd.
  right. left. split; [done|]. rewrite Hcr. done.
Defined.
