(* ===== verification/Batch.v ===== *)
(** * Batches of deliveries: [batch_processor.py]

    What this repository adds to the shared batch engine: the sink that writes a batch and
    narrows a deterministic failure to the records that cause it, the observer that keeps
    the counts health and the purge veto read, and the processor's main operations; the rest are in
    [Processor].  The
    engine, its snapshot, the failure classifier and [normalize_record] are the shared
    runtime's and stay parameters.  Clock readings are integers of the clock's resolution;
    log lines are not modelled, and the metrics are in [Processor]. *)

From S2P Require Import Prelude Json Runtime Contract Identity GraphWriter Entities.
From Stdlib Require Import SpecFloat.

(** ** Configuration *)

Definition b64 (n : Z) : spec_float := binary_normalize 53 1024 n 0 false.
Definition fadd : spec_float → spec_float → spec_float := SFadd 53 1024.
Definition fmul : spec_float → spec_float → spec_float := SFmul 53 1024.

Definition BROKER_CONSUMER_TIMEOUT_S : spec_float := b64 1800.
Definition DEFAULT_MAX_HOLD_S : spec_float := b64 1500.
Definition DEFAULT_MAX_REQUEUES : Z := 60.
Definition DEFAULT_STALL_S : spec_float := b64 300.

Definition validate_stall_s (stall_s : spec_float) (max_hold_s : option spec_float) : result spec_float :=
  if negb (SFltb (b64 0) stall_s) then Raise ValueError
  else match max_hold_s with
       | Some hold => if SFleb hold stall_s then Raise ValueError else Ok stall_s
       | None => Ok stall_s
       end.

Record BatchConfig := {
  batch_size : Z;
  flush_interval : spec_float;
  max_pending : Z;
  max_concurrent_flushes : Z;
  min_batch_size : Z;
  backoff_initial : spec_float;
  backoff_max : spec_float;
  backoff_multiplier : spec_float;
  max_flush_retries : nat;
  max_poison_retries : Z;
  max_hold_s : option spec_float;
  max_requeues : option Z;
  max_write_s : option spec_float;
}.

(** The arguments of [BatchPolicy]. *)
Record BatchPolicy := {
  p_batch_size : Z;
  p_flush_interval_s : spec_float;
  p_max_pending : Z;
  p_max_concurrent_flushes : Z;
  p_min_batch_size : Z;
  p_backoff_initial_s : spec_float;
  p_backoff_max_s : spec_float;
  p_backoff_multiplier : spec_float;
  p_max_drain_retries : nat;
  p_max_poison_retries : Z;
  p_max_hold_s : option spec_float;
  p_max_requeues : option Z;
  p_max_write_s : option spec_float;
}.

(** [__post_init__]; the grace is the shared runtime's constant. *)
Definition post_init (WRITE_CANCEL_GRACE_S : spec_float) (c : BatchConfig) : result () :=
  match max_hold_s c with
  | None => Ok ()
  | Some hold =>
      match max_write_s c with
      | None => Raise ValueError
      | Some write =>
          let write_budget_s := fmul (b64 2) (fadd write WRITE_CANCEL_GRACE_S) in
          let worst_case_s := fadd (fadd (fadd hold write_budget_s) (flush_interval c)) (backoff_max c) in
          if SFleb BROKER_CONSUMER_TIMEOUT_S worst_case_s then Raise ValueError else Ok ()
      end
  end.

Definition runtime_policy (c : BatchConfig) : BatchPolicy :=
  {| p_batch_size := batch_size c;
     p_flush_interval_s := flush_interval c;
     p_max_pending := max_pending c;
     p_max_concurrent_flushes := max_concurrent_flushes c;
     p_min_batch_size := Z.min (min_batch_size c) (batch_size c);
     p_backoff_initial_s := backoff_initial c;
     p_backoff_max_s := backoff_max c;
     p_backoff_multiplier := backoff_multiplier c;
     p_max_drain_retries := max_flush_retries c;
     p_max_poison_retries := max_poison_retries c;
     p_max_hold_s := max_hold_s c;
     p_max_requeues := max_requeues c;
     p_max_write_s := max_write_s c |}.

(** ** Deliveries *)

Inductive Settlement := ACK | REJECT | REQUEUE.

#[export] Instance settlement_eq_dec : EqDecision Settlement.
Proof. solve_decision. Defined.

Inductive FailureKind := TRANSIENT | DETERMINISTIC.

Record BatchItemResult := { i_settlement : Settlement; i_outcome : string }.

Record DeliveryResult := { r_settlement : Settlement; r_outcome : string; r_error_type : option string }.

Record PendingMessage := {
  m_data_type : string;
  m_data_id : json;
  m_data : dict;
  m_sha256 : json;
  m_started_at : Z;
}.

(** What a delivery's callbacks are asked to do. *)
Inductive callback := AckCallback | NackCallback | RequeueCallback.

(** [_CallbackDelivery.nack]; [can_requeue] tells whether a requeue callback was given. *)
Definition delivery_nack (can_requeue requeue : bool) : result callback :=
  if requeue then if can_requeue then Ok RequeueCallback else Raise ValueError else Ok NackCallback.

(** ** The observer, one type at a time *)

Record _FlushState := {
  f_started_at : Z;
  f_size : nat;
  f_settled : nat;
  f_rejected : nat;
  f_media_backfilled : nat;
  f_identity_backfilled : nat;
  f_error : option exn;
  f_record_ids : list json;
}.

(** The entries of every dictionary of the observer for one type. *)
Record lane := {
  accepted_at : list Z;
  last_settled_at : Z;
  held_since : option Z;
  flush_state : option _FlushState;
  had_dlq : bool;
  processed : Z;
  requeued : Z;
  batches : Z;
  media_backfilled : Z;
  identity_backfilled : Z;
}.

Definition fresh_lane (monotonic : Z) : lane :=
  {| accepted_at := []; last_settled_at := monotonic; held_since := None; flush_state := None; had_dlq := false;
     processed := 0; requeued := 0; batches := 0; media_backfilled := 0; identity_backfilled := 0 |}.

Definition set_accepted (l : list Z) (ln : lane) : lane :=
  {| accepted_at := l; last_settled_at := last_settled_at ln; held_since := held_since ln;
     flush_state := flush_state ln; had_dlq := had_dlq ln; processed := processed ln; requeued := requeued ln;
     batches := batches ln; media_backfilled := media_backfilled ln; identity_backfilled := identity_backfilled ln |}.

Definition set_state (st : option _FlushState) (ln : lane) : lane :=
  {| accepted_at := accepted_at ln; last_settled_at := last_settled_at ln; held_since := held_since ln;
     flush_state := st; had_dlq := had_dlq ln; processed := processed ln; requeued := requeued ln;
     batches := batches ln; media_backfilled := media_backfilled ln; identity_backfilled := identity_backfilled ln |}.

Definition set_dlq (b : bool) (ln : lane) : lane :=
  {| accepted_at := accepted_at ln; last_settled_at := last_settled_at ln; held_since := held_since ln;
     flush_state := flush_state ln; had_dlq := b; processed := processed ln; requeued := requeued ln;
     batches := batches ln; media_backfilled := media_backfilled ln; identity_backfilled := identity_backfilled ln |}.

Definition accepted (started_at : Z) (ln : lane) : lane := set_accepted (accepted_at ln ++ [started_at]) ln.

(** [deque.remove]: the first equal entry; a missing one is suppressed. *)
Fixpoint remove_first (x : Z) (l : list Z) : list Z :=
  match l with
  | [] => []
  | y :: l => if decide (x = y) then l else y :: remove_first x l
  end.

Definition withdrawn (started_at : Z) (ln : lane) : lane :=
  set_accepted (remove_first started_at (accepted_at ln)) ln.

Definition add_write_result (r : BatchWriteResult) (f : _FlushState) : _FlushState :=
  {| f_started_at := f_started_at f; f_size := f_size f; f_settled := f_settled f; f_rejected := f_rejected f;
     f_media_backfilled := f_media_backfilled f + size (media_backfilled_ids r);
     f_identity_backfilled := f_identity_backfilled f + size (identity_backfilled_ids r);
     f_error := f_error f; f_record_ids := f_record_ids f |}.

Definition add_write_failure (e : exn) (ids : list json) (f : _FlushState) : _FlushState :=
  {| f_started_at := f_started_at f; f_size := f_size f; f_settled := f_settled f; f_rejected := f_rejected f;
     f_media_backfilled := f_media_backfilled f; f_identity_backfilled := f_identity_backfilled f;
     f_error := Some e; f_record_ids := ids |}.

(** [self._states[data_type]] raises without a flush in progress. *)
Definition with_state (f : _FlushState → _FlushState) (ln : lane) : result lane :=
  match flush_state ln with Some st => Ok (set_state (Some (f st)) ln) | None => Raise KeyError end.

Definition write_result (r : BatchWriteResult) : lane → result lane := with_state (add_write_result r).
Definition write_failed (e : exn) (ids : list json) : lane → result lane := with_state (add_write_failure e ids).

(** Entering and leaving the [flush] context. *)
Definition flush_enter (perf : Z) (size : nat) (ln : lane) : lane :=
  set_state (Some {| f_started_at := perf; f_size := size; f_settled := 0; f_rejected := 0;
                     f_media_backfilled := 0; f_identity_backfilled := 0; f_error := None; f_record_ids := [] |}) ln.
Definition flush_exit (ln : lane) : lane := set_state None ln.

Definition count_settled (rejected : bool) (f : _FlushState) : _FlushState :=
  {| f_started_at := f_started_at f; f_size := f_size f; f_settled := S (f_settled f);
     f_rejected := if rejected then S (f_rejected f) else f_rejected f;
     f_media_backfilled := f_media_backfilled f; f_identity_backfilled := f_identity_backfilled f;
     f_error := f_error f; f_record_ids := f_record_ids f |}.

Definition is_ack (s : Settlement) : bool := match s with ACK => true | _ => false end.
Definition is_requeue (s : Settlement) : bool := match s with REQUEUE => true | _ => false end.

(** [settled]; [perf] and [monotonic] are the two clocks. *)
Definition settled (perf monotonic : Z) (r : DeliveryResult) (ln : lane) : lane :=
  let s := r_settlement r in
  let state := count_settled (negb (is_ack s)) <$> flush_state ln in
  let started_at := match accepted_at ln with t :: _ => t | [] => perf end in
  let terminal_duration := perf - started_at in
  let complete := match state with
                  | Some f => Nat.eqb (f_settled f) (f_size f) && Nat.eqb (f_rejected f) 0
                  | None => false
                  end in
  {| accepted_at := tail (accepted_at ln);
     last_settled_at := if is_requeue s then last_settled_at ln else monotonic;
     held_since :=
       if is_requeue s then
         if bool_decide (r_outcome r = "held_timeout") && bool_decide (held_since ln = None)
         then Some (monotonic - terminal_duration) else held_since ln
       else None;
     flush_state := state;
     had_dlq := match s with REJECT => true | _ => had_dlq ln end;
     processed := if is_ack s then processed ln + 1 else processed ln;
     requeued := if is_requeue s then requeued ln + 1 else requeued ln;
     batches := if complete then batches ln + 1 else batches ln;
     media_backfilled := if is_ack s && bool_decide (r_outcome r = "media_backfilled")
                         then media_backfilled ln + 1 else media_backfilled ln;
     identity_backfilled :=
       if complete
       then identity_backfilled ln + Z.of_nat (default 0%nat (f_identity_backfilled <$> flush_state ln))
       else identity_backfilled ln |}.

Definition oldest_unsettled_age_s (perf : Z) (ln : lane) : Z :=
  match accepted_at ln with t :: _ => perf - t | [] => 0 end.
Definition held_age_s (monotonic : Z) (ln : lane) : Z :=
  match held_since ln with Some t => monotonic - t | None => 0 end.
Definition outstanding_accepted (ln : lane) : nat := length (accepted_at ln).
Definition had_dlq_nacks (ln : lane) : bool := had_dlq ln.
Definition reset_dlq_nacks (ln : lane) : lane := set_dlq false ln.

(** The age [stalled] compares; [queued] is the engine's oldest pending age. *)
Definition oldest_age (perf monotonic : Z) (queued : option Z) (ln : lane) : Z :=
  Z.max (Z.max (default 0 queued) (oldest_unsettled_age_s perf ln)) (held_age_s monotonic ln).

Definition stalled (perf monotonic stall_s : Z) (queued : option Z) (ln : lane) : option Z :=
  let age := oldest_age perf monotonic queued ln in
  if (stall_s <? age) && (stall_s <? monotonic - last_settled_at ln) then Some age else None.

(** ** The sink *)

(** Whether [message.data_id] is among a result's ids. *)
Class Message (M : Type) := {
  id_of : M → json;
  in_ids : M → gset string → bool;
}.

Definition json_in (v : json) (ids : gset string) : bool :=
  match v with JStr s => bool_decide (s ∈ ids) | _ => false end.

#[export] Instance pending_message : Message PendingMessage :=
  {| id_of := m_data_id; in_ids m := json_in (m_data_id m) |}.

#[export] Instance batch_record : Message BatchRecord :=
  {| id_of m := JStr (data_id m); in_ids m ids := bool_decide (data_id m ∈ ids) |}.

Definition _outcome `{Message M} (message : M) (r : BatchWriteResult) : string :=
  if in_ids message (media_backfilled_ids r) then "media_backfilled"
  else if in_ids message (unchanged_ids r) then "skipped"
  else "processed".

Definition acks `{Message M} (l : list M) (r : BatchWriteResult) : list BatchItemResult :=
  (λ m, {| i_settlement := ACK; i_outcome := _outcome m r |}) <$> l.

Definition poison : BatchItemResult := {| i_settlement := REJECT; i_outcome := "poison" |}.

(** What the sink needs of the writer: a batch that raises changed nothing. *)
Class AtomicWriter {S M} (process : list M → S → S * result BatchWriteResult) := {
  process_atomic l s s' e : process l s = (s', Raise e) → s' = s;
}.

Section sink.
Context `{Message M} {S : Type} (process : list M → S → S * result BatchWriteResult)
  (classify : exn → FailureKind).

(** A step of the sink: the database, the lane of the batch's type, and a value or an
    exception. *)
Definition sink A : Type := S * lane → (S * lane) * result A.

Definition sret {A} (a : A) : sink A := λ w, (w, Ok a).
Definition sraise {A} (e : exn) : sink A := λ w, (w, Raise e).
Definition sbind {A B} (c : sink A) (k : A → sink B) : sink B :=
  λ w, match c w with (w', Ok a) => k a w' | (w', Raise e) => (w', Raise e) end.

(** [try: c except ...]: the handler sees every exception. *)
Definition scatch {A B} (c : sink A) (ok : A → sink B) (handler : exn → sink B) : sink B :=
  λ w, match c w with (w', Ok a) => ok a w' | (w', Raise e) => handler e w' end.

Definition run_process (l : list M) : sink BatchWriteResult :=
  λ '(s, ln), let '(s', r) := process l s in ((s', ln), r).
Definition observe (f : lane → result lane) : sink () :=
  λ '(s, ln), match f ln with Ok ln' => ((s, ln'), Ok ()) | Raise e => ((s, ln), Raise e) end.

Definition deterministic (e : exn) : bool := match classify e with DETERMINISTIC => true | TRANSIENT => false end.

(** One round of the loop over the halves. *)
Definition write_half (isolate : list M → exn → sink (list BatchItemResult)) (half : list M)
    : sink (list BatchItemResult) :=
  scatch (run_process half)
    (λ r, sbind (observe (write_result r)) (λ _, sret (acks half r)))
    (λ half_error,
       if is_exception half_error then
         if deterministic half_error then isolate half half_error
         else sbind (observe (write_failed half_error [])) (λ _, sraise half_error)
       else sraise half_error).

(** [_isolate], on at most [fuel] nested halvings. *)
Fixpoint _isolate (fuel : nat) (payloads : list M) (error : exn) : sink (list BatchItemResult) :=
  match fuel with
  | 0%nat => sraise (OtherError "RecursionError")
  | Datatypes.S fuel =>
      match payloads with
      | [message] => sbind (observe (write_failed error [id_of message])) (λ _, sret [poison])
      | _ =>
          let middle := Nat.div2 (length payloads) in
          sbind (write_half (_isolate fuel) (take middle payloads)) (λ left,
          sbind (write_half (_isolate fuel) (drop middle payloads)) (λ right,
          sret (left ++ right)))
      end
  end.

Definition write (payloads : list M) : sink (list BatchItemResult) :=
  scatch (run_process payloads)
    (λ r, sbind (observe (write_result r)) (λ _, sret (acks payloads r)))
    (λ error,
       if is_exception error then
         if (Nat.ltb 1 (length payloads)) && deterministic error
         then _isolate (length payloads) payloads error
         else sbind (observe (write_failed error (id_of <$> payloads))) (λ _, sraise error)
       else sbind (observe (write_failed error [])) (λ _, sraise error)).

(** ** What a write settles *)

(** [settles s l s' rs]: from [s], the records of [l] are settled as [rs] says, each either
    in a committed batch or rejected because it fails on its own, leaving [s']. *)
Inductive settles : S → list M → S → list BatchItemResult → Prop :=
  | settles_none s : settles s [] s []
  | settles_commit s l s' r : process l s = (s', Ok r) → settles s l s' (acks l r)
  | settles_reject s m e : process [m] s = (s, Raise e) → deterministic e = true → settles s [m] s [poison]
  | settles_app s1 l1 s2 r1 l2 s3 r2 :
      settles s1 l1 s2 r1 → settles s2 l2 s3 r2 → settles s1 (l1 ++ l2) s3 (r1 ++ r2).

Lemma settles_length s l s' rs : settles s l s' rs → length rs = length l.
Proof.
  induction 1 as [| | |? ? ? ? ? ? ? _ IH1 _ IH2]; try done; [unfold acks; apply length_fmap|].
  by rewrite !length_app, IH1, IH2.
Qed.

Lemma write_result_ok r ln : flush_state ln ≠ None → ∃ ln', write_result r ln = Ok ln' ∧ flush_state ln' ≠ None.
Proof. unfold write_result, with_state. destruct (flush_state ln); [|done]. eexists. by split. Qed.

Lemma write_failed_ok e ids ln : flush_state ln ≠ None → ∃ ln', write_failed e ids ln = Ok ln' ∧ flush_state ln' ≠ None.
Proof. unfold write_failed, with_state. destruct (flush_state ln); [|done]. eexists. by split. Qed.

Context `{!AtomicWriter process}.

(** What is settled, or settled before an exception of the writer stopped the rest. *)
Definition settled_by (stops : exn → Prop) (l : list M) (s s' : S) (ln' : lane) (r : result (list BatchItemResult))
    : Prop :=
  flush_state ln' ≠ None ∧
  match r with
  | Ok rs => settles s l s' rs
  | Raise e => stops e ∧ (∃ l' s1, process l' s1 = (s1, Raise e)) ∧
      ∃ pre rest rs, l = pre ++ rest ∧ settles s pre s' rs
  end.

(** What stops an isolation: a cancellation or a transient failure. *)
Definition not_isolated (e : exn) : Prop := is_exception e = true → deterministic e = false.

Lemma settled_by_mono (P Q : exn → Prop) l s s' ln' r :
  (∀ e, P e → Q e) → settled_by P l s s' ln' r → settled_by Q l s s' ln' r.
Proof. intros HPQ [Hln Hr]. split; [done|]. destruct r; [done|]. destruct Hr as [? ?]. auto. Qed.

Lemma observed {A} (f : lane → result lane) (k : sink A) s ln ln' :
  f ln = Ok ln' → sbind (observe f) (λ _, k) (s, ln) = k (s, ln').
Proof. unfold sbind, observe. by intros ->. Qed.

Lemma half_settled isolate half s ln :
  (∀ e s ln, flush_state ln ≠ None → deterministic e = true → process half s = (s, Raise e) →
     ∃ s' ln' r, isolate half e (s, ln) = ((s', ln'), r) ∧ settled_by not_isolated half s s' ln' r) →
  flush_state ln ≠ None →
  ∃ s' ln' r, write_half isolate half (s, ln) = ((s', ln'), r) ∧ settled_by not_isolated half s s' ln' r.
Proof.
  intros IH Hln. unfold write_half, scatch, run_process. destruct (process half s) as [s1 [r|e]] eqn:Hp.
  - destruct (write_result_ok r ln Hln) as (ln1 & H1 & Hln1). rewrite (observed _ _ _ _ _ H1).
    eexists _, _, _. split; [done|]. split; [done|]. by apply settles_commit.
  - pose proof (process_atomic _ _ _ _ Hp) as ->.
    assert (∃ pre rest rs, half = pre ++ rest ∧ settles s pre s rs) as Hnone
      by (exists [], half, []; split; [done|constructor]).
    destruct (is_exception e) eqn:He.
    + destruct (deterministic e) eqn:Hd; [by apply IH|].
      destruct (write_failed_ok e [] ln Hln) as (ln1 & H1 & Hln1). rewrite (observed _ _ _ _ _ H1).
      eexists _, _, _. split; [done|]. split_and!; [done|by intros _|by exists half, s|done].
    + eexists _, _, _. split; [done|]. split_and!; [done|intros ?; congruence|by exists half, s|done].
Qed.

Lemma isolate_settled fuel payloads error s ln :
  payloads ≠ [] → (length payloads ≤ fuel)%nat → flush_state ln ≠ None → deterministic error = true →
  process payloads s = (s, Raise error) →
  ∃ s' ln' r, _isolate fuel payloads error (s, ln) = ((s', ln'), r) ∧ settled_by not_isolated payloads s s' ln' r.
Proof.
  induction fuel as [|fuel IH] in payloads, error, s, ln |- *; intros Hne Hlen Hln Hd Hp.
  { destruct payloads; simpl in Hlen; [done|lia]. }
  destruct payloads as [|m [|m2 rest]]; [done| |].
  - cbn [_isolate]. destruct (write_failed_ok error [id_of m] ln Hln) as (ln1 & H1 & Hln1).
    rewrite (observed _ _ _ _ _ H1). eexists _, _, _. split; [done|]. split; [done|]. by eapply settles_reject.
  - set (l := m :: m2 :: rest) in *. assert (2 ≤ length l)%nat as H2 by (unfold l; simpl; lia).
    set (middle := Nat.div2 (length l)).
    assert (1 ≤ middle ∧ middle < length l)%nat as [Hm1 Hm2].
    { unfold middle. rewrite Nat.div2_div. split; [apply Nat.div_le_lower_bound; lia|apply Nat.div_lt; lia]. }
    assert (length (take middle l) = middle ∧ length (drop middle l) = (length l - middle)%nat) as [Hl1 Hl2]
      by (rewrite length_take, length_drop; lia).
    change (_isolate (Datatypes.S fuel) l error (s, ln)) with
      (sbind (write_half (_isolate fuel) (take middle l)) (λ left,
       sbind (write_half (_isolate fuel) (drop middle l)) (λ right, sret (left ++ right))) (s, ln)).
    assert (∀ half, half = take middle l ∨ half = drop middle l → ∀ e s ln,
      flush_state ln ≠ None → deterministic e = true → process half s = (s, Raise e) →
      ∃ s' ln' r, _isolate fuel half e (s, ln) = ((s', ln'), r) ∧ settled_by not_isolated half s s' ln' r) as Hhalf.
    { intros half Hh e s0 ln0 Hln0 Hd0 Hp0. apply IH; [|destruct Hh as [-> | ->]; lia|done..].
      intros ->. destruct Hh as [Hh|Hh]; rewrite <-Hh in *; simpl in *; lia. }
    destruct (half_settled _ (take middle l) s ln (Hhalf _ (or_introl eq_refl)) Hln) as (s1 & ln1 & r1 & E1 & Hln1 & Hs1).
    unfold sbind at 1. rewrite E1. destruct r1 as [rs1|e1].
    2: { eexists _, _, _. split; [done|]. split; [done|]. destruct Hs1 as (He & Hraised & pre & rest' & rs & Heq & Hs).
         split_and!; [done..|]. exists pre, (rest' ++ drop middle l), rs. split; [|done].
         by rewrite app_assoc, <-Heq, take_drop. }
    destruct (half_settled _ (drop middle l) s1 ln1 (Hhalf _ (or_intror eq_refl)) Hln1) as (s2 & ln2 & r2 & E2 & Hln2 & Hs2).
    unfold sbind at 1. rewrite E2. destruct r2 as [rs2|e2].
    + eexists _, _, _. split; [done|]. split; [done|]. rewrite <-(take_drop middle l) at 1. by eapply settles_app.
    + eexists _, _, _. split; [done|]. split; [done|]. destruct Hs2 as (He & Hraised & pre & rest' & rs & Heq & Hs).
      split_and!; [done..|]. exists (take middle l ++ pre), rest', (rs1 ++ rs). split; [|by eapply settles_app].
      by rewrite <-app_assoc, <-Heq, take_drop.
Qed.

Lemma write_settled payloads s ln :
  flush_state ln ≠ None →
  ∃ s' ln' r, write payloads (s, ln) = ((s', ln'), r) ∧
    settled_by (λ e, not_isolated e ∨ (length payloads ≤ 1)%nat) payloads s s' ln' r.
Proof.
  intros Hln. unfold write, scatch, run_process. destruct (process payloads s) as [s1 [r|e]] eqn:Hp.
  { destruct (write_result_ok r ln Hln) as (ln1 & H1 & Hln1). rewrite (observed _ _ _ _ _ H1).
    eexists _, _, _. split; [done|]. split; [done|]. by apply settles_commit. }
  pose proof (process_atomic _ _ _ _ Hp) as ->.
  assert (∀ ids, not_isolated e ∨ (length payloads ≤ 1)%nat →
    ∃ s' ln' r, sbind (observe (write_failed e ids)) (λ _, sraise e) (s, ln) = ((s', ln'), r) ∧
      settled_by (λ e, not_isolated e ∨ (length payloads ≤ 1)%nat) payloads s s' ln' r) as Hfail.
  { intros ids Hcase. destruct (write_failed_ok e ids ln Hln) as (ln1 & H1 & Hln1).
    rewrite (observed _ _ _ _ _ H1). eexists _, _, _. split; [done|]. split; [done|].
    split_and!; [done|by exists payloads, s|]. exists [], payloads, []. split; [done|constructor]. }
  unfold not_isolated in *. destruct (is_exception e) eqn:He; [|by apply Hfail; left].
  destruct (Nat.ltb_spec 1 (length payloads)); simpl; [|apply Hfail; by right].
  destruct (deterministic e) eqn:Hd; [|by apply Hfail; left].
  destruct (isolate_settled (length payloads) payloads e s ln) as (s' & ln' & r & E & Hs); try done.
  { intros ->. simpl in *. lia. }
  exists s', ln', r. split; [done|]. eapply settled_by_mono; [|done]. by left.
Qed.

(** A batch write settles its records one by one, whatever the failures.  It returns one
    result per record, in order: an acknowledged record was in a batch whose transaction
    committed, a rejected one failed deterministically in a transaction of its own, and the
    database is what those commits left.  If instead it raises, the exception is the
    writer's and is never a deterministic failure of several records (those are narrowed):
    it is a cancellation, a transient failure, or the failure of a single record, and the
    database is what the commits of the records before it left. *)
Theorem write_settles payloads s ln :
  flush_state ln ≠ None →
  ∃ s' ln' r, write payloads (s, ln) = ((s', ln'), r) ∧
  match r with
  | Ok rs => length rs = length payloads ∧ settles s payloads s' rs
  | Raise e =>
      (∃ l' s1, process l' s1 = (s1, Raise e)) ∧
      (is_exception e = true → deterministic e = true → (length payloads ≤ 1)%nat) ∧
      ∃ pre rest rs, payloads = pre ++ rest ∧ settles s pre s' rs
  end.
Proof.
  intros Hln. destruct (write_settled payloads s ln Hln) as (s' & ln' & r & E & _ & Hr).
  exists s', ln', r. split; [done|]. destruct r as [rs|e].
  - split; [by eapply settles_length|done].
  - destruct Hr as (He & Hraised & Hpre). split_and!; [done| |done]. unfold not_isolated in He.
    intros H1 H2. destruct He as [He|He]; [rewrite He in H2 by done; done|done].
Qed.

(** ** Isolation *)

(** The records of [l] written, in order, by committed batches. *)
Inductive commits : S → list M → S → Prop :=
  | commits_none s : commits s [] s
  | commits_batch s l s' r : process l s = (s', Ok r) → commits s l s'
  | commits_app s1 l1 s2 l2 s3 : commits s1 l1 s2 → commits s2 l2 s3 → commits s1 (l1 ++ l2) s3.

Section poisoned.
Context (poisoned : M → bool).

(** The writer fails a batch iff it holds a poisoned record, and then deterministically. *)
Definition fails_on_poison : Prop := ∀ s l,
  if existsb poisoned l
  then ∃ e, is_exception e = true ∧ deterministic e = true ∧ process l s = (s, Raise e)
  else ∃ s' r, process l s = (s', Ok r).

Lemma settles_poison s l s' rs :
  fails_on_poison → settles s l s' rs →
  (i_settlement <$> rs = (λ m, if poisoned m then REJECT else ACK) <$> l) ∧
  commits s (filter (λ m, poisoned m = false) l) s'.
Proof.
  intros Hwriter. induction 1 as [s|s l s' r Hp|s m e Hp Hd|s1 l1 s2 r1 l2 s3 r2 _ [IH1 IH1'] _ [IH2 IH2']].
  - split; [done|constructor].
  - specialize (Hwriter s l). destruct (existsb poisoned l) eqn:Hx.
    { destruct Hwriter as (e & _ & _ & He). congruence. }
    assert (∀ m, m ∈ l → poisoned m = false) as Hall.
    { intros m Hm. apply not_true_is_false. intros Hpm.
      assert (existsb poisoned l = true); [|congruence]. apply existsb_exists. exists m.
      split; [by apply list_elem_of_In|done]. }
    split.
    + unfold acks. rewrite <-list_fmap_compose. apply list_fmap_ext. intros i m Hi. simpl.
      rewrite Hall; [done|]. by eapply list_elem_of_lookup_2.
    + assert (filter (λ m, poisoned m = false) l = l) as ->; [|by eapply commits_batch].
      by apply filter_all.
  - specialize (Hwriter s [m]). simpl in Hwriter. rewrite orb_false_r in Hwriter. csimpl.
    destruct (poisoned m) eqn:Hpm; [|destruct Hwriter as (? & ? & ?); congruence].
    split; [done|]. rewrite filter_cons, decide_False by (by rewrite Hpm). constructor.
  - split; [by rewrite !fmap_app, IH1, IH2|]. rewrite filter_app. by eapply commits_app.
Qed.

Lemma write_isolated payloads s ln :
  fails_on_poison → (2 ≤ length payloads)%nat → flush_state ln ≠ None →
  ∃ s' ln' rs, write payloads (s, ln) = ((s', ln'), Ok rs) ∧
    i_settlement <$> rs = (λ m, if poisoned m then REJECT else ACK) <$> payloads ∧
    commits s (filter (λ m, poisoned m = false) payloads) s'.
Proof.
  intros Hwriter Hlen Hln. destruct (write_settled payloads s ln Hln) as (s' & ln' & r & E & _ & Hr).
  destruct r as [rs|e].
  - exists s', ln', rs. split; [done|]. by apply settles_poison.
  - exfalso. destruct Hr as ([He|He] & (l' & s1 & Hp) & _); [|lia].
    specialize (Hwriter s1 l'). destruct (existsb poisoned l').
    + destruct Hwriter as (e' & H1 & H2 & Hp'). rewrite Hp' in Hp. injection Hp as <-.
      rewrite (He H1) in H2. done.
    + destruct Hwriter as (? & ? & ?). congruence.
Qed.

(** C14 Isolation rejects exactly the poisoned records.  When the writer fails a batch exactly
    because of the poisoned records in it, and deterministically, then writing any batch of
    two or more records terminates with a result for each: rejected for the poisoned ones
    and acknowledged for all others, and the others, in their order, are written by
    committed batches, each once. *)
Theorem write_isolates_exactly payloads s ln :
  fails_on_poison → (2 ≤ length payloads)%nat → flush_state ln ≠ None →
  ∃ s' ln' rs, write payloads (s, ln) = ((s', ln'), Ok rs) ∧
    i_settlement <$> rs = (λ m, if poisoned m then REJECT else ACK) <$> payloads ∧
    commits s (filter (λ m, poisoned m = false) payloads) s'.
Proof. exact (write_isolated payloads s ln). Qed.
End poisoned.
End sink.

(** The writer of this repository is atomic. *)
#[export] Instance process_batch_atomic `{CommonRuntime} {IS : IdentityService} key_of admission now data_type :
  AtomicWriter (process_batch key_of admission now data_type).
Proof.
  constructor. intros l s s' e. unfold process_batch. destruct admission; simpl.
  - apply process_batch_raised.
  - by intros [= <- _].
Qed.

(** ** The observer over a run of the engine *)

(** What the engine and the processor report for one type.  A settlement names the delivery
    it settles by its acceptance time, which the observer itself does not see. *)
Inductive event :=
  | Accepted (started_at : Z)
  | Withdrawn (started_at : Z)
  | FlushEnter (perf : Z) (size : nat)
  | FlushExit
  | Wrote (r : BatchWriteResult)
  | WriteFailed (e : exn) (ids : list json)
  | Settled (started_at : Z) (perf monotonic : Z) (r : DeliveryResult)
  | LocalReject
  | ResetDlq.

Definition kept (ln : lane) (r : result lane) : lane := match r with Ok ln' => ln' | Raise _ => ln end.

Definition apply_event (ln : lane) (ev : event) : lane :=
  match ev with
  | Accepted t => accepted t ln
  | Withdrawn t => withdrawn t ln
  | FlushEnter perf size => flush_enter perf size ln
  | FlushExit => flush_exit ln
  | Wrote r => kept ln (write_result r ln)
  | WriteFailed e ids => kept ln (write_failed e ids ln)
  | Settled _ perf monotonic r => settled perf monotonic r ln
  | LocalReject => set_dlq true ln
  | ResetDlq => reset_dlq_nacks ln
  end.

Definition run_events (evs : list event) (ln : lane) : lane := foldl apply_event ln evs.

Definition settles_as (s : Settlement) (ev : event) : bool :=
  match ev with Settled _ _ _ r => bool_decide (r_settlement r = s) | _ => false end.

Definition rejects (ev : event) : bool :=
  match ev with LocalReject => true | _ => settles_as REJECT ev end.

(** A delivery returned because it was held too long. *)
Definition holds_timeout (ev : event) : bool :=
  match ev with
  | Settled _ _ _ r => bool_decide (r_settlement r = REQUEUE) && bool_decide (r_outcome r = "held_timeout")
  | _ => false
  end.

(** A delivery dealt with: acknowledged or dead-lettered. *)
Definition progress (ev : event) : bool := settles_as ACK ev || settles_as REJECT ev.

Definition is_reset (ev : event) : bool := match ev with ResetDlq => true | _ => false end.

(** [some] happened in [evs], and nothing of [clears] after it. *)
Definition since {A} (some clears : A → bool) (evs : list A) : Prop :=
  ∃ pre ev post, evs = pre ++ ev :: post ∧ some ev = true ∧ ∀ x, x ∈ post → clears x = false.

Lemma since_app {A} (some clears : A → bool) evs ev :
  (some ev = true → clears ev = false) →
  since some clears (evs ++ [ev]) ↔ some ev = true ∨ (since some clears evs ∧ clears ev = false).
Proof.
  intros Hex. split.
  - intros (pre & x & post & E & Hx & Hpost). destruct post as [|y post _] using rev_ind.
    + apply app_inj_tail in E as [-> ->]. by left.
    + rewrite app_comm_cons, app_assoc in E. apply app_inj_tail in E as [-> ->]. right. split.
      * exists pre, x, post. split_and!; [done..|]. intros z Hz. apply Hpost, elem_of_app. by left.
      * apply Hpost, elem_of_app. right. by left.
  - intros [Hs|[(pre & x & post & -> & Hx & Hpost) Hc]].
    + exists evs, ev, []. split_and!; [done..|]. by intros x Hx%elem_of_nil.
    + exists pre, x, (post ++ [ev]). split_and!; [by rewrite <-app_assoc|done|].
      intros z [Hz|Hz%list_elem_of_singleton]%elem_of_app; [by apply Hpost|by subst].
Qed.

Lemma since_nil {A} (some clears : A → bool) : ¬ since some clears [].
Proof. intros (pre & x & post & E & _). by destruct pre. Qed.

Definition count (p : event → bool) (evs : list event) : Z := Z.of_nat (length (filter (λ ev, p ev = true) evs)).

Lemma count_app p evs ev : count p (evs ++ [ev]) = count p evs + (if p ev then 1 else 0).
Proof.
  unfold count. rewrite filter_app, length_app, Nat2Z.inj_add, filter_cons.
  destruct (p ev); [rewrite decide_True by done|rewrite decide_False by done]; done.
Qed.

Definition observed_totals (start : Z) (evs : list event) (ln : lane) : Prop :=
  processed ln = count (settles_as ACK) evs ∧
  requeued ln = count (settles_as REQUEUE) evs ∧
  (had_dlq ln = true ↔ since rejects is_reset evs) ∧
  (held_since ln ≠ None ↔ since holds_timeout progress evs) ∧
  (∀ t perf monotonic r, last (filter (λ ev, progress ev = true) evs) = Some (Settled t perf monotonic r) →
     last_settled_at ln = monotonic) ∧
  (last (filter (λ ev, progress ev = true) evs) = None → last_settled_at ln = start).

(** What an event that settles nothing changes of the totals. *)
Lemma kept_fields f ln :
  let ln' := kept ln (with_state f ln) in
  processed ln' = processed ln ∧ requeued ln' = requeued ln ∧ had_dlq ln' = had_dlq ln ∧
  held_since ln' = held_since ln ∧ last_settled_at ln' = last_settled_at ln ∧ accepted_at ln' = accepted_at ln.
Proof. unfold with_state. by destruct (flush_state ln). Qed.

Lemma kept_fields_more f ln :
  batches (kept ln (with_state f ln)) = batches ln ∧
  identity_backfilled (kept ln (with_state f ln)) = identity_backfilled ln ∧
  media_backfilled (kept ln (with_state f ln)) = media_backfilled ln.
Proof. unfold with_state. by destruct (flush_state ln). Qed.

Lemma observed_totals_quiet start evs ev ln ln' :
  progress ev = false → settles_as REQUEUE ev = false →
  processed ln' = processed ln → requeued ln' = requeued ln → held_since ln' = held_since ln →
  last_settled_at ln' = last_settled_at ln →
  (had_dlq ln' = true ↔ rejects ev = true ∨ (had_dlq ln = true ∧ is_reset ev = false)) →
  (rejects ev = true → is_reset ev = false) →
  observed_totals start evs ln → observed_totals start (evs ++ [ev]) ln'.
Proof.
  intros Hp Hq H1 H2 H3 H4 Hd Hex (I1 & I2 & I3 & I4 & I5 & I6). pose proof Hp as Hp'.
  unfold progress in Hp'. apply orb_false_iff in Hp' as [Ha Hr].
  assert (holds_timeout ev = false) as Hh.
  { destruct ev; try done. unfold holds_timeout, settles_as in *. by rewrite Hq. }
  unfold observed_totals. rewrite H1, H2, H3, H4, !count_app, Ha, Hq, !Z.add_0_r.
  rewrite filter_app, filter_cons, decide_False, filter_nil, app_nil_r by (by rewrite Hp).
  split_and!; [done|done| | |done|done].
  - rewrite Hd, since_app by done. by rewrite I3.
  - rewrite I4, since_app, Hh, Hp by (by rewrite Hh). naive_solver.
Qed.

(** Decide the equalities between constructors of the goal. *)
Ltac decide_constants :=
  repeat match goal with
  | |- context [bool_decide (?a = ?b)] =>
      first [rewrite (bool_decide_eq_true_2 (a = b)) by done | rewrite (bool_decide_eq_false_2 (a = b)) by done]
  end.

Lemma observed_totals_settled start evs t perf monotonic r ln :
  observed_totals start evs ln →
  observed_totals start (evs ++ [Settled t perf monotonic r]) (settled perf monotonic r ln).
Proof.
  intros (I1 & I2 & I3 & I4 & I5 & I6). unfold observed_totals. rewrite !count_app, filter_app, filter_cons, filter_nil.
  unfold settled. cbn [processed requeued had_dlq held_since last_settled_at].
  rewrite !since_app; unfold rejects, progress, holds_timeout, settles_as, is_reset;
    [|by destruct (r_settlement r)|done].
  destruct (r_settlement r) eqn:Hs; cbn [is_ack is_requeue].
  - decide_constants. cbn [orb andb].
    rewrite decide_True by done. rewrite last_snoc.
    split_and!; [by rewrite I1|by rewrite I2, Z.add_0_r|rewrite I3; clear; naive_solver| |by intros ? ? ? ? [= _ _ <- _]|done].
    split; [done|]. by intros [?|[? ?]].
  - decide_constants. cbn [orb andb].
    rewrite decide_True by done. rewrite last_snoc.
    split_and!; [by rewrite I1, Z.add_0_r|by rewrite I2, Z.add_0_r|by split; [left|]| |by intros ? ? ? ? [= _ _ <- _]|done].
    split; [done|]. by intros [?|[? ?]].
  - decide_constants. cbn [orb andb].
    rewrite decide_False by done. rewrite app_nil_r.
    split_and!; [by rewrite I1, Z.add_0_r|by rewrite I2|rewrite I3; clear; naive_solver| |done|done].
    rewrite <-I4. destruct (held_since ln) eqn:Hh.
    + rewrite andb_false_r. split; [by right|done].
    + rewrite andb_true_r. destruct (bool_decide (r_outcome r = "held_timeout")); [by split; [left|]|].
      split; [done|]. by intros [?|[? _]].
Qed.

Lemma run_totals start evs : observed_totals start evs (run_events evs (fresh_lane start)).
Proof.
  induction evs as [|ev evs IH] using rev_ind.
  - unfold observed_totals. simpl. split_and!; try done.
    + split; [done|]. intros Hs. by apply since_nil in Hs.
    + split; [done|]. intros Hs. by apply since_nil in Hs.
  - unfold run_events in *. rewrite foldl_app. simpl. set (ln := foldl _ _ _) in *.
    destruct ev; simpl;
      [| | | |destruct (kept_fields (add_write_result r) ln) as (? & ? & Hd & ? & ? & _)
       |destruct (kept_fields (add_write_failure e ids) ln) as (? & ? & Hd & ? & ? & _)
       |by apply observed_totals_settled| |];
      (apply (observed_totals_quiet start evs _ ln); [done|done|done|done|done|done| |done|exact IH]);
      unfold write_result, write_failed; rewrite ?Hd; simpl; naive_solver.
Qed.

(** *** When a wait began *)

(** The deliveries a run accepted and did not withdraw, less one for each settlement. *)
Definition entries (evs : list event) : list Z :=
  foldl (λ q ev, match ev with
                 | Accepted t => q ++ [t]
                 | Withdrawn t => remove_first t q
                 | Settled _ _ _ _ => tail q
                 | _ => q
                 end) [] evs.

(** The start of the wait that a return at [ev] reveals: on the monotonic clock, earlier than
    the return by what the oldest entry had waited on the other clock. *)
Definition wait_start (pre : list event) (ev : event) : option Z :=
  match ev with
  | Settled _ perf monotonic _ => Some (monotonic - (perf - default perf (head (entries pre))))
  | _ => None
  end.

(** [t] is the start of the wait the first return since the latest progress reveals. *)
Definition waits_since (evs : list event) (t : Z) : Prop :=
  ∃ pre ev post, evs = pre ++ ev :: post ∧ holds_timeout ev = true ∧ ¬ since holds_timeout progress pre ∧
    (∀ x, x ∈ post → progress x = false) ∧ wait_start pre ev = Some t.

Lemma waits_since_app evs ev t :
  (holds_timeout ev = true → progress ev = false) →
  waits_since (evs ++ [ev]) t ↔
  (holds_timeout ev = true ∧ ¬ since holds_timeout progress evs ∧ wait_start evs ev = Some t) ∨
  (waits_since evs t ∧ progress ev = false).
Proof.
  intros Hex. split.
  - intros (pre & x & post & E & Hx & Hs & Hpost & Ht). destruct post as [|y post _] using rev_ind.
    + apply app_inj_tail in E as [-> ->]. by left.
    + rewrite app_comm_cons, app_assoc in E. apply app_inj_tail in E as [-> ->]. right. split.
      * exists pre, x, post. split_and!; [done..| |done]. intros z Hz. apply Hpost, elem_of_app. by left.
      * apply Hpost, elem_of_app. right. by left.
  - intros [(Hh & Hs & Ht)|[(pre & x & post & -> & Hx & Hs & Hpost & Ht) Hp]].
    + exists evs, ev, []. split_and!; [done..| |done]. by intros x Hx%elem_of_nil.
    + exists pre, x, (post ++ [ev]). split_and!; [by rewrite <-app_assoc|done|done| |done].
      intros z [Hz|Hz%list_elem_of_singleton]%elem_of_app; [by apply Hpost|by subst].
Qed.

Lemma waits_since_since evs t : waits_since evs t → since holds_timeout progress evs.
Proof. intros (pre & ev & post & -> & Hh & _ & Hpost & _). by exists pre, ev, post. Qed.

Lemma holds_no_progress ev : holds_timeout ev = true → progress ev = false.
Proof. destruct ev; try done. unfold holds_timeout, progress, settles_as. by destruct (r_settlement r). Qed.

Lemma run_entries start evs : accepted_at (run_events evs (fresh_lane start)) = entries evs.
Proof.
  unfold run_events, entries. induction evs as [|ev evs IH] using rev_ind; [done|]. rewrite !foldl_app. cbn [foldl].
  rewrite <-IH. destruct ev; simpl; try done; unfold write_result, write_failed; by apply kept_fields.
Qed.

Lemma settled_held t perf monotonic r ln :
  let ev := Settled t perf monotonic r in
  held_since (settled perf monotonic r ln) =
    if progress ev then None
    else if holds_timeout ev && bool_decide (held_since ln = None)
         then Some (monotonic - (perf - default perf (head (accepted_at ln)))) else held_since ln.
Proof.
  unfold settled, progress, holds_timeout, settles_as. cbn [held_since].
  destruct (r_settlement r); cbn [is_requeue]; repeat (rewrite ?bool_decide_eq_true_2 by done; rewrite ?bool_decide_eq_false_2 by done);
    try done. cbn [orb andb]. by destruct (accepted_at ln).
Qed.

Lemma run_held start evs t : held_since (run_events evs (fresh_lane start)) = Some t ↔ waits_since evs t.
Proof.
  revert t. induction evs as [|ev evs IH] using rev_ind; intros t.
  { split; [done|]. intros Hw. apply waits_since_since in Hw. by apply since_nil in Hw. }
  rewrite waits_since_app by apply holds_no_progress.
  destruct (run_totals start evs) as (_ & _ & _ & Hheld & _). pose proof (run_entries start evs) as Hq.
  unfold run_events in *. rewrite foldl_app. cbn [foldl]. set (ln := foldl _ _ evs) in *.
  assert (held_since (apply_event ln ev) =
    if progress ev then None
    else if holds_timeout ev && bool_decide (held_since ln = None) then wait_start evs ev else held_since ln) as ->.
  { destruct ev; simpl apply_event; try done; unfold write_result, write_failed; try by apply kept_fields.
    rewrite (settled_held started_at), Hq. done. }
  destruct (progress ev) eqn:Hp.
  { split; [done|]. intros [(Hh & _)|[_ ?]]; [apply holds_no_progress in Hh; congruence|done]. }
  destruct (holds_timeout ev) eqn:Hh; cbn [andb]; [|rewrite IH; naive_solver].
  case_bool_decide as Hn.
  - assert (¬ since holds_timeout progress evs) as Hns by (rewrite <-Hheld; naive_solver).
    split; [by left; split_and!|]. intros [(_ & _ & ?)|[Hw _]]; [done|]. by apply waits_since_since in Hw.
  - apply Hheld in Hn. rewrite IH. naive_solver.
Qed.

(** *** Which flushes count as batches *)

(** The flush in progress: its size and what was reported inside it. *)
Definition current_flush (evs : list event) : option (nat * list event) :=
  foldl (λ fl ev, match ev with
                  | FlushEnter _ n => Some (n, [])
                  | FlushExit => None
                  | _ => (λ '(n, inner), (n, inner ++ [ev])) <$> fl
                  end) None evs.

Definition is_settlement (ev : event) : bool := match ev with Settled _ _ _ _ => true | _ => false end.

(** A settlement that completes its flush: it is the last of as many as the flush has
    records, and all of them are acknowledgements. *)
Definition completes (pre : list event) (ev : event) : bool :=
  match current_flush pre with
  | Some (n, inner) =>
      is_settlement ev && (count is_settlement (inner ++ [ev]) =? Z.of_nat n) && (count (settles_as ACK) (inner ++ [ev]) =? Z.of_nat n)
  | None => false
  end.

(** The records whose identities the writes of the current flush filled in. *)
Definition backfilled (evs : list event) : Z :=
  match current_flush evs with
  | Some (_, inner) => foldr (λ ev n, match ev with Wrote r => Z.of_nat (size (identity_backfilled_ids r)) + n | _ => n end) 0 inner
  | None => 0
  end.

Fixpoint sum_from (f : list event → event → Z) (pre evs : list event) : Z :=
  match evs with [] => 0 | ev :: evs => f pre ev + sum_from f (pre ++ [ev]) evs end.

(** The sum of [f] over the events of a run, each with what came before it. *)
Definition sum_over (f : list event → event → Z) (evs : list event) : Z := sum_from f [] evs.

Lemma sum_over_app f evs ev : sum_over f (evs ++ [ev]) = sum_over f evs + f evs ev.
Proof.
  unfold sum_over. assert (∀ pre, sum_from f pre (evs ++ [ev]) = sum_from f pre evs + f (pre ++ evs) ev) as H; [|apply (H [])].
  induction evs as [|x evs IH]; intros pre; simpl; [rewrite app_nil_r; lia|]. rewrite IH, <-app_assoc. simpl. lia.
Qed.

(** The observer's record of the flush in progress is that of the run. *)
Definition flush_matches (evs : list event) (ln : lane) : Prop :=
  match current_flush evs, flush_state ln with
  | Some (n, inner), Some f =>
      f_size f = n ∧ Z.of_nat (f_settled f) = count is_settlement inner ∧
      Z.of_nat (f_settled f) = Z.of_nat (f_rejected f) + count (settles_as ACK) inner ∧
      Z.of_nat (f_identity_backfilled f) = backfilled evs
  | None, None => True
  | _, _ => False
  end.

Lemma backfilled_snoc n inner ev :
  foldr (λ ev n, match ev with Wrote r => Z.of_nat (size (identity_backfilled_ids r)) + n | _ => n end) n (inner ++ [ev]) =
  foldr (λ ev n, match ev with Wrote r => Z.of_nat (size (identity_backfilled_ids r)) + n | _ => n end) n inner +
  match ev with Wrote r => Z.of_nat (size (identity_backfilled_ids r)) | _ => 0 end.
Proof. rewrite foldr_app. simpl. induction inner as [|[] inner IH]; simpl; try exact IH; [destruct ev; lia|]. rewrite IH. lia. Qed.

Lemma run_flush_matches start evs : flush_matches evs (run_events evs (fresh_lane start)).
Proof.
  induction evs as [|ev evs IH] using rev_ind; [done|]. revert IH. unfold run_events, flush_matches, backfilled, current_flush.
  rewrite !foldl_app. cbn [foldl]. set (ln := foldl apply_event _ evs). set (fl := foldl _ None evs).
  destruct ev; simpl apply_event; try done;
    destruct fl as [[n inner]|], (flush_state ln) as [f|] eqn:Ef; try done; simpl;
    unfold write_result, write_failed, with_state, kept; rewrite ?Ef; simpl; try done;
    rewrite ?count_app, ?backfilled_snoc; simpl;
    intros (H1 & H2 & H3 & H4); split_and!; try done; try lia.
  all: unfold settles_as in *; destruct (r_settlement r); simpl in *; decide_constants; lia.
Qed.

(** The remaining totals, each a sum over the run. *)
Lemma run_batches start evs :
  let ln := run_events evs (fresh_lane start) in
  batches ln = sum_over (λ pre ev, if completes pre ev then 1 else 0) evs ∧
  identity_backfilled ln = sum_over (λ pre ev, if completes pre ev then backfilled pre else 0) evs ∧
  media_backfilled ln = count (λ ev, match ev with
                                     | Settled _ _ _ r => is_ack (r_settlement r) && bool_decide (r_outcome r = "media_backfilled")
                                     | _ => false
                                     end) evs.
Proof.
  induction evs as [|ev evs IH] using rev_ind; [done|]. cbv zeta in *. rewrite !sum_over_app, count_app.
  pose proof (run_flush_matches start evs) as Hm. unfold flush_matches in Hm.
  unfold run_events in *. rewrite !foldl_app. cbn [foldl]. set (ln := foldl apply_event _ evs) in *.
  destruct IH as (I1 & I2 & I3). rewrite <-I1, <-I2, <-I3. clear I1 I2 I3. unfold completes.
  destruct ev; simpl apply_event; cbn [is_settlement andb]; unfold write_result, write_failed;
    try (destruct (current_flush evs) as [[n inner]|]; rewrite !Z.add_0_r; first [done|apply kept_fields_more]).
  unfold settled. cbn [batches identity_backfilled media_backfilled].
  destruct (current_flush evs) as [[n inner]|], (flush_state ln) as [f|]; try done; cbn [fmap option_fmap option_map].
  - destruct Hm as (H1 & H2 & H3 & H4). rewrite !count_app. cbn [is_settlement f_settled f_rejected f_size count_settled].
    assert (Nat.eqb (Datatypes.S (f_settled f)) (f_size f) && Nat.eqb (if negb (is_ack (r_settlement r)) then Datatypes.S (f_rejected f) else f_rejected f) 0 =
      ((count is_settlement inner + 1 =? Z.of_nat n) && (count (settles_as ACK) inner + (if settles_as ACK (Settled started_at perf monotonic r) then 1 else 0) =? Z.of_nat n))) as ->.
    { apply eq_true_iff_eq. rewrite !andb_true_iff, !Nat.eqb_eq, !Z.eqb_eq. unfold settles_as in *.
      destruct (r_settlement r); cbn [is_ack negb]; decide_constants; lia. }
    destruct (_ && _); cbn [default]; rewrite ?H4; 
      split_and!; unfold id; try lia; destruct (is_ack (r_settlement r) && bool_decide (r_outcome r = "media_backfilled")); lia.
  - split_and!; try lia. destruct (is_ack (r_settlement r) && bool_decide (r_outcome r = "media_backfilled")); lia.
Qed.

(** C29 The observer's totals tell what happened, whatever the interleaving of flushes, writes
    and settlements, inside or outside a flush.  After any run: the processed count is the
    number of acknowledgements, the requeued count that of requeues and the media count that
    of acknowledged media backfills; a batch is counted, with the identities its writes
    filled in, at each settlement that completes its flush with acknowledgements only; the
    purge veto stands iff a record was dead-lettered or refused since it was last reset, so
    that a requeue never sets it and no rejection is missed; a wait is on record iff a delivery
    was returned for being held too long and nothing of the type was acknowledged or
    dead-lettered since, and it starts where the first such return puts it, earlier than the
    return by what the oldest entry had waited, so that later returns never restart it; and
    the last progress is the time of the latest acknowledgement or rejection, or the start. *)
Theorem observer_totals start evs :
  let ln := run_events evs (fresh_lane start) in
  observed_totals start evs ln ∧
  (∀ t, held_since ln = Some t ↔ waits_since evs t) ∧
  batches ln = sum_over (λ pre ev, if completes pre ev then 1 else 0) evs ∧
  identity_backfilled ln = sum_over (λ pre ev, if completes pre ev then backfilled pre else 0) evs ∧
  media_backfilled ln = count (λ ev, match ev with
                                     | Settled _ _ _ r => is_ack (r_settlement r) && bool_decide (r_outcome r = "media_backfilled")
                                     | _ => false
                                     end) evs.
Proof. cbv zeta. split; [apply run_totals|]. split; [apply run_held|]. apply run_batches. Qed.

(** ** The accepted deliveries *)

(** [ledger evs live done]: the run of [evs] accepted the deliveries [live], in this order,
    and did not withdraw them; of those it settled [done].  A delivery is settled or
    withdrawn at most once, and only after it was accepted; one that is withdrawn has not
    been overtaken: whatever is settled so far was accepted before it. *)
Inductive ledger : list event → list Z → list Z → Prop :=
  | ledger_start : ledger [] [] []
  | ledger_accepted evs live done t :
      ledger evs live done → t ∉ live → ledger (evs ++ [Accepted t]) (live ++ [t]) done
  | ledger_settled evs live done t perf monotonic r :
      ledger evs live done → t ∈ live → t ∉ done →
      ledger (evs ++ [Settled t perf monotonic r]) live (t :: done)
  | ledger_withdrawn evs before after done t :
      ledger evs (before ++ t :: after) done → t ∉ done → (∀ u, u ∈ done → u ∈ before) →
      ledger (evs ++ [Withdrawn t]) (before ++ after) done
  | ledger_other evs live done ev :
      ledger evs live done →
      match ev with Accepted _ | Withdrawn _ | Settled _ _ _ _ => False | _ => True end →
      ledger (evs ++ [ev]) live done.

Lemma accepted_at_other ln ev :
  match ev with Accepted _ | Withdrawn _ | Settled _ _ _ _ => False | _ => True end →
  accepted_at (apply_event ln ev) = accepted_at ln.
Proof.
  destruct ev; try done; intros _; simpl; unfold write_result, write_failed;
    by destruct (kept_fields (add_write_result r) ln) as (? & ? & ? & ? & ? & ?)
    || by destruct (kept_fields (add_write_failure e ids) ln) as (? & ? & ? & ? & ? & ?).
Qed.

Lemma remove_first_app x l1 l2 : x ∉ l1 → remove_first x (l1 ++ x :: l2) = l1 ++ l2.
Proof.
  induction l1 as [|y l1 IH]; simpl; intros Hx; [by rewrite decide_True|].
  apply not_elem_of_cons in Hx as [Hne Hx]. rewrite decide_False by done. by rewrite IH.
Qed.

Lemma NoDup_length_lt (x : Z) (l k : list Z) : NoDup l → l ⊆ k → x ∈ k → x ∉ l → (length l < length k)%nat.
Proof.
  intros Hl Hlk Hx Hnx. change (length l < length k)%nat with (length (x :: l) ≤ length k)%nat.
  apply submseteq_length, NoDup_submseteq; [by apply NoDup_cons|]. intros y [->|Hy]%elem_of_cons; [done|by apply Hlk].
Qed.

Lemma ledger_deque start evs live done :
  ledger evs live done →
  NoDup live ∧ NoDup done ∧ done ⊆ live ∧
  accepted_at (run_events evs (fresh_lane start)) = drop (length done) live.
Proof.
  unfold run_events.
  induction 1 as [|evs live done t _ (Hl & Hd & Hs & IH) Ht|evs live done t perf monotonic r _ (Hl & Hd & Hs & IH) Hin Ht
    |evs before after done t _ (Hl & Hd & Hs & IH) Ht Hb|evs live done ev _ (Hl & Hd & Hs & IH) Hev];
    rewrite ?foldl_app; cbn [foldl].
  - split_and!; try apply NoDup_nil_2; done.
  - assert (length done ≤ length live)%nat by (apply submseteq_length, NoDup_submseteq; done).
    split_and!; [|done|set_solver|].
    + apply NoDup_app. split_and!; [done| |apply NoDup_singleton]. intros x Hx ->%list_elem_of_singleton. done.
    + simpl. rewrite IH, drop_app_le by done. done.
  - pose proof (NoDup_length_lt t done live Hd Hs Hin Ht).
    split_and!; [done|by apply NoDup_cons|set_solver|]. simpl. rewrite IH.
    cbn [length]. rewrite <-Nat.add_1_r, <-drop_drop. by destruct (drop (length done) live).
  - assert (length done ≤ length before)%nat by (apply submseteq_length, NoDup_submseteq; [done|set_solver]).
    apply NoDup_app in Hl as (Hl1 & Hl2 & Hl3). apply NoDup_cons in Hl3 as [Hta Hl3].
    split_and!; [|done|set_solver|].
    + apply NoDup_app. split_and!; [done| |done]. intros x Hx Hxa. apply (Hl2 x Hx). by right.
    + simpl. rewrite IH, !drop_app_le by done. apply remove_first_app. intros Hin.
      apply (Hl2 t); [|by left]. apply (list_elem_of_In _ _). apply list_elem_of_In in Hin.
      rewrite <-(take_drop (length done) before). apply in_or_app. by right.
  - split_and!; [done..|]. by rewrite accepted_at_other.
Qed.

(** Health's count of unsettled deliveries is exact, so that nothing is reported waiting
    once the engine is drained.  In any run that settles or withdraws each accepted delivery
    at most once, and withdraws none that was overtaken, in whatever order deliveries are
    settled, the observer's count is the number of deliveries that were neither settled nor
    withdrawn; and the count is zero exactly when all are. *)
Theorem outstanding_accepted_exact start evs live done :
  ledger evs live done →
  outstanding_accepted (run_events evs (fresh_lane start)) = length (filter (λ t, t ∉ done) live) ∧
  (outstanding_accepted (run_events evs (fresh_lane start)) = 0%nat ↔ ∀ t, t ∈ live → t ∈ done).
Proof.
  intros Hledger. destruct (ledger_deque start evs live done Hledger) as (Hl & Hd & Hs & E).
  unfold outstanding_accepted. rewrite E, length_drop.
  assert (length live = length done + length (filter (λ t, t ∉ done) live))%nat as Hlen.
  { rewrite <-length_app. apply Permutation_length, NoDup_Permutation; [done| |].
    - apply NoDup_app. split_and!; [done| |by apply NoDup_filter]. intros t Ht [Ht' _]%list_elem_of_filter. done.
    - intros t. rewrite elem_of_app, list_elem_of_filter. split.
      + intros Ht. destruct (decide (t ∈ done)); [by left|by right].
      + intros [Ht|[_ Ht]]; [by apply Hs|done]. }
  split; [lia|]. rewrite Hlen. split.
  - intros H0 t Ht. destruct (decide (t ∈ done)) as [?|Hn]; [done|]. exfalso.
    assert (t ∈ filter (λ t, t ∉ done) live) as Hin by (by apply list_elem_of_filter).
    destruct (filter (λ t, t ∉ done) live); [by apply elem_of_nil in Hin|simpl in *; lia].
  - intros Hall. assert (filter (λ t, t ∉ done) live = []) as ->; [|simpl; lia].
    destruct (filter (λ t, t ∉ done) live) as [|t rest] eqn:Ef; [done|].
    assert (t ∈ filter (λ t, t ∉ done) live) as [Hn Ht]%list_elem_of_filter by (rewrite Ef; by left).
    by destruct Hn; apply Hall.
Qed.

(** ** The processor *)

(** The shared engine, as the processor uses it for one type: the engine reports to the
    observer while it runs, so its operations also change the lane. *)
Class BatchEngine (E : Type) := {
  submit : string → PendingMessage → E * lane → (E * lane) * result ();
  engine_flush : string → E * lane → (E * lane) * bool;
  snapshot_pending : E → string → Z;
  snapshot_batch_size : E → string → Z;
}.

Section processor.
Context `{BatchEngine E} (normalize_record : string → dict → result dict) (config : BatchConfig).

(** [add_message]: the state, what the delivery's own callbacks were asked, and the answer. *)
Definition add_message (started : Z) (data_type : string) (data : dict) (w : E * lane)
    : (E * lane) * list callback * result bool :=
  let reject := ((w.1, set_dlq true w.2), [NackCallback], Ok false) in
  if negb (bool_decide (data_type ∈ DATA_TYPES)) then (w, [NackCallback], Ok false)
  else if negb (truthy (jget "id" data)) then reject
  else
    match normalize_record data_type data with
    | Raise e => if is_exception e then reject else (w, [], Raise e)
    | Ok normalized_data =>
        let pending := {| m_data_type := data_type; m_data_id := jget "id" data; m_data := normalized_data;
                          m_sha256 := jget_default "sha256" (JStr "") data; m_started_at := started |} in
        match submit data_type pending (w.1, accepted started w.2) with
        | ((e, ln), Raise err) => ((e, withdrawn started ln), [], Raise err)
        | ((e, ln), Ok _) =>
            let threshold := Z.min (snapshot_batch_size e data_type) (max_pending config) in
            if threshold <=? snapshot_pending e data_type
            then ((engine_flush data_type (e, ln)).1, [], Ok true)
            else ((e, ln), [], Ok true)
        end
    end.

(** The attempts of [flush_queue] from [attempt] on: the state, the attempts it slept after,
    and the answer. *)
Fixpoint flush_attempts (n attempt : nat) (data_type : string) (w : E * lane) : (E * lane) * list nat * bool :=
  match n with
  | 0%nat => (w, [], false)
  | S n =>
      let '(w, ok) := engine_flush data_type w in
      if ok then (w, [], true)
      else if snapshot_pending w.1 data_type =? 0 then (w, [], true)
      else let '(w, slept, answer) := flush_attempts n (S attempt) data_type w in (w, attempt :: slept, answer)
  end.

Definition flush_queue (data_type : string) (w : E * lane) : (E * lane) * list nat * bool :=
  flush_attempts (max_flush_retries config) 1 data_type w.

(** The states after each of [n] flushes. *)
Fixpoint flushed (n : nat) (data_type : string) (w : E * lane) : E * lane :=
  match n with 0%nat => w | S n => flushed n data_type (engine_flush data_type w).1 end.

Definition flush_gives_up (data_type : string) (w : E * lane) : Prop :=
  (engine_flush data_type w).2 = false ∧ snapshot_pending (engine_flush data_type w).1.1 data_type ≠ 0.

Lemma flush_attempts_spec n attempt data_type w :
  ∃ k, (k ≤ n)%nat ∧ (∀ i, (i < k)%nat → flush_gives_up data_type (flushed i data_type w)) ∧
    ((k = n ∧ flush_attempts n attempt data_type w = (flushed n data_type w, seq attempt n, false)) ∨
     ((k < n)%nat ∧ ¬ flush_gives_up data_type (flushed k data_type w) ∧
      flush_attempts n attempt data_type w = (flushed (S k) data_type w, seq attempt k, true))).
Proof.
  induction n as [|n IH] in attempt, w |- *; cbn [flush_attempts].
  { exists 0%nat. split_and!; [done|lia|by left]. }
  destruct (engine_flush data_type w) as [w1 ok] eqn:Hf.
  destruct (decide (flush_gives_up data_type w)) as [Hg|Hg].
  - pose proof Hg as Hg'. unfold flush_gives_up in Hg'. rewrite Hf in Hg'. destruct Hg' as [Hok Hp]. simpl in Hok, Hp. subst ok.
    rewrite (proj2 (Z.eqb_neq _ _) Hp). destruct (IH (S attempt) w1) as (k & Hk & Hall & Hcase).
    exists (S k). split; [lia|]. split.
    + intros [|i] Hi; [done|]. cbn [flushed]. rewrite Hf. apply Hall. lia.
    + destruct Hcase as [[-> E1]|(Hlt & Hn & E1)]; rewrite E1.
      * left. split; [done|]. cbn [flushed]. by rewrite Hf.
      * right. split_and!; [lia|cbn [flushed]; by rewrite Hf|]. cbn [flushed]. by rewrite Hf.
  - exists 0%nat. split_and!; [lia|lia|]. right. split_and!; [lia|done|]. cbn [flushed]. rewrite Hf.
    unfold flush_gives_up in Hg. rewrite Hf in Hg. simpl in Hg. destruct ok; [done|].
    destruct (Z.eqb_spec (snapshot_pending w1.1 data_type) 0); [done|]. by destruct Hg.
Qed.

(** Draining a queue is bounded and honest.  [flush_queue] flushes at most the configured
    number of times and sleeps between: it stops with success at the first flush that the
    engine reports done or that leaves nothing pending, and it fails only after every one of
    those flushes failed with records still pending, which stay in the queue. *)
Theorem flush_queue_bounded data_type w :
  let '(w', slept, answer) := flush_queue data_type w in
  slept = seq 1 (length slept) ∧ (length slept ≤ max_flush_retries config)%nat ∧
  (∀ i, (i < length slept)%nat → flush_gives_up data_type (flushed i data_type w)) ∧
  if answer
  then w' = flushed (S (length slept)) data_type w ∧ (length slept < max_flush_retries config)%nat ∧
       ((engine_flush data_type (flushed (length slept) data_type w)).2 = true ∨ snapshot_pending w'.1 data_type = 0)
  else w' = flushed (length slept) data_type w ∧ length slept = max_flush_retries config.
Proof.
  unfold flush_queue. destruct (flush_attempts_spec (max_flush_retries config) 1 data_type w)
    as (k & Hk & Hall & [[-> ->]|(Hlt & Hn & ->)]); rewrite length_seq; split_and!; try done.
  destruct (decide ((engine_flush data_type (flushed k data_type w)).2 = true)) as [?|Hne]; [by left|].
  right. apply not_true_is_false in Hne.
  assert (flushed (S k) data_type w = (engine_flush data_type (flushed k data_type w)).1) as Hfk.
  { clear. induction k as [|k IH] in w |- *; [done|]. cbn [flushed]. apply IH. }
  rewrite Hfk. destruct (decide (snapshot_pending (engine_flush data_type (flushed k data_type w)).1.1 data_type = 0)) as [?|Hp]; [done|].
  by destruct Hn.
Qed.
End processor.

(** ** A concrete writer *)

Definition no_ids : BatchWriteResult := {| unchanged_ids := ∅; media_backfilled_ids := ∅; identity_backfilled_ids := ∅ |}.
Definition sample_poisoned (m : BatchRecord) : bool := bool_decide (data_id m = "bad").
Definition sample_process (l : list BatchRecord) (written : list string) : list string * result BatchWriteResult :=
  if existsb sample_poisoned l then (written, Raise (OtherError "DataError")) else (written ++ (data_id <$> l), Ok no_ids).
Definition sample_classify (e : exn) : FailureKind :=
  match e with DatabaseUnavailableError => TRANSIENT | _ => DETERMINISTIC end.

#[local] Instance sample_atomic : AtomicWriter sample_process.
Proof. constructor. intros l s s' e. unfold sample_process. destruct (existsb _ _); by intros [= <- _]. Qed.

Definition sample_batch : list BatchRecord :=
  (λ id, {| data_id := id; payload := []; sha256 := "" |}) <$> ["1"; "bad"; "2"].
Definition sample_lane : lane := flush_enter 0 3 (fresh_lane 0).

Lemma sample_fails_on_poison : fails_on_poison sample_process sample_classify sample_poisoned.
Proof.
  intros s l. unfold sample_process. destruct (existsb sample_poisoned l); [|by eexists _, _].
  exists (OtherError "DataError"). split_and!; [|done|done]. vm_compute. reflexivity.
Qed.

Lemma write_settles_witness :
  flush_state sample_lane ≠ None ∧
  ∃ s' ln' rs, write sample_process sample_classify sample_batch ([], sample_lane) = ((s', ln'), Ok rs) ∧ length rs = 3%nat.
Proof.
  split; [done|].
  destruct (write_settles sample_process sample_classify sample_batch [] sample_lane ltac:(done))
    as (s' & ln' & r & E & Hr).
  assert (is_ok (write sample_process sample_classify sample_batch ([], sample_lane)).2 = true) as Hok
    by (vm_compute; reflexivity).
  rewrite E in Hok. destruct r as [rs|]; [|done]. exists s', ln', rs. split; [exact E|]. exact (proj1 Hr).
Defined.

Lemma write_isolates_exactly_witness :
  fails_on_poison sample_process sample_classify sample_poisoned ∧
  ∃ s' ln' rs, write sample_process sample_classify sample_batch ([], sample_lane) = ((s', ln'), Ok rs) ∧
    i_settlement <$> rs = [ACK; REJECT; ACK] ∧ commits sample_process [] (filter (λ m, sample_poisoned m = false) sample_batch) s'.
Proof.
  split; [exact sample_fails_on_poison|].
  destruct (write_isolates_exactly sample_process sample_classify sample_poisoned sample_batch [] sample_lane
    sample_fails_on_poison ltac:(simpl; lia) ltac:(done)) as (s' & ln' & rs & E & Hrs & Hc).
  exists s', ln', rs. split; [exact E|]. split; [|exact Hc]. rewrite Hrs. vm_compute. reflexivity.
Defined.

Definition sample_result : DeliveryResult := {| r_settlement := ACK; r_outcome := "processed"; r_error_type := None |}.

Lemma sample_ledger :
  ledger [Accepted 1; Accepted 2; Settled 2 5 5 sample_result; Accepted 6; Withdrawn 6; Settled 1 7 7 sample_result]
    [1; 2] [1; 2].
Proof.
  assert (ledger [Accepted 1] [1] []) as H1 by (apply (ledger_accepted [] []); [constructor|by intros ?%elem_of_nil]).
  assert (ledger [Accepted 1; Accepted 2] [1; 2] []) as H2
    by (apply (ledger_accepted [Accepted 1] [1]); [exact H1|decide_now]).
  assert (ledger [Accepted 1; Accepted 2; Settled 2 5 5 sample_result] [1; 2] [2]) as H3
    by (apply (ledger_settled [Accepted 1; Accepted 2]); [exact H2|decide_now|by intros ?%elem_of_nil]).
  assert (ledger [Accepted 1; Accepted 2; Settled 2 5 5 sample_result; Accepted 6] [1; 2; 6] [2]) as H4
    by (apply (ledger_accepted [Accepted 1; Accepted 2; Settled 2 5 5 sample_result] [1; 2]); [exact H3|decide_now]).
  assert (ledger [Accepted 1; Accepted 2; Settled 2 5 5 sample_result; Accepted 6; Withdrawn 6] [1; 2] [2]) as H5.
  { apply (ledger_withdrawn [Accepted 1; Accepted 2; Settled 2 5 5 sample_result; Accepted 6] [1; 2] []);
      [exact H4|decide_now|]. intros u ->%list_elem_of_singleton. decide_now. }
  apply (ledger_settled [Accepted 1; Accepted 2; Settled 2 5 5 sample_result; Accepted 6; Withdrawn 6]);
    [exact H5|decide_now|decide_now].
Qed.

Lemma outstanding_accepted_exact_witness :
  outstanding_accepted (run_events
    [Accepted 1; Accepted 2; Settled 2 5 5 sample_result; Accepted 6; Withdrawn 6; Settled 1 7 7 sample_result]
    (fresh_lane 0)) = 0%nat.
Proof.
  apply (proj2 (outstanding_accepted_exact 0 _ [1; 2] [1; 2] sample_ledger)). by intros t Ht.
Defined.
