(* ===== verification/Extraction.v ===== *)
(** * One extraction of one type: [batch_processor.py], [batch_writer.py], [record_persistence.py]

    The composition of the batch sink, the writer and the purge.  [Batch.write] narrows a
    failing batch by halving it and settles each delivery; here its writer is the repository's
    own, and what is acknowledged is compared with what is stored at the end of an extraction:
    the rows of the type are exactly the documents the extraction delivered, each at the
    version it delivered last, and the graph owns nothing for any other document. *)

From S2P Require Import Prelude Json Runtime Identity Derivation GraphWriter GraphEffect Entities Batch Mirror.
From Stdlib Require Import SpecFloat.

(** ** Deliveries in sequence *)

Lemma last_delivery_app id l1 l2 :
  last_delivery id (l1 ++ l2) =
    match last_delivery id l2 with Some m => Some m | None => last_delivery id l1 end.
Proof.
  induction l1 as [|m l1 IH]; simpl; [by destruct (last_delivery id l2)|].
  rewrite IH. by destruct (last_delivery id l2).
Qed.

(** The records a write acknowledged, in order. *)
Definition acknowledged {M} (payloads : list M) (rs : list BatchItemResult) : list M :=
  (filter (λ mr : M * BatchItemResult, i_settlement mr.2 = ACK) (zip payloads rs)).*1.

Lemma acknowledged_app {M} (l1 l2 : list M) r1 r2 :
  length r1 = length l1 → acknowledged (l1 ++ l2) (r1 ++ r2) = acknowledged l1 r1 ++ acknowledged l2 r2.
Proof. intros Hl. unfold acknowledged. by rewrite zip_with_app, filter_app, fmap_app by done. Qed.

Lemma acknowledged_acks `{Message M} (l : list M) r : acknowledged l (acks l r) = l.
Proof.
  induction l as [|m l IH]; [done|]. exact (f_equal (cons m) IH).
Qed.

Section extraction.
Context `{CommonRuntime} {IS : IdentityService} (key_of : string → row → list val) (data_type : string) (started : Z).
Implicit Types (st : @store IS).

(** [delivers st ms st']: from [st], the records [ms] of this type are committed in this
    order by batches that run after the extraction started; in between, anything else runs
    that leaves the type's rows alone: the other types' batches and purges, failing batches. *)
Inductive delivers : store → list BatchRecord → store → Prop :=
  | delivers_none st : delivers st [] st
  | delivers_batch st now messages st' r :
      started <= now → _process_batch key_of now data_type messages st = (st', Ok r) → delivers st messages st'
  | delivers_other st st' :
      catalog_step key_of st st' → table_of st' data_type = table_of st data_type → delivers st [] st'
  | delivers_app st ms st' ms' st'' : delivers st ms st' → delivers st' ms' st'' → delivers st (ms ++ ms') st''.

(** The row holds the content of [m]: the payload of one of the deliveries [ms] of the document
    with that hash, or, as the hash gate leaves it, what the row [old] with that hash held. *)
Definition content_of (old : option entity) (ms : list BatchRecord) (m : BatchRecord) (e : entity) : Prop :=
  (∃ m', m' ∈ ms ∧ data_id m' = data_id m ∧ sha256 m' = sha256 m ∧ data e = payload m') ∨
  (∃ e0, old = Some e0 ∧ hash e0 = Some (sha256 m) ∧ data e = data e0).

(** The row is the one its last delivery [m] asks for, among the deliveries [ms] that met the
    row [old]. *)
Definition row_of (old : option entity) (ms : list BatchRecord) (m : BatchRecord) (e : entity) : Prop :=
  hash e = Some (sha256 m) ∧ is_Some (gm_item_id e) ∧ (has_media data_type = true → media e ≠ None) ∧ started <= updated_at e ∧
  content_of old ms m e.

Lemma batch_row_of now ms m n old : started <= now → m ∈ ms → row_of old ms m (batch_row now data_type (m, n) old).
Proof.
  intros Hnow Hm. split; [by rewrite batch_row_hash|]. split; [apply batch_row_native|].
  split; [intros Hmed; by apply batch_row_media|]. unfold batch_row, content_of.
  destruct old as [e|]; [case_bool_decide|]; (split; [done|]); [right|left|left]; eauto 10.
Qed.

(** More deliveries only add to what a row's content may be. *)
Lemma content_of_more old ms ms' m e : ms ⊆ ms' → content_of old ms m e → content_of old ms' m e.
Proof. intros Hsub [(m' & Hin & Hrest)|Ho]; [|by right]. left. exists m'. split; [by apply Hsub|done]. Qed.

(** The gate passed a row of the first deliveries through the later ones. *)
Lemma content_of_trans old ms ms' m m' e e' :
  data_id m' = data_id m → content_of old ms m e → content_of (Some e) ms' m' e' → hash e = Some (sha256 m) →
  content_of old (ms ++ ms') m' e'.
Proof.
  intros Hid He [He'|(e0 & [= <-] & Hh & Hd)] Hhash; [eapply content_of_more; [|by left]; set_solver|].
  assert (sha256 m = sha256 m') as Hsha by congruence. destruct He as [(m0 & Hin & Hi & Hs & Hd0)|(e1 & Ho & Hh1 & Hd1)].
  - left. exists m0. split; [apply elem_of_app; by left|]. split_and!; congruence.
  - right. exists e1. split_and!; congruence.
Qed.

(** When no two deliveries are of one document, the content is the delivered one. *)
Lemma content_of_unique old ms m e :
  NoDup (data_id <$> ms) → m ∈ ms → content_of old ms m e → content_of old [m] m e.
Proof.
  intros Hnd Hm [(m' & Hm' & Hid & Hs & Hd)|Ho]; [|by right]. left. exists m. split; [by left|].
  assert (m' = m) as ->; [|done]. apply list_elem_of_lookup in Hm as [i Hi], Hm' as [j Hj].
  assert (i = j) as ->; [|congruence]. apply (NoDup_lookup (data_id <$> ms) _ _ (data_id m)); [done| |].
  - by rewrite list_lookup_fmap, Hi.
  - by rewrite list_lookup_fmap, Hj, <-Hid.
Qed.

Lemma last_delivery_in id ms m : last_delivery id ms = Some m → m ∈ ms.
Proof.
  induction ms as [|x ms IH]; simpl; [done|]. destruct (last_delivery id ms) as [y|].
  - intros [= ->]. right. auto.
  - case_decide; intros [= ->]. by left.
Qed.

Lemma delivers_rows st ms st' :
  delivers st ms st' → ∀ id, match last_delivery id ms with
                             | Some m => ∃ e, table_of st' data_type !! id = Some e ∧ row_of (table_of st data_type !! id) ms m e
                             | None => table_of st' data_type !! id = table_of st data_type !! id
                             end.
Proof.
  induction 1 as [st|st now ms st' r Hnow Hb|st st' _ Ht|st ms st' ms' st'' _ IH1 _ IH2]; intros id.
  - done.
  - apply process_batch_committed in Hb as ((refs & adb & nids & _ & Hrows) & _). specialize (Hrows id).
    destruct (last_delivery id ms) as [m|] eqn:Hm; [|done]. destruct Hrows as (ref & n & _ & _ & Hrow).
    eexists. split; [exact Hrow|]. apply batch_row_of; [done|by eapply last_delivery_in].
  - simpl. by rewrite Ht.
  - rewrite last_delivery_app. specialize (IH1 id). specialize (IH2 id).
    destruct (last_delivery id ms') as [m'|] eqn:Hm'; [|rewrite IH2; destruct (last_delivery id ms) as [m|]; [|done]].
    + destruct IH2 as (e' & He' & H1 & H2 & H3 & H4 & Hc'). exists e'. split; [done|]. split_and!; try done.
      destruct (last_delivery id ms) as [m|] eqn:Hm; [|rewrite IH1 in Hc'; eapply content_of_more, Hc'; set_solver].
      destruct IH1 as (e & He & Hh & _ & _ & _ & Hc). rewrite He in Hc'. eapply content_of_trans; [|exact Hc|exact Hc'|exact Hh].
      by rewrite (last_delivery_id _ _ _ Hm), (last_delivery_id _ _ _ Hm').
    + destruct IH1 as (e & He & H1 & H2 & H3 & H4 & Hc). exists e. split; [done|]. split_and!; try done. eapply content_of_more, Hc. set_solver.
Qed.

(** ** What a batch write acknowledges is stored *)

Lemma settles_delivers classify admission now st ms st' rs :
  started <= now → settles (process_batch key_of admission now data_type) classify st ms st' rs →
  delivers st (acknowledged ms rs) st' ∧ length rs = length ms.
Proof.
  intros Hnow. induction 1 as [st|st ms st' r Hp|st m e Hp Hd|s1 l1 s2 r1 l2 s3 r2 _ [IH1 Hl1] _ [IH2 Hl2]].
  - split; [constructor|done].
  - rewrite acknowledged_acks. split; [|unfold acks; apply length_fmap]. unfold process_batch in Hp.
    destruct admission; [|done]. by eapply delivers_batch.
  - split; [constructor|done].
  - rewrite acknowledged_app by done. split; [by eapply delivers_app|by rewrite !length_app, Hl1, Hl2].
Qed.

Lemma delivers_run st ms st' : delivers st ms st' → rtc (catalog_step key_of) st st'.
Proof.
  induction 1 as [st|st now ms st' r Hnow Hb|st st' Hs _|st ms st' ms' st'' _ IH1 _ IH2]; [done| |by apply rtc_once|by etrans].
  apply rtc_once. pose proof (step_batch key_of st true now data_type ms) as Hs. unfold process_batch in Hs. cbn [negb] in Hs.
  by rewrite Hb in Hs.
Qed.

(** ** The purge at the end *)

(** What a purge leaves when no guard stopped it. *)
Lemma purge_done fromisoformat cap started_at record_count st st' o :
  purge_stale_rows key_of fromisoformat cap data_type started_at record_count st = (st', Ok o) →
  fromisoformat started_at = Ok started →
  match o with
  | Purged _ | NothingStale | TableEmpty => table_of st' data_type = fresh_rows started (table_of st data_type)
  | _ => st' = st
  end.
Proof.
  unfold purge_stale_rows. case_bool_decide; [by intros [= <- <-]|]. case_bool_decide; [by intros [= <- <-]|].
  intros Hp Hiso. rewrite Hiso in Hp. revert Hp. unfold transaction. cbv zeta.
  destruct (Z.of_nat (size (table_of st data_type)) =? 0) eqn:Ht.
  { intros [= <- <-]. apply Z.eqb_eq in Ht. assert (table_of st data_type = ∅) as -> by (apply map_size_empty_iff; lia).
    unfold fresh_rows. by rewrite map_filter_empty. }
  destruct (Z.of_nat (size (stale_rows started (table_of st data_type))) =? 0) eqn:Hn.
  { intros [= <- <-]. apply Z.eqb_eq in Hn. symmetry. apply map_filter_id. intros id e He.
    assert (stale_rows started (table_of st data_type) = ∅) as Hempty by (apply map_size_empty_iff; lia).
    simpl. destruct (is_stale started e) eqn:E; [|done]. exfalso.
    exact (map_filter_empty_not_lookup _ _ id e Hempty E He). }
  destruct (SFleb _ _); [by intros [= <- <-]|]. destruct (purge_document_graph _ _ _ _); [|done].
  intros [= <- <-]. apply table_of_insert.
Qed.

Section dump.
Context (st st1 : @store IS) (dump : list BatchRecord).
Hypothesis Hdelivers : delivers st dump st1.
Hypothesis Holder : ∀ id e, table_of st data_type !! id = Some e → updated_at e < started.

Lemma fresh_is_dump id :
  match last_delivery id dump with
  | Some m => ∃ e, fresh_rows started (table_of st1 data_type) !! id = Some e ∧ row_of (table_of st data_type !! id) dump m e
  | None => fresh_rows started (table_of st1 data_type) !! id = None
  end.
Proof.
  pose proof (delivers_rows _ _ _ Hdelivers id) as Hrow. unfold fresh_rows. rewrite map_lookup_filter.
  destruct (last_delivery id dump) as [m|].
  - destruct Hrow as (e & He & Hof). exists e. rewrite He. split; [|done]. simpl.
    destruct Hof as (_ & _ & _ & Hnew & _). unfold is_stale. destruct (Z.ltb_spec (updated_at e) started); [lia|done].
  - rewrite Hrow. destruct (table_of st data_type !! id) as [e|] eqn:He; [|done]. simpl.
    apply Holder in He. unfold is_stale. by destruct (Z.ltb_spec (updated_at e) started); [|lia].
Qed.
End dump.
End extraction.

(** C6 What a batch write acknowledges is stored.  Whatever fails in between, a write that
    returns leaves of every document either the row its last acknowledged delivery asks for
    (that delivery's hash, the payload of an acknowledged delivery with that hash unless the
    row already had it, a native id, the media block, the write's time), or, when no delivery
    of it was acknowledged, exactly the row that was there.  A write that raises acknowledges
    nothing, but it may have committed records of a prefix of the batch: then every document
    has the row its last committed delivery asks for, or the row that was there. *)
Theorem acknowledged_records_stored `{CommonRuntime} {IS : IdentityService} key_of data_type classify admission now messages
    (st : @store IS) ln :
  flush_state ln ≠ None →
  ∃ st' ln' r committed, write (process_batch key_of admission now data_type) classify messages (st, ln) = ((st', ln'), r) ∧
    match r with
    | Ok rs => length rs = length messages ∧ committed = acknowledged messages rs
    | Raise _ => ∃ pre rest rs, messages = pre ++ rest ∧ length rs = length pre ∧ committed = acknowledged pre rs
    end ∧
    ∀ id, match last_delivery id committed with
          | Some m => ∃ e, table_of st' data_type !! id = Some e ∧ row_of data_type now (table_of st data_type !! id) committed m e
          | None => table_of st' data_type !! id = table_of st data_type !! id
          end.
Proof.
  intros Hln. destruct (write_settled (process_batch key_of admission now data_type) classify messages st ln Hln)
    as (st' & ln' & r & E & _ & Hr).
  assert (now <= now) as Hnow by lia. destruct r as [rs|e].
  - destruct (settles_delivers _ _ _ _ _ _ _ _ _ _ Hnow Hr) as [Hd Hl].
    exists st', ln', (Ok rs), (acknowledged messages rs). split_and!; try done. by eapply delivers_rows.
  - destruct Hr as (_ & _ & pre & rest & rs & -> & Hs).
    destruct (settles_delivers _ _ _ _ _ _ _ _ _ _ Hnow Hs) as [Hd Hl].
    exists st', ln', (Raise e), (acknowledged pre rs). split; [done|]. split; [by exists pre, rest, rs|].
    by eapply delivers_rows.
Qed.

(** C3 After an extraction the catalog of a type is the dump.  Start from rows older than
    the extraction; commit its deliveries, in any batches, with anything else of other types
    in between; then purge.  Unless a guard or the safety cap stopped the purge, in which case it
    changed nothing, the stored documents are exactly the delivered ones, each at the hash of
    its last delivery and with the content delivered for it, unless the row already had that
    hash; and when the graph mirrored the catalog before, then afterwards it owns no row for
    any other document and has a row with the key of each row the stored ones assert. *)
Theorem extraction_leaves_dump `{CommonRuntime} {IS : IdentityService} key_of data_type started dump (st st1 st2 : @store IS)
    fromisoformat cap started_at record_count o :
  delivers key_of data_type started st dump st1 →
  (∀ id e, table_of st data_type !! id = Some e → updated_at e < started) →
  fromisoformat started_at = Ok started →
  purge_stale_rows key_of fromisoformat cap data_type started_at record_count st1 = (st2, Ok o) →
  match o with
  | Purged _ | NothingStale | TableEmpty =>
      (∀ id, match last_delivery id dump with
             | Some m => ∃ e, table_of st2 data_type !! id = Some e ∧ row_of data_type started (table_of st data_type !! id) dump m e
             | None => table_of st2 data_type !! id = None
             end) ∧
      (key_names_document key_of → well_keyed key_of (graph st) → hashed st → (∀ id, mirrored key_of data_type id st) →
       (∀ r k x id, swept_by data_type r → tbl (graph st2) r !! k = Some x → owned r id x → is_Some (last_delivery id dump)) ∧
       ∀ id, complete key_of data_type id st2)
  | _ => st2 = st1
  end.
Proof.
  intros Hd Hold Hiso Hp. pose proof (purge_done _ _ _ _ _ _ _ _ _ _ Hp Hiso) as Hdone.
  pose proof (fresh_is_dump _ _ _ _ _ _ Hd Hold) as Hdump.
  assert (table_of st2 data_type = fresh_rows started (table_of st1 data_type) →
    key_names_document key_of → well_keyed key_of (graph st) → hashed st → (∀ id, mirrored key_of data_type id st) →
    (∀ r k x id, swept_by data_type r → tbl (graph st2) r !! k = Some x → owned r id x → is_Some (last_delivery id dump)) ∧
    ∀ id, complete key_of data_type id st2) as Hgraph.
  { intros Ht Hkeys Hk Hh Hm.
    assert (rtc (catalog_step key_of) st st2) as Hrun.
    { etrans; [by eapply delivers_run|]. apply rtc_once.
      pose proof (step_purge key_of st1 fromisoformat cap data_type started_at record_count) as Hs. by rewrite Hp in Hs. }
    destruct (catalog_run_mirrors key_of Hkeys _ _ Hrun Hk Hh) as (_ & _ & Hm2).
    split; [|intros id; by apply Hm2]. intros r k x id Hsw Hx Ho.
    destruct (proj2 (Hm2 data_type id (Hm id)) r k x Hsw Hx Ho) as (e & He & _). specialize (Hdump id).
    rewrite <-Ht in Hdump. destruct (last_delivery id dump); [done|congruence]. }
  destruct o; try exact Hdone; (split; [by rewrite Hdone|by apply Hgraph]).
Qed.

(** ** Concrete runs *)

Definition fusion_release : BatchRecord :=
  {| data_id := "9"; payload := [("genres", JList [JStr "Fusion"]); ("sha256", JStr "bb")]; sha256 := "bb" |}.
Definition unusable_release : BatchRecord :=
  {| data_id := "8"; payload := [("identifiers", JStr "x")]; sha256 := "cc" |}.

Abbreviation sample_write messages now :=
  (write (process_batch (H:=sample_runtime) whole_row_key true now "releases") (λ _, DETERMINISTIC) messages (empty_store, sample_lane)).

(** One release of two is rejected; the other is acknowledged and stored. *)
Lemma acknowledged_records_stored_witness :
  ∃ st' ln' rs e, sample_write [jazz_release; unusable_release] 10 = ((st', ln'), Ok rs) ∧
    i_settlement <$> rs = [ACK; REJECT] ∧ table_of st' "releases" !! "7" = Some e ∧ hash e = Some "aa" ∧
    data e = payload jazz_release.
Proof.
  destruct (acknowledged_records_stored (H:=sample_runtime) whole_row_key "releases" (λ _, DETERMINISTIC) true 10
    [jazz_release; unusable_release] empty_store sample_lane ltac:(discriminate)) as (st' & ln' & r & committed & E & Hr & Hrows).
  assert (match (sample_write [jazz_release; unusable_release] 10).2 with
          | Ok rs => bool_decide (i_settlement <$> rs = [ACK; REJECT]) | Raise _ => false end = true) as Hs
    by (vm_compute; reflexivity).
  rewrite E in Hs. cbn [snd] in Hs. destruct r as [rs|]; [|discriminate Hs].
  apply bool_decide_eq_true in Hs. destruct Hr as [_ ->].
  destruct rs as [|[s1 o1] [|[s2 o2] [|? ?]]]; try discriminate Hs. injection Hs as -> ->.
  specialize (Hrows "7"). destruct Hrows as (e & He & Hh & _ & _ & _ & Hc).
  assert (data e = payload jazz_release) as Hdata.
  { destruct Hc as [(m' & Hm' & _ & _ & Hd)|(e0 & Ho & _)]; [|exfalso; vm_compute in Ho; discriminate Ho].
    apply list_elem_of_singleton in Hm'. rewrite Hd, Hm'. reflexivity. }
  exists st', ln', [{| i_settlement := ACK; i_outcome := o1 |}; {| i_settlement := REJECT; i_outcome := o2 |}], e.
  split; [exact E|]. split; [reflexivity|]. split; [exact He|]. split; [exact Hh|exact Hdata].
Defined.

(** A release stored at time 3 is not in the dump of the extraction that starts at 5; the purge
    removes its row and its genre. *)
Abbreviation earlier := (_process_batch (H:=sample_runtime) whole_row_key 3 "releases" [fusion_release] empty_store).
Abbreviation loaded := (_process_batch (H:=sample_runtime) whole_row_key 10 "releases" [jazz_release] earlier.1).
Abbreviation swept := (purge_stale_rows whole_row_key (λ _, Ok 5) (S754_infinity false) "releases" "t" None loaded.1).

Lemma extraction_leaves_dump_witness :
  swept.2 = Ok (Purged 1) ∧ table_of swept.1 "releases" !! "9" = None ∧ is_Some (table_of swept.1 "releases" !! "7").
Proof.
  assert (swept.2 = Ok (Purged 1)) as Hp by (vm_compute; reflexivity). split; [exact Hp|].
  assert (is_ok loaded.2 = true) as Hl by (vm_compute; reflexivity).
  assert (map_Forall (λ _ e, updated_at e < 5) (table_of earlier.1 "releases")) as Hold.
  { refine (bool_decide_eq_true_1 _ _). vm_compute. reflexivity. }
  assert (delivers (H:=sample_runtime) whole_row_key "releases" 5 earlier.1 [jazz_release] loaded.1) as Hd.
  { destruct loaded as [st1 [r|]] eqn:E; [|discriminate Hl]. refine (delivers_batch _ _ _ _ 10 _ _ r _ E). lia. }
  assert (swept = (swept.1, Ok (Purged 1))) as Hs by (rewrite <-Hp; apply surjective_pairing).
  destruct (extraction_leaves_dump (H:=sample_runtime) whole_row_key "releases" 5 [jazz_release] earlier.1 loaded.1 swept.1
    (λ _, Ok 5) (S754_infinity false) "t" None (Purged 1) Hd Hold eq_refl Hs) as [Hrows _].
  split; [exact (Hrows "9")|]. destruct (Hrows "7") as (e & He & _). exists e. exact He.
Defined.
