(* ===== verification/Processor.v ===== *)
(** * The batch processor around its engine ([batch_processor.py])

    What [PostgreSQLBatchProcessor] does besides taking a delivery and draining one queue,
    which are in [Batch]: how it is constructed, how all queues are drained together at
    shutdown, its statistics, and how it reports a stall.  Clocks are ticks of one unit; the
    conversion to the recorded float is the parameter [seconds]. *)

From S2P Require Import Prelude Json Contract Config Telemetry Batch.

(** ** Construction *)

Definition set_batch_size (n : Z) (c : BatchConfig) : BatchConfig :=
  {| batch_size := n; flush_interval := flush_interval c; max_pending := max_pending c;
     max_concurrent_flushes := max_concurrent_flushes c; min_batch_size := min_batch_size c;
     backoff_initial := backoff_initial c; backoff_max := backoff_max c; backoff_multiplier := backoff_multiplier c;
     max_flush_retries := max_flush_retries c; max_poison_retries := max_poison_retries c;
     max_hold_s := max_hold_s c; max_requeues := max_requeues c; max_write_s := max_write_s c |}.

(** The configuration the constructor leaves in [self.config]; [int] raises nothing but
    [ValueError]. *)
Definition processor_config (unicode_zeros : list N) (env : environ) (c : BatchConfig) : BatchConfig :=
  match env !! "POSTGRES_BATCH_SIZE" with
  | None | Some "" => c
  | Some raw => match py_int unicode_zeros raw with Ok n => set_batch_size n c | Raise _ => c end
  end.

(** ** Draining every queue

    [flush_all] gathers one [flush_queue] per type.  Each is a coroutine over the engine and
    the lanes that all share; it is resumed for one flush at a time and sleeps between, while
    the others, and whatever else runs, change the engine. *)

Inductive drain :=
  (** about to flush, with so many attempts left *)
  | Turn (attempts : nat)
  | Drained (answer : bool).

#[export] Instance drain_eq_dec : EqDecision drain.
Proof. solve_decision. Defined.

(** What happens while a shutdown drains: a coroutine gets its turn, or something else runs. *)
Inductive turn (W : Type) :=
  | Resume (data_type : string)
  | Elsewhere (effect : W → W).
Arguments Resume {_}.
Arguments Elsewhere {_}.

Definition only (data_type : string) {A} (l : list (string * A)) : list A :=
  omap (λ x, if decide (x.1 = data_type) then Some x.2 else None) l.

Section drain.
Context `{BatchEngine E} (config : BatchConfig).

Abbreviation world := (E * (string → lane))%type.

Definition flush_one (data_type : string) (w : world) : world * bool :=
  let '((e, ln), ok) := engine_flush data_type (w.1, w.2 data_type) in
  ((e, λ d, if decide (d = data_type) then ln else w.2 d), ok).

(** Every coroutine, the world, and each flush made: its type, and whether it left records
    pending. *)
Record gathering := {
  coroutines : string → drain;
  gathered : world;
  flushes : list (string * bool);
}.

Definition set_coroutine (d : string) (c : drain) (f : string → drain) : string → drain :=
  λ x, if decide (x = d) then c else f x.

Lemma set_coroutine_eq d c f : set_coroutine d c f d = c.
Proof. unfold set_coroutine. by rewrite decide_True. Qed.

Definition resume (d : string) (g : gathering) : gathering :=
  match coroutines g d with
  | Turn 0 => {| coroutines := set_coroutine d (Drained false) (coroutines g); gathered := gathered g; flushes := flushes g |}
  | Turn (S k) =>
      let '(w, ok) := flush_one d (gathered g) in
      let kept := negb ok && negb (snapshot_pending w.1 d =? 0) in
      {| coroutines := set_coroutine d (if kept then Turn k else Drained true) (coroutines g);
         gathered := w; flushes := flushes g ++ [(d, kept)] |}
  | Drained _ => g
  end.

Definition take_turn (g : gathering) (t : turn world) : gathering :=
  match t with
  | Resume d => if decide (d ∈ DATA_TYPES) then resume d g else g
  | Elsewhere f => {| coroutines := coroutines g; gathered := f (gathered g); flushes := flushes g |}
  end.

Definition start_flush_all (w : world) : gathering :=
  {| coroutines := λ _, Turn (max_flush_retries config); gathered := w; flushes := [] |}.

Definition flush_all (schedule : list (turn world)) (w : world) : gathering :=
  foldl take_turn (start_flush_all w) schedule.

(** [all(results)], once every coroutine has answered. *)
Definition flush_all_answer (g : gathering) : option bool :=
  foldr (λ d acc, match coroutines g d with Drained b => (andb b) <$> acc | Turn _ => None end) (Some true) DATA_TYPES.

(** The turns [d] gets. *)
Definition turns_of (d : string) (schedule : list (turn world)) : nat :=
  length (omap (λ t, match t with Resume x => if decide (x = d) then Some () else None | Elsewhere _ => None end) schedule).

(** Where the coroutine of [d] stands, from the flushes it made. *)
Definition drain_ok (c : drain) (mine : list bool) : Prop :=
  match c with
  | Turn k => mine = replicate (max_flush_retries config - k) true ∧ (k ≤ max_flush_retries config)%nat
  | Drained true => ∃ n, mine = replicate n true ++ [false] ∧ (n < max_flush_retries config)%nat
  | Drained false => mine = replicate (max_flush_retries config) true
  end.

Lemma only_snoc d (l : list (string * bool)) x : only d (l ++ [x]) = only d l ++ (if decide (x.1 = d) then [x.2] else []).
Proof. unfold only. rewrite omap_app. simpl. by case_decide. Qed.

Lemma take_turn_ok g t :
  (∀ d, drain_ok (coroutines g d) (only d (flushes g))) →
  ∀ d, drain_ok (coroutines (take_turn g t) d) (only d (flushes (take_turn g t))).
Proof.
  intros Hg d. destruct t as [x|f]; [|apply Hg]. simpl. case_decide as Hx; [|apply Hg]. unfold resume.
  pose proof (Hg x) as Hgx. pose proof (Hg d) as Hgd. destruct (coroutines g x) as [[|k]|b]; [| |done].
  - cbn [coroutines flushes]. unfold set_coroutine. case_decide as Hdx; [subst d|done].
    simpl in *. destruct Hgx as [Hm _]. by rewrite Nat.sub_0_r in Hm.
  - destruct (flush_one x (gathered g)) as [w ok]. cbn [coroutines flushes]. rewrite only_snoc. cbn [fst snd].
    unfold set_coroutine. destruct (decide (d = x)) as [->|Hne].
    + rewrite decide_True by done. destruct Hgx as [Hm Hle]. rewrite Hm.
      destruct (negb ok && negb (snapshot_pending w.1 x =? 0)); simpl.
      * split; [|lia]. rewrite <-replicate_S_end. f_equal. lia.
      * eexists. split; [done|lia].
    + rewrite decide_False by done. by rewrite app_nil_r.
Qed.

Lemma flush_all_ok schedule w d :
  drain_ok (coroutines (flush_all schedule w) d) (only d (flushes (flush_all schedule w))).
Proof.
  revert d. unfold flush_all. induction schedule as [|t schedule IH] using rev_ind.
  - intros d. simpl. rewrite Nat.sub_diag. split; [done|lia].
  - rewrite foldl_app. cbn [foldl]. intros d. by apply take_turn_ok.
Qed.

(** The turns a coroutine may still need. *)
Definition remaining (c : drain) : nat := match c with Turn k => S k | Drained _ => 0%nat end.

Lemma take_turn_remaining g t d :
  d ∈ DATA_TYPES →
  (remaining (coroutines (take_turn g t) d) ≤ remaining (coroutines g d) - turns_of d [t])%nat.
Proof.
  intros Hd. unfold turns_of. destruct t as [x|f]; simpl; [|lia]. case_decide as Hx.
  - unfold resume. destruct (coroutines g x) as [[|k]|b] eqn:Ex.
    + cbn [coroutines]. unfold set_coroutine. destruct (decide (d = x)) as [->|Hne]; [simpl; lia|].
      rewrite (decide_False (P := x = d)) by done. simpl. lia.
    + destruct (flush_one x (gathered g)) as [w ok]. cbn [coroutines]. unfold set_coroutine.
      destruct (decide (d = x)) as [->|Hne]; [|rewrite (decide_False (P := x = d)) by done; simpl; lia].
      rewrite Ex, (decide_True (P := x = x)) by done. simpl. case_match; simpl; lia.
    + destruct (decide (x = d)) as [->|Hne]; [|simpl; lia]. rewrite Ex. simpl. lia.
  - rewrite (decide_False (P := x = d)) by (by intros ->). simpl. lia.
Qed.

Lemma turns_of_snoc d schedule t : turns_of d (schedule ++ [t]) = (turns_of d schedule + turns_of d [t])%nat.
Proof. unfold turns_of. by rewrite omap_app, length_app. Qed.

Lemma flush_all_remaining schedule w d :
  d ∈ DATA_TYPES →
  (remaining (coroutines (flush_all schedule w) d) ≤ S (max_flush_retries config) - turns_of d schedule)%nat.
Proof.
  intros Hd. unfold flush_all. induction schedule as [|t schedule IH] using rev_ind; [simpl; lia|].
  rewrite foldl_app. cbn [foldl]. rewrite turns_of_snoc.
  pose proof (take_turn_remaining (foldl take_turn (start_flush_all w) schedule) t d Hd). lia.
Qed.

Lemma flush_all_answer_spec g b :
  flush_all_answer g = Some b ↔
  (∀ d, d ∈ DATA_TYPES → ∃ a, coroutines g d = Drained a) ∧
  (b = true ↔ ∀ d, d ∈ DATA_TYPES → coroutines g d = Drained true).
Proof.
  unfold flush_all_answer. generalize DATA_TYPES. intros l. revert b. induction l as [|d l IH]; intros b; simpl.
  - split; [intros [= <-]; split; [by intros ? ?%elem_of_nil|split; [by intros _ ? ?%elem_of_nil|done]]|].
    intros [_ Hb]. f_equal. symmetry. apply Hb. by intros ? ?%elem_of_nil.
  - setoid_rewrite elem_of_cons. destruct (coroutines g d) as [k|a] eqn:Ed.
    + split; [done|]. intros [Hall _]. destruct (Hall d ltac:(by left)) as [a Ha]. congruence.
    + destruct (foldr _ _ l) as [b'|] eqn:Er; simpl.
      * destruct (proj1 (IH b') eq_refl) as [Hall Hb']. split.
        -- intros [= <-]. split; [intros x [->|Hx]; eauto|]. rewrite andb_true_iff, Hb'. split.
           ++ intros [-> Hx] x [->|?]; [done|auto].
           ++ intros Hx. split; [|intros x ?; apply Hx; by right]. specialize (Hx d (or_introl eq_refl)). congruence.
        -- intros [_ Hb]. f_equal. destruct b.
           ++ apply andb_true_iff. split; [|apply Hb'; intros; apply Hb; auto].
              pose proof (proj1 Hb eq_refl d (or_introl eq_refl)). congruence.
           ++ apply not_true_iff_false. intros [-> Hx]%andb_true_iff. enough (false = true) by done.
              apply Hb. intros x [->|?]; [done|]. by apply Hb'.
      * split; [done|]. intros [Hall _]. exfalso.
        enough (None = Some (bool_decide (Forall (λ x, coroutines g x = Drained true) l))) by done.
        apply IH. split; [auto|]. by rewrite bool_decide_eq_true, Forall_forall.
Qed.

(** Alone, a coroutine is [flush_queue]. *)
Lemma resume_alone d k attempt g :
  coroutines g d = Turn k →
  let '(w, _, answer) := flush_attempts k attempt d ((gathered g).1, (gathered g).2 d) in
  let g' := Nat.iter (S k) (resume d) g in
  coroutines g' d = Drained answer ∧ (gathered g').1 = w.1 ∧ (gathered g').2 d = w.2.
Proof.
  assert (∀ n g a, coroutines g d = Drained a → Nat.iter n (resume d) g = g) as Hdone.
  { intros n g0 a Ha. induction n as [|n IH]; [done|]. cbn [Nat.iter nat_rect]. unfold Nat.iter in IH. rewrite IH.
    unfold resume. by rewrite Ha. }
  induction k as [|k IH] in attempt, g |- *; intros Hk; cbn [flush_attempts].
  - cbn [Nat.iter nat_rect]. unfold resume. rewrite Hk. cbn [coroutines gathered fst snd]. by rewrite set_coroutine_eq.
  - cbv zeta. rewrite Nat.iter_succ_r. destruct (engine_flush d _) as [[e ln] ok] eqn:Hf.
    set (kept := negb ok && negb (snapshot_pending e d =? 0)).
    set (g1 := {| coroutines := set_coroutine d (if kept then Turn k else Drained true) (coroutines g);
                  gathered := (e, λ x, if decide (x = d) then ln else (gathered g).2 x);
                  flushes := flushes g ++ [(d, kept)] |}).
    assert (resume d g = g1) as -> by (unfold resume, flush_one; by rewrite Hk, Hf).
    assert ((gathered g1).2 d = ln) as Hln by (unfold g1; cbn [gathered snd]; by rewrite decide_True).
    assert (coroutines g1 d = if kept then Turn k else Drained true) as Hd by apply set_coroutine_eq.
    cbn [fst snd]. destruct ok; [|destruct (snapshot_pending e d =? 0) eqn:Hp]; cbn [negb andb] in kept.
    1,2: unfold kept in Hd; by rewrite (Hdone _ _ _ Hd), Hd, Hln.
    specialize (IH (S attempt) g1 Hd). rewrite Hln in IH. cbn [gathered g1 fst] in IH.
    by destruct (flush_attempts k (S attempt) d (e, ln)) as [[w slept] answer].
Qed.

(** C31 Draining every queue at shutdown ends and tells the truth, however the four drains
    interleave with each other and with whatever else moves the engine.  A type is flushed at
    most the configured number of times; each type that got one turn more than that has
    answered, so the whole has; and the answer is yes only if the last flush of every type
    drained it, and no only if some type used up its flushes, each of which left records
    pending. *)
Theorem flush_all_bounded schedule w :
  let g := flush_all schedule w in
  (∀ d, (length (only d (flushes g)) ≤ max_flush_retries config)%nat) ∧
  ((∀ d, d ∈ DATA_TYPES → (max_flush_retries config < turns_of d schedule)%nat) → is_Some (flush_all_answer g)) ∧
  (flush_all_answer g = Some true → ∀ d, d ∈ DATA_TYPES → last (only d (flushes g)) = Some false) ∧
  (flush_all_answer g = Some false → ∃ d, d ∈ DATA_TYPES ∧ only d (flushes g) = replicate (max_flush_retries config) true).
Proof.
  cbv zeta. set (g := flush_all schedule w). assert (∀ d, drain_ok (coroutines g d) (only d (flushes g))) as Hok
    by (intros d; apply flush_all_ok).
  split; [|split; [|split]].
  - intros d. specialize (Hok d). destruct (coroutines g d) as [k|[|]]; simpl in Hok.
    + destruct Hok as [-> ?]. rewrite length_replicate. lia.
    + destruct Hok as (n & -> & ?). rewrite length_app, length_replicate. simpl. lia.
    + rewrite Hok, length_replicate. lia.
  - intros Hturns. assert (∀ d, d ∈ DATA_TYPES → ∃ a, coroutines g d = Drained a) as Hall.
    { intros d Hd. pose proof (flush_all_remaining schedule w d Hd) as Hr. specialize (Hturns d Hd).
      fold g in Hr. destruct (coroutines g d) as [k|a]; [simpl in Hr; lia|eauto]. }
    exists (bool_decide (Forall (λ d, coroutines g d = Drained true) DATA_TYPES)). apply flush_all_answer_spec.
    split; [done|]. by rewrite bool_decide_eq_true, Forall_forall.
  - intros [_ Hb]%flush_all_answer_spec d Hd. specialize (Hok d). rewrite (proj1 Hb eq_refl d Hd) in Hok.
    destruct Hok as (n & -> & _). by rewrite last_snoc.
  - intros [Hall Hb]%flush_all_answer_spec.
    destruct (decide (Forall (λ d, coroutines g d = Drained true) DATA_TYPES)) as [Hf|Hf].
    + rewrite Forall_forall in Hf. by apply Hb in Hf.
    + apply not_Forall_Exists in Hf; [|intros d; apply _]. apply Exists_exists in Hf as (d & Hd & Hne).
      exists d. split; [done|]. destruct (Hall d Hd) as [[|] Ha]; [done|]. specialize (Hok d). by rewrite Ha in Hok.
Qed.
End drain.

(** ** What the observer records *)

Section observer_metrics.
Context (class_name : exn → string) (seconds : Z → json) (entity : string).

(** The metrics of one settlement.  The failure of the flush, if one is on record, names the
    error of whatever it did not acknowledge. *)
Definition settled_recordings (perf : Z) (r : DeliveryResult) (ln : lane) : list recording :=
  let started_at := match accepted_at ln with t :: _ => t | [] => perf end in
  let duration := seconds (perf - started_at) in
  let error := flush_state ln ≫= f_error in
  let failed := negb (Batch.is_ack (r_settlement r)) in
  let outcome := if failed then "failed" else r_outcome r in
  let error_type := match error with
                    | Some e => if bool_decide (outcome = "failed") then Some (class_name e) else r_error_type r
                    | None => r_error_type r
                    end in
  (if is_requeue (r_settlement r) then [BatchRequeued entity (r_outcome r)] else []) ++
  [Telemetry.Message entity outcome duration; ConsumedMessage entity duration error_type].

(** A delivery [add_message] rejects on its own, [perf] after it started. *)
Definition rejected_recordings (started perf : Z) (error_type : string) : list recording :=
  let duration := seconds (perf - started) in
  [Telemetry.Message entity "failed" duration; ConsumedMessage entity duration (Some error_type)].

(** Leaving [flush] without an exception: the duration of a flush that settled all it took,
    and the outcome its span gets. *)
Definition flush_exit_recordings (perf : Z) (ln : lane) : list recording * option string :=
  match flush_state ln with
  | Some st =>
      if Nat.eqb (f_settled st) (f_size st) then
        let outcome := if Nat.eqb (f_rejected st) 0 then "success" else "failed" in
        ([BatchFlush entity (seconds (perf - f_started_at st)) outcome], Some outcome)
      else ([], None)
  | None => ([], None)
  end.

(** [retry]: the exception its span is marked with. *)
Definition retry (ln : lane) : result (option exn) :=
  match flush_state ln with Some st => Ok (f_error st) | None => Raise KeyError end.

(** What is recorded as the engine reports; the clock of a local rejection does not matter
    here. *)
Definition event_recordings (ln : lane) (ev : Batch.event) : list recording :=
  match ev with
  | FlushEnter _ n => [BatchSize entity (Z.of_nat n)]
  | Settled _ perf _ r => settled_recordings perf r ln
  | LocalReject => rejected_recordings 0 0 "missing_id"
  | _ => []
  end.

Fixpoint run_recordings (ln : lane) (evs : list Batch.event) : list recording :=
  match evs with
  | [] => []
  | ev :: evs => event_recordings ln ev ++ run_recordings (apply_event ln ev) evs
  end.

Definition tally (p : recording → bool) (l : list recording) : Z := Z.of_nat (length (List.filter p l)).

Lemma tally_app p l k : tally p (l ++ k) = tally p l + tally p k.
Proof. unfold tally. rewrite List.filter_app, length_app. lia. Qed.

Definition message_failed (r : recording) : bool := match r with Telemetry.Message _ o _ => bool_decide (o = "failed") | _ => false end.
Definition message_done (r : recording) : bool := match r with Telemetry.Message _ o _ => negb (bool_decide (o = "failed")) | _ => false end.
Definition returned (r : recording) : bool := match r with BatchRequeued _ _ => true | _ => false end.

Lemma count_cons p (ev : Batch.event) evs : count p (ev :: evs) = (if p ev then 1 else 0) + count p evs.
Proof.
  unfold count. rewrite filter_cons. destruct (p ev); [rewrite decide_True by done|rewrite decide_False by done]; simpl; lia.
Qed.

(** No acknowledged delivery has the outcome that is reserved for failures. *)
Definition honest (ev : Batch.event) : Prop :=
  match ev with Settled _ _ _ r => r_settlement r = ACK → r_outcome r ≠ "failed" | _ => True end.

(** The counters outside tell what the observer's own totals tell.  Over any run of the
    engine, the messages recorded with an outcome other than failed are the deliveries
    acknowledged, those recorded as returned are the deliveries requeued, and the failed ones
    are all the others, the local rejections included. *)
Theorem metrics_match_totals start evs :
  Forall honest evs →
  let recorded := run_recordings (fresh_lane start) evs in
  let ln := run_events evs (fresh_lane start) in
  tally message_done recorded = processed ln ∧ tally returned recorded = requeued ln ∧
  tally message_failed recorded = count Batch.rejects evs + requeued ln.
Proof.
  intros Hh. cbv zeta. pose proof (run_totals start evs) as (-> & -> & _). generalize (fresh_lane start). intros ln.
  induction Hh as [|ev evs Hev Hh IH] in ln |- *; [done|]. cbn [run_recordings].
  rewrite !tally_app, !count_cons. destruct (IH (apply_event ln ev)) as (-> & -> & ->).
  destruct ev as [| | | | | |t perf monotonic r| |]; try (unfold tally; cbn; lia); cbn [event_recordings Batch.rejects settles_as].
  - unfold settled_recordings. simpl in Hev.
    destruct (r_settlement r); unfold tally; cbn; decide_constants; cbn; try lia.
    rewrite (bool_decide_eq_false_2 (r_outcome r = "failed")) by auto. cbn. lia.
  - unfold tally. cbn. decide_constants. cbn. lia.
Qed.
End observer_metrics.

(** ** Statistics and stalls *)

Record stats := {
  st_processed : list (string * Z);
  st_batches : list (string * Z);
  st_media_backfilled : list (string * Z);
  st_identity_backfilled : list (string * Z);
  st_pending : string → Z;
  st_effective_batch_size : string → Z;
  st_configured_batch_size : Z;
}.

(** The engine's own counters ([poison_attempts], [transient_attempts], [shutdown]) are passed
    on as they are and left out. *)
Definition get_stats `{BatchEngine E} (config : BatchConfig) (e : E) (lanes : string → lane) : stats :=
  let per (f : lane → Z) := (λ d, (d, f (lanes d))) <$> DATA_TYPES in
  {| st_processed := per processed; st_batches := per batches; st_media_backfilled := per media_backfilled;
     st_identity_backfilled := per identity_backfilled; st_pending := snapshot_pending e;
     st_effective_batch_size := snapshot_batch_size e; st_configured_batch_size := batch_size config |}.

Section stalls.
Context (seconds : Z → json).

(** A reading: the two clocks, the engine's oldest ages, and the lanes. *)
Record reading := {
  rd_perf : Z;
  rd_monotonic : Z;
  rd_queued : string → option Z;
  rd_lanes : string → lane;
}.

Definition reported_age (rd : reading) (d : string) : Z :=
  oldest_age (rd_perf rd) (rd_monotonic rd) (rd_queued rd d) (rd_lanes rd d).

Definition stalled_types (stall_s : Z) (rd : reading) : list (string * Z) :=
  omap (λ d, pair d <$> stalled (rd_perf rd) (rd_monotonic rd) stall_s (rd_queued rd d) (rd_lanes rd d)) DATA_TYPES.

(** [report_stall_gauges]: the stalled types by a first reading, and a gauge of every type with
    its age by a second. *)
Definition report_stall_gauges (stall_s : Z) (first second : reading) : list (string * Z) * list recording :=
  let stalled := stalled_types stall_s first in
  (stalled, (λ d, BatchStall d (bool_decide (d ∈ stalled.*1)) (seconds (reported_age second d))) <$> DATA_TYPES).

Lemma stalled_types_in stall_s rd d age :
  (d, age) ∈ stalled_types stall_s rd ↔
  d ∈ DATA_TYPES ∧ stalled (rd_perf rd) (rd_monotonic rd) stall_s (rd_queued rd d) (rd_lanes rd d) = Some age.
Proof.
  unfold stalled_types. rewrite list_elem_of_omap. split.
  - intros (x & Hx & (a & Ha & [= -> ->])%fmap_Some). done.
  - intros [Hd Hs]. exists d. by rewrite Hs.
Qed.

(** Of the deliveries that are accepted and not settled, one was accepted no later than the
    time the observer measures from. *)
Lemma oldest_unsettled live done h rest :
  StronglySorted Z.le live → NoDup live → NoDup done → drop (length done) live = h :: rest →
  h ∈ live ∧ ∃ t, t ∈ live ∧ t ∉ done ∧ t ≤ h.
Proof.
  intros Hsort Hlive Hdone Hdrop. pose proof (take_drop (length done) live) as Hsplit. rewrite Hdrop in Hsplit.
  set (before := take (length done) live) in *.
  assert (length before = length done) as Hlen.
  { unfold before. rewrite length_take. pose proof (f_equal length Hdrop) as Hl. rewrite length_drop in Hl. simpl in Hl. lia. }
  assert (h ∈ live) as Hh by (rewrite <-Hsplit; apply elem_of_app; right; by left). split; [done|].
  destruct (decide (Exists (λ t, t ∉ done) (before ++ [h]))) as [He|Hne].
  - apply Exists_exists in He as (t & Ht & Hnd). exists t. split; [|split; [done|]].
    + rewrite <-Hsplit. rewrite elem_of_app in *. destruct Ht as [?| ->%list_elem_of_singleton]; [by left|right; by left].
    + apply elem_of_app in Ht as [Ht| ->%list_elem_of_singleton]; [|done].
      rewrite <-Hsplit in Hsort. clear -Hsort Ht. induction before as [|x l IH]; [by apply elem_of_nil in Ht|].
      inversion Hsort as [|?? Hs Hf]; subst. apply elem_of_cons in Ht as [->|Ht]; [|by apply IH].
      rewrite Forall_app in Hf. destruct Hf as [_ Hf]. by inversion Hf.
  - exfalso. rewrite <-Hsplit in Hlive. apply NoDup_app in Hlive as (H1 & H2 & H3).
    assert (NoDup (before ++ [h])) as Hnd.
    { apply NoDup_app. split; [done|]. split; [|apply NoDup_singleton]. intros x Hx ->%list_elem_of_singleton.
      apply (H2 h Hx). by left. }
    assert (before ++ [h] ⊆ done) as Hsub.
    { intros x Hx. destruct (decide (x ∈ done)) as [?|Hn]; [done|]. destruct Hne. apply Exists_exists. by exists x. }
    pose proof (submseteq_length _ _ (NoDup_submseteq _ _ Hnd Hsub)) as Hl. rewrite length_app in Hl. simpl in Hl. lia.
Qed.

(** The latest time of an acknowledgement or rejection, or the start. *)
Definition quiet_since (start : Z) (evs : list Batch.event) (t : Z) : Prop :=
  match last (filter (λ ev, progress ev = true) evs) with
  | Some (Settled _ _ m _) => t = m
  | Some _ => False
  | None => t = start
  end.

Lemma last_progress start evs : quiet_since start evs (last_settled_at (run_events evs (fresh_lane start))).
Proof.
  destruct (run_totals start evs) as (_ & _ & _ & _ & Hs & Hn). unfold quiet_since.
  destruct (last _) as [ev|] eqn:El; [|by apply Hn].
  assert (ev ∈ filter (λ ev, progress ev = true) evs) as [Hp _]%list_elem_of_filter.
  { apply last_Some in El as [l ->]. apply elem_of_app. right. by left. }
  destruct ev; try done. by apply (Hs started_at perf monotonic r).
Qed.

(** C32 A stall is reported exactly when nothing moves.  For the deliveries a type accepted,
    of which some are settled in whatever order: the dictionary health reads and the gauge of
    the type agree.  A type is named only if it neither acknowledged nor dead-lettered
    anything for longer than the bound, and for longer than the bound something waited: a
    record in the engine's queue, a delivery that is still not settled, or the entries of the
    observer when the first delivery since the latest progress was returned for being held:
    what the oldest had waited then, and what passed since, together exceed the bound.  And it
    is named whenever a delivery is unsettled, all were
    accepted longer ago than the bound, and nothing was dealt with for as long. *)
Theorem stall_verdict stall_s first second d start evs live done :
  d ∈ DATA_TYPES → 0 <= stall_s → ledger evs live done → StronglySorted Z.le live →
  rd_lanes first d = run_events evs (fresh_lane start) →
  let '(dict, gauges) := report_stall_gauges stall_s first second in
  let quiet := ∀ t, quiet_since start evs t → stall_s < rd_monotonic first - t in
  (∀ b x, BatchStall d b x ∈ gauges ↔ b = bool_decide (d ∈ dict.*1) ∧ x = seconds (reported_age second d)) ∧
  (∀ age, (d, age) ∈ dict →
     stall_s < age ∧ quiet ∧
     (rd_queued first d = Some age ∨ (∃ t, t ∈ live ∧ t ∉ done ∧ age <= rd_perf first - t) ∨
      (∃ pre a perf monotonic r post, evs = pre ++ Settled a perf monotonic r :: post ∧
         holds_timeout (Settled a perf monotonic r) = true ∧ ¬ since holds_timeout progress pre ∧
         (∀ x, x ∈ post → progress x = false) ∧
         age = (perf - default perf (head (entries pre))) + (rd_monotonic first - monotonic)))) ∧
  ((∃ t, t ∈ live ∧ t ∉ done) → (∀ t, t ∈ live → stall_s < rd_perf first - t) → quiet → d ∈ dict.*1).
Proof.
  intros Hd Hs Hledger Hsort Hlane. unfold report_stall_gauges. cbv zeta.
  destruct (ledger_deque start evs live done Hledger) as (Hlive & Hdone & Hsub & Hdeque).
  pose proof (last_progress start evs) as Hlast. pose proof (run_held start evs) as Hheld.
  set (ln := run_events evs (fresh_lane start)) in *.
  assert (∀ t, quiet_since start evs t → t = last_settled_at ln) as Hquiet.
  { intros t Ht. revert Ht Hlast. unfold quiet_since. destruct (last _) as [[]|]; try done; congruence. }
  split; [|split].
  - intros b x. rewrite list_elem_of_fmap. split.
    + by intros (d' & [= -> -> ->] & _).
    + intros [-> ->]. by exists d.
  - intros age [_ Hst]%stalled_types_in. rewrite Hlane in Hst. unfold stalled in Hst.
    destruct (Z.ltb_spec stall_s (oldest_age (rd_perf first) (rd_monotonic first) (rd_queued first d) ln)) as [Hage|]; [|done].
    destruct (Z.ltb_spec stall_s (rd_monotonic first - last_settled_at ln)) as [Hprog|]; [|done]. simpl in Hst.
    injection Hst as <-. split; [done|]. split; [intros t Ht; by rewrite (Hquiet t Ht)|].
    set (age := oldest_age _ _ _ _) in *.
    assert (age = default 0 (rd_queued first d) ∨ age = oldest_unsettled_age_s (rd_perf first) ln ∨
      age = held_age_s (rd_monotonic first) ln) as [Hq|[Hu|Hh]] by (subst age; unfold oldest_age; lia).
    + left. destruct (rd_queued first d) as [v|]; simpl in Hq; [by f_equal|lia].
    + right; left. unfold oldest_unsettled_age_s in Hu. rewrite Hdeque in Hu.
      destruct (drop (length done) live) as [|h rest] eqn:Edrop; [lia|].
      destruct (oldest_unsettled live done h rest Hsort Hlive Hdone Edrop) as (Hh & t & Ht & Hnd & Hle).
      exists t. split_and!; [done|done|lia].
    + right; right. unfold held_age_s in Hh. destruct (held_since ln) as [t0|] eqn:Et; [|lia].
      destruct (proj1 (Hheld t0) eq_refl) as (pre & ev & post & Hevs & Hev & Hns & Hpost & Hw). destruct ev as [| | | | | |a perf monotonic r| |]; try done.
      injection Hw as <-. exists pre, a, perf, monotonic, r, post. split_and!; [done..|]. lia.
  - intros (t & Ht & Hnd) Hall Hq. apply list_elem_of_fmap.
    assert (∃ h rest, drop (length done) live = h :: rest) as (h & rest & Edrop).
    { pose proof (NoDup_length_lt t done live Hdone Hsub Ht Hnd) as Hlt.
      destruct (drop (length done) live) as [|h rest] eqn:Ed; [|eauto].
      pose proof (f_equal length Ed) as Hl. rewrite length_drop in Hl. simpl in Hl. lia. }
    destruct (oldest_unsettled live done h rest Hsort Hlive Hdone Edrop) as [Hh _].
    specialize (Hq _ Hlast). specialize (Hall h Hh).
    eexists (d, _). split; [done|]. apply stalled_types_in. split; [done|]. rewrite Hlane. unfold stalled.
    assert (stall_s < oldest_age (rd_perf first) (rd_monotonic first) (rd_queued first d) ln) as Hage.
    { unfold oldest_age, oldest_unsettled_age_s. rewrite Hdeque, Edrop. lia. }
    apply Z.ltb_lt in Hage, Hq. by rewrite Hage, Hq.
Qed.
End stalls.

(** ** A concrete stall *)

(** Two deliveries, the first settled at 20; at 600 the second has waited 590. *)
Definition stall_events : list Batch.event :=
  [Accepted 5; Accepted 10; Settled 5 20 20 sample_result].
Definition stall_reading : reading :=
  {| rd_perf := 600; rd_monotonic := 600; rd_queued := λ _, None; rd_lanes := λ _, run_events stall_events (fresh_lane 0) |}.

Lemma stall_ledger : ledger stall_events [5; 10] [5].
Proof.
  apply (ledger_settled [Accepted 5; Accepted 10]); [|by left|by intros ?%elem_of_nil].
  apply (ledger_accepted [Accepted 5] [5]); [|by intros ?%list_elem_of_singleton].
  apply (ledger_accepted [] []); [constructor|by intros ?%elem_of_nil].
Qed.

Lemma stall_verdict_witness :
  "artists" ∈ (report_stall_gauges JInt 300 stall_reading stall_reading).1.*1 ∧
  BatchStall "artists" true (JInt 590) ∈ (report_stall_gauges JInt 300 stall_reading stall_reading).2.
Proof.
  assert (StronglySorted Z.le [5; 10]) as Hsort by (repeat constructor; lia).
  pose proof (stall_verdict JInt 300 stall_reading stall_reading "artists" 0 stall_events [5; 10] [5]
    ltac:(by left) ltac:(lia) stall_ledger Hsort eq_refl) as (Hg & _ & Hc).
  assert ("artists" ∈ (report_stall_gauges JInt 300 stall_reading stall_reading).1.*1) as Hin.
  { apply Hc.
    - exists 10. split; [right; left|]. by intros ?%list_elem_of_singleton.
    - intros t Ht. change (300 < 600 - t). rewrite !elem_of_cons, elem_of_nil in Ht. lia.
    - intros t Ht. change (t = 20) in Ht. change (300 < 600 - t). lia. }
  split; [exact Hin|]. apply Hg. split; [|reflexivity]. symmetry. by apply bool_decide_eq_true_2.
Defined.
