(* ===== verification/Health.v ===== *)
(** * The shared health dictionary of the durable refresh

    [durable_refresh_health] of [tableinator.py]: one dictionary that the message handler, the
    recovery, the worker's scan loop and the health sampler ([durable_refresh.py]) all
    write, and that the health endpoint copies.  Each write happens without an [await] in
    between, so it is one step; the loops are sequences of these steps.  What the snapshot
    holds is [Durable.read_refresh_health]'s business: here it is any dictionary. *)

From S2P Require Import Prelude Json Contract Latch Durable Batch.

Section health.
(** [type(exc).__name__] *)
Context (class_name : exn → string).

Abbreviation health := (gmap string json).

(** [health.update(...)] *)
Definition update (entries : list (string * json)) (h : health) : health :=
  foldl (λ h kv, <[kv.1 := kv.2]> h) h entries.

Definition degraded_by (reason : string) : list (string * json) :=
  [("status", JStr "degraded"); ("last_sanitized_failure", JStr reason)].

Definition paused_by (reason : string) : list (string * json) :=
  [("status", JStr "degraded"); ("consumer_pause", JBool true); ("last_sanitized_failure", JStr reason)].

(** One round of [_sample_health_loop]; a cancellation leaves the dictionary alone. *)
Definition sample (r : result health) (h : health) : health :=
  match r with
  | Ok snapshot =>
      let snapshot := match h !! "scanner_error" with
                      | None | Some JNull => snapshot
                      | Some e => update [("status", JStr "degraded"); ("scanner_error", e)] snapshot
                      end in
      if match h !! "consumer_pause" with Some v => truthy v | None => false end
      then update [("status", JStr "degraded"); ("consumer_pause", JBool true)] snapshot else snapshot
  | Raise e => if is_exception e then update (degraded_by (class_name e)) ∅ else h
  end.

(** One round of [run_worker_loop], given how [run_worker_once] ended. *)
Definition scan (r : result bool) (h : health) : health :=
  match r with
  | Ok _ => delete "scanner_error" h
  | Raise e =>
      if is_exception e then update [("status", JStr "degraded"); ("scanner_error", JStr (class_name e))] ∅ else h
  end.

(** The writes of [tableinator.py]. *)
Definition pause : health → health := update (paused_by "signal_commit_failed").
Definition probe_failed : health → health := update (paused_by "schema_unavailable").
Definition commit_failed (e : exn) : health → health := update (paused_by (class_name e)).
Definition recovered (snapshot : health) (h : health) : health := snapshot.
Definition resubscription_failed (e : exn) : health → health := update (paused_by (class_name e)).
Definition recovery_loop_failed (e : exn) : health → health := update (degraded_by (class_name e)).

Inductive event :=
  | Sample (r : result health)
  | Scan (r : result bool)
  | Pause
  | ProbeFailed
  | CommitFailed (e : exn)
  | Recovered (snapshot : health)
  | ResubscriptionFailed (e : exn)
  | RecoveryLoopFailed (e : exn).

Definition apply_event (h : health) (ev : event) : health :=
  match ev with
  | Sample r => sample r h
  | Scan r => scan r h
  | Pause => pause h
  | ProbeFailed => probe_failed h
  | CommitFailed e => commit_failed e h
  | Recovered snapshot => recovered snapshot h
  | ResubscriptionFailed e => resubscription_failed e h
  | RecoveryLoopFailed e => recovery_loop_failed e h
  end.

(** The dictionary says that consumption is paused. *)
Definition says_paused (h : health) : Prop := h !! "status" = Some (JStr "degraded") ∧ h !! "consumer_pause" = Some (JBool true).

(** Neither the end of the pause nor a failure of the sampler or of the scan. *)
Definition calm_event (ev : event) : bool :=
  match ev with
  | Sample (Raise e) => negb (is_exception e)
  | Scan (Raise e) => negb (is_exception e)
  | Recovered _ => false
  | _ => true
  end.

Ltac lookups := cbn [update foldl fst snd paused_by degraded_by]; simplify_map_eq.

Lemma calm_keeps_paused h ev : calm_event ev = true → says_paused h → says_paused (apply_event h ev).
Proof.
  unfold says_paused. destruct ev as [[snap|e]|[b|e]| | | | | |]; simpl; intros Hc [Hs Hp].
  - unfold sample. rewrite Hp. simpl. split; by lookups.
  - by destruct (is_exception e).
  - split; by lookups.
  - by destruct (is_exception e).
  - split; unfold pause; by lookups.
  - split; unfold probe_failed; by lookups.
  - split; unfold commit_failed; by lookups.
  - done.
  - split; unfold resubscription_failed; by lookups.
  - split; unfold recovery_loop_failed; by lookups.
Qed.

(** From a pause on, through any sequence of samples, scans, further pauses and failed
    recoveries, the dictionary says that consumption is paused and degraded, as long as
    neither the sampler nor the scan itself fails. *)
Theorem pause_stays_visible h events :
  forallb calm_event events = true → says_paused (foldl apply_event (pause h) events).
Proof.
  assert (says_paused (pause h)) as Hp by (unfold says_paused, pause; split; by lookups).
  revert Hp. generalize (pause h). induction events as [|ev events IH]; intros h0 Hp Hc; [done|].
  simpl in Hc. apply andb_prop in Hc as [He Hc]. simpl. apply IH; [by apply calm_keeps_paused|done].
Qed.

(** A scan's error stays visible through every sample until a scan succeeds. *)
Theorem scan_error_stays_visible e samples h :
  is_exception e = true →
  let h' := foldl (λ h snap, sample (Ok snap) h) (scan (Raise e) h) samples in
  h' !! "status" = Some (JStr "degraded") ∧ h' !! "scanner_error" = Some (JStr (class_name e)).
Proof.
  intros He. cbv zeta. unfold scan. rewrite He.
  set (P := λ h : health, h !! "status" = Some (JStr "degraded") ∧ h !! "scanner_error" = Some (JStr (class_name e))).
  assert (∀ h0 snap, P h0 → P (sample (Ok snap) h0)) as Hstep.
  { intros h0 snap [Hs Hx]. unfold sample, P. rewrite Hx. case_match; split; by lookups. }
  assert (P (update [("status", JStr "degraded"); ("scanner_error", JStr (class_name e))] ∅)) as H0
    by (unfold P; split; by lookups).
  revert H0. generalize (update [("status", JStr "degraded"); ("scanner_error", JStr (class_name e))] ∅). clear He h.
  fold P. intros h1 H1. change (P (foldl (λ h snap, sample (Ok snap) h) h1 samples)). revert h1 H1.
  induction samples as [|snap samples IH]; intros h0 H0; [exact H0|]. apply (IH (sample (Ok snap) h0)), Hstep, H0.
Qed.

(** A failure of the sampler forgets the pause: its handler clears the whole dictionary, and
    the next sample then shows the status of the tables alone, while every consumer is still
    stopped.  A failed scan forgets it the same way. *)
Theorem sampler_failure_hides_pause h e snapshot :
  is_exception e = true → snapshot !! "status" = Some (JStr "enabled") → snapshot !! "consumer_pause" = None →
  let hidden h := h !! "status" = Some (JStr "enabled") ∧ h !! "consumer_pause" = None in
  hidden (foldl apply_event (pause h) [Sample (Raise e); Sample (Ok snapshot)]) ∧
  (snapshot !! "scanner_error" = None →
   hidden (foldl apply_event (pause h) [Scan (Raise e); Scan (Ok false); Sample (Ok snapshot)])).
Proof. intros He Hs Hp. simpl. unfold sample, scan. rewrite He. split; [|intros _]; split; by lookups. Qed.
End health.

Lemma pause_stays_visible_witness :
  says_paused (foldl (apply_event (λ _, "ValueError")) (pause ∅) [Sample (Ok ∅); Scan (Ok true); CommitFailed ValueError; Sample (Ok ∅)]).
Proof. apply (pause_stays_visible (λ _, "ValueError") ∅). reflexivity. Defined.
