(* ===== verification/Consumers.v ===== *)
(** * Consumers: the broker side of [tableinator.py]

    Which queues are consumed, on which transport, and the gate that keeps every consumer
    closed while the durable refresh cannot commit.  The module's globals are one record;
    each function is one step on it, given the answers of the broker calls it awaits: what it
    does when nothing else happens while it waits.  [Awaits] takes the functions apart at
    their awaits, proves that uninterrupted they are these steps, and interleaves them.
    [last_message_time] is not modelled, of the metrics only the gauge of active consumers
    is, and the health dictionary is in [Health]. *)

From S2P Require Import Prelude Json Contract Latch Durable.

(** ** State *)

Record transport := {
  (** [consumer_tags], in insertion order *)
  tags : list (string * string);
  (** the keys of [queues] *)
  queues : gset string;
  (** [delivery_channels] and whether each is closed *)
  channels : gmap string bool;
  (** whether [active_connection] and [active_channel] are set *)
  connection : bool;
  channel : bool;
  cancellation_failed : bool;
  reset_pending : bool;
  (** the sum of what [record_consumer_started] and [record_consumer_stopped] added *)
  active : Z;
}.

Record gate := {
  durable_active : bool;
  ready : bool;
  paused : bool;
  recovery_signals : gset (string * string);
  resume_types : gset string;
}.

Record loader := {
  tr : transport;
  gt : gate;
  completed_files : gset string;
  extraction_signalled : gset string;
  (** the tag each scheduled cancellation captured *)
  cancel_tasks : gmap string (option string);
  suspected_lost_tags : gset string;
  shutdown_requested : bool;
}.

Definition set_tr (t : transport) (l : loader) : loader :=
  {| tr := t; gt := gt l; completed_files := completed_files l; extraction_signalled := extraction_signalled l;
     cancel_tasks := cancel_tasks l; suspected_lost_tags := suspected_lost_tags l;
     shutdown_requested := shutdown_requested l |}.
Definition set_gt (g : gate) (l : loader) : loader :=
  {| tr := tr l; gt := g; completed_files := completed_files l; extraction_signalled := extraction_signalled l;
     cancel_tasks := cancel_tasks l; suspected_lost_tags := suspected_lost_tags l;
     shutdown_requested := shutdown_requested l |}.
Definition set_completed (c : gset string) (l : loader) : loader :=
  {| tr := tr l; gt := gt l; completed_files := c; extraction_signalled := extraction_signalled l;
     cancel_tasks := cancel_tasks l; suspected_lost_tags := suspected_lost_tags l;
     shutdown_requested := shutdown_requested l |}.
Definition set_signalled (c : gset string) (l : loader) : loader :=
  {| tr := tr l; gt := gt l; completed_files := completed_files l; extraction_signalled := c;
     cancel_tasks := cancel_tasks l; suspected_lost_tags := suspected_lost_tags l;
     shutdown_requested := shutdown_requested l |}.
Definition set_cancel_tasks (c : gmap string (option string)) (l : loader) : loader :=
  {| tr := tr l; gt := gt l; completed_files := completed_files l; extraction_signalled := extraction_signalled l;
     cancel_tasks := c; suspected_lost_tags := suspected_lost_tags l; shutdown_requested := shutdown_requested l |}.
Definition set_suspected (c : gset string) (l : loader) : loader :=
  {| tr := tr l; gt := gt l; completed_files := completed_files l; extraction_signalled := extraction_signalled l;
     cancel_tasks := cancel_tasks l; suspected_lost_tags := c; shutdown_requested := shutdown_requested l |}.

Definition set_tags (ts : list (string * string)) (n : Z) (t : transport) : transport :=
  {| tags := ts; queues := queues t; channels := channels t; connection := connection t; channel := channel t;
     cancellation_failed := cancellation_failed t; reset_pending := reset_pending t; active := n |}.
Definition set_queues (q : gset string) (t : transport) : transport :=
  {| tags := tags t; queues := q; channels := channels t; connection := connection t; channel := channel t;
     cancellation_failed := cancellation_failed t; reset_pending := reset_pending t; active := active t |}.
Definition set_channels (c : gmap string bool) (t : transport) : transport :=
  {| tags := tags t; queues := queues t; channels := c; connection := connection t; channel := channel t;
     cancellation_failed := cancellation_failed t; reset_pending := reset_pending t; active := active t |}.
Definition set_connected (conn chan : bool) (t : transport) : transport :=
  {| tags := tags t; queues := queues t; channels := channels t; connection := conn; channel := chan;
     cancellation_failed := cancellation_failed t; reset_pending := reset_pending t; active := active t |}.
Definition set_cancellation_failed (b : bool) (t : transport) : transport :=
  {| tags := tags t; queues := queues t; channels := channels t; connection := connection t; channel := channel t;
     cancellation_failed := b; reset_pending := reset_pending t; active := active t |}.
Definition set_reset_pending (b : bool) (t : transport) : transport :=
  {| tags := tags t; queues := queues t; channels := channels t; connection := connection t; channel := channel t;
     cancellation_failed := cancellation_failed t; reset_pending := b; active := active t |}.

(** [d.pop(k, None)] *)
Definition od_del {V} (k : string) (d : list (string * V)) : list (string * V) := filter (λ kv : string * V, kv.1 ≠ k) d.

Definition tagged (data_type : string) (t : transport) : bool := bool_decide (data_type ∈ (tags t).*1).
Definition no_tags (t : transport) : bool := bool_decide (tags t = []).

(** [durable_refresh_active and (durable_refresh_paused or not durable_refresh_ready)] *)
Definition gate_closed (g : gate) : bool := durable_active g && (paused g || negb (ready g)).

(** ** Closing the transport *)

(** Whether each close succeeds; the [again] answers are those of a second attempt. *)
Record closing := {
  close_connection : bool;
  close_delivery : string → bool;
  close_topology : bool;
  close_delivery_again : string → bool;
  close_topology_again : bool;
}.

Definition has_channels (t : transport) : bool := negb (bool_decide (channels t = ∅)) || channel t.

Definition all_closed (delivery : string → bool) (topology : bool) (t : transport) : bool :=
  forallb (λ kv, delivery kv.1) (map_to_list (channels t)) && (negb (channel t) || topology).

(** The transport once its closure is confirmed. *)
Definition dropped (conn : bool) (t : transport) : transport :=
  {| tags := []; queues := queues t; channels := ∅; connection := conn; channel := false;
     cancellation_failed := false; reset_pending := false; active := active t - Z.of_nat (length (tags t)) |}.

Definition _reset_durable_broker (a : closing) (t : transport) : transport * bool :=
  if negb (connection t) && negb (has_channels t) && negb (no_tags t) then (t, false)
  else if (if connection t then close_connection a else all_closed (close_delivery a) (close_topology a) t)
  then (dropped false t, true)
  else if negb (has_channels t) then (t, false)
  else if all_closed (close_delivery_again a) (close_topology_again a) t
  then (dropped (connection t) t, true)
  else (t, false).

Definition _close_recovery_broker (a : closing) (t : transport) : transport * bool :=
  let cleared :=
    {| tags := []; queues := ∅; channels := ∅; connection := false; channel := false;
       cancellation_failed := false; reset_pending := reset_pending t;
       active := active t - Z.of_nat (length (tags t)) |} in
  if negb (connection t) && negb (channel t) && bool_decide (channels t = ∅) then
    if negb (no_tags t) then (set_cancellation_failed true t, false) else (t, true)
  else if connection t then
    if close_connection a then (cleared, true) else (set_cancellation_failed true t, false)
  else if all_closed (close_delivery a) (close_topology a) t then (cleared, true)
  else (set_cancellation_failed true t, false).

(** ** Starting consumers *)

(** The answers while one consumer starts: opening a channel with its prefetch, declaring
    the queue, consuming. *)
Record starting := { st_open : result (); st_declare : result (); st_consume : result string }.

Definition _start_consumer (a : starting) (data_type : string) (t : transport) : transport * result string :=
  let opened :=
    match channels t !! data_type with
    | Some false => Ok t
    | _ => if connection t then let! _ := st_open a in Ok (set_channels (<[data_type := false]> (channels t)) t)
           else Raise AttributeError
    end in
  match opened with
  | Raise e => (t, Raise e)
  | Ok t =>
      match st_declare a with
      | Raise e => (t, Raise e)
      | Ok _ => (set_queues (queues t ∪ {[data_type]}) t, st_consume a)
      end
  end.

(** [consumer_tags[data_type] = await _start_consumer(data_type)] *)
Definition start_tagged (a : starting) (data_type : string) (t : transport) : transport * result () :=
  match _start_consumer a data_type t with
  | (t, Ok tag) => (set_tags (od_set data_type tag (tags t)) (active t + 1) t, Ok ())
  | (t, Raise e) => (t, Raise e)
  end.

(** The answers while the whole transport is rebuilt. *)
Record recovering := {
  rc_close : closing;
  rc_connect : result ();
  rc_channel : result ();
  rc_depth : string → result Z;
  rc_qos : result ();
  rc_declare : string → result ();
  rc_start : string → starting;
  rc_close_after : closing;
}.

Definition close_after (a : recovering) (l : loader) : loader :=
  set_tr (_close_recovery_broker (rc_close_after a) (tr l)).1 l.

Definition recover_depths (a : recovering) : result (list (string * Z)) :=
  map_result (λ d, let! n := rc_depth a d in Ok (d, n)) DATA_TYPES.

(** [queues = {}] and one declaration per type, to the first that raises. *)
Definition redeclare (a : recovering) (t : transport) : transport * result () :=
  foldl (λ '(t, r) d,
    match r with
    | Raise e => (t, Raise e)
    | Ok _ => match rc_declare a d with
              | Ok _ => (set_queues (queues t ∪ {[d]}) t, Ok ())
              | Raise e => (t, Raise e)
              end
    end) (set_queues ∅ t, Ok ()) DATA_TYPES.

(** One round of the loop that restarts consumers. *)
Definition recover_start (a : recovering) (pending : list string) (acc : loader * result ()) (d : string)
    : loader * result () :=
  let '(l, r) := acc in
  match r with
  | Raise e => (l, Raise e)
  | Ok _ =>
      if bool_decide (d ∈ queues (tr l)) && negb (tagged d (tr l)) then
        match start_tagged (rc_start a d) d (tr l) with
        | (t, Raise e) => (set_tr t l, Raise e)
        | (t, Ok _) =>
            let l := set_tr t l in
            (if bool_decide (d ∈ pending) then set_completed (completed_files l ∖ {[d]}) l else l, Ok ())
        end
      else (l, Ok ())
  end.

Definition incomplete_types (l : loader) : list string := filter (λ d, d ∉ completed_files l) DATA_TYPES.

(** What follows the depths: the loader, and whether the work raised. *)
Definition recover_work (a : recovering) (depths : list (string * Z)) (l : loader) : loader * result () :=
  let pending := (filter (λ dn : string * Z, 0 < dn.2) depths).*1 in
  if negb (bool_decide (pending = [])) || negb (bool_decide (incomplete_types l = [])) then
    match rc_qos a with
    | Raise e => (l, Raise e)
    | Ok _ =>
        match redeclare a (tr l) with
        | (t, Raise e) => (set_tr t l, Raise e)
        | (t, Ok _) => foldl (recover_start a pending) (set_tr t l, Ok ()) DATA_TYPES
        end
    end
  else (close_after a l, Ok ()).

Definition _recover_consumers (a : recovering) (l : loader) : loader :=
  if gate_closed (gt l) then l
  else
    match _close_recovery_broker (rc_close a) (tr l) with
    | (t, false) => set_tr t l
    | (t, true) =>
        let l := set_tr t l in
        match rc_connect a with
        | Raise _ => close_after a l
        | Ok _ =>
            match rc_channel a with
            | Raise _ => close_after a (set_tr (set_connected true false (tr l)) l)
            | Ok _ =>
                let l := set_tr (set_connected true true (tr l)) l in
                match recover_depths a with
                | Raise _ => close_after a l
                | Ok depths =>
                    match recover_work a depths l with
                    | (l, Ok _) => l
                    | (l, Raise _) => close_after a l
                    end
                end
            end
        end
    end.

(** ** Cancelling consumers *)

(** [schedule_consumer_cancellation]: the new timer replaces the old one. *)
Definition schedule_consumer_cancellation (data_type : string) (l : loader) : loader :=
  set_cancel_tasks (<[data_type := od_get data_type (tags (tr l))]> (cancel_tasks l)) l.

Definition check_all_consumers_idle (l : loader) : bool :=
  no_tags (tr l) && Nat.eqb (length DATA_TYPES) (size (completed_files l)).

(** The timer of [cancel_after_delay] fires: nothing happens unless the consumer it was set
    for is still the type's consumer. *)
Definition cancel_after_delay (cancel_ok : bool) (a : closing) (data_type : string) (l : loader) : loader :=
  match cancel_tasks l !! data_type with
  | None => l
  | Some captured =>
      let l := set_cancel_tasks (delete data_type (cancel_tasks l)) l in
      if bool_decide (captured ≠ None) && bool_decide (od_get data_type (tags (tr l)) = captured) then
        if cancel_ok then
          let l := set_tr (set_tags (od_del data_type (tags (tr l))) (active (tr l) - 1) (tr l)) l in
          if check_all_consumers_idle l then set_tr (_close_recovery_broker a (tr l)).1 l else l
        else set_tr (set_cancellation_failed true (tr l)) l
      else l
  end.

(** A loop of confirmed cancellations over [todo], to the first that fails. *)
Fixpoint cancel_each (cancel_ok : string → bool) (todo : list (string * string)) (t : transport) : transport * bool :=
  match todo with
  | [] => (t, true)
  | (d, _) :: todo =>
      if bool_decide (d ∈ queues t) && cancel_ok d
      then cancel_each cancel_ok todo (set_tags (od_del d (tags t)) (active t - 1) t)
      else (t, false)
  end.

(** The loop of [cancel_all_consumers]: a missing queue is skipped, a failed call ends it. *)
Fixpoint cancel_all (cancel_ok : string → bool) (todo : list (string * string)) (t : transport) : transport :=
  match todo with
  | [] => t
  | (d, _) :: todo =>
      if bool_decide (d ∈ queues t) then
        if cancel_ok d then cancel_all cancel_ok todo (set_tags (od_del d (tags t)) (active t - 1) t)
        else set_cancellation_failed true t
      else cancel_all cancel_ok todo (set_cancellation_failed true t)
  end.

(** A pending timer is cancelled and awaited; one cut off in the middle of its own call to the
    broker, which also sets [consumer_cancellation_failed], is not modelled. *)
Definition cancel_all_consumers (cancel_ok : string → bool) (l : loader) : loader :=
  set_tr (cancel_all cancel_ok (tags (tr l)) (tr l)) (set_cancel_tasks ∅ l).

(** [pause_durable_consumers] *)
Definition pause_durable_consumers (cancel_ok : string → bool) (a : closing) (data_type version : string) (l : loader)
    : loader * bool :=
  let g := gt l in
  let l := set_gt {| durable_active := durable_active g; ready := false; paused := true;
                     recovery_signals := recovery_signals g ∪ {[(data_type, version)]};
                     resume_types := resume_types g ∪ list_to_set (tags (tr l)).*1 |} l in
  match cancel_each cancel_ok (tags (tr l)) (tr l) with
  | (t, true) => (set_tr t l, true)
  | (t, false) => (set_tr (_reset_durable_broker a (set_reset_pending true t)).1 l, false)
  end.

(** ** Lost consumers *)

(** What the client answers for a type's channel: closed, its consumer table, or an error. *)
Inductive channel_look := LookClosed | LookConsumers (live : gset string) | LookError.

(** Whether a type's channel exists: its own, else the topology channel. *)
Definition has_channel (data_type : string) (t : transport) : bool :=
  bool_decide (is_Some (channels t !! data_type)) || channel t.

Definition missing_tag (look : string → channel_look) (l : loader) (dt : string * string) : bool :=
  let '(d, tag) := dt in
  has_channel d (tr l) && bool_decide (d ∉ completed_files l) &&
  match look d with
  | LookClosed => false
  | LookConsumers live => bool_decide (tag ∉ live)
  | LookError => true
  end.

Definition closed_type (look : string → channel_look) (l : loader) (dt : string * string) : bool :=
  has_channel dt.1 (tr l) && match look dt.1 with LookClosed => true | _ => false end.

Definition lost_consumer_types (look : string → channel_look) (l : loader) : loader * list string :=
  if no_tags (tr l) || shutdown_requested l then (set_suspected ∅ l, [])
  else
    let missing := filter (λ dt : string * string, missing_tag look l dt) (tags (tr l)) in
    let lost := (filter (λ dt : string * string, dt.2 ∈ suspected_lost_tags l) missing).*1 in
    let closed := (filter (λ dt : string * string, closed_type look l dt) (tags (tr l))).*1 in
    (set_suspected (list_to_set missing.*2) l, sort_strings (unique (lost ++ closed))).

Definition consumers_lost_at_broker (look : string → channel_look) (l : loader) : bool :=
  negb (bool_decide ((lost_consumer_types look l).2 = [])).

Definition check_consumers_unexpectedly_dead (l : loader) : bool :=
  no_tags (tr l) && Nat.ltb (size (completed_files l)) (length DATA_TYPES) && negb (shutdown_requested l).

(** [_recover_data_type]; [close_ok] tells whether the old channel's close is confirmed, by
    its answer or by the channel itself. *)
Definition _recover_data_type (close_ok : bool) (a : starting) (data_type : string) (l : loader) : loader * bool :=
  if gate_closed (gt l) then (l, false)
  else if bool_decide (is_Some (channels (tr l) !! data_type)) && negb close_ok then (l, false)
  else
    let t := set_tags (od_del data_type (tags (tr l))) (if tagged data_type (tr l) then active (tr l) - 1 else active (tr l))
               (set_channels (delete data_type (channels (tr l))) (tr l)) in
    if negb (connection t) then (set_tr t l, false)
    else match start_tagged a data_type t with
         | (t, Ok _) => (set_tr t l, true)
         | (t, Raise _) => (set_tr (set_channels (delete data_type (channels t)) t) l, false)
         end.

(** ** Parked markers *)

Definition types_awaiting_marker (l : loader) : list string :=
  filter (λ d, d ∈ completed_files l ∧ d ∉ (tags (tr l)).*1 ∧ d ∉ extraction_signalled l) DATA_TYPES.

(** [queue_depth]; [count] is the answer of the passive declaration on a new channel. *)
Definition queue_depth (count : result Z) (t : transport) : option Z :=
  if connection t then match count with Ok n => Some n | Raise _ => None end else None.

(** One round of the loop. *)
Definition resume_parked (depth : string → result Z) (start : string → starting) (acc : loader * bool) (d : string)
    : loader * bool :=
  let '(l, resumed) := acc in
  if match queue_depth (depth d) (tr l) with Some n => negb (n =? 0) | None => false end && negb (tagged d (tr l)) && connection (tr l) then
    match start_tagged (start d) d (tr l) with
    | (t, Ok _) => (set_tr t l, true)
    | (t, Raise _) => (set_tr (set_channels (delete d (channels t)) t) l, resumed)
    end
  else (l, resumed).

Definition recover_parked_markers (depth : string → result Z) (start : string → starting) (a : recovering) (l : loader)
    : loader * bool :=
  let pending := types_awaiting_marker l in
  if bool_decide (pending = []) || shutdown_requested l then (l, false)
  else if gate_closed (gt l) then (l, false)
  else if negb (connection (tr l)) then (_recover_consumers a l, true)
  else foldl (resume_parked depth start) (l, false) pending.

(** ** The periodic check *)

Record ticking := {
  tk_reset : closing;
  tk_recover : recovering;
  tk_depth : string → result Z;
  tk_start : string → starting;
  tk_look : string → channel_look;
  tk_close_type : string → bool;
  tk_stuck_due : bool;
  tk_idle_due : bool;
}.

(** [all([await _recover_data_type(d) for d in lost])]: every type is tried. *)
Definition recover_types (a : ticking) (lost : list string) (l : loader) : loader * bool :=
  foldl (λ '(l, ok) d, let '(l, r) := _recover_data_type (tk_close_type a d) (tk_start a d) d l in (l, ok && r))
    (l, true) lost.

(** One iteration of [periodic_queue_checker] after its sleep. *)
Definition periodic_tick (a : ticking) (l : loader) : loader :=
  if gate_closed (gt l) then l
  else if cancellation_failed (tr l) then
    match _reset_durable_broker (tk_reset a) (tr l) with
    | (t, true) => _recover_consumers (tk_recover a) (set_tr t l)
    | (t, false) => set_tr t l
    end
  else
    let l := (recover_parked_markers (tk_depth a) (tk_start a) (tk_recover a) l).1 in
    if negb (tk_stuck_due a) then l
    else
      let '(l, lost) := lost_consumer_types (tk_look a) l in
      if negb (bool_decide (lost = [])) then
        let '(l, ok) := recover_types a lost l in
        if ok then l else _recover_consumers (tk_recover a) l
      else if check_consumers_unexpectedly_dead l then _recover_consumers (tk_recover a) l
      else if negb (tk_idle_due a) then l
      else if connection (tr l) || negb (no_tags (tr l)) then l
      else _recover_consumers (tk_recover a) l.

(** ** Recovery of the durable path *)

(** What recovery needs of the durable store. *)
Class SignalStore (S : Type) := {
  schema_ok : S → bool;
  reconcile : S → S * result ();
  (** [record_durable_signal] for a type and version, and its answer *)
  commit_signal : string → string → S → S * result ();
  read_health : S → result ();
  (** a type's signal for a version is stored *)
  stored : string → string → S → Prop;
  commit_stores d v s s' : commit_signal d v s = (s', Ok ()) → stored d v s';
  commit_keeps d v s s' r d' v' : commit_signal d v s = (s', r) → stored d' v' s → stored d' v' s';
}.

Section recovery.
Context {S : Type} `{SignalStore S}.

Definition signal_order (x y : string * string) : bool :=
  if bool_decide (x.1 = y.1) then String.leb x.2 y.2 else String.leb x.1 y.1.

(** The replay loop, to the first commit that raises; without an admission budget it raises
    before the commit. *)
Fixpoint commit_all (admission : bool) (todo : list (string * string)) (s : S) : S * result () :=
  match todo with
  | [] => (s, Ok ())
  | (d, v) :: todo =>
      if negb admission then (s, Raise DatabaseUnavailableError)
      else match commit_signal d v s with
           | (s, Ok _) => commit_all admission todo s
           | (s, Raise e) => (s, Raise e)
           end
  end.

Definition commit_recovery (admission : bool) (signals : gset (string * string)) (s : S) : S * result () :=
  match reconcile s with
  | (s, Raise e) => (s, Raise e)
  | (s, Ok _) =>
      match commit_all admission (sort_by signal_order (elements signals)) s with
      | (s, Raise e) => (s, Raise e)
      | (s, Ok _) => (s, read_health s)
      end
  end.

(** Restarting the consumers to resume, on the open transport, to the first that raises. *)
Definition resume_one (start : string → starting) (acc : loader * result ()) (d : string) : loader * result () :=
  let '(l, r) := acc in
  match r with
  | Raise e => (l, Raise e)
  | Ok _ =>
      if negb (tagged d (tr l)) && bool_decide (d ∈ queues (tr l)) then
        let '(t, r) := start_tagged (start d) d (tr l) in (set_tr t l, r)
      else (l, Ok ())
  end.

(** Cancelling what a failed resubscription started: the transport, and whether every
    cancellation is confirmed. *)
Fixpoint cancel_partial (cancel_ok : string → bool) (todo : list (string * string)) (t : transport) : transport * bool :=
  match todo with
  | [] => (t, true)
  | (d, _) :: todo =>
      if bool_decide (d ∈ queues t) && cancel_ok d
      then cancel_partial cancel_ok todo (set_tags (od_del d (tags t)) (active t - 1) t)
      else let '(t, _) := cancel_partial cancel_ok todo t in (t, false)
  end.

Record resuming := {
  rs_reset : closing;
  rs_start : string → starting;
  rs_recover : recovering;
  rs_cancel : string → bool;
  rs_reset_again : closing;
}.

Definition set_gate (is_ready is_paused : bool) (l : loader) : loader :=
  set_gt {| durable_active := durable_active (gt l); ready := is_ready; paused := is_paused;
            recovery_signals := recovery_signals (gt l); resume_types := resume_types (gt l) |} l.

Definition clear_recovery (l : loader) : loader :=
  set_gt {| durable_active := durable_active (gt l); ready := ready (gt l); paused := paused (gt l);
            recovery_signals := ∅; resume_types := ∅ |} l.

Definition resubscribe (a : resuming) (l : loader) : loader * result () :=
  let '(l, r) :=
    if connection (tr l) && channel (tr l)
    then foldl (resume_one (rs_start a)) (l, Ok ()) (sort_strings (elements (resume_types (gt l))))
    else (_recover_consumers (rs_recover a) l, Ok ()) in
  match r with
  | Raise e => (l, Raise e)
  | Ok _ => (l, if forallb (λ d, tagged d (tr l)) (elements (resume_types (gt l))) then Ok () else Raise RuntimeError)
  end.

Definition fail_resubscription (a : resuming) (l : loader) : loader :=
  let l := set_gate false true l in
  match cancel_partial (rs_cancel a) (tags (tr l)) (tr l) with
  | (t, true) => set_tr t l
  | (t, false) => set_tr (_reset_durable_broker (rs_reset_again a) (set_reset_pending true t)).1 l
  end.

(** [attempt_durable_recovery]; [pool] and [admission] tell whether the connection pool and
    the admission budget exist. *)
Definition attempt_durable_recovery (pool admission : bool) (a : resuming) (s : S) (l : loader) : S * loader * bool :=
  if negb (durable_active (gt l)) || shutdown_requested l || negb pool then (s, l, false)
  else
    let '(t, open) := if reset_pending (tr l) then _reset_durable_broker (rs_reset a) (tr l) else (tr l, true) in
    let l := set_tr t l in
    if negb open then (s, l, false)
    else if negb (schema_ok s) then (s, set_gate false true l, false)
    else
      match commit_recovery admission (recovery_signals (gt l)) s with
      | (s, Raise _) => (s, set_gate false true l, false)
      | (s, Ok _) =>
          match resubscribe a (set_gate true false l) with
          | (l, Ok _) => (s, clear_recovery l, true)
          | (l, Raise _) => (s, fail_resubscription a l, false)
          end
      end.
End recovery.

(** ** Frames *)

Lemma od_del_keys {V} (k x : string) (d : list (string * V)) : x ∈ (od_del k d).*1 ↔ x ∈ d.*1 ∧ x ≠ k.
Proof.
  unfold od_del. rewrite !list_elem_of_fmap. split.
  - intros (kv & -> & [Hk Hin]%list_elem_of_filter). split; [by exists kv|done].
  - intros [(kv & -> & Hin) Hk]. exists kv. split; [done|]. by apply list_elem_of_filter.
Qed.

Lemma od_del_nil {V} (k : string) (d : list (string * V)) : d = [] → od_del k d = [].
Proof. by intros ->. Qed.

Lemma fmap_fst_nil {V} (d : list (string * V)) : (∀ x, x ∉ d.*1) → d = [].
Proof. destruct d as [|[k v] d]; [done|]. intros H. destruct (H k). by left. Qed.

(** A transport with no consumer left, or waiting to be closed. *)
Definition quiet (t : transport) : Prop := tags t = [] ∨ reset_pending t = true.

Lemma reset_quiet a t t' ok :
  _reset_durable_broker a t = (t', ok) → if ok then tags t' = [] ∧ reset_pending t' = false ∧ cancellation_failed t' = false else t' = t.
Proof.
  unfold _reset_durable_broker. destruct (_ && negb (no_tags t)); [by intros [= <- <-]|].
  destruct (if connection t then _ else _); [by intros [= <- <-]|].
  destruct (negb (has_channels t)); [by intros [= <- <-]|].
  destruct (all_closed _ _ t); by intros [= <- <-].
Qed.

Lemma close_cases a t t' ok :
  _close_recovery_broker a t = (t', ok) →
  reset_pending t' = reset_pending t ∧
  if ok then tags t' = [] ∧ (cancellation_failed t' = false ∨ t' = t) ∧ connection t' = false ∧ channel t' = false ∧ channels t' = ∅
  else tags t' = tags t ∧ cancellation_failed t' = true.
Proof.
  unfold _close_recovery_broker. destruct (connection t) eqn:Hc; simpl.
  { destruct (close_connection a); intros [= <- <-]; split_and!; try done; by left. }
  destruct (channel t) eqn:Hch; simpl.
  { destruct (all_closed _ _ t); intros [= <- <-]; split_and!; try done; by left. }
  case_bool_decide as Hchs; simpl.
  - unfold no_tags. case_bool_decide as Ht; simpl; intros [= <- <-]; split_and!; try done; by right.
  - destruct (all_closed _ _ t); intros [= <- <-]; split_and!; try done; by left.
Qed.

Lemma close_quiet a t : quiet t → quiet (_close_recovery_broker a t).1.
Proof.
  intros Hq. destruct (_close_recovery_broker a t) as [t' ok] eqn:E. apply close_cases in E as [Hr Hok]. simpl.
  destruct ok; [left; tauto|]. unfold quiet in *. rewrite Hr. destruct Hok as [-> _]. done.
Qed.

Lemma cancel_each_spec cancel_ok todo t t' ok :
  cancel_each cancel_ok todo t = (t', ok) →
  reset_pending t' = reset_pending t ∧ (∀ x, x ∈ (tags t').*1 → x ∈ (tags t).*1) ∧
  (ok = true → ∀ x, x ∈ (tags t').*1 → x ∉ todo.*1).
Proof.
  induction todo as [|[d tag] todo IH] in t |- *; simpl.
  { intros [= <- <-]. split_and!; try done. intros _ x _. apply not_elem_of_nil. }
  destruct (_ && _); [|intros [= <- <-]; by split_and!]. intros (H1 & H2 & H3)%IH. simpl in *.
  split_and!; [done| |].
  - intros x Hx%H2. by apply od_del_keys in Hx as [? _].
  - intros Hok x Hx. apply not_elem_of_cons. split; [|by apply H3]. apply H2, od_del_keys in Hx. tauto.
Qed.

Lemma cancel_partial_spec cancel_ok todo t t' ok :
  cancel_partial cancel_ok todo t = (t', ok) →
  (∀ x, x ∈ (tags t').*1 → x ∈ (tags t).*1) ∧ (ok = true → ∀ x, x ∈ (tags t').*1 → x ∉ todo.*1).
Proof.
  induction todo as [|[d tag] todo IH] in t, t', ok |- *; simpl.
  { intros [= <- <-]. split; [done|]. intros _ x _. apply not_elem_of_nil. }
  destruct (_ && _).
  - intros (H2 & H3)%IH. simpl in *. split.
    + intros x Hx%H2. by apply od_del_keys in Hx as [? _].
    + intros Hok x Hx. apply not_elem_of_cons. split; [|by apply H3]. apply H2, od_del_keys in Hx. tauto.
  - destruct (cancel_partial cancel_ok todo t) as [t1 b] eqn:E. intros [= <- <-].
    destruct (IH _ _ _ E) as [H2 _]. done.
Qed.

Lemma cancel_all_spec cancel_ok todo t :
  reset_pending (cancel_all cancel_ok todo t) = reset_pending t ∧
  ∀ x, x ∈ (tags (cancel_all cancel_ok todo t)).*1 → x ∈ (tags t).*1.
Proof.
  induction todo as [|[d tag] todo IH] in t |- *; simpl; [done|].
  case_bool_decide; [destruct (cancel_ok d)|]; try done.
  - destruct (IH (set_tags (od_del d (tags t)) (active t - 1) t)) as [H1 H2]. split; [done|].
    intros x Hx%H2. simpl in Hx. by apply od_del_keys in Hx as [? _].
  - exact (IH (set_cancellation_failed true t)).
Qed.

Lemma quiet_shrinks t t' :
  reset_pending t' = reset_pending t → (∀ x, x ∈ (tags t').*1 → x ∈ (tags t).*1) → quiet t → quiet t'.
Proof.
  unfold quiet. intros -> Hsub [Ht|Hr]; [left|by right]. apply fmap_fst_nil. intros x Hx%Hsub.
  rewrite Ht in Hx. by apply elem_of_nil in Hx.
Qed.

(** The functions that only move the transport keep the gate. *)
Lemma recover_start_gate a pending l r d : gt (recover_start a pending (l, r) d).1 = gt l.
Proof.
  unfold recover_start. destruct r; [|done]. destruct (_ && _); [|done].
  destruct (start_tagged _ _ _) as [t [[]|e]]; [|done]. by case_bool_decide.
Qed.

Lemma foldl_gate {X} (f : loader * X → string → loader * X) ds l x :
  (∀ l x d, gt (f (l, x) d).1 = gt l) → gt (foldl f (l, x) ds).1 = gt l.
Proof.
  intros Hf. induction ds as [|d ds IH] in l, x |- *; simpl; [done|].
  pose proof (Hf l x d) as H1. destruct (f (l, x) d) as [l1 x1]. rewrite IH. exact H1.
Qed.

Lemma recover_consumers_gate a l : gt (_recover_consumers a l) = gt l.
Proof.
  unfold _recover_consumers. destruct (gate_closed (gt l)); [done|].
  destruct (_close_recovery_broker (rc_close a) (tr l)) as [t [|]]; [|done].
  destruct (rc_connect a); [|done]. destruct (rc_channel a); [|done]. destruct (recover_depths a); [|done].
  match goal with |- context [recover_work a ?ds ?l0] =>
    assert (gt (recover_work a ds l0).1 = gt l) as Hw; [|destruct (recover_work a ds l0) as [l1 [[]|e]]; exact Hw] end.
  unfold recover_work. destruct (_ || _); [|done]. destruct (rc_qos a); [|done].
  destruct (redeclare _ _) as [t1 [[]|e]]; [|done]. rewrite foldl_gate; [done|]. apply recover_start_gate.
Qed.

Lemma resume_parked_gate depth start l b d : gt (resume_parked depth start (l, b) d).1 = gt l.
Proof. unfold resume_parked. destruct (_ && _); [|done]. by destruct (start_tagged _ _ _) as [t [[]|e]]. Qed.

Lemma recover_parked_markers_gate depth start a l : gt (recover_parked_markers depth start a l).1 = gt l.
Proof.
  unfold recover_parked_markers. destruct (_ || _); [done|]. destruct (gate_closed _); [done|].
  destruct (negb _); [apply recover_consumers_gate|]. apply foldl_gate, resume_parked_gate.
Qed.

Lemma recover_data_type_gate c a d l : gt (_recover_data_type c a d l).1 = gt l.
Proof.
  unfold _recover_data_type. destruct (gate_closed _); [done|]. destruct (_ && _); [done|]. destruct (negb _); [done|].
  by destruct (start_tagged _ _ _) as [t [[]|e]].
Qed.

Lemma recover_types_gate a lost l : gt (recover_types a lost l).1 = gt l.
Proof.
  unfold recover_types. apply foldl_gate. intros l0 b d.
  pose proof (recover_data_type_gate (tk_close_type a d) (tk_start a d) d l0) as H1.
  by destruct (_recover_data_type _ _ _ _) as [l1 r].
Qed.

Lemma periodic_tick_gate a l : gt (periodic_tick a l) = gt l.
Proof.
  unfold periodic_tick. destruct (gate_closed (gt l)); [done|]. destruct (cancellation_failed (tr l)).
  { destruct (_reset_durable_broker _ _) as [t [|]]; [|done]. by rewrite recover_consumers_gate. }
  rewrite <-(recover_parked_markers_gate (tk_depth a) (tk_start a) (tk_recover a) l).
  set (l1 := (recover_parked_markers _ _ _ l).1). clearbody l1. destruct (negb (tk_stuck_due a)); [done|].
  assert (gt (lost_consumer_types (tk_look a) l1).1 = gt l1) as Hl by (unfold lost_consumer_types; by destruct (_ || _)).
  destruct (lost_consumer_types (tk_look a) l1) as [l2 lost]. simpl in Hl. rewrite <-Hl. destruct (negb _).
  - pose proof (recover_types_gate a lost l2) as Hr. destruct (recover_types a lost l2) as [l3 ok]. simpl in Hr.
    destruct ok; [done|]. by rewrite recover_consumers_gate.
  - destruct (check_consumers_unexpectedly_dead l2); [by rewrite recover_consumers_gate|].
    destruct (negb _); [done|]. destruct (_ || _); [done|]. by rewrite recover_consumers_gate.
Qed.

(** ** The gate *)

Section gate.
Context {S : Type} `{SignalStore S}.

(** One round of [durable_recovery_loop]. *)
Definition durable_recovery_round (pool admission : bool) (a : resuming) (s : S) (l : loader) : S * loader :=
  if paused (gt l) || negb (ready (gt l)) then (attempt_durable_recovery pool admission a s l).1 else (s, l).

(** The loader's steps, one after another: a consumer started at startup, a scheduled cancellation and its timer,
    shutdown, a pause, the periodic check and the recovery loop; [lstep_other] is any change
    of the progress sets, of the other flags or of the store. *)
Inductive lstep : S * loader → S * loader → Prop :=
  | lstep_start s l a d :
      gate_closed (gt l) = false → tagged d (tr l) = false → lstep (s, l) (s, set_tr (start_tagged a d (tr l)).1 l)
  | lstep_schedule s l d : lstep (s, l) (s, schedule_consumer_cancellation d l)
  | lstep_timer s l ok a d : lstep (s, l) (s, cancel_after_delay ok a d l)
  | lstep_shutdown s l ok : lstep (s, l) (s, cancel_all_consumers ok l)
  | lstep_pause s l ok a d v : lstep (s, l) (s, (pause_durable_consumers ok a d v l).1)
  | lstep_tick s l a : lstep (s, l) (s, periodic_tick a l)
  | lstep_recovery s l pool admission a : lstep (s, l) (durable_recovery_round pool admission a s l)
  | lstep_other s s' l l' : tr l' = tr l → gt l' = gt l → lstep (s, l) (s', l').

Definition safe (l : loader) : Prop := gate_closed (gt l) = true → quiet (tr l).

Lemma pause_quiet ok a d v l : quiet (tr (pause_durable_consumers ok a d v l).1).
Proof.
  unfold pause_durable_consumers. cbn [tr set_gt]. destruct (cancel_each ok (tags (tr l)) (tr l)) as [t b] eqn:E.
  apply cancel_each_spec in E as (_ & Hsub & Hnone). destruct b; simpl.
  - left. apply fmap_fst_nil. intros x Hx. exact (Hnone eq_refl _ Hx (Hsub _ Hx)).
  - destruct (_reset_durable_broker a (set_reset_pending true t)) as [t' r] eqn:Er. apply reset_quiet in Er. simpl.
    destruct r; [left; tauto|subst; by right].
Qed.

Lemma fail_resubscription_quiet a l : quiet (tr (fail_resubscription a l)).
Proof.
  unfold fail_resubscription. cbn [tr set_gate set_gt].
  destruct (cancel_partial (rs_cancel a) (tags (tr l)) (tr l)) as [t b] eqn:E.
  apply cancel_partial_spec in E as (Hsub & Hnone). destruct b; simpl.
  - left. apply fmap_fst_nil. intros x Hx. exact (Hnone eq_refl _ Hx (Hsub _ Hx)).
  - destruct (_reset_durable_broker _ (set_reset_pending true t)) as [t' r] eqn:Er. apply reset_quiet in Er. simpl.
    destruct r; [left; tauto|subst; by right].
Qed.

Lemma resume_one_gate start l r d : gt (resume_one start (l, r) d).1 = gt l.
Proof. unfold resume_one. destruct r; [|done]. destruct (_ && _); [|done]. by destruct (start_tagged _ _ _). Qed.

Lemma resubscribe_gate a l : gt (resubscribe a l).1 = gt l.
Proof.
  unfold resubscribe.
  assert (gt (if connection (tr l) && channel (tr l)
    then foldl (resume_one (rs_start a)) (l, Ok ()) (sort_strings (elements (resume_types (gt l))))
    else (_recover_consumers (rs_recover a) l, Ok ())).1 = gt l) as Hg.
  { destruct (_ && _); [apply foldl_gate, resume_one_gate|apply recover_consumers_gate]. }
  by destruct (if connection (tr l) && channel (tr l) then _ else _) as [l1 [[]|e]].
Qed.

Lemma commit_all_spec admission todo s s' r :
  commit_all admission todo s = (s', r) →
  (∀ d v, stored d v s → stored d v s') ∧ (r = Ok () → ∀ d v, (d, v) ∈ todo → stored d v s').
Proof.
  induction todo as [|[d v] todo IH] in s |- *; simpl.
  { intros [= <- <-]. split; [done|]. by intros _ d v ?%elem_of_nil. }
  destruct admission; simpl; [|by intros [= <- <-]].
  destruct (commit_signal d v s) as [s1 [[]|e]] eqn:E.
  - intros Hrest. destruct (IH _ Hrest) as [Hk Ho]. split.
    + intros d' v' Hs. apply Hk. by eapply commit_keeps.
    + intros Hr d' v' [[= -> ->]|Hin]%elem_of_cons; [apply Hk; by eapply commit_stores|by apply Ho].
  - intros [= <- <-]. split; [|done]. intros d' v' Hs. by eapply commit_keeps.
Qed.

Lemma commit_recovery_spec admission signals s s' :
  commit_recovery admission signals s = (s', Ok ()) → ∀ d v, (d, v) ∈ signals → stored d v s'.
Proof.
  unfold commit_recovery. destruct (reconcile s) as [s1 [[]|e]]; [|done].
  destruct (commit_all admission _ s1) as [s2 [[]|e]] eqn:E; [|done]. intros [= <- _] d v Hin.
  apply (proj2 (commit_all_spec _ _ _ _ _ E) eq_refl). by apply elem_of_sort_by, elem_of_elements.
Qed.

(** Every way the recovery ends. *)
Lemma recovery_cases pool admission a s l s' l' ok :
  attempt_durable_recovery pool admission a s l = (s', l', ok) →
  (ok = true ∧ durable_active (gt l) = true ∧ ready (gt l') = true ∧ paused (gt l') = false ∧
     (∀ d v, (d, v) ∈ recovery_signals (gt l) → stored d v s') ∧
     (∀ d, d ∈ resume_types (gt l) → d ∈ (tags (tr l')).*1) ∧
     recovery_signals (gt l') = ∅ ∧ resume_types (gt l') = ∅) ∨
  (ok = false ∧ recovery_signals (gt l') = recovery_signals (gt l) ∧ resume_types (gt l') = resume_types (gt l) ∧
     durable_active (gt l') = durable_active (gt l) ∧ (quiet (tr l) → quiet (tr l')) ∧
     (durable_active (gt l) = true → gate_closed (gt l') = gate_closed (gt l) ∨ gate_closed (gt l') = true)).
Proof.
  unfold attempt_durable_recovery. destruct (durable_active (gt l)) eqn:Ha; simpl;
    [|intros [= <- <- <-]; right; by split_and!].
  destruct (_ || _); [intros [= <- <- <-]; right; split_and!; try done; by left|].
  assert (∃ t open, (if reset_pending (tr l) then _reset_durable_broker (rs_reset a) (tr l) else (tr l, true)) = (t, open) ∧
    (quiet (tr l) → quiet t)) as (t & open & -> & Hq).
  { destruct (reset_pending (tr l)) eqn:Hr; [|by eexists _, _].
    destruct (_reset_durable_broker (rs_reset a) (tr l)) as [t open] eqn:Er. eexists _, _. split; [done|].
    apply reset_quiet in Er. destruct open; [left; tauto|by subst]. }
  cbv zeta. destruct open; simpl; [|intros [= <- <- <-]; right; split_and!; try done; by left].
  destruct (schema_ok s); simpl.
  2: { intros [= <- <- <-]. right. split_and!; try done. right. unfold gate_closed. simpl. by rewrite Ha. }
  destruct (commit_recovery admission (recovery_signals (gt l)) s) as [s1 [[]|e]] eqn:Ec.
  2: { intros [= <- <- <-]. right. split_and!; try done. right. unfold gate_closed. simpl. by rewrite Ha. }
  set (l1 := set_gate true false (set_tr t l)).
  pose proof (resubscribe_gate a l1) as Hg. destruct (resubscribe a l1) as [l2 [[]|e]] eqn:Er; simpl in Hg.
  - intros [= <- <- <-]. left. cbn [gt tr clear_recovery set_gt ready paused recovery_signals resume_types].
    rewrite Hg. split_and!; try done.
    + by eapply commit_recovery_spec.
    + intros d Hd. revert Er. unfold resubscribe.
      destruct (if connection (tr l1) && channel (tr l1) then _ else _) as [l3 [[]|e3]]; [|done].
      destruct (forallb _ _) eqn:Hf; [|done]. intros [= ->]. rewrite Hg in Hf.
      rewrite forallb_forall in Hf. specialize (Hf d). unfold tagged in Hf. rewrite bool_decide_eq_true in Hf.
      apply Hf, list_elem_of_In, elem_of_elements. done.
  - intros [= <- <- <-]. right.
    assert (∀ x, gt (fail_resubscription a x) = gt (set_gate false true x)) as Hfg.
    { intros x. unfold fail_resubscription. by destruct (cancel_partial _ _ _) as [? [|]]. }
    rewrite Hfg. cbn [gt set_gate set_gt recovery_signals resume_types durable_active]. rewrite Hg.
    split_and!; try done; [intros _; apply fail_resubscription_quiet|]. right.
    unfold gate_closed. cbn [durable_active paused ready]. simpl. by rewrite Ha.
Qed.

Lemma lstep_safe x y : lstep x y → safe x.2 → safe y.2.
Proof.
  intros Hstep Hsafe. inversion Hstep as [s l a d Hg _|s l d|s l ok a d|s l ok|s l ok a d v|s l a|s l pool adm a|s s' l l' Ht Hg];
    subst; simpl in *; unfold safe in *.
  - simpl. by rewrite Hg.
  - done.
  - unfold cancel_after_delay. destruct (cancel_tasks l !! d); [|done]. cbn [tr set_cancel_tasks].
    destruct (_ && _); [|done]. destruct ok; [|done].
    assert (gate_closed (gt l) = true → quiet (set_tags (od_del d (tags (tr l))) (active (tr l) - 1) (tr l))) as Hq.
    { intros [Ht|Hr]%Hsafe; [left; by apply od_del_nil|by right]. }
    destruct (check_all_consumers_idle _); [|exact Hq]. intros Hc. apply close_quiet. by apply Hq.
  - intros Hc. destruct (cancel_all_spec ok (tags (tr l)) (tr l)) as [H1 H2].
    apply (quiet_shrinks (tr l)); [done|done|by apply Hsafe].
  - intros _. apply pause_quiet.
  - rewrite periodic_tick_gate. intros Hc. unfold periodic_tick. rewrite Hc. by apply Hsafe.
  - unfold durable_recovery_round. destruct (paused (gt l) || negb (ready (gt l))) eqn:Hp; [|done].
    destruct (attempt_durable_recovery pool adm a s l) as [[s' l'] ok] eqn:E. simpl.
    apply recovery_cases in E as [(_ & _ & Hr & Hpa & _)|(_ & _ & _ & Hda & Hq & _)].
    + unfold gate_closed. by rewrite Hr, Hpa, andb_false_r.
    + intros Hc. apply Hq, Hsafe. unfold gate_closed in *. rewrite Hp, <-Hda. destruct (durable_active (gt l')); done.
  - rewrite Ht, Hg. exact Hsafe.
Qed.

(** C18 A recovery resumes consumption only when nothing can be lost.  It succeeds only after
    every signal whose commit had failed is stored, with a consumer running again for every
    type that had one, the gate open and nothing left to replay; and when it fails it forgets
    no failed signal and no type to resume, never opens the gate, and leaves no consumer on a
    transport that had none. *)
Theorem durable_recovery_exact pool admission a s l :
  let '(s', l', ok) := attempt_durable_recovery pool admission a s l in
  if ok
  then gate_closed (gt l') = false ∧
       (∀ d v, (d, v) ∈ recovery_signals (gt l) → stored d v s') ∧
       (∀ d, d ∈ resume_types (gt l) → d ∈ (tags (tr l')).*1) ∧
       recovery_signals (gt l') = ∅ ∧ resume_types (gt l') = ∅
  else recovery_signals (gt l') = recovery_signals (gt l) ∧ resume_types (gt l') = resume_types (gt l) ∧
       (gate_closed (gt l) = true → gate_closed (gt l') = true) ∧
       (tags (tr l) = [] → tags (tr l') = [] ∨ reset_pending (tr l') = true).
Proof.
  destruct (attempt_durable_recovery pool admission a s l) as [[s' l'] ok] eqn:E.
  apply recovery_cases in E as [(-> & _ & Hr & Hp & Hst & Hre & He1 & He2)|(-> & H1 & H2 & Hda & Hq & Hg)].
  - split_and!; try done. unfold gate_closed. by rewrite Hr, Hp, andb_false_r.
  - split_and!; try done.
    + intros Hc. destruct Hg as [->| ->]; [|done|done]. unfold gate_closed in Hc. by destruct (durable_active (gt l)).
    + intros Ht. apply Hq. by left.
Qed.
End gate.

(** ** Pausing *)

(** C27 A pause stops every delivery or says that it could not.  In both cases the gate closes
    and the failed signal and the running types are remembered.  It answers yes only when
    every consumer's cancellation is confirmed, so that the delivery may be handed back; and
    no when a confirmation is missing, and then either the whole transport was closed, which
    hands the delivery back, or its closure stays pending with the delivery unsettled. *)
Theorem pause_durable_consumers_exact cancel_ok a data_type version l :
  let '(l', ok) := pause_durable_consumers cancel_ok a data_type version l in
  paused (gt l') = true ∧ ready (gt l') = false ∧
  recovery_signals (gt l') = recovery_signals (gt l) ∪ {[(data_type, version)]} ∧
  (∀ d, d ∈ (tags (tr l)).*1 → d ∈ resume_types (gt l')) ∧
  (ok = true ↔ ∀ d, d ∈ (tags (tr l)).*1 → d ∈ queues (tr l) ∧ cancel_ok d = true) ∧
  if ok then tags (tr l') = []
  else (tags (tr l') = [] ∧ reset_pending (tr l') = false) ∨ reset_pending (tr l') = true.
Proof.
  pose proof (pause_quiet cancel_ok a data_type version l) as Hq.
  assert (∀ todo t, (cancel_each cancel_ok todo t).2 = true ↔ ∀ d, d ∈ todo.*1 → d ∈ queues t ∧ cancel_ok d = true) as Hall.
  { induction todo as [|[d tag] todo IH]; intros t; simpl.
    - split; [|done]. by intros _ d ?%elem_of_nil.
    - case_bool_decide as Hd; simpl; [destruct (cancel_ok d) eqn:Hc|].
      + rewrite IH. simpl. split.
        * intros Hr x [->|Hx]%elem_of_cons; [done|by apply Hr].
        * intros Hr x Hx. apply Hr. by right.
      + split; [done|]. intros Hr. destruct (Hr d); [by left|congruence].
      + split; [done|]. intros Hr. destruct (Hr d); [by left|done]. }
  specialize (Hall (tags (tr l)) (tr l)).
  unfold pause_durable_consumers in *. cbn [tr set_gt] in *.
  destruct (cancel_each cancel_ok (tags (tr l)) (tr l)) as [t b] eqn:E. simpl in Hall.
  assert (∀ d, d ∈ (tags (tr l)).*1 → d ∈ resume_types (gt l) ∪ (list_to_set (tags (tr l)).*1 : gset string)) as Hres
    by (intros d Hd; apply elem_of_union_r, elem_of_list_to_set, Hd).
  pose proof (cancel_each_spec _ _ _ _ _ E) as (_ & Hsub & Hnone).
  destruct b; cbn [gt set_gt set_tr paused ready recovery_signals resume_types fst] in *; split_and!; try done.
  - apply fmap_fst_nil. intros x Hx. exact (Hnone eq_refl _ Hx (Hsub _ Hx)).
  - destruct (_reset_durable_broker a (set_reset_pending true t)) as [t' r] eqn:Er. apply reset_quiet in Er. cbn [tr set_tr].
    destruct r; [left; tauto|subst; by right].
Qed.

(** ** Losing consumers *)

(** One look never loses a consumer.  On two consecutive checks of a loader that is not
    shutting down, a type is reported lost at the second exactly when it has a consumer
    whose channel the client reports closed, or whose tag was missing from its channel at
    both checks; a type whose file is complete is reported only for a closed channel. *)
Theorem lost_after_two_looks look1 look2 l1 l2 d :
  tags (tr l1) ≠ [] → tags (tr l2) ≠ [] → shutdown_requested l1 = false → shutdown_requested l2 = false →
  suspected_lost_tags l2 = suspected_lost_tags (lost_consumer_types look1 l1).1 →
  d ∈ (lost_consumer_types look2 l2).2 ↔
  ∃ tag, (d, tag) ∈ tags (tr l2) ∧
    (closed_type look2 l2 (d, tag) = true ∨
     (missing_tag look2 l2 (d, tag) = true ∧
      ∃ d', (d', tag) ∈ tags (tr l1) ∧ missing_tag look1 l1 (d', tag) = true)).
Proof.
  intros Ht1 Ht2 Hs1 Hs2 Hsus.
  assert (∀ look l, tags (tr l) ≠ [] → shutdown_requested l = false → lost_consumer_types look l =
    (set_suspected (list_to_set (filter (λ dt : string * string, missing_tag look l dt) (tags (tr l))).*2) l,
     sort_strings (unique ((filter (λ dt : string * string, dt.2 ∈ suspected_lost_tags l)
       (filter (λ dt : string * string, missing_tag look l dt) (tags (tr l)))).*1
       ++ (filter (λ dt : string * string, closed_type look l dt) (tags (tr l))).*1)))) as Hlost.
  { intros look l Ht Hs. unfold lost_consumer_types, no_tags. rewrite bool_decide_eq_false_2 by done. by rewrite Hs. }
  rewrite (Hlost look2 l2 Ht2 Hs2). rewrite (Hlost look1 l1 Ht1 Hs1) in Hsus. cbn [fst snd suspected_lost_tags set_suspected] in *.
  unfold sort_strings. rewrite elem_of_sort_by, elem_of_unique, elem_of_app, !list_elem_of_fmap, Hsus.
  assert (∀ tag, tag ∈ (list_to_set (filter (λ dt : string * string, missing_tag look1 l1 dt) (tags (tr l1))).*2 : gset string)
    ↔ ∃ d', (d', tag) ∈ tags (tr l1) ∧ missing_tag look1 l1 (d', tag) = true) as Hin.
  { intros tag. rewrite elem_of_list_to_set, list_elem_of_fmap. split.
    - intros ([d' tag'] & -> & [Hm%Is_true_true Hin]%list_elem_of_filter). by exists d'.
    - intros (d' & Hin & Hm). exists (d', tag). split; [done|]. apply list_elem_of_filter. split; [by apply Is_true_true|done]. }
  split.
  - intros [([d' tag] & -> & [Hx [Hm%Is_true_true Hd]%list_elem_of_filter]%list_elem_of_filter)
           |([d' tag] & -> & [Hc%Is_true_true Hd]%list_elem_of_filter)]; exists tag; (split; [exact Hd|]).
    + right. split; [exact Hm|]. by apply Hin.
    + by left.
  - intros (tag & Hd & [Hc|[Hm Hx]]).
    + right. exists (d, tag). split; [done|]. apply list_elem_of_filter. split; [by apply Is_true_true|done].
    + left. exists (d, tag). split; [done|]. apply list_elem_of_filter. split; [by apply Hin|].
      apply list_elem_of_filter. split; [by apply Is_true_true|done].
Qed.

(** ** Rebuilding the transport *)

Lemma close_after_cases a l :
  let l' := close_after a l in
  (tags (tr l') = [] ∧ connection (tr l') = false) ∨ cancellation_failed (tr l') = true.
Proof.
  unfold close_after. destruct (_close_recovery_broker (rc_close_after a) (tr l)) as [t ok] eqn:E.
  apply close_cases in E as [_ Hok]. simpl. destruct ok; [left; tauto|right; tauto].
Qed.

Lemma start_tagged_ok a d t t' :
  start_tagged a d t = (t', Ok ()) → queues t ⊆ queues t' ∧ ∃ tag, tags t' = od_set d tag (tags t).
Proof.
  unfold start_tagged, _start_consumer.
  assert (∀ t1, (match channels t !! d with Some false => Ok t
      | _ => if connection t then let! _ := st_open a in Ok (set_channels (<[d := false]> (channels t)) t)
             else Raise AttributeError end) = Ok t1 → queues t1 = queues t ∧ tags t1 = tags t) as Hopen.
  { intros t1. destruct (channels t !! d) as [[|]|]; [|by intros [= <-]|];
      (destruct (connection t); [|done]); destruct (st_open a); simpl; try done; by intros [= <-]. }
  destruct (match channels t !! d with Some false => _ | _ => _ end) as [t1|e]; [|done].
  destruct (Hopen t1 eq_refl) as [Hq Ht]. destruct (st_declare a); [|done].
  destruct (st_consume a) as [tag|]; [|done]. intros [= <-]. cbn [queues tags set_tags set_queues]. split; [set_solver|].
  exists tag. by rewrite Ht.
Qed.

Lemma od_set_keys_in {V} (k x : string) (v : V) d : x ∈ (od_set k v d).*1 ↔ x = k ∨ x ∈ d.*1.
Proof.
  destruct (decide (k ∈ d.*1)) as [Hk|Hk].
  - rewrite od_set_keys by done. split; [by right|]. intros [->|?]; done.
  - rewrite od_set_keys_new, fmap_app, elem_of_app by done. simpl. rewrite list_elem_of_singleton. tauto.
Qed.

Lemma restart_all a pending ds l l' :
  foldl (recover_start a pending) (l, Ok ()) ds = (l', Ok ()) →
  (∀ d, d ∈ ds → d ∈ queues (tr l)) →
  (∀ x, x ∈ (tags (tr l)).*1 → x ∈ (tags (tr l')).*1) ∧ ∀ d, d ∈ ds → d ∈ (tags (tr l')).*1.
Proof.
  induction ds as [|d ds IH] in l |- *; simpl; intros Hf Hq.
  { injection Hf as <-. split; [done|]. by intros d ?%elem_of_nil. }
  rewrite (bool_decide_eq_true_2 (d ∈ queues (tr l))) in Hf by (apply Hq; by left).
  unfold tagged in Hf. case_bool_decide as Hd; cbn [andb negb] in Hf.
  - destruct (IH l Hf) as [H1 H2]; [intros x Hx; apply Hq; by right|]. split; [done|].
    intros x [->|Hx]%elem_of_cons; [by apply H1|by apply H2].
  - destruct (start_tagged (rc_start a d) d (tr l)) as [t [[]|e]] eqn:Es.
    + apply start_tagged_ok in Es as [Hqs [tag Htags]].
      set (l1 := if bool_decide (d ∈ pending) then _ else _) in Hf.
      assert (tr l1 = t) as Hl1 by (unfold l1; by case_bool_decide).
      destruct (IH l1 Hf) as [H1 H2]; [intros x Hx; rewrite Hl1; apply Hqs, Hq; by right|]. rewrite Hl1, Htags in H1.
      split; [intros x Hx; apply H1, od_set_keys_in; by right|].
      intros x [->|Hx]%elem_of_cons; [apply H1, od_set_keys_in; by left|by apply H2].
    + exfalso. clear -Hf. revert Hf. generalize (set_tr t l).
      induction ds as [|x ds IH]; intros l0; simpl; [done|apply IH].
Qed.

Lemma redeclare_queues a t t' : redeclare a t = (t', Ok ()) → ∀ d, d ∈ DATA_TYPES → d ∈ queues t'.
Proof.
  unfold redeclare. cbn [DATA_TYPES ENTITY_TYPES foldl].
  destruct (rc_declare a "artists"); [|done]. destruct (rc_declare a "labels"); [|done].
  destruct (rc_declare a "masters"); [|done]. destruct (rc_declare a "releases"); [|done].
  intros [= <-] d Hd. cbn [queues set_queues].
  unfold DATA_TYPES, ENTITY_TYPES in Hd. rewrite !elem_of_cons, elem_of_nil in Hd. set_solver.
Qed.

Lemma foldl_raised a pending ds l e : foldl (recover_start a pending) (l, Raise e) ds = (l, Raise e).
Proof. induction ds as [|d ds IH]; [done|exact IH]. Qed.

Lemma start_succeeds a d t :
  connection t = true → st_open a = Ok () → st_declare a = Ok () → is_ok (st_consume a) = true →
  ∃ t', start_tagged a d t = (t', Ok ()) ∧ connection t' = true.
Proof.
  intros Hc Ho Hd Hk. unfold start_tagged, _start_consumer. rewrite Hc, Ho, Hd. simpl.
  destruct (st_consume a) as [tag|]; [|done]. destruct (channels t !! d) as [[|]|]; by eexists.
Qed.

Lemma restart_succeeds a pending ds l :
  connection (tr l) = true →
  (∀ d, st_open (rc_start a d) = Ok () ∧ st_declare (rc_start a d) = Ok () ∧ is_ok (st_consume (rc_start a d)) = true) →
  ∃ l', foldl (recover_start a pending) (l, Ok ()) ds = (l', Ok ()).
Proof.
  intros Hc Hst. induction ds as [|d ds IH] in l, Hc |- *; cbn [foldl]; [by exists l|].
  unfold recover_start at 2. destruct (_ && _); [|by apply IH].
  destruct (Hst d) as (H1 & H2 & H3). destruct (start_succeeds (rc_start a d) d (tr l) Hc H1 H2 H3) as (t' & -> & Hc').
  apply IH. by case_bool_decide.
Qed.

Lemma redeclare_succeeds a t :
  (∀ d, rc_declare a d = Ok ()) → ∃ t', redeclare a t = (t', Ok ()) ∧ connection t' = connection t.
Proof. intros Hd. unfold redeclare. cbn [DATA_TYPES ENTITY_TYPES foldl]. rewrite !Hd. by eexists. Qed.

Definition all_consumed (l : loader) : Prop := ∀ d, d ∈ DATA_TYPES → d ∈ (tags (tr l)).*1.

Definition closed_or_flagged (l : loader) : Prop :=
  (tags (tr l) = [] ∧ connection (tr l) = false) ∨ cancellation_failed (tr l) = true.

Lemma recover_work_cases a depths l :
  match recover_work a depths l with
  | (l', Ok _) => all_consumed l' ∨ closed_or_flagged l'
  | (l', Raise _) => True
  end.
Proof.
  unfold recover_work. destruct (_ || _); [|right; apply close_after_cases].
  destruct (rc_qos a); [|done]. destruct (redeclare a (tr l)) as [t [[]|e]] eqn:Er; [|done].
  destruct (foldl _ _ _) as [l' [[]|e]] eqn:Ef; [|done]. left. intros d Hd.
  apply (proj2 (restart_all _ _ _ _ _ Ef (redeclare_queues _ _ _ Er)) d Hd).
Qed.

Lemma recover_work_complete a depths l :
  connection (tr l) = true →
  (∃ dn, dn ∈ depths ∧ 0 < dn.2) ∨ (∃ d, d ∈ DATA_TYPES ∧ d ∉ completed_files l) →
  rc_qos a = Ok () → (∀ d, rc_declare a d = Ok ()) →
  (∀ d, st_open (rc_start a d) = Ok () ∧ st_declare (rc_start a d) = Ok () ∧ is_ok (st_consume (rc_start a d)) = true) →
  ∃ l', recover_work a depths l = (l', Ok ()) ∧ all_consumed l'.
Proof.
  intros Hc Hwork Hq Hd Hst. unfold recover_work. rewrite Hq.
  destruct (redeclare_succeeds a (tr l) Hd) as (t & Er & Hct). rewrite Er.
  destruct (restart_succeeds a (filter (λ dn : string * Z, 0 < dn.2) depths).*1 DATA_TYPES (set_tr t l)
    ltac:(simpl; congruence) Hst) as [l' Ef]. rewrite Ef.
  assert (negb (bool_decide ((filter (λ dn : string * Z, 0 < dn.2) depths).*1 = []))
    || negb (bool_decide (incomplete_types l = [])) = true) as ->.
  { apply orb_true_iff. rewrite !negb_true_iff, !bool_decide_eq_false. destruct Hwork as [(dn & Hin & Hn)|(d & Hin & Hn)].
    - left. intros Hnil. assert (dn ∈ filter (λ dn : string * Z, 0 < dn.2) depths) as Hf by (by apply list_elem_of_filter).
      destruct (filter _ _); [by apply elem_of_nil in Hf|done].
    - right. intros Hnil. assert (d ∈ incomplete_types l) as Hf by (by apply list_elem_of_filter).
      rewrite Hnil in Hf. by apply elem_of_nil in Hf. }
  exists l'. split; [done|]. intros d Hdt.
  apply (proj2 (restart_all _ _ _ _ _ Ef (redeclare_queues _ _ _ Er)) d Hdt).
Qed.

(** Rebuilding the transport leaves no type behind.  With the gate open, a recovery never
    starts a consumer while the closure of the old transport is unconfirmed: the old tags
    stay and the failure is flagged for the periodic check.  Otherwise it ends in one of
    three ways: every type has a consumer; or none has and the transport is closed; or the
    clean-up of a failed attempt is itself unconfirmed and flagged.  And when every broker
    call succeeds, all four types are consumed whenever some queue holds messages or some
    file is incomplete, including the types whose queue was empty. *)
Theorem recover_consumers_complete a l :
  gate_closed (gt l) = false →
  let l' := _recover_consumers a l in
  if (_close_recovery_broker (rc_close a) (tr l)).2
  then (all_consumed l' ∨ closed_or_flagged l') ∧
       ∀ depths, rc_connect a = Ok () → rc_channel a = Ok () → recover_depths a = Ok depths →
         (∃ dn, dn ∈ depths ∧ 0 < dn.2) ∨ (∃ d, d ∈ DATA_TYPES ∧ d ∉ completed_files l) →
         rc_qos a = Ok () → (∀ d, rc_declare a d = Ok ()) →
         (∀ d, st_open (rc_start a d) = Ok () ∧ st_declare (rc_start a d) = Ok () ∧ is_ok (st_consume (rc_start a d)) = true) →
         all_consumed l'
  else tags (tr l') = tags (tr l) ∧ cancellation_failed (tr l') = true.
Proof.
  intros Hg. unfold _recover_consumers. rewrite Hg.
  destruct (_close_recovery_broker (rc_close a) (tr l)) as [t ok] eqn:E. apply close_cases in E as [_ Hok].
  destruct ok; simpl; [|exact Hok].
  split.
  - destruct (rc_connect a); [|right; apply close_after_cases].
    destruct (rc_channel a); [|right; apply close_after_cases].
    destruct (recover_depths a) as [depths|]; [|right; apply close_after_cases].
    pose proof (recover_work_cases a depths (set_tr (set_connected true true t) (set_tr t l))) as Hw.
    destruct (recover_work a depths _) as [l' [[]|e]]; [exact Hw|right; apply close_after_cases].
  - intros depths H1 H2 H3 Hwork Hq Hd Hst. rewrite H1, H2, H3.
    destruct (recover_work_complete a depths (set_tr (set_connected true true t) (set_tr t l)) eq_refl Hwork Hq Hd Hst)
      as (l' & -> & Hall). exact Hall.
Qed.

(** ** Pausing and resuming *)

Section pause_resume.
Context {S : Type} `{SignalStore S}.

Lemma cancel_each_all cancel_ok todo t :
  (∀ d, d ∈ todo.*1 → d ∈ queues t ∧ cancel_ok d = true) →
  ∃ ts n, cancel_each cancel_ok todo t = (set_tags ts n t, true).
Proof.
  induction todo as [|[d tag] todo IH] in t |- *; simpl; intros Hall; [by exists (tags t), (active t); destruct t|].
  destruct (Hall d) as [Hq Hc]; [by left|]. rewrite bool_decide_eq_true_2, Hc by done. simpl.
  destruct (IH (set_tags (od_del d (tags t)) (active t - 1) t)) as (ts & n & ->);
    [intros x Hx; apply Hall; by right|by exists ts, n].
Qed.

Lemma start_keeps a d t t' : start_tagged a d t = (t', Ok ()) → channel t' = channel t ∧ reset_pending t' = reset_pending t.
Proof.
  unfold start_tagged, _start_consumer. destruct (channels t !! d) as [[|]|]; simpl; try destruct (connection t); simpl;
    try destruct (st_open a); simpl; try done; destruct (st_declare a), (st_consume a); by intros [= <-].
Qed.

Lemma resume_all start ds l :
  connection (tr l) = true → NoDup ds → (∀ d, d ∈ ds → d ∈ queues (tr l) ∧ d ∉ (tags (tr l)).*1) →
  (∀ d, st_open (start d) = Ok () ∧ st_declare (start d) = Ok () ∧ is_ok (st_consume (start d)) = true) →
  ∃ t, foldl (resume_one start) (l, Ok ()) ds = (set_tr t l, Ok ()) ∧
    (∀ d, d ∈ (tags t).*1 ↔ d ∈ ds ∨ d ∈ (tags (tr l)).*1) ∧ reset_pending t = reset_pending (tr l).
Proof.
  intros Hc Hnd Hds Hst. induction ds as [|d ds IH] in l, Hc, Hnd, Hds |- *; cbn [foldl].
  { exists (tr l). split_and!; [by destruct l| |done]. intros d. rewrite elem_of_nil. tauto. }
  apply NoDup_cons in Hnd as [Hd Hnd]. destruct (Hds d) as [Hq Ht]; [by left|].
  unfold resume_one at 2, tagged. rewrite bool_decide_eq_false_2, bool_decide_eq_true_2 by done. cbn [andb negb].
  destruct (Hst d) as (H1 & H2 & H3). destruct (start_succeeds (start d) d (tr l) Hc H1 H2 H3) as (t1 & Hs & Hc1). rewrite Hs.
  destruct (start_tagged_ok _ _ _ _ Hs) as [Hqs [tag Htags]]. destruct (start_keeps _ _ _ _ Hs) as [_ Hrp].
  destruct (IH (set_tr t1 l)) as (t & Hf & Hkeys & Hp); [done|done| |].
  { intros x Hx. destruct (Hds x) as [Hxq Hxt]; [by right|]. cbn [tr set_tr]. split; [by apply Hqs|].
    rewrite Htags, od_set_keys_in. intros [->|?]; done. }
  exists t. rewrite Hf. split_and!; [done| |by rewrite Hp]. intros x. rewrite Hkeys. cbn [tr set_tr].
  rewrite Htags, od_set_keys_in, elem_of_cons. tauto.
Qed.

(** C23 A pause and the recovery that follows it undo each other.  From an open gate, when the
    broker confirms every cancellation and restart and the database is back, the loader
    consumes exactly the types it consumed before, the gate and all it remembers are as they
    were, no transport reset is pending, and the signal whose commit had failed is stored. *)
Theorem pause_then_recovery_restores cancel_ok a data_type version r s s1 l :
  gt l = {| durable_active := true; ready := true; paused := false; recovery_signals := ∅; resume_types := ∅ |} →
  shutdown_requested l = false → connection (tr l) = true → channel (tr l) = true → reset_pending (tr l) = false →
  (∀ d, d ∈ (tags (tr l)).*1 → d ∈ queues (tr l) ∧ cancel_ok d = true) →
  schema_ok s = true → commit_recovery true {[(data_type, version)]} s = (s1, Ok ()) →
  (∀ d, st_open (rs_start r d) = Ok () ∧ st_declare (rs_start r d) = Ok () ∧ is_ok (st_consume (rs_start r d)) = true) →
  let stopped := pause_durable_consumers cancel_ok a data_type version l in
  stopped.2 = true ∧ tags (tr stopped.1) = [] ∧
  let '(s', l', ok) := attempt_durable_recovery true true r s stopped.1 in
  ok = true ∧ stored data_type version s' ∧ gt l' = gt l ∧
  (∀ d, d ∈ (tags (tr l')).*1 ↔ d ∈ (tags (tr l)).*1) ∧ reset_pending (tr l') = false.
Proof.
  intros Hg Hsd Hconn Hchan Hrp Hall Hok Hcommit Hst.
  pose proof (pause_quiet cancel_ok a data_type version l) as Hquiet.
  unfold pause_durable_consumers in *. cbn [tr set_gt] in *. rewrite Hg in *. cbn [durable_active recovery_signals resume_types] in *.
  destruct (cancel_each_all cancel_ok (tags (tr l)) (tr l) Hall) as (ts & n & Hce). rewrite Hce in *. cbn [fst snd tr set_tr] in *.
  assert (ts = []) as -> by (destruct Hquiet as [?|Hr]; [done|cbn in Hr; congruence]).
  split; [done|]. split; [done|].
  unfold attempt_durable_recovery. cbn [tr gt set_tr set_gt set_tags durable_active shutdown_requested reset_pending recovery_signals].
  rewrite Hsd, Hrp, Hok. cbn [negb orb]. rewrite !(left_id_L ∅ (∪)), Hcommit.
  unfold resubscribe. cbn [set_gate gt tr set_gt set_tr set_tags connection channel resume_types]. rewrite Hconn, Hchan. cbn [andb].
  set (types := list_to_set (tags (tr l)).*1 : gset string).
  assert (∀ d, d ∈ sort_strings (elements types) ↔ d ∈ (tags (tr l)).*1) as Hsort.
  { intros d. unfold sort_strings. rewrite elem_of_sort_by, elem_of_elements. apply elem_of_list_to_set. }
  match goal with |- context [foldl _ (?x, Ok ()) _] => set (l1 := x) end.
  destruct (resume_all (rs_start r) (sort_strings (elements types)) l1) as (t & Hf & Hkeys & Hp).
  { done. }
  { unfold sort_strings. rewrite sort_by_perm. apply NoDup_elements. }
  { intros d Hd%Hsort. split; [exact (proj1 (Hall d Hd))|]. apply not_elem_of_nil. }
  { exact Hst. }
  rewrite Hf. cbn [tr set_tr gt]. cbn [tr l1 set_gate set_tr set_gt set_tags tags] in Hkeys.
  assert (∀ d, d ∈ (tags t).*1 ↔ d ∈ (tags (tr l)).*1) as Hsame.
  { intros d. rewrite Hkeys, Hsort. cbn [fmap list_fmap]. rewrite elem_of_nil. tauto. }
  assert (forallb (λ d, tagged d t) (elements (resume_types (gt l1))) = true) as ->.
  { apply forallb_forall. intros d Hd. apply bool_decide_eq_true_2, Hsame.
    rewrite <-list_elem_of_In, elem_of_elements in Hd. by apply elem_of_list_to_set in Hd. }
  split; [done|]. split; [|split_and!; [done|exact Hsame|etrans; [exact Hp|exact Hrp]]].
  pose proof (commit_recovery_spec _ _ _ _ Hcommit) as Hstored. apply Hstored. by apply elem_of_singleton.
Qed.
End pause_resume.

(** ** The durable tables as the store *)

(** The tables with the database's failures: whether a commit of a type and version is cut
    off by an outage, and whether the schema probe passes. *)
Section store.
Context `{DurableSchema} (py_repr : json → string) (now : Z) (outage : string → string → bool) (probe : bool).

#[export] Instance durable_store : SignalStore durable.
Proof.
  refine {|
  schema_ok _ := probe;
  reconcile s := reconcile_legacy_latches now DATA_TYPES s;
  commit_signal d v s :=
    if outage d v then (s, Raise DatabaseUnavailableError)
    else let '(s', r) := record_durable_signal py_repr now (JStr v) d DATA_TYPES s in (s', let! _ := r in Ok ());
  read_health _ := Ok ();
  stored d v s := ∃ w r, ordered_version py_repr (JStr v) = Ok w ∧ latch s !! key w = Some r ∧ d ∈ signals r;
  |}.
  - intros d v s s'. destruct (outage d v); [done|].
    destruct (record_durable_signal _ _ _ _ _ _) as [s1 [sig|e]] eqn:E; [|done]. intros [= <-].
    apply signal_stored in E as [_ (w & r & Hw & Hr & Hd)]. by exists w, r.
  - intros d v s s' r d' v'. destruct (outage d v); [by intros [= <- _]|].
    destruct (record_durable_signal _ _ _ _ _ _) as [s1 res] eqn:E. intros [= <- _] (w & q & Hw & Hq & Hd).
    destruct res as [sig|e].
    + apply signal_stored in E as [Hg _]. destruct (Hg _ _ Hq) as (q' & Hq' & Hs). exists w, q'. split_and!; [done|done|].
      by apply Hs.
    + assert (s1 = s) as ->; [|by exists w, q]. revert E. unfold record_durable_signal, committed.
      destruct (ordered_version py_repr (JStr v)); [|by intros [= <- _]].
      destruct (negb _); [by intros [= <- _]|].
      destruct (let! ' (_, _, _) := _reconcile_legacy _ _ _ in _) as [[? ?]|]; [done|]. by intros [= <- _].
Defined.
End store.

(** ** Concrete states *)

(** A loader in the middle of [_recover_consumers], its new transport declared. *)
Definition mid_recovery : loader :=
  {| tr := {| tags := []; queues := list_to_set DATA_TYPES; channels := ∅; connection := true; channel := true;
              cancellation_failed := false; reset_pending := false; active := 0 |};
     gt := {| durable_active := true; ready := true; paused := false; recovery_signals := ∅; resume_types := ∅ |};
     completed_files := ∅; extraction_signalled := ∅; cancel_tasks := ∅; suspected_lost_tags := ∅;
     shutdown_requested := false |}.

Definition all_start : starting := {| st_open := Ok (); st_declare := Ok (); st_consume := Ok "tag" |}.
Definition all_close : closing :=
  {| close_connection := true; close_delivery := λ _, true; close_topology := true;
     close_delivery_again := λ _, true; close_topology_again := true |}.
Definition all_recover : recovering :=
  {| rc_close := all_close; rc_connect := Ok (); rc_channel := Ok (); rc_depth := λ _, Ok 1; rc_qos := Ok ();
     rc_declare := λ _, Ok (); rc_start := λ _, all_start; rc_close_after := all_close |}.

(** ** Concrete runs *)

#[local] Instance sample_store : SignalStore durable :=
  @durable_store demo_schema demo_repr 5 (λ _ _, false) true.

Definition started : loader :=
  set_tr (start_tagged all_start "artists" (tr mid_recovery)).1 mid_recovery.

Definition look_none (_ : string) : channel_look := LookConsumers ∅.

Lemma lost_after_two_looks_witness :
  tags (tr started) ≠ [] ∧ "artists" ∈ (lost_consumer_types look_none (lost_consumer_types look_none started).1).2.
Proof.
  assert (tags (tr started) ≠ []) as Ht by done. split; [exact Ht|].
  apply (lost_after_two_looks look_none look_none started (lost_consumer_types look_none started).1 "artists" Ht Ht
    eq_refl eq_refl eq_refl).
  exists "tag". split; [decide_now|]. right. split; [vm_compute; reflexivity|]. exists "artists".
  split; [decide_now|vm_compute; reflexivity].
Defined.

Lemma recover_consumers_complete_witness :
  gate_closed (gt started) = false ∧ all_consumed (_recover_consumers all_recover started).
Proof.
  assert (gate_closed (gt started) = false) as Hg by (vm_compute; reflexivity). split; [exact Hg|].
  pose proof (recover_consumers_complete all_recover started Hg) as Hr. cbv zeta in Hr.
  assert ((_close_recovery_broker (rc_close all_recover) (tr started)).2 = true) as Hc by (vm_compute; reflexivity).
  rewrite Hc in Hr. destruct Hr as [_ Hr].
  apply (Hr [("artists", 1); ("labels", 1); ("masters", 1); ("releases", 1)]); try done.
  left. exists ("artists", 1). split; [decide_now|done].
Defined.

Definition all_resume : resuming :=
  {| rs_reset := all_close; rs_start := λ _, all_start; rs_recover := all_recover; rs_cancel := λ _, true;
     rs_reset_again := all_close |}.

Lemma pause_then_recovery_restores_witness :
  let stopped := pause_durable_consumers (λ _, true) all_close "artists" "20240101" started in
  tags (tr stopped.1) = [] ∧
  let '(s', l', ok) := attempt_durable_recovery true true all_resume demo_start stopped.1 in
  ok = true ∧ stored "artists" "20240101" s'.
Proof.
  set (signals := {[("artists", "20240101")]} : gset (string * string)).
  assert (is_ok (commit_recovery true signals demo_start).2 = true) as Hok by (vm_compute; reflexivity).
  assert (commit_recovery true signals demo_start = ((commit_recovery true signals demo_start).1, Ok ())) as Hcommit.
  { revert Hok. destruct (commit_recovery true signals demo_start) as [s' [[]|]]; [reflexivity|discriminate]. }
  assert (∀ d, d ∈ (tags (tr started)).*1 → d ∈ queues (tr started) ∧ true = true) as Hall.
  { assert ((tags (tr started)).*1 = ["artists"]) as -> by (vm_compute; reflexivity).
    intros d ->%list_elem_of_singleton. split; [decide_now|reflexivity]. }
  pose proof (pause_then_recovery_restores (λ _, true) all_close "artists" "20240101" all_resume demo_start
    (commit_recovery true signals demo_start).1 started eq_refl eq_refl eq_refl eq_refl eq_refl Hall eq_refl Hcommit
    (λ _, conj eq_refl (conj eq_refl eq_refl))) as H.
  cbv zeta in H. destruct H as (_ & Ht & Hrest). split; [exact Ht|].
  destruct (attempt_durable_recovery true true all_resume demo_start _) as [[s' l'] ok].
  destruct Hrest as (H1 & H2 & _). split; [exact H1|exact H2].
Defined.
