(* ===== verification/Gauge.v ===== *)
(** * The gauge of active consumers ([tableinator.py], [telemetry.py])

    [groovemap.pipeline.consumers.active] is an up-down counter that fourteen places of
    [tableinator.py] move, one by one, beside the changes of [consumer_tags].  This file proves
    that each function, as one step, moves it right: if the counter's sum is the number of
    consumers held before, it is after.  [Awaits] proves it between the awaits of a function
    as well, and shows two that may not overlap. *)

From S2P Require Import Prelude Json Contract Latch Durable Consumers.

(** ** The invariant *)

(** One tag per type, and the sum of the gauge is their number. *)
Definition counted (t : transport) : Prop := NoDup (tags t).*1 ∧ active t = Z.of_nat (length (tags t)).

Definition same_count (t t' : transport) : Prop := tags t' = tags t ∧ active t' = active t.

Lemma counted_same t t' : same_count t t' → counted t → counted t'.
Proof. unfold counted. by intros [-> ->]. Qed.

Lemma od_del_length {V} (k : string) (d : list (string * V)) :
  NoDup d.*1 → k ∈ d.*1 → length d = S (length (od_del k d)).
Proof.
  induction d as [|[k' v] d IH]; [by intros _ ?%elem_of_nil|]. cbn [fmap list_fmap fst].
  intros [Hk' Hnd]%NoDup_cons [->|Hk]%elem_of_cons.
  - unfold od_del. rewrite filter_cons_False by (intros Hne; by apply Hne). cbn [length]. f_equal.
    rewrite filter_all; [done|]. intros [x w] Hx Heq. simpl in Heq. subst. apply Hk', list_elem_of_fmap. by exists (k', w).
  - unfold od_del. rewrite filter_cons_True by (intros Heq; simpl in Heq; by subst). cbn [length]. f_equal. by apply IH.
Qed.

Lemma NoDup_od_del {V} (k : string) (d : list (string * V)) : NoDup d.*1 → NoDup (od_del k d).*1.
Proof.
  induction d as [|[k' v] d IH]; [done|]. cbn [fmap list_fmap fst]. intros [Hk' Hnd]%NoDup_cons.
  unfold od_del. destruct (decide (k' ≠ k)) as [Hne|Heq].
  - rewrite filter_cons_True by done. cbn [fmap list_fmap fst]. apply NoDup_cons. split; [|by apply IH].
    intros Hin. fold (od_del k d) in Hin. by apply od_del_keys in Hin as [? _].
  - rewrite filter_cons_False by done. by apply IH.
Qed.

Lemma counted_untag d t :
  counted t → d ∈ (tags t).*1 → counted (set_tags (od_del d (tags t)) (active t - 1) t).
Proof.
  intros [Hnd Ha] Hd. split; cbn [tags active set_tags]; [by apply NoDup_od_del|].
  rewrite Ha, (od_del_length d (tags t)) by done. lia.
Qed.

Lemma counted_tag d tag t :
  counted t → d ∉ (tags t).*1 → counted (set_tags (od_set d tag (tags t)) (active t + 1) t).
Proof.
  intros [Hnd Ha] Hd. split; cbn [tags active set_tags]; [by apply NoDup_od_set|].
  rewrite od_set_keys_new, length_app, Ha by done. simpl. lia.
Qed.

(** ** Every operation counts *)

Lemma reset_counted a t : counted t → counted (_reset_durable_broker a t).1.
Proof.
  intros [Hnd Ha]. assert (∀ c, counted (dropped c t)) as Hd by (intros c; split; [constructor|cbn; lia]).
  unfold _reset_durable_broker. by repeat case_match; simpl.
Qed.

Lemma close_counted a t : counted t → counted (_close_recovery_broker a t).1.
Proof.
  intros [Hnd Ha]. unfold _close_recovery_broker. cbv zeta. repeat case_match; simpl; try (by split); (split; [constructor|cbn; lia]).
Qed.

Lemma start_same a d t : same_count t (_start_consumer a d t).1.
Proof.
  unfold _start_consumer. cbv zeta. destruct (match channels t !! d with Some false => _ | _ => _ end) as [t1|e] eqn:E; [|done].
  assert (same_count t t1) as Hs.
  { revert E. destruct (channels t !! d) as [[|]|]; [|by intros [= <-]|];
      (destruct (connection t); [|done]); destruct (st_open a); simpl; try done; by intros [= <-]. }
  destruct (st_declare a); exact Hs.
Qed.

Lemma start_counted a d t : tagged d t = false → counted t → counted (start_tagged a d t).1.
Proof.
  intros Hd%bool_decide_eq_false Hc. unfold start_tagged. pose proof (start_same a d t) as Hs.
  destruct (_start_consumer a d t) as [t1 [tag|e]]; cbn [fst] in *; [|by apply (counted_same t)].
  apply counted_tag; [by apply (counted_same t)|]. by destruct Hs as [-> _].
Qed.

(** The types a cancelling loop goes through are still consumed when their turn comes. *)
Definition todo_of (todo : list (string * string)) (t : transport) : Prop :=
  NoDup todo.*1 ∧ ∀ d, d ∈ todo.*1 → d ∈ (tags t).*1.

Lemma todo_next d tag todo t : todo_of ((d, tag) :: todo) t → d ∈ (tags t).*1 ∧ todo_of todo t ∧
  todo_of todo (set_tags (od_del d (tags t)) (active t - 1) t).
Proof.
  intros [[Hd Hnd]%NoDup_cons Hin]. split; [apply Hin; by left|]. split; [split; [done|]; intros x Hx; apply Hin; by right|].
  split; [done|]. intros x Hx. cbn [tags set_tags]. apply od_del_keys. split; [apply Hin; by right|]. by intros ->.
Qed.

Lemma cancel_each_counted cancel_ok todo t : todo_of todo t → counted t → counted (cancel_each cancel_ok todo t).1.
Proof.
  induction todo as [|[d tag] todo IH] in t |- *; [done|]. intros (Hd & _ & Hnext)%todo_next Hc. simpl.
  destruct (_ && _); [|done]. apply IH; [done|by apply counted_untag].
Qed.

Lemma cancel_partial_counted cancel_ok todo t : todo_of todo t → counted t → counted (cancel_partial cancel_ok todo t).1.
Proof.
  induction todo as [|[d tag] todo IH] in t |- *; [done|]. intros (Hd & Hsame & Hnext)%todo_next Hc. simpl.
  destruct (_ && _); [by apply IH, counted_untag|]. specialize (IH t Hsame Hc). by destruct (cancel_partial _ _ _).
Qed.

Lemma cancel_all_counted cancel_ok todo t : todo_of todo t → counted t → counted (cancel_all cancel_ok todo t).
Proof.
  induction todo as [|[d tag] todo IH] in t |- *; [done|]. intros (Hd & Hsame & Hnext)%todo_next Hc. simpl.
  case_bool_decide; [|exact (IH (set_cancellation_failed true t) Hsame Hc)].
  destruct (cancel_ok d); [by apply IH, counted_untag|exact Hc].
Qed.

Lemma own_todo t : counted t → todo_of (tags t) t.
Proof. by intros [? _]. Qed.

Lemma cancel_after_delay_counted ok a d l : counted (tr l) → counted (tr (cancel_after_delay ok a d l)).
Proof.
  intros Hc. unfold cancel_after_delay. destruct (cancel_tasks l !! d) as [captured|]; [|done]. cbn [tr set_cancel_tasks].
  destruct (bool_decide (captured ≠ None) && bool_decide (od_get d (tags (tr l)) = captured)) eqn:Hg; [|done].
  apply andb_true_iff in Hg as [Hn%bool_decide_eq_true Hg%bool_decide_eq_true].
  assert (d ∈ (tags (tr l)).*1) as Hd by (apply dec_stable; rewrite <-od_get_None; congruence).
  destruct ok; [|exact Hc]. destruct (check_all_consumers_idle _); cbn [tr set_tr]; [apply close_counted|]; by apply counted_untag.
Qed.

Lemma foldl_inv {A B} (P : A → Prop) (f : A → B → A) l x : (∀ x b, P x → P (f x b)) → P x → P (foldl f x l).
Proof. intros Hf. induction l as [|b l IH] in x |- *; [done|]. intros Hx. by apply IH, Hf. Qed.

(** A fold that threads a loader and an answer. *)
Lemma foldl_counted {X B} (f : loader * X → B → loader * X) ds l x :
  (∀ l x b, counted (tr l) → counted (tr (f (l, x) b).1)) → counted (tr l) → counted (tr (foldl f (l, x) ds).1).
Proof.
  intros Hf Hc. apply (foldl_inv (λ acc, counted (tr acc.1))); [|done]. intros [l' x'] b. apply Hf.
Qed.

Lemma close_after_counted a l : counted (tr l) → counted (tr (close_after a l)).
Proof. intros Hc. by apply close_counted. Qed.

Lemma recover_start_counted a pending l r d : counted (tr l) → counted (tr (recover_start a pending (l, r) d).1).
Proof.
  intros Hc. unfold recover_start. destruct r as [[]|e]; [|done].
  destruct (_ && negb (tagged d (tr l))) eqn:Hg; [|done]. apply andb_true_iff in Hg as [_ Hg%negb_true_iff].
  pose proof (start_counted (rc_start a d) d (tr l) Hg Hc) as Hs.
  destruct (start_tagged _ d (tr l)) as [t [[]|e]]; [|done]. by case_bool_decide.
Qed.

Lemma redeclare_same a t : same_count t (redeclare a t).1.
Proof.
  unfold redeclare. apply (foldl_inv (λ acc : transport * result (), same_count t acc.1)); [|done].
  intros [t1 [[]|e]] d Hs; [|done]. by destruct (rc_declare a d).
Qed.

Lemma recover_work_counted a depths l : counted (tr l) → counted (tr (recover_work a depths l).1).
Proof.
  intros Hc. unfold recover_work. destruct (_ || _); [|by apply close_after_counted]. destruct (rc_qos a); [|done].
  pose proof (redeclare_same a (tr l)) as Hs. destruct (redeclare a (tr l)) as [t [[]|e]]; cbn [fst] in *;
    [|by apply (counted_same (tr l))].
  apply foldl_counted; [intros; by apply recover_start_counted|]. by apply (counted_same (tr l)).
Qed.

Lemma recover_consumers_counted a l : counted (tr l) → counted (tr (_recover_consumers a l)).
Proof.
  intros Hc. unfold _recover_consumers. destruct (gate_closed (gt l)); [done|].
  pose proof (close_counted (rc_close a) (tr l) Hc) as Hcl. destruct (_close_recovery_broker _ _) as [t [|]]; [|done].
  destruct (rc_connect a); [|by apply close_after_counted]. destruct (rc_channel a); [|by apply close_after_counted].
  destruct (recover_depths a) as [depths|]; [|by apply close_after_counted].
  pose proof (recover_work_counted a depths (set_tr (set_connected true true t) (set_tr t l)) Hcl) as Hw.
  change (tr (set_tr t l)) with t. destruct (recover_work a depths _) as [l' [[]|e]]; [done|by apply close_after_counted].
Qed.

Lemma recover_data_type_counted ok a d l : counted (tr l) → counted (tr (_recover_data_type ok a d l).1).
Proof.
  intros Hc. unfold _recover_data_type. destruct (gate_closed _); [done|]. destruct (_ && _); [done|]. cbv zeta.
  set (t := set_tags _ _ _).
  assert (counted t ∧ tagged d t = false) as [Ht Hd].
  { subst t. split.
    - unfold tagged. case_bool_decide as Hin; [by apply (counted_untag d (tr l))|].
      destruct Hc as [Hnd Ha]. split; cbn [tags active set_tags set_channels]; [by apply NoDup_od_del|].
      rewrite Ha. unfold od_del. rewrite filter_all; [done|]. intros kv Hkv Heq. apply Hin. rewrite <-Heq. by apply list_elem_of_fmap_2.
    - unfold tagged. apply bool_decide_eq_false_2. cbn [tags set_tags]. rewrite od_del_keys. tauto. }
  destruct (negb _); [done|]. pose proof (start_counted a d t Hd Ht) as Hs. by destruct (start_tagged a d t) as [t1 [[]|e]].
Qed.

Lemma resume_parked_counted depth start l b d : counted (tr l) → counted (tr (resume_parked depth start (l, b) d).1).
Proof.
  intros Hc. unfold resume_parked. destruct (_ && negb (tagged d (tr l)) && _) eqn:Hg; [|done].
  apply andb_true_iff in Hg as [[_ Hg%negb_true_iff]%andb_true_iff _].
  pose proof (start_counted (start d) d (tr l) Hg Hc) as Hs. by destruct (start_tagged _ d (tr l)) as [t [[]|e]].
Qed.

Lemma recover_parked_markers_counted depth start a l : counted (tr l) → counted (tr (recover_parked_markers depth start a l).1).
Proof.
  intros Hc. unfold recover_parked_markers. destruct (_ || _); [done|]. destruct (gate_closed _); [done|].
  destruct (negb _); [by apply recover_consumers_counted|]. apply foldl_counted; [intros; by apply resume_parked_counted|done].
Qed.

Lemma recover_types_counted a lost l : counted (tr l) → counted (tr (recover_types a lost l).1).
Proof.
  intros Hc. unfold recover_types. apply foldl_counted; [|done]. intros l' ok d Hc'.
  pose proof (recover_data_type_counted (tk_close_type a d) (tk_start a d) d l' Hc') as Hr.
  by destruct (_recover_data_type _ _ d l').
Qed.

Lemma lost_same look l : tr (lost_consumer_types look l).1 = tr l.
Proof. unfold lost_consumer_types. by destruct (_ || _). Qed.

Lemma periodic_tick_counted a l : counted (tr l) → counted (tr (periodic_tick a l)).
Proof.
  intros Hc. unfold periodic_tick. destruct (gate_closed _); [done|]. destruct (cancellation_failed _).
  { pose proof (reset_counted (tk_reset a) (tr l) Hc) as Hr. destruct (_reset_durable_broker _ _) as [t [|]]; [|done].
    by apply recover_consumers_counted. }
  apply (recover_parked_markers_counted (tk_depth a) (tk_start a) (tk_recover a)) in Hc. revert Hc.
  generalize (recover_parked_markers (tk_depth a) (tk_start a) (tk_recover a) l).1. clear l. intros l Hc.
  destruct (negb (tk_stuck_due a)); [done|]. pose proof (lost_same (tk_look a) l) as Hl.
  destruct (lost_consumer_types _ l) as [l1 lost]. cbn [fst] in Hl. rewrite <-Hl in Hc.
  destruct (negb (bool_decide (lost = []))).
  { pose proof (recover_types_counted a lost l1 Hc) as Hr. destruct (recover_types a lost l1) as [l2 [|]]; [done|].
    by apply recover_consumers_counted. }
  destruct (check_consumers_unexpectedly_dead l1); [by apply recover_consumers_counted|].
  destruct (negb _); [done|]. destruct (_ || _); [done|]. by apply recover_consumers_counted.
Qed.

Section recovery.
Context {S : Type} `{SignalStore S}.

Lemma pause_counted ok a d v l : counted (tr l) → counted (tr (pause_durable_consumers ok a d v l).1).
Proof.
  intros Hc. unfold pause_durable_consumers. cbn [tr set_gt].
  pose proof (cancel_each_counted ok (tags (tr l)) (tr l) (own_todo _ Hc) Hc) as He.
  destruct (cancel_each ok (tags (tr l)) (tr l)) as [t [|]]; [done|].
  pose proof (reset_counted a (set_reset_pending true t) He) as Hr.
  by destruct (_reset_durable_broker a (set_reset_pending true t)).
Qed.

Lemma resume_one_counted start l r d : counted (tr l) → counted (tr (resume_one start (l, r) d).1).
Proof.
  intros Hc. unfold resume_one. destruct r as [[]|e]; [|done]. destruct (negb (tagged d (tr l)) && _) eqn:Hg; [|done].
  apply andb_true_iff in Hg as [Hg%negb_true_iff _]. pose proof (start_counted (start d) d (tr l) Hg Hc) as Hs.
  by destruct (start_tagged _ d (tr l)).
Qed.

Lemma resubscribe_counted a l : counted (tr l) → counted (tr (resubscribe a l).1).
Proof.
  intros Hc. unfold resubscribe.
  assert (counted (tr (if connection (tr l) && channel (tr l)
    then foldl (resume_one (rs_start a)) (l, Ok ()) (sort_strings (elements (resume_types (gt l))))
    else (_recover_consumers (rs_recover a) l, Ok ())).1)) as Hr.
  { destruct (_ && _); [apply foldl_counted; [intros; by apply resume_one_counted|done]|by apply recover_consumers_counted]. }
  by destruct (if connection (tr l) && channel (tr l) then _ else _) as [l1 [[]|e]].
Qed.

Lemma fail_resubscription_counted a l : counted (tr l) → counted (tr (fail_resubscription a l)).
Proof.
  intros Hc. unfold fail_resubscription. cbn [tr set_gate set_gt].
  pose proof (cancel_partial_counted (rs_cancel a) (tags (tr l)) (tr l) (own_todo _ Hc) Hc) as Hp.
  destruct (cancel_partial _ _ _) as [t [|]]; [done|]. by apply reset_counted.
Qed.

Lemma recovery_counted pool admission a s l : counted (tr l) → counted (tr (attempt_durable_recovery pool admission a s l).1.2).
Proof.
  intros Hc. unfold attempt_durable_recovery. destruct (_ || _); [done|].
  assert (counted (if reset_pending (tr l) then _reset_durable_broker (rs_reset a) (tr l) else (tr l, true)).1) as Ht
    by (destruct (reset_pending (tr l)); [by apply reset_counted|done]).
  destruct (if reset_pending (tr l) then _ else _) as [t open]. cbn [fst] in Ht.
  destruct (negb open); [done|]. destruct (negb (schema_ok s)); [done|].
  destruct (commit_recovery _ _ s) as [s1 [[]|e]]; [|done].
  pose proof (resubscribe_counted a (set_gate true false (set_tr t l)) Ht) as Hr.
  destruct (resubscribe a _) as [l1 [[]|e]]; [done|]. by apply fail_resubscription_counted.
Qed.

Lemma lstep_counted x y : lstep x y → counted (tr x.2) → counted (tr y.2).
Proof.
  intros Hstep Hc. inversion Hstep as [s l a d Hg Ht|s l d|s l ok a d|s l ok|s l ok a d v|s l a|s l pool adm a|s s' l l' Ht Hg];
    subst; cbn [snd] in *.
  - by apply start_counted.
  - done.
  - by apply cancel_after_delay_counted.
  - by apply cancel_all_counted; [apply own_todo|].
  - by apply pause_counted.
  - by apply periodic_tick_counted.
  - unfold durable_recovery_round. destruct (_ || _); [|done]. pose proof (recovery_counted pool adm a s l Hc) as Hr.
    by destruct (attempt_durable_recovery pool adm a s l) as [[s' l'] ok].
  - by rewrite Ht.
Qed.
End recovery.
