(* ===== verification/Awaits.v ===== *)
(** * Awaits: the consumer operations of [tableinator.py], interrupted

    In [Consumers] an operation that awaits the broker is one step.  Here it is a coroutine:
    the code up to an [await], and what goes on from the state it then finds.  Run without
    interruption each coroutine does what the one step does (the [finish_] lemmas).

    Interleaved, on an event loop that begins, resumes and cancels them ([step]), they keep two
    invariants, that nothing consumes behind the closed gate and that the gauge of consumers
    counts them, as long as certain operations do not overlap.  The proof is a rely-guarantee
    argument: [guards] says what a coroutine does between two awaits, given what happens while
    it waits.  What starts consumers runs in one task, the startup and then the periodic check,
    and the pause lock excludes a pause from the recovery of the durable path; but the code
    lets a pause overlap the periodic check and the scheduled cancellations, and then both
    invariants break, as the runs at the end show.

    A suspension stands for one or more awaits between which the code changes nothing.  An
    attribute of a global that was set to [None] meanwhile raises; that is one of the answers
    an await may have.  A pause is never cancelled here. *)

From S2P Require Import Prelude Json Contract Latch Durable Consumers Gauge.

(** ** Coroutines *)

Inductive coroutine (A : Type) :=
  | Returned (l : loader) (a : A)
  | Suspended (l : loader) (resume : loader → coroutine A).
Arguments Returned {_} _ _.
Arguments Suspended {_} _ _.

(** The state a coroutine left when it was last run. *)
Definition now {A} (c : coroutine A) : loader := match c with Returned l _ | Suspended l _ => l end.

(** A run that nothing interrupts. *)
Fixpoint finish {A} (c : coroutine A) : loader * A :=
  match c with Returned l a => (l, a) | Suspended l resume => finish (resume l) end.

(** [await] of another coroutine. *)
Fixpoint co_bind {A B} (c : coroutine A) (k : loader → A → coroutine B) : coroutine B :=
  match c with
  | Returned l a => k l a
  | Suspended l resume => Suspended l (λ l, co_bind (resume l) k)
  end.

Lemma finish_bind {A B} (c : coroutine A) (k : loader → A → coroutine B) :
  finish (co_bind c k) = let '(l, a) := finish c in finish (k l a).
Proof. induction c as [l a|l resume IH]; simpl; [done|apply IH]. Qed.

(** A loop whose body awaits, to the first exception. *)
Fixpoint co_each {X} (f : X → loader → coroutine (result ())) (xs : list X) (l : loader) : coroutine (result ()) :=
  match xs with
  | [] => Returned l (Ok ())
  | x :: xs => co_bind (f x l) (λ l r, match r with Ok _ => co_each f xs l | Raise e => Returned l (Raise e) end)
  end.

(** ** The operations *)

Definition on_tr (f : transport → transport) (l : loader) : loader := set_tr (f (tr l)) l.

(** The answers of closing the channels of a transport, one by one. *)
Definition channel_answers (delivery : string → bool) (topology : bool) (t : transport) : list bool :=
  ((λ kv : string * bool, delivery kv.1) <$> map_to_list (channels t)) ++ (if channel t then [topology] else []).

(** Closing one by one, to the first that fails. *)
Fixpoint close_until {A} (answers : list bool) (closed failed : loader → coroutine A) (l : loader) : coroutine A :=
  match answers with
  | [] => closed l
  | ok :: answers => Suspended l (λ l, if ok : bool then close_until answers closed failed l else failed l)
  end.

(** Closing every one; the answer is whether all closed. *)
Fixpoint close_every {A} (answers : list bool) (ok : bool) (k : bool → loader → coroutine A) (l : loader) : coroutine A :=
  match answers with
  | [] => k ok l
  | b :: answers => Suspended l (λ l, close_every answers (ok && b) k l)
  end.

(** [_reset_durable_broker]; the connection and the channels are those it found. *)
Definition reset_co (a : closing) (l : loader) : coroutine bool :=
  let t := tr l in
  let closed conn l := Returned (on_tr (dropped conn) l) true in
  let again l :=
    if negb (has_channels t) then Returned l false
    else close_until (channel_answers (close_delivery_again a) (close_topology_again a) t)
           (λ l, closed (connection (tr l)) l) (λ l, Returned l false) l in
  if negb (connection t) && negb (has_channels t) && negb (no_tags t) then Returned l false
  else if connection t then Suspended l (λ l, if close_connection a then closed false l else again l)
  else close_until (channel_answers (close_delivery a) (close_topology a) t) (λ l, closed (connection (tr l)) l) again l.

(** The transport after a confirmed [_close_recovery_broker]. *)
Definition cleared (t : transport) : transport :=
  {| tags := []; queues := ∅; channels := ∅; connection := false; channel := false; cancellation_failed := false;
     reset_pending := reset_pending t; active := active t - Z.of_nat (length (tags t)) |}.

(** [_close_recovery_broker] *)
Definition close_co (a : closing) (l : loader) : coroutine bool :=
  let t := tr l in
  let failed l := Returned (on_tr (set_cancellation_failed true) l) false in
  let done l := Returned (on_tr cleared l) true in
  if negb (connection t) && negb (channel t) && bool_decide (channels t = ∅)
  then if negb (no_tags t) then failed l else Returned l true
  else close_every (channel_answers (close_delivery a) (close_topology a) t) true
         (λ ok l, if connection t then Suspended l (λ l, if close_connection a then done l else failed l)
                  else if ok then done l else failed l) l.

(** [_start_consumer] once the channel is open, [consumer_tags[data_type] = ...] and the gauge. *)
Definition consume_co (a : starting) (d : string) (l : loader) : coroutine (result ()) :=
  Suspended l (λ l,
    match st_declare a with
    | Raise e => Returned l (Raise e)
    | Ok _ =>
        Suspended (on_tr (λ t, set_queues (queues t ∪ {[d]}) t) l) (λ l,
          match st_consume a with
          | Raise e => Returned l (Raise e)
          | Ok tag => Returned (on_tr (λ t, set_tags (od_set d tag (tags t)) (active t + 1) t) l) (Ok ())
          end)
    end).

(** [consumer_tags[data_type] = await _start_consumer(data_type)] and the gauge. *)
Definition start_co (a : starting) (d : string) (l : loader) : coroutine (result ()) :=
  match channels (tr l) !! d with
  | Some false => consume_co a d l
  | _ =>
      if connection (tr l) then
        Suspended l (λ l,
          match st_open a with
          | Raise e => Returned l (Raise e)
          | Ok _ => consume_co a d (on_tr (λ t, set_channels (<[d := false]> (channels t)) t) l)
          end)
      else Returned l (Raise AttributeError)
  end.

(** The loop of [main] that starts every type: it reads the gate once. *)
Definition startup_co (start : string → starting) (l : loader) : coroutine (result ()) :=
  if negb (durable_active (gt l)) || ready (gt l)
  then co_each (λ d, start_co (start d) d) DATA_TYPES l
  else Returned l (Ok ()).

(** One round of the loop of [_recover_consumers] that restarts consumers. *)
Definition restart_co (a : recovering) (pending : list string) (d : string) (l : loader) : coroutine (result ()) :=
  if bool_decide (d ∈ queues (tr l)) && negb (tagged d (tr l)) then
    co_bind (start_co (rc_start a d) d l) (λ l r,
      match r with
      | Raise e => Returned l (Raise e)
      | Ok _ => Returned (if bool_decide (d ∈ pending) then set_completed (completed_files l ∖ {[d]}) l else l) (Ok ())
      end)
  else Returned l (Ok ()).

Definition declare_co (a : recovering) (d : string) (l : loader) : coroutine (result ()) :=
  Suspended l (λ l,
    match rc_declare a d with
    | Ok _ => Returned (on_tr (λ t, set_queues (queues t ∪ {[d]}) t) l) (Ok ())
    | Raise e => Returned l (Raise e)
    end).

Definition abandon_co (a : recovering) (l : loader) : coroutine () := co_bind (close_co (rc_close_after a) l) (λ l _, Returned l ()).

(** What follows the depths. *)
Definition rebuild_co (a : recovering) (depths : list (string * Z)) (l : loader) : coroutine () :=
  let pending := (filter (λ dn : string * Z, 0 < dn.2) depths).*1 in
  let ended l (r : result ()) := match r with Ok _ => Returned l () | Raise _ => abandon_co a l end in
  if negb (bool_decide (pending = [])) || negb (bool_decide (incomplete_types l = [])) then
    Suspended l (λ l,
      match rc_qos a with
      | Raise _ => abandon_co a l
      | Ok _ =>
          co_bind (co_each (declare_co a) DATA_TYPES (on_tr (set_queues ∅) l)) (λ l r,
            match r with
            | Raise _ => abandon_co a l
            | Ok _ => co_bind (co_each (restart_co a pending) DATA_TYPES l) ended
            end)
      end)
  else abandon_co a l.

(** [_recover_consumers] *)
Definition recover_co (a : recovering) (l : loader) : coroutine () :=
  if gate_closed (gt l) then Returned l ()
  else co_bind (close_co (rc_close a) l) (λ l closed,
    if negb closed then Returned l ()
    else Suspended l (λ l,
      match rc_connect a with
      | Raise _ => abandon_co a l
      | Ok _ =>
          Suspended (on_tr (λ t, set_connected true (channel t) t) l) (λ l,
            match rc_channel a with
            | Raise _ => abandon_co a l
            | Ok _ =>
                Suspended (on_tr (λ t, set_connected (connection t) true t) l) (λ l,
                  match recover_depths a with
                  | Raise _ => abandon_co a l
                  | Ok depths => rebuild_co a depths l
                  end)
            end)
      end)).

(** [_recover_data_type] *)
Definition recover_type_co (close_ok : bool) (a : starting) (d : string) (l : loader) : coroutine bool :=
  if gate_closed (gt l) then Returned l false
  else
    let old := channels (tr l) !! d in
    let was_tagged := tagged d (tr l) in
    let replace l :=
      let l := if was_tagged then on_tr (λ t, set_tags (od_del d (tags t)) (active t - 1) t) l else l in
      if negb (connection (tr l)) then Returned l false
      else co_bind (start_co a d l) (λ l r,
        match r with
        | Ok _ => Returned l true
        | Raise _ => Returned (on_tr (λ t, set_channels (delete d (channels t)) t) l) false
        end) in
    match old with
    | None => replace l
    | Some closed =>
        Suspended (on_tr (λ t, set_channels (delete d (channels t)) t) l) (λ l,
          if close_ok then replace l
          else Returned (on_tr (λ t, set_channels (<[d := closed]> (channels t)) t) l) false)
    end.

(** [cancel_after_delay], from the end of its sleep; [captured] is the tag it was set for. *)
Definition timer_co (cancel_ok : bool) (a : closing) (d : string) (captured : option string) (l : loader) : coroutine () :=
  let forget l := if bool_decide (cancel_tasks l !! d = Some captured) then set_cancel_tasks (delete d (cancel_tasks l)) l else l in
  if bool_decide (captured ≠ None) && bool_decide (od_get d (tags (tr l)) = captured) then
    Suspended l (λ l,
      if cancel_ok then
        let l := if bool_decide (od_get d (tags (tr l)) = captured)
                 then on_tr (λ t, set_tags (od_del d (tags t)) (active t - 1) t) l else l in
        if check_all_consumers_idle l then co_bind (close_co a l) (λ l _, Returned (forget l) ()) else Returned (forget l) ()
      else Returned (forget (on_tr (set_cancellation_failed true) l)) ())
  else Returned (forget l) ().

(** The loop of [cancel_all_consumers]. *)
Fixpoint cancel_all_co (cancel_ok : string → bool) (todo : list (string * string)) (l : loader) : coroutine () :=
  match todo with
  | [] => Returned l ()
  | (d, tag) :: todo =>
      if bool_decide (d ∈ queues (tr l)) then
        Suspended l (λ l,
          if cancel_ok d then
            cancel_all_co cancel_ok todo
              (if bool_decide (od_get d (tags (tr l)) = Some tag)
               then on_tr (λ t, set_tags (od_del d (tags t)) (active t - 1) t) l else l)
          else Returned (on_tr (set_cancellation_failed true) l) ())
      else cancel_all_co cancel_ok todo (on_tr (set_cancellation_failed true) l)
  end.

(** [cancel_all_consumers]: the pending timers are cancelled and gathered first; the event loop
    below may cancel them. *)
Definition shutdown_co (cancel_ok : string → bool) (l : loader) : coroutine () :=
  Suspended (set_cancel_tasks ∅ l) (λ l, cancel_all_co cancel_ok (tags (tr l)) l).

(** The loop of [pause_durable_consumers]: it pops the type and moves the gauge whatever the
    tag is by then. *)
Fixpoint cancel_each_co (cancel_ok : string → bool) (todo : list (string * string)) (failed : loader → coroutine bool) (l : loader)
    : coroutine bool :=
  match todo with
  | [] => Returned l true
  | (d, _) :: todo =>
      if bool_decide (d ∈ queues (tr l)) then
        Suspended l (λ l,
          if cancel_ok d
          then cancel_each_co cancel_ok todo failed (on_tr (λ t, set_tags (od_del d (tags t)) (active t - 1) t) l)
          else failed l)
      else failed l
  end.

(** [pause_durable_consumers], once it holds the lock. *)
Definition pause_co (cancel_ok : string → bool) (a : closing) (data_type version : string) (l : loader) : coroutine bool :=
  let g := gt l in
  let l := set_gt {| durable_active := durable_active g; ready := false; paused := true;
                     recovery_signals := recovery_signals g ∪ {[(data_type, version)]};
                     resume_types := resume_types g ∪ list_to_set (tags (tr l)).*1 |} l in
  cancel_each_co cancel_ok (tags (tr l))
    (λ l, co_bind (reset_co a (on_tr (set_reset_pending true) l)) (λ l _, Returned l false)) l.


(** One round of the loop of [recover_parked_markers]; without a connection [queue_depth]
    answers without awaiting. *)
Definition parked_one_co (depth : string → result Z) (start : string → starting) (d : string) (l : loader) : coroutine (result ()) :=
  let decide_on l :=
    if match depth d with Ok n => negb (n =? 0) | Raise _ => false end && negb (tagged d (tr l)) && connection (tr l) then
      co_bind (start_co (start d) d l) (λ l r,
        match r with
        | Ok _ => Returned l (Ok ())
        | Raise _ => Returned (on_tr (λ t, set_channels (delete d (channels t)) t) l) (Ok ())
        end)
    else Returned l (Ok ()) in
  if connection (tr l) then Suspended l decide_on else Returned l (Ok ()).

(** [recover_parked_markers] *)
Definition parked_co (depth : string → result Z) (start : string → starting) (a : recovering) (l : loader) : coroutine () :=
  let pending := types_awaiting_marker l in
  if bool_decide (pending = []) || shutdown_requested l then Returned l ()
  else if gate_closed (gt l) then Returned l ()
  else if negb (connection (tr l)) then recover_co a l
  else co_bind (co_each (parked_one_co depth start) pending l) (λ l _, Returned l ()).

(** The loop of [attempt_durable_recovery] that restarts consumers on the open transport. *)
Definition resume_one_co (start : string → starting) (d : string) (l : loader) : coroutine (result ()) :=
  if negb (tagged d (tr l)) && bool_decide (d ∈ queues (tr l)) then start_co (start d) d l else Returned l (Ok ()).

Definition resubscribe_co (a : resuming) (l : loader) : coroutine (result ()) :=
  co_bind
    (if connection (tr l) && channel (tr l)
     then co_each (resume_one_co (rs_start a)) (sort_strings (elements (resume_types (gt l)))) l
     else co_bind (recover_co (rs_recover a) l) (λ l _, Returned l (Ok ())))
    (λ l r, match r with
            | Raise e => Returned l (Raise e)
            | Ok _ => Returned l (if forallb (λ d, tagged d (tr l)) (elements (resume_types (gt l))) then Ok () else Raise RuntimeError)
            end).

(** Cancelling what a failed resubscription started, every one; the answer is whether each
    cancellation is confirmed. *)
Fixpoint cancel_partial_co (cancel_ok : string → bool) (todo : list (string * string)) (certain : bool) (l : loader) : coroutine bool :=
  match todo with
  | [] => Returned l certain
  | (d, _) :: todo =>
      if bool_decide (d ∈ queues (tr l)) then
        Suspended l (λ l,
          if cancel_ok d
          then cancel_partial_co cancel_ok todo certain (on_tr (λ t, set_tags (od_del d (tags t)) (active t - 1) t) l)
          else cancel_partial_co cancel_ok todo false l)
      else cancel_partial_co cancel_ok todo false l
  end.

Definition fail_resubscription_co (a : resuming) (l : loader) : coroutine () :=
  let l := set_gate false true l in
  co_bind (cancel_partial_co (rs_cancel a) (tags (tr l)) true l) (λ l certain,
    if certain : bool then Returned l ()
    else co_bind (reset_co (rs_reset_again a) (on_tr (set_reset_pending true) l)) (λ l _, Returned l ())).

(** [attempt_durable_recovery], once it holds the lock.  [schema] is the answer of the schema
    probe, [commits] that of the reconciliation, the replayed commits and the health read. *)
Definition durable_recovery_co (pool schema : bool) (commits : result ()) (a : resuming) (l : loader) : coroutine bool :=
  if negb (durable_active (gt l)) || shutdown_requested l || negb pool then Returned l false
  else
    co_bind (if reset_pending (tr l) then reset_co (rs_reset a) l else Returned l true) (λ l open,
      if negb open then Returned l false
      else Suspended l (λ l,
        if negb schema then Returned (set_gate false true l) false
        else Suspended l (λ l,
          match commits with
          | Raise _ => Returned (set_gate false true l) false
          | Ok _ =>
              co_bind (resubscribe_co a (set_gate true false l)) (λ l r,
                match r with
                | Ok _ => Returned (clear_recovery l) true
                | Raise _ => co_bind (fail_resubscription_co a l) (λ l _, Returned l false)
                end)
          end))).

(** ** Interleaving *)

(** What an operation does to the consumers decides what it may overlap. *)
Inductive role := Remover | Starter | Replacer | Pauser.

#[export] Instance role_eq_dec : EqDecision role.
Proof. solve_decision. Defined.

Inductive operation :=
  | Timer (cancel_ok : bool) (a : closing) (data_type : string) (captured : option string)
  | ShutdownCancel (cancel_ok : string → bool)
  | ResetBroker (a : closing)
  | CloseBroker (a : closing)
  | Startup (start : string → starting)
  | RecoverAll (a : recovering)
  | RecoverParked (depth : string → result Z) (start : string → starting) (a : recovering)
  | RecoverType (close_ok : bool) (a : starting) (data_type : string)
  | Pause (cancel_ok : string → bool) (a : closing) (data_type version : string)
  | RecoverDurable (pool schema : bool) (commits : result ()) (a : resuming).

Definition role_of (o : operation) : role :=
  match o with
  | Timer _ _ _ _ | ShutdownCancel _ | ResetBroker _ | CloseBroker _ => Remover
  | Startup _ | RecoverAll _ | RecoverParked _ _ _ => Starter
  | RecoverType _ _ _ => Replacer
  | Pause _ _ _ _ | RecoverDurable _ _ _ _ => Pauser
  end.

Definition ignore {A} (c : coroutine A) : coroutine () := co_bind c (λ l _, Returned l ()).

Definition code (o : operation) (l : loader) : coroutine () :=
  match o with
  | Timer ok a d captured => timer_co ok a d captured l
  | ShutdownCancel ok => shutdown_co ok l
  | ResetBroker a => ignore (reset_co a l)
  | CloseBroker a => ignore (close_co a l)
  | Startup start => ignore (startup_co start l)
  | RecoverAll a => recover_co a l
  | RecoverParked depth start a => parked_co depth start a l
  | RecoverType ok a d => ignore (recover_type_co ok a d l)
  | Pause ok a d v => ignore (pause_co ok a d v l)
  | RecoverDurable pool schema commits a => ignore (durable_recovery_co pool schema commits a l)
  end.

(** When the code begins one: the startup, before anything consumes, behind a gate that no pause
    has closed; the recovery loop, behind one that is closed. *)
Definition enabled (o : operation) (l : loader) : bool :=
  match o with
  | Startup _ => no_tags (tr l) && negb (paused (gt l))
  | RecoverDurable _ _ _ _ => paused (gt l) || negb (ready (gt l))
  | _ => true
  end.

(** The operations that wait on the broker. *)
Notation pool := (list (role * (loader → coroutine ()))).

Definition park (r : role) (c : coroutine ()) (waiting : pool) : pool :=
  match c with Returned _ _ => waiting | Suspended _ resume => (r, resume) :: waiting end.

(** The event loop: an operation begins beside those it may overlap; one that waits goes on; one
    that waits is cancelled, and may flag it; and anything else happens in between that moves
    neither the transport nor the gate. *)
Inductive step (together : role → role → bool) : loader * pool → loader * pool → Prop :=
  | step_begin o l waiting :
      enabled o l = true → Forall (λ x : role * (loader → coroutine ()), together (role_of o) x.1 = true) waiting →
      step together (l, waiting) (now (code o l), park (role_of o) (code o l) waiting)
  | step_resume r resume l waiting rest :
      waiting ≡ₚ (r, resume) :: rest → step together (l, waiting) (now (resume l), park r (resume l) rest)
  | step_cancelled r resume l waiting rest (flagged : bool) :
      r ≠ Pauser → waiting ≡ₚ (r, resume) :: rest →
      step together (l, waiting) (if flagged then on_tr (set_cancellation_failed true) l else l, rest)
  | step_other l l' waiting : tr l' = tr l → gt l' = gt l → step together (l, waiting) (l', waiting).

(** [durable_refresh_pause_lock] alone: what the code lets overlap. *)
Definition locked (r s : role) : bool := negb (bool_decide (r = Pauser) && bool_decide (s = Pauser)).

(** Nothing that starts consumers overlaps another such operation or a pause. *)
Definition starts_apart (r s : role) : bool := bool_decide (r = Remover) || bool_decide (s = Remover).

(** Moreover, what pops a type whatever its tag overlaps nothing. *)
Definition pops_apart (r s : role) : bool :=
  match r, s with Remover, (Remover | Starter) | Starter, Remover => true | _, _ => false end.

(** ** Without interruption, the one step *)

Section uninterrupted.
Implicit Types (l : loader).

Lemma set_tr_id l : set_tr (tr l) l = l.
Proof. by destruct l. Qed.

Lemma answers_all delivery topology t : forallb id (channel_answers delivery topology t) = all_closed delivery topology t.
Proof.
  unfold channel_answers, all_closed. rewrite forallb_app. f_equal; [|by destruct (channel t); simpl; rewrite ?andb_true_r].
  induction (map_to_list (channels t)) as [|kv m IH]; [done|]. simpl. by f_equal.
Qed.

Lemma finish_until {A} answers (closed failed : loader → coroutine A) l :
  finish (close_until answers closed failed l) = finish (if forallb id answers then closed l else failed l).
Proof. induction answers as [|[] answers IH]; [done|exact IH|done]. Qed.

Lemma finish_every {A} answers ok (k : bool → loader → coroutine A) l :
  finish (close_every answers ok k l) = finish (k (ok && forallb id answers) l).
Proof. induction answers as [|b answers IH] in ok |- *; simpl; [by rewrite andb_true_r|]. by rewrite IH, andb_assoc. Qed.

Lemma finish_reset a l :
  finish (reset_co a l) = let '(t, ok) := _reset_durable_broker a (tr l) in (set_tr t l, ok).
Proof.
  unfold reset_co, _reset_durable_broker, on_tr. cbv zeta.
  destruct (negb (connection (tr l)) && negb (has_channels (tr l)) && negb (no_tags (tr l))); simpl; [by rewrite set_tr_id|].
  assert (finish (if negb (has_channels (tr l)) then Returned l false
      else close_until (channel_answers (close_delivery_again a) (close_topology_again a) (tr l))
             (λ l, Returned (set_tr (dropped (connection (tr l)) (tr l)) l) true) (λ l, Returned l false) l)
    = if negb (has_channels (tr l)) then (l, false)
      else if all_closed (close_delivery_again a) (close_topology_again a) (tr l)
      then (set_tr (dropped (connection (tr l)) (tr l)) l, true) else (l, false)) as Hagain.
  { destruct (negb _); [done|]. rewrite finish_until, answers_all. by destruct (all_closed _ _ _). }
  destruct (connection (tr l)) eqn:Hc; simpl.
  - destruct (close_connection a); [done|]. etrans; [exact Hagain|]. rewrite ?Hc.
    destruct (negb _); [by rewrite set_tr_id|]. destruct (all_closed _ _ _); by rewrite ?set_tr_id.
  - rewrite finish_until, answers_all. destruct (all_closed (close_delivery a) _ _); [by simpl; rewrite Hc|]. etrans; [exact Hagain|].
    rewrite ?Hc. destruct (negb _); [by rewrite set_tr_id|]. destruct (all_closed _ _ _); by rewrite ?set_tr_id.
Qed.

Lemma finish_close a l :
  finish (close_co a l) = let '(t, ok) := _close_recovery_broker a (tr l) in (set_tr t l, ok).
Proof.
  unfold close_co, _close_recovery_broker, on_tr, cleared. cbv zeta.
  destruct (negb (connection (tr l)) && negb (channel (tr l)) && bool_decide (channels (tr l) = ∅)).
  { destruct (negb (no_tags (tr l))); [done|]. simpl. by rewrite set_tr_id. }
  rewrite finish_every, answers_all. destruct (connection (tr l)); simpl.
  - by destruct (close_connection a).
  - by destruct (all_closed _ _ _).
Qed.

Lemma finish_start a d l :
  finish (start_co a d l) = let '(t, r) := start_tagged a d (tr l) in (set_tr t l, r).
Proof.
  unfold start_co, consume_co, start_tagged, _start_consumer, on_tr. cbv zeta.
  destruct (channels (tr l) !! d) as [[|]|]; simpl; try destruct (connection (tr l)); simpl; try destruct (st_open a); simpl;
    try destruct (st_declare a); simpl; try destruct (st_consume a); by rewrite ?set_tr_id.
Qed.

Lemma foldl_fix {A B} (x : A) (f : A → B → A) ys : (∀ y, f x y = x) → foldl f x ys = x.
Proof. intros Hf. induction ys as [|y ys IH]; simpl; [done|]. by rewrite Hf. Qed.

(** A loop that awaits, against the fold of the one steps. *)
Lemma finish_each_ind {X} (f : X → loader → coroutine (result ())) (g : loader * result () → X → loader * result ()) xs l :
  (∀ l e x, g (l, Raise e) x = (l, Raise e)) → (∀ l x, finish (f x l) = g (l, Ok ()) x) →
  finish (co_each f xs l) = foldl g (l, Ok ()) xs.
Proof.
  intros Hr Hf. induction xs as [|x xs IH] in l |- *; simpl; [done|]. rewrite finish_bind, Hf.
  destruct (g (l, Ok ()) x) as [l' [[]|e]]; [apply IH|]. simpl. by rewrite foldl_fix.
Qed.

Lemma finish_restart a pending d l : finish (restart_co a pending d l) = recover_start a pending (l, Ok ()) d.
Proof.
  unfold restart_co, recover_start. destruct (_ && _); [|done]. rewrite finish_bind, finish_start.
  by destruct (start_tagged (rc_start a d) d (tr l)) as [t [[]|e]].
Qed.

Lemma finish_abandon_co a l : finish (abandon_co a l) = (close_after a l, ()).
Proof. unfold abandon_co, close_after. rewrite finish_bind, finish_close. by destruct (_close_recovery_broker _ _). Qed.

Lemma finish_redeclare a l :
  finish (co_each (declare_co a) DATA_TYPES (on_tr (set_queues ∅) l)) = let '(t, r) := redeclare a (tr l) in (set_tr t l, r).
Proof.
  unfold redeclare, on_tr. generalize (set_queues ∅ (tr l)). induction DATA_TYPES as [|d ds IH]; intros t; simpl; [done|].
  destruct (rc_declare a d) as [[]|e]; [apply IH|]. simpl. by rewrite (foldl_fix (t, Raise e) _ ds).
Qed.

Lemma finish_rebuild a depths l :
  finish (rebuild_co a depths l) =
    (match recover_work a depths l with (l, Ok _) => l | (l, Raise _) => close_after a l end, ()).
Proof.
  unfold rebuild_co, recover_work. cbv zeta. destruct (_ || _); [|apply finish_abandon_co]. cbn [finish].
  destruct (rc_qos a); [|apply finish_abandon_co]. rewrite finish_bind, finish_redeclare.
  destruct (redeclare a (tr l)) as [t [[]|e]]; [|apply finish_abandon_co]. rewrite finish_bind.
  rewrite (finish_each_ind _ (recover_start a (filter (λ dn : string * Z, 0 < dn.2) depths).*1)); [|done|intros; apply finish_restart].
  destruct (foldl _ _ _) as [l' [[]|e]]; [done|apply finish_abandon_co].
Qed.

Lemma finish_recover a l : finish (recover_co a l) = (_recover_consumers a l, ()).
Proof.
  unfold recover_co, _recover_consumers. destruct (gate_closed (gt l)); [done|]. rewrite finish_bind, finish_close.
  destruct (_close_recovery_broker (rc_close a) (tr l)) as [t []] eqn:E; [|done]. apply close_cases in E as (_ & _ & _ & _ & Hch & _).
  cbn [negb finish]. destruct (rc_connect a); [|apply finish_abandon_co]. cbn [finish].
  destruct (rc_channel a).
  - cbn [finish]. unfold on_tr. cbn [tr set_tr connection set_connected].
    destruct (recover_depths a) as [depths|]; [|apply finish_abandon_co]. rewrite finish_rebuild. done.
  - rewrite finish_abandon_co. unfold on_tr. cbn [tr set_tr]. by rewrite Hch.
Qed.
Lemma finish_recover_type ok a d l : finish (recover_type_co ok a d l) = _recover_data_type ok a d l.
Proof.
  unfold recover_type_co, _recover_data_type, on_tr. destruct (gate_closed (gt l)); [done|]. cbv zeta.
  set (t0 := set_channels (delete d (channels (tr l))) (tr l)).
  set (t := set_tags (od_del d (tags (tr l))) (if tagged d (tr l) then active (tr l) - 1 else active (tr l)) t0).
  assert (∀ l', l' = set_tr t0 l →
    (if tagged d (tr l) then set_tr (set_tags (od_del d (tags (tr l'))) (active (tr l') - 1) (tr l')) l' else l') = set_tr t l) as Hpop.
  { intros l' ->. subst t. unfold tagged. case_bool_decide as Hd; [done|]. unfold od_del. rewrite filter_all; [done|].
    intros kv Hkv Heq. apply Hd. rewrite <-Heq. by apply list_elem_of_fmap_2. }
  assert (finish (if negb (connection t) then Returned (set_tr t l) false
      else co_bind (start_co a d (set_tr t l)) (λ l r,
         match r with
         | Ok _ => Returned l true
         | Raise _ => Returned (set_tr (set_channels (delete d (channels (tr l))) (tr l)) l) false
         end))
    = if negb (connection t) then (set_tr t l, false)
      else match start_tagged a d t with
           | (t, Ok _) => (set_tr t l, true)
           | (t, Raise _) => (set_tr (set_channels (delete d (channels t)) t) l, false)
           end) as Hgo.
  { destruct (negb (connection t)); [done|]. rewrite finish_bind, finish_start. cbn [tr set_tr].
    by destruct (start_tagged a d t) as [t' [[]|e]]. }
  destruct (channels (tr l) !! d) as [closed|] eqn:Hch.
  - rewrite bool_decide_eq_true_2 by eauto. cbn [finish andb]. destruct ok; cbn [negb]; [by rewrite (Hpop _ eq_refl)|].
    cbn [finish tr set_tr]. f_equal. subst t0. unfold set_channels. cbn [channels]. rewrite insert_delete_id by done.
    by destruct l as [[] ? ? ? ? ? ?].
  - rewrite bool_decide_eq_false_2 by (intros [? ?]; congruence). cbn [andb]. rewrite (Hpop l); [exact Hgo|].
    subst t0. rewrite delete_id by done. by destruct l as [[] ? ? ? ? ? ?].
Qed.

Lemma finish_timer ok a d captured l :
  cancel_tasks l !! d = Some captured → finish (timer_co ok a d captured l) = (cancel_after_delay ok a d l, ()).
Proof.
  intros Hc. unfold timer_co, cancel_after_delay, on_tr. rewrite Hc. cbv zeta. cbn [tr set_cancel_tasks].
  destruct (_ && bool_decide (od_get d (tags (tr l)) = captured)) eqn:Hg; [|by rewrite bool_decide_eq_true_2].
  apply andb_true_iff in Hg as [_ Hg]. cbn [finish]. rewrite Hg.
  destruct ok; [|cbn; by rewrite bool_decide_eq_true_2].
  set (t := set_tags _ _ _). change (check_all_consumers_idle (set_tr t (set_cancel_tasks (delete d (cancel_tasks l)) l)))
    with (check_all_consumers_idle (set_tr t l)).
  destruct (check_all_consumers_idle _); [|cbn; by rewrite bool_decide_eq_true_2].
  rewrite finish_bind, finish_close. cbn [tr set_tr]. destruct (_close_recovery_broker a t) as [t' b].
  cbn. by rewrite bool_decide_eq_true_2.
Qed.

Lemma finish_cancel_all cancel_ok todo l :
  NoDup (tags (tr l)).*1 → NoDup todo.*1 → (∀ kv, kv ∈ todo → kv ∈ tags (tr l)) →
  finish (cancel_all_co cancel_ok todo l) = (set_tr (cancel_all cancel_ok todo (tr l)) l, ()).
Proof.
  induction todo as [|[d tag] todo IH] in l |- *; intros Hnd Ht Hin; simpl; [by rewrite set_tr_id|].
  apply NoDup_cons in Ht as [Hd Ht].
  case_bool_decide; [|rewrite IH; try done; intros kv Hkv; apply Hin; by right]. cbn [finish].
  destruct (cancel_ok d); [|done]. rewrite bool_decide_eq_true_2 by (apply od_get_elem; [done|apply Hin; by left]).
  rewrite IH; [done|by apply NoDup_od_del|done|]. intros [x tag'] Hkv. unfold od_del, on_tr. cbn [tr set_tr tags set_tags].
  apply list_elem_of_filter. split; [|apply Hin; by right]. simpl. intros ->. apply Hd. apply list_elem_of_fmap. by exists (d, tag').
Qed.

Lemma finish_shutdown cancel_ok l :
  NoDup (tags (tr l)).*1 → finish (shutdown_co cancel_ok l) = (cancel_all_consumers cancel_ok l, ()).
Proof. intros Hnd. unfold shutdown_co. cbn [finish]. by rewrite finish_cancel_all. Qed.

Lemma finish_cancel_each cancel_ok todo (failed : loader → coroutine bool) l :
  finish (cancel_each_co cancel_ok todo failed l) =
    let '(t, ok) := cancel_each cancel_ok todo (tr l) in if ok then (set_tr t l, true) else finish (failed (set_tr t l)).
Proof.
  induction todo as [|[d tag] todo IH] in l |- *; simpl; [by rewrite set_tr_id|].
  case_bool_decide; simpl; [|by rewrite set_tr_id]. destruct (cancel_ok d); [by rewrite IH|by rewrite set_tr_id].
Qed.

Lemma finish_pause cancel_ok a d v l : finish (pause_co cancel_ok a d v l) = pause_durable_consumers cancel_ok a d v l.
Proof.
  unfold pause_co, pause_durable_consumers. cbv zeta. cbn [tr set_gt]. rewrite finish_cancel_each. cbn [tr set_gt].
  destruct (cancel_each cancel_ok (tags (tr l)) (tr l)) as [t []]; [done|]. rewrite finish_bind, finish_reset. cbn [tr set_tr on_tr].
  by destruct (_reset_durable_broker a (set_reset_pending true t)).
Qed.

Lemma finish_parked_one depth start d l b :
  (finish (parked_one_co depth start d l)).1 = (resume_parked depth start (l, b) d).1 ∧
  (finish (parked_one_co depth start d l)).2 = Ok ().
Proof.
  unfold parked_one_co, resume_parked, queue_depth. cbv zeta. destruct (connection (tr l)) eqn:Hc; [|done]. cbn [finish].
  rewrite Hc. replace (match match depth d with Ok n => Some n | Raise _ => None end with Some n => negb (n =? 0) | None => false end)
    with (match depth d with Ok n => negb (n =? 0) | Raise _ => false end) by (by destruct (depth d)).
  destruct (_ && negb (tagged d (tr l)) && true); [|done]. rewrite finish_bind, finish_start.
  by destruct (start_tagged (start d) d (tr l)) as [t [[]|e]].
Qed.

Lemma finish_parked depth start a l : finish (parked_co depth start a l) = ((recover_parked_markers depth start a l).1, ()).
Proof.
  unfold parked_co, recover_parked_markers. cbv zeta. destruct (_ || _); [done|]. destruct (gate_closed (gt l)); [done|].
  destruct (negb (connection (tr l))); [apply finish_recover|]. rewrite finish_bind.
  assert (∀ ds l b, finish (co_each (parked_one_co depth start) ds l) = ((foldl (resume_parked depth start) (l, b) ds).1, Ok ())) as Heq;
    [|by rewrite (Heq _ _ false)].
  induction ds as [|d ds IH]; intros l' b; cbn [co_each foldl]; [done|]. rewrite finish_bind.
  destruct (finish_parked_one depth start d l' b) as [H1 H2]. destruct (finish (parked_one_co depth start d l')) as [l1 r].
  cbn [fst snd] in H1, H2. subst. destruct (resume_parked depth start (l', b) d) as [l2 b2]. apply IH.
Qed.

Lemma finish_resubscribe a l : finish (resubscribe_co a l) = resubscribe a l.
Proof.
  unfold resubscribe_co, resubscribe. rewrite finish_bind.
  assert (finish (if connection (tr l) && channel (tr l)
      then co_each (resume_one_co (rs_start a)) (sort_strings (elements (resume_types (gt l)))) l
      else co_bind (recover_co (rs_recover a) l) (λ l _, Returned l (Ok ())))
    = if connection (tr l) && channel (tr l)
      then foldl (resume_one (rs_start a)) (l, Ok ()) (sort_strings (elements (resume_types (gt l))))
      else (_recover_consumers (rs_recover a) l, Ok ())) as ->.
  { destruct (_ && _); [|by rewrite finish_bind, finish_recover]. apply finish_each_ind; [done|]. intros l' d.
    unfold resume_one_co, resume_one. destruct (_ && _); [apply finish_start|done]. }
  by destruct (if connection (tr l) && channel (tr l) then _ else _) as [l1 [[]|e]].
Qed.

Lemma finish_cancel_partial cancel_ok todo certain l :
  finish (cancel_partial_co cancel_ok todo certain l) =
    let '(t, ok) := cancel_partial cancel_ok todo (tr l) in (set_tr t l, certain && ok).
Proof.
  induction todo as [|[d tag] todo IH] in certain, l |- *; simpl; [by rewrite set_tr_id, andb_true_r|].
  case_bool_decide; simpl; [destruct (cancel_ok d)|]; rewrite IH; cbn [tr set_tr on_tr];
    destruct (cancel_partial _ _ _) as [t ok]; by rewrite ?andb_false_r.
Qed.

Lemma finish_fail_resubscription a l : finish (fail_resubscription_co a l) = (fail_resubscription a l, ()).
Proof.
  unfold fail_resubscription_co, fail_resubscription. cbv zeta. rewrite finish_bind, finish_cancel_partial.
  destruct (cancel_partial _ _ _) as [t []]; simpl; [done|]. rewrite finish_bind, finish_reset. cbn [tr set_tr on_tr].
  by destruct (_reset_durable_broker _ _).
Qed.

Lemma finish_durable_recovery {S} `{SignalStore S} pool admission a s l :
  let '(_, l', ok) := attempt_durable_recovery pool admission a s l in
  finish (durable_recovery_co pool (schema_ok s) (commit_recovery admission (recovery_signals (gt l)) s).2 a l) = (l', ok).
Proof.
  unfold attempt_durable_recovery, durable_recovery_co. destruct (_ || _); [done|]. rewrite finish_bind.
  assert (finish (if reset_pending (tr l) then reset_co (rs_reset a) l else Returned l true) =
    let '(t, ok) := if reset_pending (tr l) then _reset_durable_broker (rs_reset a) (tr l) else (tr l, true) in (set_tr t l, ok)) as ->
    by (destruct (reset_pending (tr l)); [apply finish_reset|simpl; by rewrite set_tr_id]).
  destruct (if reset_pending (tr l) then _ else _) as [t []]; cbn [negb]; [|done]. cbn [finish].
  destruct (schema_ok s); cbn [negb finish]; [|done].
  cbn [gt set_tr]. destruct (commit_recovery admission (recovery_signals (gt l)) s) as [s' [[]|e]]; cbn [snd]; [|done].
  rewrite finish_bind, finish_resubscribe. destruct (resubscribe a _) as [l' [[]|e]]; [done|].
  by rewrite finish_bind, finish_fail_resubscription.
Qed.
End uninterrupted.

(** ** Rely and guarantee *)

(** Each run of a coroutine up to its next [await] is a step of [G], provided that what happens
    while it waits is in [R]; and what it returns satisfies [Q]. *)
Fixpoint guards {A} (R G : loader → loader → Prop) (Q : loader → A → Prop) (l0 : loader) (c : coroutine A) : Prop :=
  match c with
  | Returned l a => G l0 l ∧ Q l a
  | Suspended l resume => G l0 l ∧ ∀ l', R l l' → guards R G Q l' (resume l')
  end.

Definition anything {A} (_ : loader) (_ : A) : Prop := True.
Definition whatever (_ _ : loader) : Prop := True.

Lemma guards_mono {A} (R R' G G' : loader → loader → Prop) (Q Q' : loader → A → Prop) l0 c :
  (∀ l l', R' l l' → R l l') → (∀ l l', G l l' → G' l l') → (∀ l a, Q l a → Q' l a) →
  guards R G Q l0 c → guards R' G' Q' l0 c.
Proof.
  intros HR HG HQ. induction c as [l a|l resume IH] in l0 |- *; simpl; [intros [? ?]; split; auto|].
  intros [? Hk]. split; [auto|]. intros l' Hl'. apply IH, Hk, HR, Hl'.
Qed.

Lemma guards_after {A} (R G : loader → loader → Prop) (Q : loader → A → Prop) l0 l c :
  (∀ l0 l1 l2, G l0 l1 → G l1 l2 → G l0 l2) → G l0 l → guards R G Q l c → guards R G Q l0 c.
Proof. intros Ht Hg. destruct c; simpl; intros [? ?]; (split; [by eapply Ht|done]). Qed.

Lemma guards_bind {A B} (R G : loader → loader → Prop) (P : loader → A → Prop) (Q : loader → B → Prop) l0 c k :
  (∀ l0 l1 l2, G l0 l1 → G l1 l2 → G l0 l2) → guards R G P l0 c → (∀ l a, P l a → guards R G Q l (k l a)) →
  guards R G Q l0 (co_bind c k).
Proof.
  intros Ht Hc Hk. induction c as [l a|l resume IH] in l0, Hc |- *; simpl in *.
  - destruct Hc as [Hg Hp]. by apply (guards_after _ _ _ _ l); [|..|apply Hk].
  - destruct Hc as [Hg Hr]. split; [done|]. intros l' Hl'. by apply IH, Hr.
Qed.

(** What the steps on both sides keep holds at the end; and what they do may depend on it. *)
Lemma guards_keep {A} (I : loader → Prop) (R G G' : loader → loader → Prop) (Q : loader → A → Prop) l0 c :
  (∀ l l', R l l' → I l → I l') → (∀ l l', G l l' → I l → I l' ∧ G' l l') → I l0 →
  guards R G Q l0 c → guards R G' (λ l a, Q l a ∧ I l) l0 c.
Proof.
  intros HR HG. induction c as [l a|l resume IH] in l0 |- *; simpl; intros HI.
  - intros [Hg Hq]. destruct (HG _ _ Hg HI). done.
  - intros [Hg Hr]. destruct (HG _ _ Hg HI) as [HIl Hg']. split; [done|]. intros l' Hl'. apply IH; [by eapply HR|auto].
Qed.

Lemma guards_each {X} (P : list X → loader → Prop) (R G : loader → loader → Prop) (f : X → loader → coroutine (result ())) xs l :
  (∀ l, G l l) → (∀ l0 l1 l2, G l0 l1 → G l1 l2 → G l0 l2) →
  (∀ x xs l, P (x :: xs) l → guards R G (λ l (_ : result ()), P xs l) l (f x l)) →
  P xs l → guards R G anything l (co_each f xs l).
Proof.
  intros Hrefl Ht Hf. induction xs as [|x xs IH] in l |- *; simpl; intros HP; [split; [done|exact I]|].
  eapply guards_bind; [done|by apply Hf|]. intros l' [[]|e] HP'; [by apply IH|split; [done|exact I]].
Qed.

(** ** The steps *)

(** What only removes consumers does. *)
Definition calm (l l' : loader) : Prop :=
  gt l' = gt l ∧ (counted (tr l) → counted (tr l')) ∧ (∀ d, d ∈ (tags (tr l')).*1 → d ∈ (tags (tr l)).*1) ∧
  (reset_pending (tr l') = reset_pending (tr l) ∨ tags (tr l') = []).

(** What starts consumers does. *)
Definition counting (l l' : loader) : Prop := gt l' = gt l ∧ (counted (tr l) → counted (tr l')).
Definition counts (l l' : loader) : Prop := counted (tr l) → counted (tr l').
Definition keeps_gate (l l' : loader) : Prop := gt l' = gt l.
Definition idle (l l' : loader) : Prop := tr l' = tr l ∧ gt l' = gt l.

Lemma no_keys {V} (d d' : list (string * V)) : d = [] → (∀ x, x ∈ d'.*1 → x ∈ d.*1) → d' = [].
Proof. intros -> Hsub. apply fmap_fst_nil. intros x Hx%Hsub. by apply elem_of_nil in Hx. Qed.

Lemma calm_refl l : calm l l.
Proof. split_and!; try done. by left. Qed.
Lemma calm_trans l0 l1 l2 : calm l0 l1 → calm l1 l2 → calm l0 l2.
Proof.
  intros (Hg & Hc & Hk & Hr) (Hg' & Hc' & Hk' & Hr'). split_and!; [congruence|auto|auto|].
  destruct Hr' as [Hr'|Hr']; [|by right]. destruct Hr as [Hr|Hr]; [left; congruence|]. right. by eapply no_keys.
Qed.
Lemma counting_trans l0 l1 l2 : counting l0 l1 → counting l1 l2 → counting l0 l2.
Proof. intros [? ?] [? ?]. split; [congruence|auto]. Qed.
Lemma counts_trans l0 l1 l2 : counts l0 l1 → counts l1 l2 → counts l0 l2.
Proof. unfold counts. auto. Qed.
Lemma keeps_gate_trans l0 l1 l2 : keeps_gate l0 l1 → keeps_gate l1 l2 → keeps_gate l0 l2.
Proof. unfold keeps_gate. congruence. Qed.
Lemma whatever_trans l0 l1 l2 : whatever l0 l1 → whatever l1 l2 → whatever l0 l2.
Proof. done. Qed.

Lemma calm_counting l l' : calm l l' → counting l l'.
Proof. intros (? & ? & _). done. Qed.
Lemma idle_calm l l' : idle l l' → calm l l'.
Proof. intros [Ht Hg]. unfold calm. rewrite Ht, Hg. split_and!; try done. by left. Qed.

(** A step that leaves the tags, the gauge and the pending reset alone. *)
Lemma calm_same l t :
  tags t = tags (tr l) → active t = active (tr l) → reset_pending t = reset_pending (tr l) → calm l (set_tr t l).
Proof.
  intros Ht Ha Hr. unfold calm. cbn [gt tr set_tr]. unfold counted. rewrite Ht, Ha, Hr. split_and!; try done. by left.
Qed.

Lemma calm_none l t : tags t = [] → active t = active (tr l) - Z.of_nat (length (tags (tr l))) → calm l (set_tr t l).
Proof.
  intros Ht Ha. unfold calm. cbn [gt tr set_tr]. unfold counted. rewrite Ht, Ha. split_and!; try done.
  - intros [_ ->]. split; [constructor|]. simpl. lia.
  - by intros d ?%elem_of_nil.
  - by right.
Qed.

Lemma calm_untag d l :
  d ∈ (tags (tr l)).*1 → calm l (on_tr (λ t, set_tags (od_del d (tags t)) (active t - 1) t) l).
Proof.
  intros Hd. split_and!; cbn [gt tr set_tr on_tr]; [done|by intros; apply counted_untag| |by left].
  intros x Hx. cbn [tags set_tags] in Hx. apply od_del_keys in Hx. tauto.
Qed.

#[local] Hint Resolve calm_refl calm_trans counting_trans counts_trans keeps_gate_trans calm_counting whatever_trans : core.

(** ** Removers *)

Lemma guards_until {A} (Q : loader → A → Prop) answers (closed failed : loader → coroutine A) l :
  (∀ l, guards whatever calm Q l (closed l)) → (∀ l, guards whatever calm Q l (failed l)) →
  guards whatever calm Q l (close_until answers closed failed l).
Proof.
  intros Hc Hf. induction answers as [|ok answers IH] in l |- *; simpl; [done|]. split; [done|]. intros l' _. by destruct ok.
Qed.

Lemma guards_every {A} (Q : loader → A → Prop) answers ok (k : bool → loader → coroutine A) l :
  (∀ ok l, guards whatever calm Q l (k ok l)) → guards whatever calm Q l (close_every answers ok k l).
Proof.
  intros Hk. induction answers as [|b answers IH] in ok, l |- *; simpl; [done|]. split; [done|]. intros l' _. apply IH.
Qed.

Definition emptied (l : loader) (ok : bool) : Prop := ok = true → tags (tr l) = [].

Lemma reset_calm a l : guards whatever calm emptied l (reset_co a l).
Proof.
  unfold reset_co. cbv zeta. destruct (_ && negb (no_tags (tr l))); [by split|].
  assert (∀ conn l, calm l (on_tr (dropped conn) l)) as Hd by (intros; by apply calm_none).
  assert (∀ l', guards whatever calm emptied l' (if negb (has_channels (tr l)) then Returned l' false
    else close_until (channel_answers (close_delivery_again a) (close_topology_again a) (tr l))
           (λ l, Returned (on_tr (dropped (connection (tr l))) l) true) (λ l, Returned l false) l')) as Ha.
  { intros l'. destruct (negb _); [by split|]. apply guards_until; intros; by split. }
  destruct (connection (tr l)).
  - split; [done|]. intros l' _. destruct (close_connection a); [by split|apply Ha].
  - apply guards_until; [|exact Ha]. intros; by split.
Qed.

Lemma close_calm a l : guards whatever calm emptied l (close_co a l).
Proof.
  unfold close_co. cbv zeta.
  assert (∀ l, guards whatever calm emptied l (Returned (on_tr (set_cancellation_failed true) l) false)) as Hf
    by (intros; split; [by apply calm_same|done]).
  assert (∀ l, guards whatever calm emptied l (Returned (on_tr cleared l) true)) as Hd
    by (intros; split; [by apply calm_none|done]).
  destruct (_ && bool_decide (channels (tr l) = ∅)).
  { destruct (negb (no_tags (tr l))) eqn:Ht; [apply Hf|]. split; [done|]. intros _. by apply negb_false_iff, bool_decide_eq_true in Ht. }
  apply guards_every. intros ok l'. destruct (connection (tr l)).
  - split; [done|]. intros l'' _. by destruct (close_connection a).
  - by destruct ok.
Qed.

Lemma ignore_guards {A} R G (Q : loader → A → Prop) l c :
  (∀ l0 l1 l2, G l0 l1 → G l1 l2 → G l0 l2) → (∀ l, G l l) → guards R G Q l c → guards R G anything l (ignore c).
Proof. intros Ht Hr Hc. eapply guards_bind; [exact Ht|exact Hc|]. intros l' a _. by split. Qed.

Lemma od_get_tagged d tag l : od_get d (tags (tr l)) = Some tag → d ∈ (tags (tr l)).*1.
Proof. intros Hg. apply dec_stable. rewrite <-od_get_None. congruence. Qed.

Lemma timer_calm ok a d captured l : guards whatever calm anything l (timer_co ok a d captured l).
Proof.
  unfold timer_co. cbv zeta.
  set (forget := λ l, if bool_decide (cancel_tasks l !! d = Some captured) then set_cancel_tasks (delete d (cancel_tasks l)) l else l).
  assert (∀ l l', calm l l' → calm l (forget l')) as Hforget.
  { intros l0 l' Hc. unfold forget. case_bool_decide; [|done]. eapply calm_trans; [exact Hc|]. by apply idle_calm. }
  destruct (_ && bool_decide (od_get d _ = _)) eqn:Hg; [|split; [by apply Hforget|done]].
  apply andb_true_iff in Hg as [Hn%bool_decide_eq_true _]. split; [done|]. intros l' _.
  destruct ok; [|split; [by apply Hforget, calm_same|done]].
  set (l1 := if bool_decide (od_get d (tags (tr l')) = captured) then _ else l').
  assert (calm l' l1) as H1.
  { unfold l1. case_bool_decide as Hd; [|done]. apply calm_untag. destruct captured as [tag|]; [by eapply od_get_tagged|done]. }
  destruct (check_all_consumers_idle l1); [|split; [by apply Hforget|done]].
  apply (guards_after _ _ _ _ l1); [exact calm_trans|done|]. eapply guards_bind; [exact calm_trans|apply close_calm|].
  intros l2 b _. split; [by apply Hforget|done].
Qed.

Lemma cancel_all_calm cancel_ok todo l : guards whatever calm anything l (cancel_all_co cancel_ok todo l).
Proof.
  induction todo as [|[d tag] todo IH] in l |- *; simpl; [done|]. case_bool_decide.
  - split; [done|]. intros l' _. destruct (cancel_ok d); [|split; [by apply calm_same|done]].
    eapply guards_after; [exact calm_trans| |apply IH]. case_bool_decide as Hd; [|done]. apply calm_untag. by eapply od_get_tagged.
  - eapply guards_after; [exact calm_trans| |apply IH]. by apply calm_same.
Qed.

Lemma shutdown_calm cancel_ok l : guards whatever calm anything l (shutdown_co cancel_ok l).
Proof. split; [by apply idle_calm|]. intros l' _. apply cancel_all_calm. Qed.

(** ** Starters *)

(** Starting a type that has no consumer. *)
Lemma start_counting a d l :
  tagged d (tr l) = false →
  guards calm (λ l l', counting l l' ∧ ∀ x, x ∈ (tags (tr l')).*1 → x = d ∨ x ∈ (tags (tr l)).*1) anything l (start_co a d l).
Proof.
  intros Hd%bool_decide_eq_false. set (G := λ l l', _).
  assert (∀ l t, tags t = tags (tr l) → active t = active (tr l) → G l (set_tr t l)) as Hsame.
  { intros l0 t Ht Ha. split; [split; [done|]|cbn [tr set_tr]; rewrite Ht; tauto]. apply counted_same. by split. }
  assert (∀ l, G l l) as Hrefl by (intros l0; rewrite <-(set_tr_id l0) at 2; by apply Hsame).
  assert (∀ l, d ∉ (tags (tr l)).*1 → guards calm G anything l (consume_co a d l)) as Hconsume.
  { intros l0 Hd0. split; [done|]. intros l1 (_ & _ & Hk & _). destruct (st_declare a); [|by split]. split; [by apply Hsame|].
    intros l2 (_ & _ & Hk2 & _). destruct (st_consume a) as [tag|]; [|by split]. split; [|done].
    assert (d ∉ (tags (tr l2)).*1) as Hd2 by (intros ?%Hk2%Hk; done).
    split; [split; [done|]; intros Hc; by apply counted_tag|]. intros x Hx. by apply od_set_keys_in in Hx. }
  assert (guards calm G anything l (if connection (tr l) then
        Suspended l (λ l,
          match st_open a with
          | Raise e => Returned l (Raise e)
          | Ok _ => consume_co a d (on_tr (λ t, set_channels (<[d := false]> (channels t)) t) l)
          end)
      else Returned l (Raise AttributeError))) as Hopen.
  { destruct (connection (tr l)); [|by split]. split; [done|]. intros l1 (_ & _ & Hk & _).
    destruct (st_open a); [|by split]. set (l2 := on_tr _ l1).
    destruct (Hconsume l2) as [_ Hrest]; [intros ?%Hk; done|]. split; [by apply Hsame|exact Hrest]. }
  unfold start_co. destruct (channels (tr l) !! d) as [[|]|]; [exact Hopen|by apply Hconsume|exact Hopen].
Qed.

Lemma counting_refl l : counting l l.
Proof. done. Qed.
#[local] Hint Resolve counting_refl : core.

Lemma start_counts a d l : tagged d (tr l) = false → guards calm counting anything l (start_co a d l).
Proof. intros Hd. eapply guards_mono, (start_counting a d l Hd); [done|intros l0 l1 [H _]; exact H|done]. Qed.

Lemma calm_guards {A} (Q : loader → A → Prop) l c : guards whatever calm Q l c → guards calm counting Q l c.
Proof. apply guards_mono; [done|auto|done]. Qed.

(** A step that leaves the gate, the tags and the gauge alone. *)
Lemma counting_same l l' : gt l' = gt l → same_count (tr l) (tr l') → counting l l'.
Proof. intros Hg Hs. split; [done|]. by apply counted_same. Qed.

Lemma each_counts {X} (f : X → loader → coroutine (result ())) xs l :
  (∀ x l, guards calm counting anything l (f x l)) → guards calm counting anything l (co_each f xs l).
Proof.
  intros Hf. apply (guards_each (λ _ _, True)); [done|exact counting_trans| |done]. intros x xs' l' _.
  eapply guards_mono, Hf; done.
Qed.

Lemma restart_counts a pending d l : guards calm counting anything l (restart_co a pending d l).
Proof.
  unfold restart_co. destruct (_ && negb (tagged d (tr l))) eqn:Hg; [|done].
  apply andb_true_iff in Hg as [_ Hg%negb_true_iff]. eapply guards_bind; [exact counting_trans|by apply start_counts|].
  intros l' [[]|e] _; [|done]. split; [|done]. by case_bool_decide.
Qed.

Lemma abandon_co_counts a l : guards calm counting anything l (abandon_co a l).
Proof. eapply guards_bind; [exact counting_trans|apply calm_guards, close_calm|]. done. Qed.

Lemma rebuild_counts a depths l : guards calm counting anything l (rebuild_co a depths l).
Proof.
  unfold rebuild_co. cbv zeta. destruct (_ || _); [|apply abandon_co_counts]. split; [done|]. intros l1 _.
  destruct (rc_qos a); [|apply abandon_co_counts].
  apply (guards_after _ _ _ _ (on_tr (set_queues ∅) l1)); [exact counting_trans|by apply counting_same|].
  eapply guards_bind; [exact counting_trans|apply each_counts|].
  { intros d l2. split; [done|]. intros l3 _. destruct (rc_declare a d); split; try done; by apply counting_same. }
  intros l2 [[]|e] _; [|apply abandon_co_counts].
  eapply guards_bind; [exact counting_trans|apply each_counts, restart_counts|].
  intros l3 [[]|e] _; [done|apply abandon_co_counts].
Qed.

Lemma recover_counts a l : guards calm counting anything l (recover_co a l).
Proof.
  unfold recover_co. destruct (gate_closed (gt l)); [done|].
  eapply guards_bind; [exact counting_trans|apply calm_guards, close_calm|]. intros l1 closed _.
  destruct closed; [|done]. split; [done|]. intros l2 _. destruct (rc_connect a); [|apply abandon_co_counts].
  split; [by apply counting_same|]. intros l3 _. destruct (rc_channel a); [|apply abandon_co_counts].
  split; [by apply counting_same|]. intros l4 _. destruct (recover_depths a); [apply rebuild_counts|apply abandon_co_counts].
Qed.

Lemma parked_counts depth start a l : guards calm counting anything l (parked_co depth start a l).
Proof.
  unfold parked_co. cbv zeta. destruct (_ || _); [done|]. destruct (gate_closed _); [done|].
  destruct (negb _); [apply recover_counts|].
  eapply guards_bind; [exact counting_trans|apply each_counts|by split].
  intros d l1. unfold parked_one_co. cbv zeta. destruct (connection (tr l1)); [|done]. split; [done|]. intros l2 _.
  destruct (_ && negb (tagged d (tr l2)) && _) eqn:Hg; [|done]. apply andb_true_iff in Hg as [[_ Hg%negb_true_iff]%andb_true_iff _].
  eapply guards_bind; [exact counting_trans|by apply start_counts|]. intros l3 [[]|e] _; [done|].
  split; [|done]. by apply counting_same.
Qed.

Lemma startup_counts start l : tags (tr l) = [] → guards calm counting anything l (startup_co start l).
Proof.
  intros Ht. unfold startup_co. destruct (_ || _); [|done].
  apply (guards_each (λ ds l, NoDup ds ∧ ∀ d, d ∈ ds → d ∉ (tags (tr l)).*1)); [done|exact counting_trans| |].
  - intros d ds l1 [[Hd Hnd]%NoDup_cons Hun].
    assert (tagged d (tr l1) = false) as Hg by (apply bool_decide_eq_false_2, Hun; by left).
    eapply guards_mono, (guards_keep (λ l, ∀ x, x ∈ ds → x ∉ (tags (tr l)).*1) _ _ counting), (start_counting (start d) d l1 Hg).
    + done.
    + done.
    + intros l2 r [_ Hk]. done.
    + intros l2 l3 (_ & _ & Hk & _) Hi x Hx Hin%Hk. by apply (Hi x).
    + intros l2 l3 [Hc Hk] Hi. split; [|done]. intros x Hx [->|Hin]%Hk; [done|by apply (Hi x)].
    + intros x Hx. apply Hun. by right.
  - rewrite Ht. split; [apply (bool_decide_unpack _); vm_compute; exact I|]. intros d _. apply not_elem_of_nil.
Qed.

Lemma recover_type_gate ok a d l : guards whatever keeps_gate anything l (recover_type_co ok a d l).
Proof.
  assert (∀ l, guards whatever keeps_gate anything l (start_co a d l)) as Hs.
  { intros l0. assert (∀ l1 l2, keeps_gate l1 l2 → guards whatever keeps_gate anything l1 (consume_co a d l2)) as Hc.
    { intros l1 l2 Hk. split; [done|]. intros l3 _. destruct (st_declare a); [|done]. split; [done|]. intros l4 _. by destruct (st_consume a). }
    unfold start_co. destruct (channels (tr l0) !! d) as [[|]|]; [|by apply Hc|];
      (destruct (connection (tr l0)); [|done]; split; [done|]; intros l1 _; destruct (st_open a); [by apply Hc|done]). }
  unfold recover_type_co. cbv zeta. destruct (gate_closed (gt l)); [done|].
  assert (∀ l' : loader, guards whatever keeps_gate anything l'
    (let l0 := if tagged d (tr l) then on_tr (λ t, set_tags (od_del d (tags t)) (active t - 1) t) l' else l' in
     if negb (connection (tr l0)) then Returned l0 false
     else co_bind (start_co a d l0) (λ l r,
        match r with
        | Ok _ => Returned l true
        | Raise _ => Returned (on_tr (λ t, set_channels (delete d (channels t)) t) l) false
        end))) as Hr.
  { intros l'. cbv zeta. set (l0 := if tagged d (tr l) then _ else l').
    assert (keeps_gate l' l0) as Hk by (unfold l0; by destruct (tagged d (tr l))).
    apply (guards_after _ _ _ _ l0); [exact keeps_gate_trans|done|]. destruct (negb _); [done|].
    eapply guards_bind; [exact keeps_gate_trans|apply Hs|]. by intros l1 [[]|e] _. }
  destruct (channels (tr l) !! d) as [closed|]; [|apply Hr]. split; [done|]. intros l1 _. destruct ok; [apply Hr|done].
Qed.

Lemma resubscribe_counts a l : guards calm counting anything l (resubscribe_co a l).
Proof.
  eapply guards_bind; [exact counting_trans| |by intros l' [[]|e] _].
  destruct (_ && _).
  - apply each_counts. intros d l1. unfold resume_one_co. destruct (negb (tagged d (tr l1)) && _) eqn:Hg; [|done].
    apply andb_true_iff in Hg as [Hg%negb_true_iff _]. by apply start_counts.
  - eapply guards_bind; [exact counting_trans|apply recover_counts|done].
Qed.

(** ** What pops a type whatever its tag, alone *)

Lemma counts_refl l : counts l l.
Proof. exact id. Qed.
#[local] Hint Resolve counts_refl : core.

Lemma counting_counts l l' : counting l l' → counts l l'.
Proof. intros [_ H]. exact H. Qed.

Lemma idle_guards {A} (Q : loader → A → Prop) l c : guards calm counting Q l c → guards idle counting Q l c.
Proof. apply guards_mono; [apply idle_calm|done|done]. Qed.

Lemma idle_counts {A} (Q : loader → A → Prop) l c : guards calm counting Q l c → guards idle counts Q l c.
Proof. apply guards_mono; [apply idle_calm|apply counting_counts|done]. Qed.

Lemma counts_keep {A} (Q : loader → A → Prop) l c :
  counted (tr l) → guards idle counts Q l c → guards idle counts (λ l (_ : A), counted (tr l)) l c.
Proof.
  intros Hc Hg.
  eapply guards_mono, (guards_keep (λ l, counted (tr l)) _ counts counts); [done|done|by intros ? ? [_ ?]| | |exact Hc|exact Hg].
  - by intros l2 l3 [-> _].
  - unfold counts. auto.
Qed.

Lemma recover_type_counts ok a d l : guards idle counting anything l (recover_type_co ok a d l).
Proof.
  unfold recover_type_co. cbv zeta. destruct (gate_closed (gt l)); [done|].
  assert (∀ l' : loader, tags (tr l') = tags (tr l) → guards idle counting anything l'
    (let l0 := if tagged d (tr l) then on_tr (λ t, set_tags (od_del d (tags t)) (active t - 1) t) l' else l' in
     if negb (connection (tr l0)) then Returned l0 false
     else co_bind (start_co a d l0) (λ l r,
        match r with
        | Ok _ => Returned l true
        | Raise _ => Returned (on_tr (λ t, set_channels (delete d (channels t)) t) l) false
        end))) as Hr.
  { intros l' Ht. cbv zeta. set (l0 := if tagged d (tr l) then _ else l').
    assert (counting l' l0 ∧ tagged d (tr l0) = false) as [Hc Hd].
    { unfold l0, tagged. case_bool_decide as Hd; rewrite <-Ht in Hd.
      - split; [by apply calm_counting, calm_untag|]. apply bool_decide_eq_false_2. cbn [tr set_tr on_tr tags set_tags].
        rewrite od_del_keys. tauto.
      - split; [done|]. by apply bool_decide_eq_false_2. }
    apply (guards_after _ _ _ _ l0); [exact counting_trans|done|]. destruct (negb _); [done|].
    eapply guards_bind; [exact counting_trans|by apply idle_guards, start_counts|].
    intros l1 [[]|e] _; [done|]. split; [|done]. by apply counting_same. }
  destruct (channels (tr l) !! d) as [closed|]; [|by apply Hr].
  split; [by apply counting_same|]. intros l1 [Ht _]. destruct ok; [apply Hr; by rewrite Ht|]. split; [|done]. by apply counting_same.
Qed.

Lemma cancel_each_counts cancel_ok todo (failed : loader → coroutine bool) l :
  todo_of todo (tr l) → (∀ l, guards idle counts anything l (failed l)) →
  guards idle counts anything l (cancel_each_co cancel_ok todo failed l).
Proof.
  intros Ht Hf. induction todo as [|[d tag] todo IH] in l, Ht |- *; simpl; [done|].
  case_bool_decide; [|done]. split; [done|]. intros l1 [Htr _]. rewrite <-Htr in Ht. destruct (todo_next _ _ _ _ Ht) as (Hd & _ & Hnext).
  destruct (cancel_ok d); [|done]. eapply guards_after; [exact counts_trans| |by apply IH].
  by apply counting_counts, calm_counting, calm_untag.
Qed.

Lemma reset_counts a l : guards idle counts anything l (ignore (reset_co a l)).
Proof.
  apply (ignore_guards _ _ emptied); [exact counts_trans|done|]. by apply idle_counts, calm_guards, reset_calm.
Qed.

Lemma pause_counts ok a d v l : counted (tr l) → guards idle counts anything l (pause_co ok a d v l).
Proof.
  intros Hc. unfold pause_co. cbv zeta. set (l1 := set_gt _ l).
  apply (guards_after _ _ _ _ l1); [exact counts_trans|exact id|]. apply cancel_each_counts; [by apply (own_todo (tr l))|].
  intros l2. apply (guards_after _ _ _ _ (on_tr (set_reset_pending true) l2)); [exact counts_trans|exact id|].
  eapply guards_bind; [exact counts_trans|apply idle_counts, calm_guards, reset_calm|done].
Qed.

Lemma cancel_partial_counts cancel_ok todo certain l :
  todo_of todo (tr l) → guards idle counts anything l (cancel_partial_co cancel_ok todo certain l).
Proof.
  intros Ht. induction todo as [|[d tag] todo IH] in certain, l, Ht |- *; simpl; [done|].
  destruct (todo_next _ _ _ _ Ht) as (Hd & Hsame & Hnext). case_bool_decide; [|by apply IH].
  split; [done|]. intros l1 [Htr _]. rewrite <-Htr in *. destruct (cancel_ok d); [|by apply IH].
  eapply guards_after; [exact counts_trans| |by apply IH]. by apply counting_counts, calm_counting, calm_untag.
Qed.

Lemma durable_recovery_counts pool schema commits a l :
  counted (tr l) → guards idle counts anything l (durable_recovery_co pool schema commits a l).
Proof.
  intros Hc. unfold durable_recovery_co. destruct (_ || _); [done|].
  assert (∀ l, counted (tr l) → guards idle counts (λ l (_ : ()), counted (tr l)) l (fail_resubscription_co a l)) as Hfail.
  { intros l1 Hc1.
    assert (guards idle counts anything l1 (fail_resubscription_co a l1)) as Hg.
    { unfold fail_resubscription_co. cbv zeta. set (l2 := set_gate false true l1).
      apply (guards_after _ _ _ _ l2); [exact counts_trans|exact id|]. eapply guards_bind; [exact counts_trans| |].
      - apply cancel_partial_counts. by apply (own_todo (tr l1)).
      - intros l3 [] _; [done|]. apply (guards_after _ _ _ _ (on_tr (set_reset_pending true) l3)); [exact counts_trans|exact id|].
        apply reset_counts. }
    by eapply counts_keep. }
  apply (guards_bind _ _ (λ l (_ : bool), counted (tr l))); [exact counts_trans| |].
  { assert (guards idle counts anything l (if reset_pending (tr l) then reset_co (rs_reset a) l else Returned l true)) as Hg.
    { destruct (reset_pending (tr l)); [|done]. eapply guards_mono, idle_counts, calm_guards, reset_calm; done. }
    by eapply counts_keep. }
  intros l1 open Hc1. destruct open; [|done]. split; [done|]. intros l2 [Ht2 _]. destruct schema; [|split; [exact id|done]].
  split; [done|]. intros l3 [Ht3 _]. destruct commits; [|split; [exact id|done]].
  set (l4 := set_gate true false l3). apply (guards_after _ _ _ _ l4); [exact counts_trans|exact id|].
  assert (counted (tr l4)) as Hc4 by (cbn [l4 tr set_gate set_gt]; by rewrite Ht3, Ht2).
  apply (guards_bind _ _ (λ l (_ : result ()), counted (tr l))); [exact counts_trans| |].
  { eapply counts_keep; [exact Hc4|]. apply idle_counts, resubscribe_counts. }
  intros l5 [[]|e] Hc5; [split; [exact id|done]|]. eapply guards_bind; [exact counts_trans|by apply Hfail|done].
Qed.

(** ** What a pause and a recovery leave *)

Lemma quiet_calm l l' : calm l l' → quiet (tr l) → quiet (tr l').
Proof.
  intros (_ & _ & Hk & Hr) [Ht|Hq]; [left; by eapply no_keys|]. destruct Hr as [Hr|Ht]; [right; congruence|by left].
Qed.

(** What calm steps keep, an operation made of them keeps beside calm ones. *)
Lemma calm_keeps {A} (I : loader → Prop) (Q : loader → A → Prop) l c :
  (∀ l l', calm l l' → I l → I l') → I l → guards whatever calm Q l c → guards calm whatever (λ l a, Q l a ∧ I l) l c.
Proof.
  intros HI Hl Hc. apply (guards_keep I calm calm); [exact HI|by intros; split; [eapply HI|]|done|].
  eapply guards_mono, Hc; done.
Qed.

Lemma cancel_each_quiet cancel_ok todo (failed : loader → coroutine bool) l :
  (∀ d, d ∈ (tags (tr l)).*1 → d ∈ todo.*1) →
  (∀ l, guards calm whatever (λ l (_ : bool), quiet (tr l)) l (failed l)) →
  guards calm whatever (λ l (_ : bool), quiet (tr l)) l (cancel_each_co cancel_ok todo failed l).
Proof.
  intros Ht Hf. induction todo as [|[d tag] todo IH] in l, Ht |- *; simpl.
  { split; [done|]. left. by apply (no_keys ([] : list (string * string))). }
  case_bool_decide; [|done]. split; [done|]. intros l1 (_ & _ & Hk & _). destruct (cancel_ok d); [|done].
  eapply guards_after; [exact whatever_trans|done|apply IH]. intros x Hx. cbn [tr set_tr on_tr tags set_tags] in Hx.
  apply od_del_keys in Hx as [Hx%Hk%Ht Hne]. by apply elem_of_cons in Hx as [?|?].
Qed.

Lemma pending_reset_quiet a l :
  guards calm whatever (λ l (_ : bool), quiet (tr l)) l (reset_co a (on_tr (set_reset_pending true) l)).
Proof.
  apply (guards_after _ _ _ _ (on_tr (set_reset_pending true) l)); [exact whatever_trans|exact I|].
  eapply guards_mono, (calm_keeps (λ l, quiet (tr l)) emptied); [done|done|by intros ? ? [_ ?]|exact quiet_calm|by right|].
  apply reset_calm.
Qed.

Lemma pause_quiet_co ok a d v l : guards calm whatever (λ l (_ : bool), quiet (tr l)) l (pause_co ok a d v l).
Proof.
  unfold pause_co. cbv zeta. set (l0 := set_gt _ l). apply (guards_after _ _ _ _ l0); [exact whatever_trans|exact I|]. apply cancel_each_quiet; [done|].
  intros l1. eapply guards_bind; [exact whatever_trans|apply pending_reset_quiet|by split].
Qed.

Lemma cancel_partial_emptied cancel_ok todo certain l :
  (certain = true → ∀ d, d ∈ (tags (tr l)).*1 → d ∈ todo.*1) →
  guards calm whatever emptied l (cancel_partial_co cancel_ok todo certain l).
Proof.
  intros Ht. induction todo as [|[d tag] todo IH] in certain, l, Ht |- *; simpl.
  { split; [done|]. intros Hc. apply (no_keys ([] : list (string * string))); [done|by apply Ht]. }
  case_bool_decide; [|by apply IH]. split; [done|]. intros l1 (_ & _ & Hk & _). destruct (cancel_ok d); [|by apply IH].
  eapply guards_after; [exact whatever_trans|done|apply IH]. intros Hc x Hx. cbn [tr set_tr on_tr tags set_tags] in Hx.
  apply od_del_keys in Hx as [Hx%Hk Hne]. apply (Ht Hc), elem_of_cons in Hx as [?|?]; done.
Qed.

Lemma fail_quiet a l : guards calm whatever (λ l (_ : ()), quiet (tr l)) l (fail_resubscription_co a l).
Proof.
  unfold fail_resubscription_co. cbv zeta. set (l0 := set_gate false true l).
  apply (guards_after _ _ _ _ l0); [exact whatever_trans|exact I|].
  eapply guards_bind; [exact whatever_trans|by apply cancel_partial_emptied|].
  intros l1 [] He; [split; [done|left; by apply He]|].
  eapply guards_bind; [exact whatever_trans|apply pending_reset_quiet|by split].
Qed.

Lemma safe_quiet l : quiet (tr l) → safe l.
Proof. by intros ? _. Qed.

Lemma durable_recovery_safe pool schema commits a l :
  safe l → paused (gt l) || negb (ready (gt l)) = true →
  guards calm whatever (λ l (_ : bool), safe l) l (durable_recovery_co pool schema commits a l).
Proof.
  intros Hs Hp. unfold durable_recovery_co. destruct (durable_active (gt l)) eqn:Ha; [|by split].
  destruct (shutdown_requested l); [by split|]. destruct pool; [|by split]. cbn [negb orb].
  assert (quiet (tr l)) as Hq by (apply Hs; unfold gate_closed; by rewrite Ha, Hp).
  apply (guards_bind _ _ (λ l (_ : bool), quiet (tr l))); [exact whatever_trans| |].
  { destruct (reset_pending (tr l)); [|by split].
    eapply guards_mono, (calm_keeps (λ l, quiet (tr l)) emptied); [done|done|by intros ? ? [_ ?]|exact quiet_calm|done|apply reset_calm]. }
  intros l1 [] Hq1; [|split; [done|by apply safe_quiet]]. split; [done|]. intros l2 Hl2%quiet_calm; [|done].
  destruct schema; [|split; [done|by apply safe_quiet]]. split; [done|]. intros l3 Hl3%quiet_calm; [|done].
  destruct commits; [|split; [done|by apply safe_quiet]].
  set (l4 := set_gate true false l3). apply (guards_after _ _ _ _ l4); [exact whatever_trans|exact I|].
  assert (gate_closed (gt l4) = false) as Hg by (unfold gate_closed; simpl; apply andb_false_r).
  eapply guards_bind; [exact whatever_trans| |].
  { apply (guards_keep (λ l, gate_closed (gt l) = false) calm counting); [by intros ? ? [-> _]|by intros ? ? [-> _]|exact Hg|].
    apply resubscribe_counts. }
  intros l5 [[]|e] [_ Hg5].
  - split; [done|]. intros Hc. exfalso. revert Hc. unfold gate_closed in *. simpl. by rewrite Hg5.
  - eapply guards_bind; [exact whatever_trans|apply fail_quiet|]. intros l6 b Hq6. split; [done|by apply safe_quiet].
Qed.

(** ** Operations side by side *)

Notation resumption := (role * (loader → coroutine ()))%type.

(** Those that wait may overlap, pairwise. *)
Fixpoint apart (together : role → role → bool) (waiting : pool) : Prop :=
  match waiting with
  | [] => True
  | x :: rest => Forall (λ y : resumption, together x.1 y.1 = true) rest ∧ apart together rest
  end.

Lemma guards_now {A} (R G : loader → loader → Prop) (Q : loader → A → Prop) l0 c : guards R G Q l0 c → G l0 (now c).
Proof. destruct c; by intros [? _]. Qed.

Section parallel.
Context (together : role → role → bool) (rel gua : role → loader → loader → Prop) (post : role → loader → Prop).
Hypothesis (together_sym : ∀ r s, together r s = true → together s r = true)
  (fits : ∀ r s l l', together r s = true → gua s l l' → rel r l l')
  (rel_trans : ∀ r l0 l1 l2, rel r l0 l1 → rel r l1 l2 → rel r l0 l2)
  (rel_idle : ∀ r l l', idle l l' → rel r l l')
  (gua_flagged : ∀ r l, r ≠ Pauser → gua r l (on_tr (set_cancellation_failed true) l)).

Lemma apart_perm w w' : w ≡ₚ w' → apart together w → apart together w'.
Proof.
  induction 1 as [|x w w' Hp IH|x y w|w1 w2 w3 _ IH1 _ IH2]; simpl; [done| | |auto].
  - intros [Hx Hw]. split; [by rewrite <-Hp|auto].
  - intros [[Hyx Hy]%Forall_cons [Hx Hw]]. split_and!; try done. apply Forall_cons. auto.
Qed.

Definition guarded (l : loader) (x : resumption) : Prop :=
  ∀ l', rel x.1 l l' → guards (rel x.1) (gua x.1) (λ l (_ : ()), post x.1 l) l' (x.2 l').

Lemma guarded_moves r w l l' :
  Forall (λ y : resumption, together r y.1 = true) w → gua r l l' → Forall (guarded l) w → Forall (guarded l') w.
Proof.
  intros Hr Hg Hw. rewrite Forall_forall in *. intros x Hx l2 Hl2. apply (Hw x Hx). eapply rel_trans; [|exact Hl2].
  eapply fits; [by apply together_sym, Hr|exact Hg].
Qed.

Lemma park_guarded r w l c :
  guards (rel r) (gua r) (λ l (_ : ()), post r l) l c → apart together w → Forall (λ y : resumption, together r y.1 = true) w →
  Forall (guarded l) w → apart together (park r c w) ∧ Forall (guarded (now c)) (park r c w).
Proof.
  intros Hc Ha Hr Hw. pose proof (guarded_moves r w l (now c) Hr (guards_now _ _ _ _ _ Hc) Hw) as Hw'.
  destruct c as [l1 a|l1 resume]; simpl in *; [done|]. split; [done|]. apply Forall_cons. split; [|done]. exact (proj2 Hc).
Qed.

(** An operation that waits goes on as it guarantees. *)
Lemma resume_guards r resume l w rest :
  w ≡ₚ (r, resume) :: rest → Forall (guarded l) w → guards (rel r) (gua r) (λ l (_ : ()), post r l) l (resume l).
Proof. intros Hp Hw. rewrite Hp in Hw. apply Forall_cons in Hw as [Hr _]. apply (Hr l), rel_idle. by split. Qed.

(** Every step keeps the operations that wait apart and guarded. *)
Lemma step_guarded l w l' w' :
  (∀ o, enabled o l = true → Forall (λ y : resumption, together (role_of o) y.1 = true) w →
    guards (rel (role_of o)) (gua (role_of o)) (λ l (_ : ()), post (role_of o) l) l (code o l)) →
  step together (l, w) (l', w') → apart together w → Forall (guarded l) w → apart together w' ∧ Forall (guarded l') w'.
Proof.
  intros Hcode Hstep Ha Hw.
  inversion Hstep as [o l0 w0 He Ho|r resume l0 w0 rest Hp|r resume l0 w0 rest flagged Hr Hp|l0 l1 w0 Ht Hg]; subst.
  - apply (park_guarded _ _ l); try done. by apply Hcode.
  - pose proof (resume_guards _ _ _ _ _ Hp Hw) as Hc. apply (apart_perm _ _ Hp) in Ha as [Hr Ha].
    rewrite Hp in Hw. apply Forall_cons in Hw as [_ Hw]. by apply (park_guarded _ _ l).
  - apply (apart_perm _ _ Hp) in Ha as [Hrs Ha]. rewrite Hp in Hw. apply Forall_cons in Hw as [_ Hw]. split; [done|].
    destruct flagged; [|done]. eapply guarded_moves; [exact Hrs|by apply gua_flagged|done].
  - split; [done|]. eapply Forall_impl; [exact Hw|]. intros x Hx l2 Hl2. apply Hx. eapply rel_trans; [|exact Hl2].
    apply rel_idle. by split.
Qed.
End parallel.

(** ** The gate *)

Definition gate_rely (r : role) : loader → loader → Prop := match r with Remover => whatever | _ => calm end.
Definition gate_guarantee (r : role) : loader → loader → Prop :=
  match r with Remover => calm | Starter | Replacer => keeps_gate | Pauser => whatever end.
Definition gate_post (r : role) (l : loader) : Prop := match r with Pauser => safe l | _ => True end.

Lemma gate_code o l :
  enabled o l = true → (role_of o = Pauser → safe l) →
  guards (gate_rely (role_of o)) (gate_guarantee (role_of o)) (λ l (_ : ()), gate_post (role_of o) l) l (code o l).
Proof.
  assert (∀ c, guards calm counting anything l c → guards calm keeps_gate (λ l (_ : ()), True) l c) as Hstart.
  { intros c. apply guards_mono; [done|by intros ? ? [? _]|done]. }
  destruct o as [ok a d captured|ok|a|a|start|a|depth start a|ok a d|ok a d v|pl schema commits a]; simpl; intros He Hs.
  - apply timer_calm.
  - apply shutdown_calm.
  - by apply (ignore_guards _ _ emptied); [exact calm_trans|apply calm_refl|apply reset_calm].
  - by apply (ignore_guards _ _ emptied); [exact calm_trans|apply calm_refl|apply close_calm].
  - apply Hstart, (ignore_guards _ _ anything); [exact counting_trans|done|].
    apply startup_counts. apply andb_true_iff in He as [Ht%bool_decide_eq_true _]. done.
  - apply Hstart, recover_counts.
  - apply Hstart, parked_counts.
  - apply (ignore_guards _ _ anything); [exact keeps_gate_trans|done|]. eapply guards_mono, recover_type_gate; done.
  - eapply guards_bind; [exact whatever_trans|apply pause_quiet_co|]. intros l' b Hq. split; [done|by apply safe_quiet].
  - eapply guards_bind; [exact whatever_trans|apply durable_recovery_safe; [by apply Hs|done]|]. by intros l' b Hq.
Qed.

(** What starts consumers does nothing behind the closed gate. *)
Lemma closed_gate_returns o l :
  enabled o l = true → role_of o = Starter ∨ role_of o = Replacer → gate_closed (gt l) = true → code o l = Returned l ().
Proof.
  unfold gate_closed. intros He Hr Hg. apply andb_true_iff in Hg as [Ha Hg].
  destruct o as [ok a d captured|ok|a|a|start|a|depth start a|ok a d|ok a d v|pl schema commits a];
    try (exfalso; destruct Hr; discriminate).
  - simpl in *. apply andb_true_iff in He as [_ He%negb_true_iff]. rewrite He in Hg. unfold startup_co.
    rewrite Ha. destruct (ready (gt l)); done.
  - simpl. unfold recover_co, gate_closed. by rewrite Ha, Hg.
  - simpl. unfold parked_co, gate_closed. rewrite Ha, Hg. cbv zeta. by destruct (bool_decide _ || _).
  - simpl. unfold recover_type_co, gate_closed. by rewrite Ha, Hg.
Qed.

(** The state between two steps: no pause, and the gate holds; or what starts consumers runs
    behind the open gate. *)
Definition gate_state (l : loader) (w : pool) : Prop :=
  apart starts_apart w ∧ Forall (guarded gate_rely gate_guarantee gate_post l) w ∧
  (Forall (λ x : resumption, x.1 ≠ Pauser) w → safe l) ∧
  (Exists (λ x : resumption, x.1 = Starter ∨ x.1 = Replacer) w → gate_closed (gt l) = false).

Lemma safe_calm l l' : calm l l' → safe l → safe l'.
Proof. intros Hc Hs Hg. apply (quiet_calm l l' Hc), Hs. by destruct Hc as [<- _]. Qed.

Lemma gate_fits r s l l' : starts_apart r s = true → gate_guarantee s l l' → gate_rely r l l'.
Proof. unfold starts_apart. destruct r; simpl; try done; case_bool_decide; by subst. Qed.
Lemma gate_rely_trans r l0 l1 l2 : gate_rely r l0 l1 → gate_rely r l1 l2 → gate_rely r l0 l2.
Proof. destruct r; [done|exact (calm_trans l0 l1 l2)..]. Qed.
Lemma gate_rely_idle r l l' : idle l l' → gate_rely r l l'.
Proof. destruct r; [done|apply idle_calm..]. Qed.
Lemma gate_flagged r l : r ≠ Pauser → gate_guarantee r l (on_tr (set_cancellation_failed true) l).
Proof. destruct r; intros Hr; try done. by apply calm_same. Qed.
Lemma starts_apart_sym r s : starts_apart r s = true → starts_apart s r = true.
Proof. unfold starts_apart. by rewrite orb_comm. Qed.

(** Beside what is not a remover only removers wait. *)
Lemma beside_removers r w :
  r ≠ Remover → Forall (λ y : resumption, starts_apart r y.1 = true) w → Forall (λ x : resumption, x.1 = Remover) w.
Proof.
  intros Hr Hw. eapply Forall_impl; [exact Hw|]. intros [s k]. unfold starts_apart. simpl. rewrite bool_decide_eq_false_2 by done.
  by intros Hs%bool_decide_eq_true.
Qed.

Lemma gate_moves r c l w :
  guards (gate_rely r) (gate_guarantee r) (λ l (_ : ()), gate_post r l) l c →
  Forall (λ y : resumption, starts_apart r y.1 = true) w →
  (r = Remover → Forall (λ x : resumption, x.1 ≠ Pauser) w → safe l) →
  (r = Remover → Exists (λ x : resumption, x.1 = Starter ∨ x.1 = Replacer) w → gate_closed (gt l) = false) →
  (r = Starter ∨ r = Replacer → gate_closed (gt l) = false ∨ c = Returned l () ∧ safe l) →
  (Forall (λ x : resumption, x.1 ≠ Pauser) (park r c w) → safe (now c)) ∧
  (Exists (λ x : resumption, x.1 = Starter ∨ x.1 = Replacer) (park r c w) → gate_closed (gt (now c)) = false).
Proof.
  intros Hc Hr Hsafe Hopen Hstart. pose proof (guards_now _ _ _ _ _ Hc) as Hg.
  assert (r ≠ Remover → Exists (λ x : resumption, x.1 = Starter ∨ x.1 = Replacer) w → False) as Hnone.
  { intros Hne [x [Hx Hs]]%Exists_exists. pose proof (beside_removers r w Hne Hr) as Hall. rewrite Forall_forall in Hall.
    specialize (Hall x Hx). destruct Hs; congruence. }
  destruct (decide (r = Remover)) as [->|Hne].
  { assert (calm l (now c)) as Hcalm by exact Hg. split.
    - intros Hf. apply (safe_calm l); [done|]. apply Hsafe; [done|]. destruct c; [exact Hf|by apply Forall_cons in Hf as [_ Hf]].
    - intros He. destruct Hcalm as [-> _]. apply Hopen; [done|]. destruct c; [exact He|]. apply Exists_cons in He as [[?|?]|He]; done. }
  destruct (decide (r = Pauser)) as [->|Hnp].
  { split.
    - destruct c as [l' a|l' k]; [intros _; exact (proj2 Hc)|]. by intros [? _]%Forall_cons.
    - intros He. exfalso. apply Hnone; [done|]. destruct c; [exact He|]. apply Exists_cons in He as [[?|?]|He]; done. }
  assert (r = Starter ∨ r = Replacer) as Hs by (destruct r; auto; done).
  assert (keeps_gate l (now c)) as Hk by (destruct Hs; by subst).
  destruct (Hstart Hs) as [Ho|[-> Hsf]].
  - assert (gate_closed (gt (now c)) = false) as Ho' by (by rewrite Hk). split; [|done]. intros _ Hcl. congruence.
  - split; [done|]. intros He. exfalso. by apply Hnone.
Qed.

Lemma gate_step l w l' w' : step starts_apart (l, w) (l', w') → gate_state l w → gate_state l' w'.
Proof.
  intros Hstep (Ha & Hw & Hsafe & Hopen).
  assert (∀ o, enabled o l = true → Forall (λ y : resumption, starts_apart (role_of o) y.1 = true) w → role_of o = Pauser → safe l)
    as Hpause.
  { intros o _ Ho Hr. apply Hsafe. rewrite Hr in Ho. apply beside_removers in Ho; [|done].
    eapply Forall_impl; [exact Ho|]. by intros x ->. }
  assert (apart starts_apart w' ∧ Forall (guarded gate_rely gate_guarantee gate_post l') w') as [Ha' Hw'].
  { eapply (step_guarded starts_apart gate_rely gate_guarantee gate_post starts_apart_sym gate_fits gate_rely_trans gate_rely_idle
      gate_flagged); [|exact Hstep|done|done]. intros o He Ho. apply gate_code; [done|]. intros Hr. by eapply Hpause. }
  split; [done|]. split; [done|]. clear Ha' Hw'.
  inversion Hstep as [o l0 w0 He Ho|r resume l0 w0 rest Hp|r resume l0 w0 rest flagged Hr Hp|l0 l1 w0 Ht Hg]; subst.
  - apply (gate_moves _ _ l); [|done|by intros _|by intros _|].
    + apply gate_code; [done|]. intros Hr. by eapply Hpause.
    + intros Hs. destruct (gate_closed (gt l)) eqn:Hg; [right|by left]. split; [by apply closed_gate_returns|]. apply Hsafe.
      apply beside_removers in Ho; [|destruct Hs; congruence]. eapply Forall_impl; [exact Ho|]. by intros x ->.
  - pose proof (resume_guards gate_rely gate_guarantee gate_post gate_rely_idle _ _ _ _ _ Hp Hw) as Hc.
    apply (apart_perm _ starts_apart_sym _ _ Hp) in Ha as [Hr Ha]. apply (gate_moves _ _ l); [done|done| | |].
    + intros -> Hf. apply Hsafe. rewrite Hp. by apply Forall_cons.
    + intros -> He. apply Hopen. rewrite Hp. by apply Exists_cons_tl.
    + intros Hs. left. apply Hopen. rewrite Hp. by apply Exists_cons_hd.
  - assert (∀ l', calm l l' → (Forall (λ x : resumption, x.1 ≠ Pauser) w' → safe l') ∧
      (Exists (λ x : resumption, x.1 = Starter ∨ x.1 = Replacer) w' → gate_closed (gt l') = false)) as Hcalm.
    { intros l1 Hc. split.
      - intros Hf. apply (safe_calm l); [done|]. apply Hsafe. rewrite Hp. by apply Forall_cons.
      - intros He. destruct Hc as [-> _]. apply Hopen. rewrite Hp. by apply Exists_cons_tl. }
    apply Hcalm. destruct flagged; [by apply calm_same|done].
  - unfold safe in *. rewrite Ht, Hg. done.
Qed.


(** ** The gauge *)

Definition gauge_rely (r : role) : loader → loader → Prop :=
  match r with Remover => whatever | Starter => calm | Replacer | Pauser => idle end.
Definition gauge_guarantee (r : role) : loader → loader → Prop :=
  match r with Remover => calm | Starter | Replacer => counting | Pauser => counts end.
Definition no_post (_ : role) (_ : loader) : Prop := True.

Lemma gauge_code o l :
  enabled o l = true → counted (tr l) →
  guards (gauge_rely (role_of o)) (gauge_guarantee (role_of o)) (λ l (_ : ()), no_post (role_of o) l) l (code o l).
Proof.
  destruct o as [ok a d captured|ok|a|a|start|a|depth start a|ok a d|ok a d v|pl schema commits a]; simpl; intros He Hc.
  - apply timer_calm.
  - apply shutdown_calm.
  - by apply (ignore_guards _ _ emptied); [exact calm_trans|apply calm_refl|apply reset_calm].
  - by apply (ignore_guards _ _ emptied); [exact calm_trans|apply calm_refl|apply close_calm].
  - apply (ignore_guards _ _ anything); [exact counting_trans|done|].
    apply startup_counts. apply andb_true_iff in He as [Ht%bool_decide_eq_true _]. done.
  - apply recover_counts.
  - apply parked_counts.
  - apply (ignore_guards _ _ anything); [exact counting_trans|done|apply recover_type_counts].
  - apply (ignore_guards _ _ anything); [exact counts_trans|done|by apply pause_counts].
  - apply (ignore_guards _ _ anything); [exact counts_trans|done|by apply durable_recovery_counts].
Qed.

Lemma gauge_fits r s l l' : pops_apart r s = true → gauge_guarantee s l l' → gauge_rely r l l'.
Proof. by destruct r, s. Qed.
Lemma gauge_rely_trans r l0 l1 l2 : gauge_rely r l0 l1 → gauge_rely r l1 l2 → gauge_rely r l0 l2.
Proof. destruct r; [done|exact (calm_trans l0 l1 l2)|intros [? ?] [? ?]; split; congruence..]. Qed.
Lemma gauge_rely_idle r l l' : idle l l' → gauge_rely r l l'.
Proof. destruct r; simpl; [done|apply idle_calm|done|done]. Qed.
Lemma gauge_flagged r l : r ≠ Pauser → gauge_guarantee r l (on_tr (set_cancellation_failed true) l).
Proof. intros Hr. destruct r; [by apply calm_same|by apply counting_same..|done]. Qed.
Lemma pops_apart_sym r s : pops_apart r s = true → pops_apart s r = true.
Proof. by destruct r, s. Qed.

Lemma gauge_counts r l l' : gauge_guarantee r l l' → counts l l'.
Proof. destruct r; simpl; [intros H; by apply counting_counts, calm_counting|apply counting_counts|apply counting_counts|done]. Qed.

Definition gauge_state (l : loader) (w : pool) : Prop :=
  counted (tr l) ∧ apart pops_apart w ∧ Forall (guarded gauge_rely gauge_guarantee no_post l) w.

Lemma gauge_step l w l' w' : step pops_apart (l, w) (l', w') → gauge_state l w → gauge_state l' w'.
Proof.
  intros Hstep (Hc & Ha & Hw). split.
  - inversion Hstep as [o l0 w0 He Ho|r resume l0 w0 rest Hp|r resume l0 w0 rest flagged Hr Hp|l0 l1 w0 Ht Hg]; subst.
    + apply (gauge_counts (role_of o) l); [|done]. eapply guards_now, gauge_code; done.
    + apply (gauge_counts r l); [|done]. eapply guards_now.
      exact (resume_guards gauge_rely gauge_guarantee no_post gauge_rely_idle _ _ _ _ _ Hp Hw).
    + by destruct flagged.
    + by rewrite Ht.
  - eapply (step_guarded pops_apart gauge_rely gauge_guarantee no_post pops_apart_sym gauge_fits gauge_rely_trans gauge_rely_idle
      gauge_flagged); [|exact Hstep|done|done]. intros o He _. by apply gauge_code.
Qed.

(** C15 The gauge of active consumers tells the truth at every moment, between the awaits of an
    operation as well.  From a loader without consumers and a gauge at zero, let the operations
    begin at any time, go on in any order and be cancelled, with any number that remove
    consumers beside each other and beside one that starts them, but a pause, a recovery of
    the durable path or of one type beside nothing: then the sum of what the gauge was moved
    by is the number of consumers held, one for each type. *)
Theorem gauge_counts_consumers l0 l waiting :
  tags (tr l0) = [] → active (tr l0) = 0 → rtc (step pops_apart) (l0, []) (l, waiting) →
  active (tr l) = Z.of_nat (length (tags (tr l))) ∧ NoDup (tags (tr l)).*1.
Proof.
  intros Ht Ha Hrun.
  assert (∀ x y, rtc (step pops_apart) x y → gauge_state x.1 x.2 → gauge_state y.1 y.2) as Hall.
  { induction 1 as [x|[lx wx] [ly wy] z Hxy _ IH]; [done|]. intros Hx. by apply IH, (gauge_step lx wx). }
  destruct (Hall _ _ Hrun) as ([Hnd Hn] & _); [|done].
  split_and!; [|done|by apply Forall_nil]. unfold counted. cbn [fst]. rewrite Ht, Ha. by split; [constructor|].
Qed.

(** ** Runs *)

(** A schedule: an operation begins, or one of those that wait goes on. *)
Inductive move := Begin (o : operation) | GoOn (i : nat).

Definition run_move (together : role → role → bool) (x : loader * pool) (m : move) : option (loader * pool) :=
  let '(l, waiting) := x in
  match m with
  | Begin o =>
      if enabled o l && forallb (λ y : resumption, together (role_of o) y.1) waiting
      then Some (now (code o l), park (role_of o) (code o l) waiting) else None
  | GoOn i =>
      match waiting !! i with
      | Some (r, resume) => Some (now (resume l), park r (resume l) (delete i waiting))
      | None => None
      end
  end.

Fixpoint run_moves (together : role → role → bool) (ms : list move) (x : loader * pool) : option (loader * pool) :=
  match ms with
  | [] => Some x
  | m :: ms => match run_move together x m with Some x => run_moves together ms x | None => None end
  end.

Lemma run_moves_steps together ms x y : run_moves together ms x = Some y → rtc (step together) x y.
Proof.
  induction ms as [|m ms IH] in x |- *; simpl; [by intros [= ->]|].
  destruct (run_move together x m) as [x1|] eqn:Hm; [|done]. intros Hrun. eapply rtc_l; [|by apply IH].
  destruct x as [l w]. destruct m as [o|i]; simpl in Hm.
  - destruct (_ && _) eqn:He; [|done]. injection Hm as <-. apply andb_true_iff in He as [He Hf].
    apply step_begin; [done|]. rewrite Forall_forall. intros z Hz. rewrite forallb_forall in Hf. apply Hf. by apply list_elem_of_In.
  - destruct (w !! i) as [[r k]|] eqn:Hi; [|done]. injection Hm as <-. apply step_resume. by apply delete_Permutation.
Qed.

(** A schedule that ends with nothing waiting, and what then holds. *)
Lemma run_moves_end together ms l0 (P : loader → bool) :
  match run_moves together ms (l0, []) with Some (l, []) => P l | _ => false end = true →
  ∃ l, rtc (step together) (l0, []) (l, []) ∧ P l = true.
Proof.
  destruct (run_moves together ms (l0, [])) as [[l [|? ?]]|] eqn:E; try done. intros HP. exists l. split; [|done].
  by eapply run_moves_steps.
Qed.

(** A startup, and then a scheduled cancellation whose answer comes in the middle of a pause. *)
Definition pause_beside_timer : list move :=
  [Begin (Startup (λ _, all_start))] ++ replicate 12 (GoOn 0) ++
  [Begin (Timer true all_close "artists" (Some "tag")); Begin (Pause (λ _, true) all_close "artists" "20240101");
   GoOn 1; GoOn 0; GoOn 0; GoOn 0; GoOn 0].


(** A startup, and a reset that closes the connection while a scheduled cancellation waits. *)
Definition reset_beside_timer : list move :=
  [Begin (Startup (λ _, all_start))] ++ replicate 6 (GoOn 0) ++
  [Begin (Timer true all_close "artists" (Some "tag")); Begin (ResetBroker all_close); GoOn 1].

Lemma gauge_counts_consumers_witness :
  ∃ l waiting, rtc (step pops_apart) (mid_recovery, []) (l, waiting) ∧ length (tags (tr l)) = 1%nat ∧ active (tr l) = 1.
Proof.
  destruct (run_moves pops_apart reset_beside_timer (mid_recovery, [])) as [[l w]|] eqn:E; [|vm_compute in E; discriminate].
  assert (length (tags (tr l)) = 1%nat) as Hl.
  { transitivity (match run_moves pops_apart reset_beside_timer (mid_recovery, []) with Some (l, _) => length (tags (tr l)) | None => 0%nat end);
      [by rewrite E|vm_compute; reflexivity]. }
  apply run_moves_steps in E. exists l, w. split; [exact E|]. split; [exact Hl|].
  destruct (gauge_counts_consumers mid_recovery l w eq_refl eq_refl E) as [Ha _]. rewrite Ha, Hl. reflexivity.
Defined.

(** ** Races *)

(** An idle loader, its transport closed and its gate open. *)
Definition idle_loader : loader := set_tr (cleared (tr mid_recovery)) mid_recovery.

(** The code lets a pause overlap [_recover_consumers], whose restart loop does not read the gate
    again between two types.  When the first consumer it restarts delivers a terminal whose commit
    fails, the pause cancels every consumer, confirms it and closes the gate; the loop then starts
    the other types behind the closed gate, on a transport that nothing marks to be closed. *)
Theorem recovery_races_pause :
  ∃ l, rtc (step locked) (idle_loader, []) (l, []) ∧ gate_closed (gt l) = true ∧
    tags (tr l) = [("labels", "tag"); ("masters", "tag"); ("releases", "tag")] ∧ reset_pending (tr l) = false.
Proof.
  destruct (run_moves_end locked
    ([Begin (RecoverAll all_recover)] ++ replicate 11 (GoOn 0) ++
     [Begin (Pause (λ _, true) all_close "artists" "20240101"); GoOn 0] ++ replicate 9 (GoOn 0)) idle_loader
    (λ l, gate_closed (gt l) && bool_decide (tags (tr l) = [("labels", "tag"); ("masters", "tag"); ("releases", "tag")])
      && negb (reset_pending (tr l)))) as (l & Hrun & HP); [vm_compute; reflexivity|].
  exists l. apply andb_true_iff in HP as [[Hg Ht%bool_decide_eq_true]%andb_true_iff Hr%negb_true_iff]. done.
Qed.

(** The code lets a pause overlap a scheduled cancellation of the same consumer.  Both wait for the
    broker; the cancellation untags the type and moves the gauge down, and the pause pops the type
    that is gone and moves it down again: one consumer started and stopped leaves minus one. *)
Theorem pause_races_timer :
  active (tr started) = 1 ∧ length (tags (tr started)) = 1%nat ∧
  ∃ l, rtc (step locked) (started, []) (l, []) ∧ tags (tr l) = [] ∧ active (tr l) = -1.
Proof.
  split; [reflexivity|]. split; [reflexivity|].
  destruct (run_moves_end locked
    [Begin (Timer true all_close "artists" (Some "tag")); Begin (Pause (λ _, true) all_close "artists" "20240101");
     GoOn 1; GoOn 0] started (λ l, bool_decide (tags (tr l) = []) && (active (tr l) =? -1))) as (l & Hrun & HP);
    [vm_compute; reflexivity|].
  exists l. apply andb_true_iff in HP as [Ht%bool_decide_eq_true Ha%Z.eqb_eq]. done.
Qed.
