(* ===== verification/Handler.v ===== *)
(** * Deliveries: the message handler of [tableinator.py]

    [_process_data_message] and what it calls, as one computation over the loader's state and
    an environment [E] (the broker's message, the batch processor, the database), which logs
    what it asks of the environment in order.  The environment's operations are the class
    [Backend]; they are the definitions of the other files, or the shared runtime's.  The
    handler's long branches are definitions of their own ([purge_stage], [refresh_stage],
    [finish_stage]), composed as the source runs them.  Proofs work on runs through [emits]: a
    computation extends the log by a segment with a given property.  Spans, metrics,
    [last_message_time], the outage backoff and the lock around the inline refresh, which
    only orders deliveries, are not modelled. *)

From S2P Require Import Prelude Json Contract Latch Durable Batch Consumers.
From Stdlib Require Import SpecFloat.

(** ** Sizing *)

Definition _DURABLE_REFRESH_RESERVED_CONNECTIONS : Z := 3.
Definition _DEFAULT_POOL_MAX : Z := 12.
Definition PURGE_VETO_ALERT_RUNS : Z := 2.

(** The arguments are any Python values. *)
Definition writer_admission_capacity (pool_capacity durable_refresh : json) : result Z :=
  match pool_capacity with
  | JInt n =>
      if n <=? 0 then Raise ValueError
      else match durable_refresh with
           | JBool durable =>
               let reserved := if durable then _DURABLE_REFRESH_RESERVED_CONNECTIONS else 0 in
               let available := n - reserved in
               if available <=? 0 then Raise ValueError else Ok available
           | _ => Raise ValueError
           end
  | _ => Raise ValueError
  end.

Definition channel_prefetch (BATCH_MODE : bool) (BATCH_SIZE : Z) (pool_max : option Z) : Z :=
  if BATCH_MODE then Z.max 200 (BATCH_SIZE * 2) else default _DEFAULT_POOL_MAX pool_max.

Section sizing.
Context (WRITE_CANCEL_GRACE_S : spec_float).

Definition batch_config (BATCH_MODE : bool) (BATCH_SIZE : Z) (pool_max : option Z)
    (BATCH_FLUSH_INTERVAL BATCH_MAX_HOLD_S BATCH_MAX_WRITE_S : spec_float) (BATCH_MAX_REQUEUES : Z)
    : result BatchConfig :=
  let c := {| batch_size := BATCH_SIZE; flush_interval := BATCH_FLUSH_INTERVAL;
              max_pending := channel_prefetch BATCH_MODE BATCH_SIZE pool_max * Z.of_nat (length DATA_TYPES);
              max_concurrent_flushes := 2; min_batch_size := 10; backoff_initial := b64 1; backoff_max := b64 30;
              backoff_multiplier := b64 2; max_flush_retries := 5%nat; max_poison_retries := 5;
              max_hold_s := Some BATCH_MAX_HOLD_S; max_requeues := Some BATCH_MAX_REQUEUES;
              max_write_s := Some BATCH_MAX_WRITE_S |} in
  let! _ := post_init WRITE_CANCEL_GRACE_S c in Ok c.
End sizing.

(** ** The environment *)

Class Backend (E : Type) := {
  msg_ack : E → E * result ();
  msg_nack : bool → E → E * result ();
  bp_flush_queue : string → E → E * result bool;
  bp_add_message : string → dict → E → E * result bool;
  bp_had_dlq_nacks : string → E → bool;
  bp_reset_dlq_nacks : string → E → E;
  (** the message count of a passive declaration, by queue name *)
  passive_count : string → E → E * result Z;
  db_purge_was_vetoed : string → string → E → E * result bool;
  db_record_purge_veto : string → string → E → E * result ();
  db_consecutive_purge_vetoes : string → E → E * result Z;
  (** started_at and record_count *)
  db_purge_stale_rows : string → json → json → E → E * result ();
  db_record_durable_signal : json → string → E → E * result DurableSignal;
  db_record_extraction_signal : string → string → E → E * result ExtractionLatch;
  db_refresh_derived_relations : string → E → E * result ();
  db_persist_record : string → json → dict → E → E * result string;
  (** the answers a pause gets from the broker *)
  pause_cancel : E → string → bool;
  pause_closing : E → closing;
  run_delivery : (E → E * result DeliveryResult) → E → E * result DeliveryResult;
}.

(** The module's settings and which of its objects exist. *)
Record settings := {
  batch_mode : bool;
  has_batch_processor : bool;
  has_pool : bool;
  has_latch : bool;
  has_admission : bool;
  cancel_delay : Z;
}.

(** What the handler asks of the environment, with the outcome. *)
Inductive effect :=
  | Flushed (done : bool)
  | VetoStored (ok : bool)
  | Purged (ok : bool)
  | DurableCommitted (ok : bool)
  | SignalRecorded (ok : bool)
  | DerivedRefreshed (ok : bool)
  | DeliveryPaused (ok : bool)
  | Acked (ok : bool)
  | Nacked (requeue ok : bool)
  | DlqReset
  | VetoAlert (consecutive : Z)
  | Batched (accepted : bool)
  | Delivered (s : Settlement).

Section handler.
Context `{Backend E} (prefix : string) (py_repr : json → string) (normalize_record : string → dict → result dict) (cfg : settings).

Record world := {
  ld : loader;
  env : E;
  log : list effect;
  last_refused : option string;
  message_counts : gmap string Z;
}.

Definition set_ld (l : loader) (w : world) : world :=
  {| ld := l; env := env w; log := log w; last_refused := last_refused w; message_counts := message_counts w |}.
Definition set_env (e : E) (w : world) : world :=
  {| ld := ld w; env := e; log := log w; last_refused := last_refused w; message_counts := message_counts w |}.
Definition add_log (x : effect) (w : world) : world :=
  {| ld := ld w; env := env w; log := log w ++ [x]; last_refused := last_refused w; message_counts := message_counts w |}.
Definition set_refused (r : string) (w : world) : world :=
  {| ld := ld w; env := env w; log := log w; last_refused := Some r; message_counts := message_counts w |}.
Definition count_message (d : string) (w : world) : world :=
  {| ld := ld w; env := env w; log := log w; last_refused := last_refused w;
     message_counts := alter (λ n, n + 1) d (message_counts w) |}.

Definition M A : Type := world → world * result A.
Definition ret {A} (a : A) : M A := λ w, (w, Ok a).
Definition raise {A} (e : exn) : M A := λ w, (w, Raise e).
Definition mbnd {A B} (c : M A) (k : A → M B) : M B :=
  λ w, match c w with (w', Ok a) => k a w' | (w', Raise e) => (w', Raise e) end.
Notation "'let*' x ':=' c 'in' k" := (mbnd c (λ x, k)) (at level 10, x name, c at level 100, k at level 200).

Definition gets {A} (f : world → A) : M A := λ w, (w, Ok (f w)).
Definition modify (f : world → world) : M () := λ w, (f w, Ok ()).
Definition lift {A} (r : result A) : M A := λ w, (w, r).

(** An operation of the environment, unlogged or logged with its outcome. *)
Definition query {A} (op : E → E * result A) : M A :=
  λ w, let '(e, r) := op (env w) in (set_env e w, r).
Definition call {A} (label : result A → effect) (op : E → E * result A) : M A :=
  λ w, let '(e, r) := op (env w) in (add_log (label r) (set_env e w), r).
Definition logged (x : effect) : M () := modify (add_log x).

(** [try: c except Exception as e: handler e] *)
Definition try_except {A} (c : M A) (handler : exn → M A) : M A :=
  λ w, match c w with
       | (w', Ok a) => (w', Ok a)
       | (w', Raise e) => if is_exception e then handler e w' else (w', Raise e)
       end.

Definition ack : M () := call (λ r, Acked (is_ok r)) msg_ack.
Definition nack (requeue : bool) : M () := call (λ r, Nacked requeue (is_ok r)) (msg_nack requeue).

(** [write_admission] is set, or the call raises. *)
Definition with_admission {A} (c : M A) : M A := if has_admission cfg then c else raise DatabaseUnavailableError.

Definition flush_queue (data_type : string) : M bool :=
  if has_batch_processor cfg
  then call (λ r, Flushed (bool_decide (r = Ok true))) (bp_flush_queue data_type)
  else ret true.

Definition schedule_cancellation (data_type : string) : M () :=
  modify (λ w, if (0 <? cancel_delay cfg) && bool_decide (data_type ∈ queues (tr (ld w)))
               then set_ld (schedule_consumer_cancellation data_type (ld w)) w else w).

(** ** The purge veto *)

Definition dead_letters_waiting (data_type : string) : M (option Z) :=
  let* connected := gets (λ w, connection (tr (ld w))) in
  if connected then
    try_except
      (let* name := lift (dead_letter_queue_name prefix AMQP_CONSUMER_NAME data_type) in
       let* n := query (passive_count name) in ret (Some n))
      (λ _, ret None)
  else ret None.

Definition purge_veto_reason (data_type : string) (data : dict) : M (option string) :=
  let* nacked := gets (λ w, has_batch_processor cfg && bp_had_dlq_nacks data_type (env w)) in
  if nacked then ret (Some "records were dead-lettered this run")
  else
    let* waiting := dead_letters_waiting data_type in
    match waiting with
    | None => ret (Some "the dead-letter queue could not be read")
    | Some n =>
        if 0 <? n then ret (Some (py_str_int n +:+ " dead letters are waiting"))
        else
          match extraction_latch_key py_repr data with
          | Some version =>
              if has_pool cfg && has_latch cfg then
                try_except
                  (let* vetoed := query (db_purge_was_vetoed version data_type) in
                   ret (if vetoed then Some "an earlier delivery of this signal was vetoed" else None))
                  (λ _, ret (Some "the recorded veto could not be read"))
              else ret None
          | None => ret None
          end
    end.

Definition persist_purge_veto (data_type : string) (data : dict) : M bool :=
  match extraction_latch_key py_repr data with
  | Some version =>
      if has_pool cfg && has_latch cfg then
        try_except
          (with_admission (let* _ := call (λ r, VetoStored (is_ok r)) (db_record_purge_veto version data_type) in ret true))
          (λ _, ret false)
      else ret true
  | None => ret true
  end.

Definition report_purge_vetoes (data_type : string) : M () :=
  if has_pool cfg && has_latch cfg && has_admission cfg then
    try_except
      (let* consecutive := query (db_consecutive_purge_vetoes data_type) in
       if PURGE_VETO_ALERT_RUNS <=? consecutive then logged (VetoAlert consecutive) else ret ())
      (λ _, ret ())
  else ret ().

(** [purge_stale_rows] of this module. *)
Definition purge_rows (data_type : string) (started_at record_count : json) : M () :=
  if has_pool cfg then
    with_admission (call (λ r, Purged (is_ok r)) (db_purge_stale_rows data_type started_at record_count))
  else ret ().

(** ** The stages of [extraction_complete] *)

(** The purge or its veto: whether the delivery may go on, and whether it was vetoed. *)
Definition purge_stage (data_type : string) (data : dict) : M (bool * bool) :=
  let* reason := purge_veto_reason data_type data in
  match reason with
  | Some _ => let* ok := persist_purge_veto data_type data in ret (ok, true)
  | None =>
      if has_pool cfg then
        let* ok := try_except
          (let* record_count := match jget_default "record_counts" (JObj []) data with
                                | JObj counts => ret (jget data_type counts)
                                | _ => raise AttributeError
                                end in
           let* _ := purge_rows data_type (jget_default "started_at" (JStr "") data) record_count in
           ret true)
          (λ _, ret false) in
        ret (ok, false)
      else ret (true, false)
  end.

(** The signal and the refresh: whether they are done, and whether the durable hand-over
    failed. *)
Definition refresh_stage (data_type : string) (data : dict) (purge_ok : bool) : M (bool * bool) :=
  let* g := gets (λ w, gt (ld w)) in
  if purge_ok && durable_active g then
    if negb (has_pool cfg) || negb (ready g) then ret (false, true)
    else try_except
      (with_admission
        (let* _ := call (λ r, DurableCommitted (is_ok r)) (db_record_durable_signal (jget "version" data) data_type) in
         ret (true, false)))
      (λ _, ret (false, true))
  else if purge_ok && has_pool cfg && negb (has_latch cfg) then ret (true, false)
  else if purge_ok && has_pool cfg && has_latch cfg then
    match extraction_latch_key py_repr data with
    | None =>
        let* _ := modify (set_refused "extraction_complete named no extraction (no version, no started_at)") in
        ret (true, false)
    | Some version =>
        try_except
          (with_admission
            (let* latch := call (λ r, SignalRecorded (is_ok r)) (db_record_extraction_signal version data_type) in
             let* _ := if should_refresh latch DATA_TYPES
                       then call (λ r, DerivedRefreshed (is_ok r)) (db_refresh_derived_relations version)
                       else ret () in
             ret (true, false)))
          (λ _, ret (false, false))
    end
  else ret (true, false).

Definition mark_complete (data_type : string) (w : world) : world :=
  set_ld (set_signalled (extraction_signalled (ld w) ∪ {[data_type]})
           (set_completed (completed_files (ld w) ∪ {[data_type]}) (ld w))) w.

(** [await pause_durable_consumers(data_type, version)] *)
Definition pause_delivery (data_type version : string) : M bool := λ w,
  let '(l, ok) := pause_durable_consumers (pause_cancel (env w)) (pause_closing (env w)) data_type version (ld w) in
  (add_log (DeliveryPaused ok) (set_ld l w), Ok ok).

(** The last stage: acknowledged, handed back, or left to the broker. *)
Definition finish_stage (data_type : string) (data : dict) (purge_ok vetoed refresh_ok handoff_failed : bool) : M () :=
  if purge_ok && refresh_ok then
    let* _ := modify (mark_complete data_type) in
    let* _ := schedule_cancellation data_type in
    let* _ := ack in
    let* _ := if vetoed && has_batch_processor cfg
              then modify (λ w, add_log DlqReset (set_env (bp_reset_dlq_nacks data_type (env w)) w))
              else ret () in
    report_purge_vetoes data_type
  else if handoff_failed then
    let* version := lift (ordered_version py_repr (jget "version" data)) in
    let* confirmed := pause_delivery data_type version in
    if confirmed then nack true else ret ()
  else nack true.

Definition extraction_complete (data_type : string) (data : dict) : M () :=
  let* flushed := flush_queue data_type in
  if negb flushed then nack true
  else
    let* active := gets (λ w, durable_active (gt (ld w))) in
    if active && negb (is_ok (ordered_version py_repr (jget "version" data))) then
      let* _ := modify (set_refused "durable extraction_complete lacks a valid ordered YYYYMMDD version") in
      nack false
    else
      let* purge := purge_stage data_type data in
      let* refresh := refresh_stage data_type data purge.1 in
      finish_stage data_type data purge.1 purge.2 refresh.1 refresh.2.

Definition file_complete (data_type : string) : M () :=
  let* flushed := flush_queue data_type in
  if negb flushed then nack true
  else
    let* _ := modify (λ w, set_ld (set_completed (completed_files (ld w) ∪ {[data_type]}) (ld w)) w) in
    let* _ := schedule_cancellation data_type in
    ack.

(** ** The handler *)

Definition json_is (v : json) (s : string) : bool := match v with JStr t => bool_decide (t = s) | _ => false end.

(** The first record of the next extraction re-arms the type. *)
Definition rearm (data_type : string) (w : world) : world :=
  let l := ld w in
  set_ld (set_cancel_tasks (delete data_type (cancel_tasks l))
    (set_signalled (extraction_signalled l ∖ {[data_type]}) (set_completed (completed_files l ∖ {[data_type]}) l))) w.

(** Everything inside the handler's [try]: [None] when the delivery is dealt with, or the
    record that is left to deliver on its own. *)
Definition handle (body : result json) (data_type : string) : M (option (json * dict)) :=
  let* value := lift body in
  let* data := match value with JObj d => ret d | _ => raise AttributeError end in
  let type := jget "type" data in
  let* _ := if json_is type "file_complete" || json_is type "extraction_complete" then ret ()
            else modify (rearm data_type) in
  if json_is type "file_complete" then let* _ := file_complete data_type in ret None
  else if json_is type "extraction_complete" then let* _ := extraction_complete data_type data in ret None
  else if negb (truthy (jget "id" data)) then let* _ := nack false in ret None
  else if batch_mode cfg && has_batch_processor cfg then
    let* accepted := call (λ r, Batched (bool_decide (r = Ok true))) (bp_add_message data_type data) in
    let* _ := if accepted then modify (count_message data_type) else ret () in
    ret None
  else
    let* normalized := lift (normalize_record data_type data) in
    ret (Some (jget "id" data, normalized)).

(** [persist_record] as [run_delivery] is given it. *)
Definition persist (data_type : string) (id : json) (data : dict) (e : E) : E * result DeliveryResult :=
  if negb (has_pool cfg) || negb (has_admission cfg) then (e, Raise DatabaseUnavailableError)
  else let '(e, r) := db_persist_record data_type id data e in
       (e, let! outcome := r in Ok {| r_settlement := ACK; r_outcome := outcome; r_error_type := None |}).

Definition deliver (data_type : string) (id : json) (data : dict) : M () :=
  let* result := query (run_delivery (persist data_type id data)) in
  let* _ := logged (Delivered (r_settlement result)) in
  match r_settlement result with
  | ACK => modify (count_message data_type)
  | _ => ret ()
  end.

Definition _process_data_message (body : result json) (data_type : string) : M () :=
  let* stopping := gets (λ w, shutdown_requested (ld w)) in
  if stopping then ret ()
  else
    let* rest := try_except (handle body data_type) (λ _, let* _ := nack false in ret None) in
    match rest with
    | Some (id, data) => deliver data_type id data
    | None => ret ()
    end.

(** ** Reasoning about runs

    [emits c Q]: every run of [c] extends the log by a segment that satisfies [Q]. *)

Definition emits {A} (c : M A) (Q : world → list effect → world → result A → Prop) : Prop :=
  ∀ w, ∃ seg, log (c w).1 = log w ++ seg ∧ Q w seg (c w).1 (c w).2.

Lemma emits_mono {A} (c : M A) Q R : emits c Q → (∀ w seg w' r, Q w seg w' r → R w seg w' r) → emits c R.
Proof. intros Hc HQR w. destruct (Hc w) as (seg & Hlog & HQ). eauto. Qed.

Lemma emits_bind {A B} (c : M A) (k : A → M B) Q R T :
  emits c Q → (∀ a, emits (k a) (R a)) →
  (∀ w seg w' e, Q w seg w' (Raise e) → T w seg w' (Raise e)) →
  (∀ w s1 w1 a s2 w2 r, Q w s1 w1 (Ok a) → R a w1 s2 w2 r → T w (s1 ++ s2) w2 r) →
  emits (mbnd c k) T.
Proof.
  intros Hc Hk Hraise Hok w. destruct (Hc w) as (s1 & Hlog & HQ). unfold mbnd.
  destruct (c w) as [w1 [a|e]]; simpl in *; [|eauto].
  destruct (Hk a w1) as (s2 & Hlog2 & HR). exists (s1 ++ s2).
  rewrite Hlog2, Hlog, (assoc_L (++)). eauto.
Qed.

Lemma emits_try {A} (c : M A) (handler : exn → M A) Q R T :
  emits c Q → (∀ e, emits (handler e) (R e)) →
  (∀ w seg w' a, Q w seg w' (Ok a) → T w seg w' (Ok a)) →
  (∀ w seg w' e, Q w seg w' (Raise e) → is_exception e = false → T w seg w' (Raise e)) →
  (∀ w s1 w1 e s2 w2 r, Q w s1 w1 (Raise e) → is_exception e = true → R e w1 s2 w2 r → T w (s1 ++ s2) w2 r) →
  emits (try_except c handler) T.
Proof.
  intros Hc Hh Hok Hraise Hboth w. destruct (Hc w) as (s1 & Hlog & HQ). unfold try_except.
  destruct (c w) as [w1 [a|e]]; simpl in *; [eauto|]. destruct (is_exception e) eqn:He; [|eauto].
  destruct (Hh e w1) as (s2 & Hlog2 & HR). exists (s1 ++ s2). rewrite Hlog2, Hlog, (assoc_L (++)). eauto.
Qed.

Lemma emits_ret {A} (a : A) Q : (∀ w, Q w [] w (Ok a)) → emits (ret a) Q.
Proof. intros HQ w. exists []. rewrite app_nil_r. eauto. Qed.

Lemma emits_then_ret {A B} (c : M A) (f : A → B) Q T :
  emits c Q →
  (∀ w seg w' a, Q w seg w' (Ok a) → T w seg w' (Ok (f a))) →
  (∀ w seg w' e, Q w seg w' (Raise e) → T w seg w' (Raise e)) →
  emits (let* a := c in ret (f a)) T.
Proof.
  intros Hc Hok Hraise w. destruct (Hc w) as (seg & Hlog & HQ). exists seg. unfold mbnd, ret.
  destruct (c w) as [w' [a|e]]; simpl in *; eauto.
Qed.

Lemma emits_gets {A B} (f : world → A) (k : A → M B) T :
  (∀ w, ∃ seg, log (k (f w) w).1 = log w ++ seg ∧ T w seg (k (f w) w).1 (k (f w) w).2) →
  emits (mbnd (gets f) k) T.
Proof. exact (λ Hk, Hk). Qed.

Lemma emits_both {A} (c : M A) Q R : emits c Q → emits c R → emits c (λ w seg w' r, Q w seg w' r ∧ R w seg w' r).
Proof.
  intros HQ HR w. destruct (HQ w) as (s1 & Hlog1 & ?), (HR w) as (s2 & Hlog2 & ?).
  rewrite Hlog1 in Hlog2. apply app_inv_head in Hlog2 as <-. eauto.
Qed.

(** A computation that changes neither the loader nor the log. *)
Definition frame (w w' : world) : Prop := ld w' = ld w ∧ message_counts w' = message_counts w.

Definition nothing {A} (w : world) (seg : list effect) (w' : world) (r : result A) : Prop := seg = [] ∧ frame w w'.

Definition silent {A} (c : M A) : Prop := emits c nothing.

#[local] Instance frame_preorder : PreOrder frame.
Proof. split; [done|intros ??? [] []; split; congruence]. Qed.

Lemma silent_bind {A B} (c : M A) (k : A → M B) : silent c → (∀ a, silent (k a)) → silent (mbnd c k).
Proof.
  intros Hc Hk. apply (emits_bind c k nothing (λ _, nothing)); [done..|].
  intros * [-> ?] [-> ?]. split; [done|by etrans].
Qed.

Lemma silent_try {A} (c : M A) handler : silent c → (∀ e, silent (handler e)) → silent (try_except c handler).
Proof.
  intros Hc Hh. apply (emits_try c handler nothing (λ _, nothing)); [done..|].
  intros * [-> ?] _ [-> ?]. split; [done|by etrans].
Qed.

Lemma silent_ret {A} (a : A) : silent (ret a).
Proof. by apply emits_ret. Qed.

Lemma silent_gets {A} (f : world → A) : silent (gets f).
Proof. intros w. exists []. by rewrite app_nil_r. Qed.

Lemma silent_lift {A} (r : result A) : silent (lift r).
Proof. intros w. exists []. by rewrite app_nil_r. Qed.

Lemma silent_query {A} (op : E → E * result A) : silent (query op).
Proof. intros w. exists []. unfold query. destruct (op (env w)) as [e r]. simpl. by rewrite app_nil_r. Qed.

Lemma silent_refused r : silent (modify (set_refused r)).
Proof. intros w. exists []. simpl. by rewrite app_nil_r. Qed.

Lemma silent_raise {A} e : silent (raise (A := A) e).
Proof. intros w. exists []. simpl. by rewrite app_nil_r. Qed.

Lemma silent_if {A} (b : bool) (c d : M A) : silent c → silent d → silent (if b then c else d).
Proof. by destruct b. Qed.

Lemma silent_with_admission {A} (c : M A) : silent c → silent (with_admission c).
Proof. intros. apply silent_if; [done|apply silent_raise]. Qed.

(** One logged operation. *)
Lemma emits_call {A} (label : result A → effect) (op : E → E * result A) :
  emits (call label op) (λ w seg w' r, seg = [label r] ∧ frame w w').
Proof. intros w. unfold call. destruct (op (env w)) as [e r]. by exists [label r]. Qed.

Ltac silently :=
  repeat first
    [ apply silent_bind | apply silent_try | apply silent_ret | apply silent_gets | apply silent_lift
    | apply silent_query | apply silent_refused | apply silent_raise | apply silent_if
    | apply silent_with_admission | progress intros | case_match ].

Lemma dead_letters_silent data_type : silent (dead_letters_waiting data_type).
Proof. unfold dead_letters_waiting. silently. Qed.

Lemma veto_reason_silent data_type data : silent (purge_veto_reason data_type data).
Proof. unfold purge_veto_reason. silently; apply dead_letters_silent || silently. Qed.

(** ** What each stage logs *)

(** The stages before the last one log only these. *)
Definition internal (x : effect) : bool :=
  match x with
  | Flushed _ | VetoStored _ | Purged _ | DurableCommitted _ | SignalRecorded _ | DerivedRefreshed _ => true
  | _ => false
  end.
Definition is_purge (x : effect) : bool := match x with Purged _ => true | _ => false end.

(** No record of the type is in its dead-letter queue, as far as the loader can tell. *)
Definition clear_to_purge (data_type : string) (data : dict) (l : loader) (e : E) : Prop :=
  (has_batch_processor cfg = true → bp_had_dlq_nacks data_type e = false) ∧
  connection (tr l) = true ∧
  ∃ name e' n,
    dead_letter_queue_name prefix AMQP_CONSUMER_NAME data_type = Ok name ∧ passive_count name e = (e', Ok n) ∧ n <= 0 ∧
    ∀ version, extraction_latch_key py_repr data = Some version → has_pool cfg = true → has_latch cfg = true →
      (db_purge_was_vetoed version data_type e').2 = Ok false.

Lemma dead_letters_count data_type w w' n :
  dead_letters_waiting data_type w = (w', Ok (Some n)) →
  connection (tr (ld w)) = true ∧
  ∃ name, dead_letter_queue_name prefix AMQP_CONSUMER_NAME data_type = Ok name ∧ passive_count name (env w) = (env w', Ok n).
Proof.
  unfold dead_letters_waiting, mbnd, gets, try_except, lift, query, ret. destruct (connection (tr (ld w))); [|done].
  destruct (dead_letter_queue_name _ _ _) as [name|e]; simpl; [|by destruct (is_exception e)].
  destruct (passive_count name (env w)) as [e' [m|ex]] eqn:Ec; simpl; [|by destruct (is_exception ex)].
  intros [= <- <-]. eauto.
Qed.

Lemma veto_reason_none data_type data w :
  (purge_veto_reason data_type data w).2 = Ok None → clear_to_purge data_type data (ld w) (env w).
Proof.
  unfold purge_veto_reason. unfold mbnd at 1, gets at 1.
  destruct (has_batch_processor cfg && bp_had_dlq_nacks data_type (env w)) eqn:Hdlq; [done|].
  unfold mbnd at 1. destruct (dead_letters_waiting data_type w) as [w1 [[n|]|e]] eqn:Hd; [|done..].
  apply dead_letters_count in Hd as (Hconn & name & Hname & Hcount).
  destruct (0 <? n) eqn:Hn; [done|]. intros Hnone.
  split; [intros Hb; by rewrite Hb in Hdlq|]. split; [done|]. exists name, (env w1), n.
  split_and!; [done|done|lia|]. intros version Hkey Hpool Hlatch.
  rewrite Hkey, Hpool, Hlatch in Hnone. simpl in Hnone. revert Hnone.
  unfold try_except, mbnd, query, ret. destruct (db_purge_was_vetoed version data_type (env w1)) as [e' [[|]|ex]]; try done.
  simpl. by destruct (is_exception ex).
Qed.

Lemma flush_queue_emits data_type :
  emits (flush_queue data_type) (λ w seg w' r,
    ld w' = ld w ∧ message_counts w' = message_counts w ∧
    env w' = (if has_batch_processor cfg then (bp_flush_queue data_type (env w)).1 else env w) ∧
    forallb internal seg = true ∧ existsb is_purge seg = false ∧ DerivedRefreshed false ∉ seg ∧
    (r = Ok true → has_batch_processor cfg = true → seg = [Flushed true])).
Proof.
  intros w. unfold flush_queue. destruct (has_batch_processor cfg); simpl.
  - unfold call. destruct (bp_flush_queue data_type (env w)) as [e r]. simpl. eexists [_]. split_and!; try done.
    + set_solver.
    + intros -> _. done.
  - exists []. rewrite app_nil_r. split_and!; try done. set_solver.
Qed.

Lemma persist_veto_emits data_type data :
  emits (persist_purge_veto data_type data) (λ w seg w' r,
    frame w w' ∧ (seg = [] ∨ ∃ b, seg = [VetoStored b]) ∧
    (r = Ok true → ∀ version, extraction_latch_key py_repr data = Some version → has_pool cfg = true →
      has_latch cfg = true → seg = [VetoStored true])).
Proof.
  intros w. unfold persist_purge_veto.
  destruct (extraction_latch_key py_repr data) as [version|]; [|by exists []; rewrite app_nil_r; split_and!; eauto].
  destruct (has_pool cfg) eqn:?, (has_latch cfg) eqn:?; simpl; try (exists []; rewrite app_nil_r; split_and!; naive_solver).
  unfold try_except, with_admission, mbnd, call, ret, raise. destruct (has_admission cfg); simpl.
  - destruct (db_record_purge_veto version data_type (env w)) as [e [[]|ex]]; simpl.
    + exists [VetoStored true]. split_and!; eauto. done.
    + destruct (is_exception ex); exists [VetoStored false]; split_and!; eauto; done.
  - exists []; rewrite app_nil_r; split_and!; eauto; done.
Qed.

(** The purge ran, or its veto is on the latch. *)
Definition purge_settled (data : dict) (vetoed : bool) (seg : list effect) : Prop :=
  if vetoed
  then has_latch cfg = true → is_Some (extraction_latch_key py_repr data) → VetoStored true ∈ seg
  else Purged true ∈ seg.

Lemma purge_rows_emits data_type started_at record_count :
  emits (purge_rows data_type started_at record_count) (λ w seg w' r,
    frame w w' ∧ (seg = [] ∨ ∃ b, seg = [Purged b]) ∧ (r = Ok () → has_pool cfg = true → seg = [Purged true])).
Proof.
  intros w. unfold purge_rows, with_admission, call, ret, raise.
  destruct (has_pool cfg); [|by exists []; rewrite app_nil_r; split_and!; eauto].
  destruct (has_admission cfg); [|by exists []; rewrite app_nil_r; split_and!; eauto].
  destruct (db_purge_stale_rows _ _ _ _) as [e [[]|ex]]; simpl; (eexists [_]; split_and!; eauto; done).
Qed.

Lemma run_purge_emits data_type data :
  emits (try_except
    (let* record_count := match jget_default "record_counts" (JObj []) data with
                          | JObj counts => ret (jget data_type counts)
                          | _ => raise AttributeError
                          end in
     let* _ := purge_rows data_type (jget_default "started_at" (JStr "") data) record_count in
     ret true)
    (λ _, ret false))
  (λ w seg w' r, frame w w' ∧ (seg = [] ∨ ∃ b, seg = [Purged b]) ∧ (r = Ok true → has_pool cfg = true → seg = [Purged true])).
Proof.
  intros w. unfold try_except, mbnd.
  destruct (jget_default "record_counts" _ data) as [| | | | | |counts]; simpl;
    try (exists []; rewrite app_nil_r; split_and!; eauto; done).
  destruct (purge_rows_emits data_type (jget_default "started_at" (JStr "") data) (jget data_type counts) w)
    as (seg & Hlog & Hf & Hseg & Hok). exists seg.
  destruct (purge_rows _ _ _ w) as [w' [[]|ex]]; simpl in *; [by eauto|].
  destruct (is_exception ex); simpl; split_and!; eauto; done.
Qed.

Lemma veto_reason_emits data_type data :
  emits (purge_veto_reason data_type data) (λ w seg w' r,
    seg = [] ∧ frame w w' ∧ (r = Ok None → clear_to_purge data_type data (ld w) (env w))).
Proof.
  intros w. destruct (veto_reason_silent data_type data w) as (seg & Hlog & -> & Hf). exists [].
  pose proof (veto_reason_none data_type data w). eauto.
Qed.

Lemma purge_stage_emits data_type data :
  emits (purge_stage data_type data) (λ w seg w' r,
    frame w w' ∧ forallb internal seg = true ∧
    (existsb is_purge seg = true → clear_to_purge data_type data (ld w) (env w)) ∧
    (∀ vetoed, r = Ok (true, vetoed) → has_pool cfg = true → purge_settled data vetoed seg)).
Proof.
  eapply (emits_bind _ _ _ (λ reason w seg w' r,
    frame w w' ∧ forallb internal seg = true ∧ (existsb is_purge seg = true → reason = None) ∧
    (∀ vetoed, r = Ok (true, vetoed) → has_pool cfg = true → purge_settled data vetoed seg)));
    [apply veto_reason_emits| | |].
  - intros [reason|].
    + eapply emits_then_ret; [apply persist_veto_emits|..].
      * intros * (Hf & Hseg & Hok). split_and!; [done|by destruct Hseg as [->|[? ->]]..|].
        intros v [= -> <-] Hpool Hlatch [version Hv]. by rewrite (Hok eq_refl _ Hv Hpool Hlatch); left.
      * intros * (Hf & Hseg & Hok). by split_and!; [done|destruct Hseg as [->|[? ->]]..|].
    + destruct (has_pool cfg) eqn:Hpool; [|by apply emits_ret].
      eapply emits_then_ret; [apply run_purge_emits|..]; intros * (Hf & Hseg & Hok).
      * split_and!; [done|by destruct Hseg as [->|[? ->]]|done|]. intros v [= -> <-] _. rewrite Hok by done. apply list_elem_of_here.
      * by split_and!; [done|destruct Hseg as [->|[? ->]]|..].
  - intros * (-> & Hf & _). done.
  - intros * (-> & Hf & Hclear) (Hf2 & ? & Hreason & ?). split_and!; [by etrans|done| |done].
    intros Hp. apply Hclear. by rewrite (Hreason Hp).
Qed.

(** The terminal signal is committed, or recorded and any refresh it asked for done. *)
Definition signal_settled (active : bool) (data : dict) (seg : list effect) : Prop :=
  if active then DurableCommitted true ∈ seg
  else has_pool cfg = true → has_latch cfg = true → is_Some (extraction_latch_key py_repr data) →
       SignalRecorded true ∈ seg ∧ DerivedRefreshed false ∉ seg.

Definition refresh_post (purge_ok : bool) (data : dict) (w : world) (seg : list effect) (w' : world)
    (r : result (bool * bool)) : Prop :=
  frame w w' ∧ forallb internal seg = true ∧ existsb is_purge seg = false ∧
  (∀ failed, r = Ok (true, failed) → purge_ok = true → signal_settled (durable_active (gt (ld w))) data seg).

Lemma durable_commit_emits data_type data :
  emits (try_except
    (with_admission
      (let* _ := call (λ r, DurableCommitted (is_ok r)) (db_record_durable_signal (jget "version" data) data_type) in
       ret (true, false)))
    (λ _, ret (false, true)))
  (λ w seg w' r, frame w w' ∧ (seg = [] ∨ ∃ b, seg = [DurableCommitted b]) ∧
    (∀ failed, r = Ok (true, failed) → seg = [DurableCommitted true])).
Proof.
  intros w. unfold try_except, with_admission, mbnd, call, ret, raise.
  destruct (has_admission cfg); [|by exists []; rewrite app_nil_r; split_and!; eauto].
  destruct (db_record_durable_signal _ _ _) as [e [d|ex]]; simpl;
    [|destruct (is_exception ex)]; (eexists [_]; split_and!; eauto; done).
Qed.

Lemma inline_signal_emits data_type version :
  emits (try_except
    (with_admission
      (let* latch := call (λ r, SignalRecorded (is_ok r)) (db_record_extraction_signal version data_type) in
       let* _ := if should_refresh latch DATA_TYPES
                 then call (λ r, DerivedRefreshed (is_ok r)) (db_refresh_derived_relations version)
                 else ret () in
       ret (true, false)))
    (λ _, ret (false, false)))
  (λ w seg w' r, frame w w' ∧
    (seg = [] ∨ (∃ b, seg = [SignalRecorded b]) ∨ ∃ b, seg = [SignalRecorded true; DerivedRefreshed b]) ∧
    (∀ failed, r = Ok (true, failed) → seg = [SignalRecorded true] ∨ seg = [SignalRecorded true; DerivedRefreshed true])).
Proof.
  intros w. unfold try_except, with_admission, mbnd, call, ret, raise.
  destruct (has_admission cfg); [|by exists []; rewrite app_nil_r; split_and!; eauto].
  destruct (db_record_extraction_signal _ _ _) as [e [latch|ex]]; simpl;
    [|destruct (is_exception ex); exists [SignalRecorded false]; split_and!; eauto; done].
  destruct (should_refresh latch DATA_TYPES); [|exists [SignalRecorded true]; split_and!; eauto; done].
  destruct (db_refresh_derived_relations _ _) as [e2 [[]|ex]]; simpl; [|destruct (is_exception ex); simpl];
    (eexists [_; _]; simpl; rewrite <-app_assoc; split_and!; eauto; done).
Qed.

Lemma refresh_stage_emits data_type data purge_ok :
  emits (refresh_stage data_type data purge_ok) (refresh_post purge_ok data).
Proof.
  apply emits_gets. intros w. unfold refresh_post.
  destruct purge_ok; simpl; [|by exists []; rewrite app_nil_r; split_and!].
  destruct (durable_active (gt (ld w))) eqn:Hact.
  - destruct (negb _ || negb _); [by exists []; rewrite app_nil_r; split_and!|].
    destruct (durable_commit_emits data_type data w) as (seg & Hlog & Hf & Hseg & Hok). exists seg.
    split_and!; [done|done|by destruct Hseg as [->|[? ->]]..|].
    intros failed Hr _. simpl. rewrite (Hok failed Hr). apply list_elem_of_here.
  - destruct (has_pool cfg) eqn:Hpool, (has_latch cfg) eqn:Hlatch; simpl;
      try (exists []; rewrite app_nil_r; split_and!; done || (intros; congruence)).
    destruct (extraction_latch_key py_repr data) as [version|]; simpl.
    + destruct (inline_signal_emits data_type version w) as (seg & Hlog & Hf & Hseg & Hok). exists seg.
      split_and!; [done..|by destruct Hseg as [->|[[? ->]|[? ->]]]|by destruct Hseg as [->|[[? ->]|[? ->]]]|].
      intros failed Hr _ _ _ _. destruct (Hok failed Hr) as [->| ->]; split; decide_now || set_solver.
    + exists []. rewrite app_nil_r. by split_and!.
Qed.

(** ** Settlements *)

Definition settles (x : effect) : bool := match x with Acked ok | Nacked _ ok => ok | _ => false end.
Definition settlements (seg : list effect) : nat := length (List.filter settles seg).
Definition is_ack (x : effect) : bool := match x with Acked _ => true | _ => false end.

(** What may follow the acknowledgement. *)
Definition after_ack (x : effect) : bool := match x with DlqReset | VetoAlert _ => true | _ => false end.

Definition marked (data_type : string) (w w' : world) : Prop :=
  completed_files (ld w') = completed_files (ld w) ∪ {[data_type]} ∧
  extraction_signalled (ld w') = extraction_signalled (ld w) ∪ {[data_type]}.

Definition same_files (w w' : world) : Prop :=
  completed_files (ld w') = completed_files (ld w) ∧ extraction_signalled (ld w') = extraction_signalled (ld w).

(** A delivery that was acknowledged, or whose acknowledgement raised. *)
Definition acked_run (seg : list effect) (r : result ()) : Prop :=
  ∃ b post, seg = Acked b :: post ∧ forallb after_ack post = true ∧
    (b = false → post = [] ∧ ∃ e, r = Raise e) ∧ (b = true → ∀ e, r = Raise e → is_exception e = false).

(** A delivery that was given back, or left unsettled. *)
Definition returned_run (requeue : bool) (seg : list effect) (r : result ()) : Prop :=
  (∃ b, (seg = [Nacked requeue b] ∨ seg = [DeliveryPaused true; Nacked requeue b]) ∧ is_ok r = b) ∨
  (seg = [DeliveryPaused false] ∧ r = Ok ()) ∨ (seg = [] ∧ is_ok r = false).

Lemma pause_files cancel_ok a data_type version l :
  completed_files (pause_durable_consumers cancel_ok a data_type version l).1 = completed_files l ∧
  extraction_signalled (pause_durable_consumers cancel_ok a data_type version l).1 = extraction_signalled l.
Proof. unfold pause_durable_consumers. by destruct (cancel_each _ _ _) as [t [|]]. Qed.

Lemma report_emits data_type :
  emits (report_purge_vetoes data_type) (λ w seg w' r,
    frame w w' ∧ forallb after_ack seg = true ∧ (∀ e, r = Raise e → is_exception e = false)).
Proof.
  intros w. unfold report_purge_vetoes.
  destruct (_ && has_admission cfg); [|by exists []; rewrite app_nil_r; split_and!].
  unfold try_except, mbnd, query, logged, modify, ret.
  destruct (db_consecutive_purge_vetoes data_type (env w)) as [e [n|ex]].
  - simpl. destruct (_ <=? n); simpl; [by exists [VetoAlert n]|by exists []; rewrite app_nil_r; split_and!].
  - simpl. exists []. rewrite app_nil_r. destruct (is_exception ex) eqn:He; split_and!; try done. by intros ? [= <-].
Qed.

Lemma reset_emits data_type (vetoed : bool) :
  emits (if vetoed && has_batch_processor cfg
         then modify (λ w, add_log DlqReset (set_env (bp_reset_dlq_nacks data_type (env w)) w))
         else ret ()) (λ w seg w' r, frame w w' ∧ forallb after_ack seg = true ∧ r = Ok ()).
Proof.
  intros w. destruct (_ && _); [by exists [DlqReset]|by exists []; rewrite app_nil_r].
Qed.

Lemma mark_emits data_type :
  emits (modify (mark_complete data_type)) (λ w seg w' r, seg = [] ∧ r = Ok () ∧ marked data_type w w').
Proof. intros w. exists []. by rewrite app_nil_r. Qed.

Lemma schedule_emits data_type :
  emits (schedule_cancellation data_type) (λ w seg w' r, seg = [] ∧ r = Ok () ∧ same_files w w').
Proof. intros w. exists []. rewrite app_nil_r. unfold schedule_cancellation, modify. simpl. by destruct (_ && _). Qed.

Lemma ack_emits : emits ack (λ w seg w' r, seg = [Acked (is_ok r)] ∧ frame w w').
Proof. apply emits_call. Qed.

Lemma nack_emits requeue : emits (nack requeue) (λ w seg w' r, seg = [Nacked requeue (is_ok r)] ∧ frame w w').
Proof. apply emits_call. Qed.

Lemma reset_report_emits data_type (vetoed : bool) :
  emits
    (let* _ := if vetoed && has_batch_processor cfg
               then modify (λ w, add_log DlqReset (set_env (bp_reset_dlq_nacks data_type (env w)) w))
               else ret () in
     report_purge_vetoes data_type)
    (λ w seg w' r, ld w' = ld w ∧ forallb after_ack seg = true ∧ ∀ e, r = Raise e → is_exception e = false).
Proof.
  eapply emits_bind; [apply reset_emits|intros ?; apply report_emits|by intros * (_ & _ & [=])|].
  intros * ([Hl1 _] & Hs1 & _) ([Hl2 _] & Hs2 & Hr). rewrite forallb_app, Hs1, Hs2. split_and!; [congruence|done..].
Qed.

Lemma ack_tail_emits data_type vetoed :
  emits
    (let* _ := schedule_cancellation data_type in
     let* _ := ack in
     let* _ := if vetoed && has_batch_processor cfg
               then modify (λ w, add_log DlqReset (set_env (bp_reset_dlq_nacks data_type (env w)) w))
               else ret () in
     report_purge_vetoes data_type)
    (λ w seg w' r, same_files w w' ∧ acked_run seg r).
Proof.
  eapply (emits_bind _ _ _ (λ _ w seg w' r, ld w' = ld w ∧ acked_run seg r)); [apply schedule_emits|intros _| |].
  - eapply emits_bind; [apply ack_emits|intros ?; apply reset_report_emits|..].
    + intros * [-> [? _]]. split; [done|]. exists false, []. by split_and!; eauto.
    + intros * [-> [? _]] (Hl & Hs & Hr). split; [congruence|]. eexists true, _. by split_and!.
  - by intros * (_ & [=] & _).
  - intros * (-> & _ & Hfiles) [Hl Hrun]. split; [|done]. unfold same_files. by rewrite Hl.
Qed.

Lemma pause_emits data_type version :
  emits (pause_delivery data_type version) (λ w seg w' r, same_files w w' ∧ ∃ ok, r = Ok ok ∧ seg = [DeliveryPaused ok]).
Proof.
  intros w. unfold pause_delivery. destruct (pause_files (pause_cancel (env w)) (pause_closing (env w)) data_type version (ld w)).
  destruct (pause_durable_consumers _ _ data_type version (ld w)) as [l ok]. exists [DeliveryPaused ok]. unfold same_files. simpl in *. split_and!; [done..|by exists ok].
Qed.

Lemma frame_files w w' : frame w w' → same_files w w'.
Proof. unfold same_files. by intros [-> _]. Qed.

#[local] Instance same_files_preorder : PreOrder same_files.
Proof. split; [done|intros ??? [] []; split; congruence]. Qed.

Lemma pause_back_emits data_type version :
  emits (let* confirmed := pause_delivery data_type version in if confirmed then nack true else ret ())
    (λ w seg w' r, same_files w w' ∧ returned_run true seg r).
Proof.
  eapply (emits_bind _ _ _ (λ (confirmed : bool) w seg w' r, same_files w w' ∧
    if confirmed then seg = [Nacked true (is_ok r)] else seg = [] ∧ r = Ok ())); [apply pause_emits|intros [|]|..].
  - eapply emits_mono; [apply nack_emits|]. intros * [-> ?]. by split; [apply frame_files|].
  - by apply emits_ret.
  - by intros * (_ & ? & [=] & _).
  - intros * (? & ok & [= ->] & ->) [? Hr]. split; [by etrans|].
    destruct ok; [subst; left; eauto|]. destruct Hr as [-> ->]. right. by left.
Qed.

Lemma hand_back_emits data_type data :
  emits
    (let* version := lift (ordered_version py_repr (jget "version" data)) in
     let* confirmed := pause_delivery data_type version in
     if confirmed then nack true else ret ())
    (λ w seg w' r, same_files w w' ∧ returned_run true seg r).
Proof.
  eapply emits_bind; [apply silent_lift|intros ?; apply pause_back_emits|..].
  - intros * [-> Hf]. split; [by apply frame_files|]. right. by right.
  - intros * [-> Hf] [? ?]. split; [|done]. etrans; [by apply frame_files|done].
Qed.

Lemma finish_emits data_type data purge_ok vetoed refresh_ok failed :
  emits (finish_stage data_type data purge_ok vetoed refresh_ok failed) (λ w seg w' r,
    if purge_ok && refresh_ok then marked data_type w w' ∧ acked_run seg r else same_files w w' ∧ returned_run true seg r).
Proof.
  unfold finish_stage. destruct (purge_ok && refresh_ok).
  - eapply emits_bind; [apply mark_emits|intros ?; apply ack_tail_emits|by intros * (_ & [=] & _)|].
    intros * (-> & _ & [Hc Hs]) [[Hc2 Hs2] Hrun]. split; [|done]. unfold marked. by rewrite Hc2, Hs2.
  - destruct failed.
    + apply hand_back_emits.
    + eapply emits_mono; [apply nack_emits|]. intros w seg w' r [-> [Hl _]]. split; [by unfold same_files; rewrite Hl|].
      left. eauto.
Qed.

(** ** A whole terminal signal *)

Definition settled_before (active : bool) (data : dict) (vetoed : bool) (pre : list effect) : Prop :=
  (has_pool cfg = true → purge_settled data vetoed pre) ∧ signal_settled active data pre.

(** The run acknowledged the signal: [pre], then the acknowledgement, then what follows it. *)
Definition acked_terminal (data_type : string) (data : dict) (w : world) (seg : list effect) (w' : world) (r : result ())
    : Prop :=
  ∃ pre back vetoed, seg = pre ++ back ∧ forallb internal pre = true ∧ acked_run back r ∧ marked data_type w w' ∧
    settled_before (durable_active (gt (ld w))) data vetoed pre.

(** The run gave it back, or left it to the broker. *)
Definition returned_terminal (requeue : bool) (w : world) (seg : list effect) (w' : world) (r : result ()) : Prop :=
  same_files w w' ∧ ∃ pre back, seg = pre ++ back ∧ forallb internal pre = true ∧ returned_run requeue back r.

Lemma settled_app active data vetoed s1 s2 :
  (has_pool cfg = true → purge_settled data vetoed s1) → signal_settled active data s2 → DerivedRefreshed false ∉ s1 →
  settled_before active data vetoed (s1 ++ s2).
Proof.
  intros Hp Hs Hno. split.
  - intros Hpool. specialize (Hp Hpool). unfold purge_settled in *. destruct vetoed; set_solver.
  - unfold signal_settled in *. destruct active; [set_solver|]. intros Hpool Hlatch Hkey.
    destruct (Hs Hpool Hlatch Hkey). set_solver.
Qed.

Lemma settled_prepend active data vetoed s1 s2 :
  settled_before active data vetoed s2 → DerivedRefreshed false ∉ s1 → settled_before active data vetoed (s1 ++ s2).
Proof.
  intros [Hp Hs] Hno. split.
  - intros Hpool. specialize (Hp Hpool). unfold purge_settled in *. destruct vetoed; set_solver.
  - unfold signal_settled in *. destruct active; [set_solver|]. intros Hpool Hlatch Hkey.
    destruct (Hs Hpool Hlatch Hkey). set_solver.
Qed.

Lemma acked_prepend data_type data w s1 w1 s2 w2 r :
  frame w w1 → forallb internal s1 = true → DerivedRefreshed false ∉ s1 →
  acked_terminal data_type data w1 s2 w2 r → acked_terminal data_type data w (s1 ++ s2) w2 r.
Proof.
  intros [Hl _] Hint Hno (pre & back & vetoed & -> & Hpre & Hack & Hm & Hset).
  exists (s1 ++ pre), back, vetoed. unfold marked in *. rewrite Hl in Hm, Hset.
  split_and!; [apply (assoc_L (++))|by rewrite forallb_app, Hint, Hpre|done|tauto..|by apply settled_prepend].
Qed.

Lemma returned_prepend requeue w s1 w1 s2 w2 r :
  frame w w1 → forallb internal s1 = true →
  returned_terminal requeue w1 s2 w2 r → returned_terminal requeue w (s1 ++ s2) w2 r.
Proof.
  intros Hf Hint [Hs (pre & back & -> & Hpre & Hback)]. split; [etrans; [by apply frame_files|done]|].
  exists (s1 ++ pre), back. split_and!; [apply (assoc_L (++))|by rewrite forallb_app, Hint, Hpre|done].
Qed.

Lemma returned_raised requeue w seg w' (e : exn) :
  frame w w' → forallb internal seg = true → returned_terminal requeue w seg w' (Raise e).
Proof.
  intros Hf Hint. split; [by apply frame_files|]. exists seg, []. rewrite app_nil_r. split_and!; [done..|].
  right. by right.
Qed.

Definition signal_stages (data_type : string) (data : dict) : M () :=
  let* purge := purge_stage data_type data in
  let* refresh := refresh_stage data_type data purge.1 in
  finish_stage data_type data purge.1 purge.2 refresh.1 refresh.2.

Lemma purge_only_effects data_type data :
  emits (purge_stage data_type data) (λ w seg w' r, DerivedRefreshed false ∉ seg).
Proof.
  unfold purge_stage. eapply (emits_bind _ _ nothing (λ _ w seg w' r, DerivedRefreshed false ∉ seg));
    [apply veto_reason_silent|intros [reason|]|intros * [-> _]; set_solver|by intros w s1 w1 a s2 w2 r [-> _]].
  - eapply emits_then_ret; [apply persist_veto_emits|intros * (_ & [->|[? ->]] & _); set_solver..].
  - destruct (has_pool cfg); [|apply emits_ret; set_solver].
    eapply emits_then_ret; [apply run_purge_emits|intros * (_ & [->|[? ->]] & _); set_solver..].
Qed.

Lemma acked_no_purge seg r : acked_run seg r → existsb is_purge seg = false.
Proof.
  intros (b & post & -> & Hpost & _). simpl. clear -Hpost.
  induction post as [|x post IH]; [done|]. simpl in *. apply andb_prop in Hpost as [Hx ?]. destruct x; simpl in *; auto.
Qed.

Lemma returned_no_purge requeue seg r : returned_run requeue seg r → existsb is_purge seg = false.
Proof. by intros [(b & [->| ->] & _)|[[-> _]|[-> _]]]. Qed.

Lemma finish_terminal data_type data purge_ok vetoed refresh_ok failed :
  emits (finish_stage data_type data purge_ok vetoed refresh_ok failed) (λ w seg w' r,
    existsb is_purge seg = false ∧
    (purge_ok = true ∧ refresh_ok = true ∧ marked data_type w w' ∧ acked_run seg r ∨
     same_files w w' ∧ returned_run true seg r)).
Proof.
  eapply emits_mono; [apply finish_emits|]. intros w seg w' r.
  destruct purge_ok, refresh_ok; simpl; intros [? Hrun]; split; eauto 6 using acked_no_purge, returned_no_purge.
Qed.

Lemma refresh_finish_emits data_type data purge_ok vetoed :
  emits
    (let* refresh := refresh_stage data_type data purge_ok in
     finish_stage data_type data purge_ok vetoed refresh.1 refresh.2)
    (λ w seg w' r,
      existsb is_purge seg = false ∧
      (purge_ok = true ∧
       (∃ pre back, seg = pre ++ back ∧ forallb internal pre = true ∧ acked_run back r ∧ marked data_type w w' ∧
        signal_settled (durable_active (gt (ld w))) data pre) ∨
       returned_terminal true w seg w' r)).
Proof.
  eapply emits_bind; [apply refresh_stage_emits|intros ?; apply finish_terminal|..].
  - intros * (Hf & Hint & Hpurge & _). split; [done|]. right. by apply returned_raised.
  - intros w s1 w1 [ok failed] s2 w2 r (Hf & Hint & Hpurge & Hsettled) [Hno Hrun].
    split; [by rewrite existsb_app, Hpurge, Hno|].
    destruct Hrun as [(-> & Hok & Hm & Hack)|[Hs Hback]]; simpl in *; subst.
    + left. split; [done|]. exists s1, s2. split_and!; [done..| |by eapply Hsettled].
      destruct Hf as [Hl _]. unfold marked in *. by rewrite Hl in Hm.
    + right. split; [etrans; [by apply frame_files|done]|]. eauto.
Qed.

Lemma signal_stages_emits data_type data :
  emits (signal_stages data_type data) (λ w seg w' r,
    (existsb is_purge seg = true → clear_to_purge data_type data (ld w) (env w)) ∧
    (acked_terminal data_type data w seg w' r ∨ returned_terminal true w seg w' r)).
Proof.
  eapply emits_bind; [apply emits_both; [apply purge_stage_emits|apply purge_only_effects]
                     |intros ?; apply refresh_finish_emits|..].
  - intros * [(Hf & Hint & Hclear & _) _]. split; [done|]. right. by apply returned_raised.
  - intros w s1 w1 [ok vetoed] s2 w2 r [(Hf & Hint & Hclear & Hsettled) Hnone] [Hno Hrun]. split.
    { rewrite existsb_app, Hno, orb_false_r. done. }
    pose proof Hf as [Hl _]. simpl in *.
    destruct Hrun as [(-> & pre & back & -> & Hpre & Hack & Hm & Hsig)|[Hs (pre & back & -> & Hpre & Hback)]].
    + left. exists (s1 ++ pre), back, vetoed. rewrite Hl in Hsig. unfold marked in *. rewrite Hl in Hm.
      split_and!; [apply (assoc_L (++))|by rewrite forallb_app, Hint, Hpre|done|tauto..|].
      apply settled_app; auto.
    + right. eapply returned_prepend; [done..|]. split; eauto.
Qed.

Definition flushed_env (data_type : string) (e : E) : E :=
  if has_batch_processor cfg then (bp_flush_queue data_type e).1 else e.

(** A durable loader was sent a signal without a date to order it by. *)
Definition unordered (l : loader) (data : dict) : bool :=
  durable_active (gt l) && negb (is_ok (ordered_version py_repr (jget "version" data))).

Definition terminal_post (data_type : string) (data : dict) (w : world) (seg : list effect) (w' : world) (r : result ())
    : Prop :=
  (existsb is_purge seg = true → clear_to_purge data_type data (ld w) (flushed_env data_type (env w))) ∧
  (acked_terminal data_type data w seg w' r ∧ unordered (ld w) data = false ∧
     (has_batch_processor cfg = true → head seg = Some (Flushed true)) ∨
   ∃ requeue, returned_terminal requeue w seg w' r ∧ (requeue = false → unordered (ld w) data = true)).

Lemma nack_terminal requeue :
  emits (nack requeue) (λ w seg w' r, existsb is_purge seg = false ∧ returned_terminal requeue w seg w' r).
Proof.
  eapply emits_mono; [apply nack_emits|]. intros w seg w' r [-> Hf]. split; [done|]. split; [by apply frame_files|].
  exists [], [Nacked requeue (is_ok r)]. split_and!; [done..|]. left. eauto.
Qed.

Definition after_flush (data_type : string) (data : dict) : M () :=
  let* active := gets (λ w, durable_active (gt (ld w))) in
  if active && negb (is_ok (ordered_version py_repr (jget "version" data))) then
    let* _ := modify (set_refused "durable extraction_complete lacks a valid ordered YYYYMMDD version") in
    nack false
  else signal_stages data_type data.

Lemma after_flush_emits data_type data :
  emits (after_flush data_type data) (λ w seg w' r,
    (existsb is_purge seg = true → clear_to_purge data_type data (ld w) (env w)) ∧
    (acked_terminal data_type data w seg w' r ∧ unordered (ld w) data = false ∨
     ∃ requeue, returned_terminal requeue w seg w' r ∧ (requeue = false → unordered (ld w) data = true))).
Proof.
  apply emits_gets. intros w. unfold unordered. destruct (_ && _).
  - destruct (nack_terminal false
      (set_refused "durable extraction_complete lacks a valid ordered YYYYMMDD version" w)) as (seg & Hlog & Hp & Hr).
    exists seg. split; [exact Hlog|]. rewrite Hp. split; [done|]. right. exists false. by split.
  - destruct (signal_stages_emits data_type data w) as (seg & Hlog & Hclear & Hrun). exists seg.
    split; [done|]. split; [done|]. destruct Hrun as [?|?]; [by left|]. right. exists true. by split.
Qed.

Lemma extraction_complete_emits data_type data :
  emits (extraction_complete data_type data) (terminal_post data_type data).
Proof.
  eapply (emits_bind _ (λ flushed : bool, if negb flushed then nack true else after_flush data_type data) _ (λ flushed w seg w' r,
    (existsb is_purge seg = true → clear_to_purge data_type data (ld w) (env w)) ∧
    (flushed = true ∧ acked_terminal data_type data w seg w' r ∧ unordered (ld w) data = false ∨
     ∃ requeue, returned_terminal requeue w seg w' r ∧ (requeue = false → unordered (ld w) data = true))));
    [apply flush_queue_emits|intros [|]|..].
  - eapply emits_mono; [apply after_flush_emits|]. intros * [? [[]|]]; eauto 6.
  - eapply emits_mono; [apply nack_terminal|]. intros * [Hp Hr]. rewrite Hp. split; [done|]. right. exists true. by split.
  - intros * (Hl & Hc & _ & Hint & Hp & _). unfold terminal_post. rewrite Hp. split; [done|]. right. exists true.
    split; [|done]. by apply returned_raised.
  - intros w s1 w1 flushed s2 w2 r (Hl & Hc & He & Hint & Hp & Hno & Hflush) [Hclear Hrun].
    assert (Hf : frame w w1) by done.
    unfold terminal_post, flushed_env. rewrite existsb_app, Hp, orb_false_l, <-He, <-Hl. split; [done|].
    destruct Hrun as [(-> & Hack & Hun)|(requeue & Hback & Hun)].
    + left. split_and!; [by eapply acked_prepend|done|intros Hb; by rewrite (Hflush eq_refl Hb)].
    + right. exists requeue. split; [|done]. by eapply returned_prepend.
Qed.

(** ** A whole delivery *)

(** The delivery is left to the batch processor, to the shared runner, or to the broker. *)
Definition deferred (x : effect) : bool :=
  match x with Batched _ | Delivered _ | DeliveryPaused false => true | _ => false end.

(** At most one settlement succeeds, and none that an [Exception] follows. *)
Definition one_settlement {A} (seg : list effect) (r : result A) : Prop :=
  (settlements seg ≤ 1)%nat ∧ ∀ e, r = Raise e → is_exception e = true → settlements seg = 0%nat.

Definition dealt_with {A} (seg : list effect) (r : result A) : Prop :=
  is_ok r = true → settlements seg = 1%nat ∨ existsb deferred seg = true.

Lemma settlements_app s1 s2 : settlements (s1 ++ s2) = (settlements s1 + settlements s2)%nat.
Proof. unfold settlements. by rewrite List.filter_app, length_app. Qed.

Lemma settlements_none (p : effect → bool) seg :
  (∀ x, p x = true → settles x = false) → forallb p seg = true → settlements seg = 0%nat.
Proof.
  intros Hp. induction seg as [|x seg IH]; [done|]. simpl. intros [Hx Hs]%andb_prop.
  unfold settlements in *. simpl. rewrite (Hp x Hx). auto.
Qed.

Lemma internal_none seg : forallb internal seg = true → settlements seg = 0%nat.
Proof. apply settlements_none. by intros []. Qed.

Lemma after_ack_none seg : forallb after_ack seg = true → settlements seg = 0%nat.
Proof. apply settlements_none. by intros []. Qed.

Lemma acked_settles seg r : acked_run seg r → one_settlement seg r ∧ dealt_with seg r.
Proof.
  intros (b & post & -> & Hpost & Hf & Ht). apply after_ack_none in Hpost.
  unfold one_settlement, dealt_with, settlements in *. destruct b; simpl; rewrite Hpost.
  - split; [|by left]. split; [lia|]. intros e He Hex. specialize (Ht eq_refl e He). congruence.
  - destruct (Hf eq_refl) as [_ [e ->]]. split; [split; [lia|done]|done].
Qed.

Lemma returned_settles requeue seg r : returned_run requeue seg r → one_settlement seg r ∧ dealt_with seg r.
Proof.
  unfold one_settlement, dealt_with, settlements.
  intros [(b & [->| ->] & <-)|[[-> ->]|[-> Hr]]]; simpl.
  - destruct r as [[]|e]; simpl; [by split; [split|left]|by split; [split; [lia|]|]].
  - destruct r as [[]|e]; simpl; [by split; [split|left]|by split; [split; [lia|]|]].
  - split; [split; [lia|done]|by right].
  - split; [split; [lia|done]|]. by rewrite Hr.
Qed.

Lemma internal_prepend_settles {A} pre back (r : result A) :
  forallb internal pre = true → one_settlement back r ∧ dealt_with back r →
  one_settlement (pre ++ back) r ∧ dealt_with (pre ++ back) r.
Proof.
  intros Hpre%internal_none. unfold one_settlement, dealt_with. rewrite settlements_app, existsb_app, Hpre. simpl.
  intros [? Hd]. split; [done|]. intros Hr. destruct (Hd Hr) as [?| ->]; [by left|right; apply orb_true_r].
Qed.

Lemma terminal_settles data_type data w seg w' r :
  terminal_post data_type data w seg w' r → one_settlement seg r ∧ dealt_with seg r.
Proof.
  intros [_ [[(pre & back & v & -> & Hpre & Hack & _) _]|(rq & [_ (pre & back & -> & Hpre & Hback)] & _)]];
    apply internal_prepend_settles; eauto using acked_settles, returned_settles.
Qed.

Lemma file_complete_emits data_type :
  emits (file_complete data_type) (λ w seg w' r, one_settlement seg r ∧ dealt_with seg r).
Proof.
  eapply (emits_bind _ (λ flushed : bool, if negb flushed then nack true else _) _
    (λ _ w seg w' r, one_settlement seg r ∧ dealt_with seg r)); [apply flush_queue_emits|intros [|]|..]; simpl.
  - eapply (emits_bind _ _ (λ w seg w' r, seg = [] ∧ r = Ok ()) (λ _ w seg w' r, one_settlement seg r ∧ dealt_with seg r));
      [intros w; exists []; by rewrite app_nil_r|intros _|by intros w seg w' e [_ ?]|by intros w s1 w1 a s2 w2 r [-> _]].
    eapply (emits_bind _ _ _ (λ _ w seg w' r, one_settlement seg r ∧ dealt_with seg r));
      [apply schedule_emits|intros _|by intros w seg w' e (_ & ? & _)|by intros w s1 w1 a s2 w2 r (-> & _)].
    eapply emits_mono; [apply ack_emits|]. intros w seg w' r [-> _].
    apply acked_settles. exists (is_ok r), []. destruct r as [[]|e]; by split_and!; eauto.
  - eapply emits_mono; [apply nack_emits|]. intros w seg w' r [-> _]. apply (returned_settles true). left. eauto.
  - intros w seg w' e (_ & _ & _ & Hint & _). rewrite <-(app_nil_r seg). apply internal_prepend_settles; [done|].
    apply (returned_settles true). right. by right.
  - intros w s1 w1 a s2 w2 r (_ & _ & _ & Hint & _). by apply internal_prepend_settles.
Qed.

(** What the handler's [try] block leaves: the delivery dealt with, or a record to deliver. *)
Definition handled (seg : list effect) (r : result (option (json * dict))) : Prop :=
  one_settlement seg r ∧ (r = Ok None → settlements seg = 1%nat ∨ existsb deferred seg = true) ∧
  (∀ x, r = Ok (Some x) → settlements seg = 0%nat).

Lemma unlogged_bind {A} (c : M A) (k : A → M (option (json * dict))) :
  emits c (λ _ seg _ _, seg = []) → (∀ a, emits (k a) (λ _ seg _ r, handled seg r)) →
  emits (mbnd c k) (λ _ seg _ r, handled seg r).
Proof.
  intros Hc Hk. eapply (emits_bind _ _ _ (λ _ _ seg _ r, handled seg r)); [exact Hc|exact Hk|..].
  - intros w seg w' e ->. split_and!; [split; [cbn; lia|done]|done..].
  - by intros w s1 w1 a s2 w2 r ->.
Qed.

Lemma settled_then_none (c : M ()) :
  emits c (λ _ seg _ r, one_settlement seg r ∧ dealt_with seg r) →
  emits (let* _ := c in ret None) (λ _ seg _ r, handled seg r).
Proof.
  intros Hc. eapply (emits_then_ret _ (λ _, None)); [exact Hc|..].
  - intros w seg w' a [[Hone _] Hdealt]. split_and!; [split; done|intros _; by apply Hdealt|done].
  - intros w seg w' e [Hone _]. split_and!; [|done..]. destruct Hone as [? He]. split; [done|].
    intros ? [= <-]. by apply He.
Qed.

Lemma nack_settles requeue : emits (nack requeue) (λ _ seg _ r, one_settlement seg r ∧ dealt_with seg r).
Proof.
  eapply emits_mono; [apply nack_emits|]. intros w seg w' r [-> _]. apply (returned_settles requeue). left. eauto.
Qed.

Lemma batched_emits data_type data :
  emits
    (let* accepted := call (λ r, Batched (bool_decide (r = Ok true))) (bp_add_message data_type data) in
     let* _ := if accepted then modify (count_message data_type) else ret () in
     ret None) (λ _ seg _ r, handled seg r).
Proof.
  intros w. unfold mbnd, call. destruct (bp_add_message data_type data (env w)) as [e [accepted|ex]].
  - exists [Batched (bool_decide (Ok accepted = Ok true))]. destruct accepted; simpl.
    all: split; [done|split_and!; [split; [cbn; lia|done]|by right|done]].
  - exists [Batched (bool_decide (Raise ex = Ok true))]. simpl. split; [done|]. split_and!; [split; [cbn; lia|done]|done..].
Qed.

Lemma silent_unlogged {A} (c : M A) : silent c → emits c (λ _ seg _ _, seg = []).
Proof. intros Hc. eapply emits_mono; [exact Hc|]. by intros w seg w' r [-> _]. Qed.

Lemma handle_emits body data_type : emits (handle body data_type) (λ _ seg _ r, handled seg r).
Proof.
  unfold handle. apply unlogged_bind; [apply silent_unlogged; silently|intros value].
  apply unlogged_bind; [apply silent_unlogged; silently|intros data]. cbv zeta.
  apply unlogged_bind.
  { destruct (_ || _); [apply silent_unlogged; silently|]. intros w. exists []. by rewrite app_nil_r. }
  intros _. destruct (json_is (jget "type" data) "file_complete").
  { apply settled_then_none, file_complete_emits. }
  destruct (json_is (jget "type" data) "extraction_complete").
  { apply settled_then_none. eapply emits_mono; [apply extraction_complete_emits|]. eauto using terminal_settles. }
  destruct (negb _); [apply settled_then_none, nack_settles|].
  destruct (batch_mode cfg && has_batch_processor cfg); [apply batched_emits|].
  apply unlogged_bind; [apply silent_unlogged; silently|intros normalized].
  apply emits_ret. intros w. split_and!; [split; [cbn; lia|done]|done|done].
Qed.

Lemma deliver_emits data_type id data :
  emits (deliver data_type id data) (λ w seg w' r,
    ld w' = ld w ∧ ((seg = [] ∧ is_ok r = false) ∨ ∃ s, seg = [Delivered s] ∧ r = Ok ())).
Proof.
  intros w. unfold deliver, mbnd, query. destruct (run_delivery _ (env w)) as [e [res|ex]]; simpl.
  - exists [Delivered (r_settlement res)]. destruct (r_settlement res); simpl; eauto 8.
  - exists []. rewrite app_nil_r. auto.
Qed.

(** The delivery's own [try] and its [except]. *)
Lemma guarded_emits body data_type :
  emits (try_except (handle body data_type) (λ _, let* _ := nack false in ret None)) (λ _ seg _ r,
    (settlements seg ≤ 1)%nat ∧ (r = Ok None → settlements seg = 1%nat ∨ existsb deferred seg = true) ∧
    (∀ x, r = Ok (Some x) → settlements seg = 0%nat)).
Proof.
  eapply (emits_try _ _ _ (λ _ _ seg _ r, handled seg r)); [apply handle_emits|intros _; apply settled_then_none, nack_settles|..].
  - by intros w seg w' a ([? _] & ? & ?).
  - by intros w seg w' e ([? _] & _) _.
  - intros w s1 w1 e s2 w2 r ([_ Hzero] & _) Hex ([Hone _] & Hnone & Hsome).
    rewrite settlements_app, existsb_app, (Hzero e eq_refl Hex). split_and!; [done| |done].
    intros Hr. destruct (Hnone Hr) as [?| ->]; [by left|right; apply orb_true_r].
Qed.

Lemma head_app_cons {A} (l : list A) x y m : head (l ++ x :: m) = Some y → y ≠ x → head l = Some y.
Proof. destruct l; simpl; [intros [= ->]; done|done]. Qed.

Lemma is_purge_elem b seg : Purged b ∈ seg → existsb is_purge seg = true.
Proof. intros Hin. apply existsb_exists. exists (Purged b). by rewrite <-list_elem_of_In. Qed.

Lemma no_acks_internal seg : forallb internal seg = true → ∀ b, Acked b ∉ seg.
Proof.
  induction seg as [|x seg IH]; [set_solver|]. simpl. intros [Hx Hs]%andb_prop b.
  specialize (IH Hs b). destruct x; simpl in *; set_solver.
Qed.

Lemma process_unfold body data_type w :
  shutdown_requested (ld w) = false →
  _process_data_message body data_type w =
  match try_except (handle body data_type) (λ _, let* _ := nack false in ret None) w with
  | (w', Ok (Some (id, data))) => deliver data_type id data w'
  | (w', Ok None) => (w', Ok ())
  | (w', Raise e) => (w', Raise e)
  end.
Proof.
  intros Hrun. unfold _process_data_message, gets. unfold mbnd at 1. rewrite Hrun. unfold mbnd at 1.
  by destruct (try_except _ _ w) as [w' [[[]|]|]].
Qed.

Lemma terminal_unfold data_type data w :
  jget "type" data = JStr "extraction_complete" → shutdown_requested (ld w) = false →
  _process_data_message (Ok (JObj data)) data_type w =
  match extraction_complete data_type data w with
  | (w', Ok _) => (w', Ok ())
  | (w', Raise e) => if is_exception e then nack false w' else (w', Raise e)
  end.
Proof.
  intros Htype Hrun. rewrite process_unfold by done. unfold try_except.
  assert (handle (Ok (JObj data)) data_type w = (let* _ := extraction_complete data_type data in ret None) w) as ->
    by (unfold handle, mbnd; simpl; by rewrite Htype).
  unfold mbnd. destruct (extraction_complete data_type data w) as [w1 [[]|e]]; simpl; [done|].
  destruct (is_exception e); [|done]. by destruct (nack false w1) as [w2 [[]|]].
Qed.

(** A terminal signal, delivered as a message. *)
Lemma terminal_delivery data_type data w :
  jget "type" data = JStr "extraction_complete" → shutdown_requested (ld w) = false →
  ∃ seg tail w1 r, log (_process_data_message (Ok (JObj data)) data_type w).1 = log w ++ seg ++ tail ∧
    terminal_post data_type data w seg w1 r ∧
    same_files w1 (_process_data_message (Ok (JObj data)) data_type w).1 ∧
    ((∀ e, r = Raise e → is_exception e = false) ∧ tail = [] ∨
     ∃ b e, tail = [Nacked false b] ∧ r = Raise e ∧ is_exception e = true).
Proof.
  intros Htype Hrun. rewrite terminal_unfold by done.
  destruct (extraction_complete_emits data_type data w) as (seg & Hlog & Hpost).
  destruct (extraction_complete data_type data w) as [w1 [[]|e]]; simpl in *.
  - exists seg, [], w1, (Ok ()). rewrite app_nil_r. split_and!; [done..|by left].
  - destruct (is_exception e) eqn:He.
    + destruct (nack_emits false w1) as (s2 & Hlog2 & -> & Hf).
      exists seg, [Nacked false (is_ok (nack false w1).2)], w1, (Raise e).
      rewrite Hlog2, Hlog, <-app_assoc. split_and!; [done|done|by apply frame_files|right; eauto].
    + exists seg, [], w1, (Raise e). rewrite app_nil_r. split_and!; [done..|left]. split; [by intros ? [= <-]|done].
Qed.

Lemma acked_decomposes data_type data w seg w1 r :
  acked_terminal data_type data w seg w1 r → (has_batch_processor cfg = true → head seg = Some (Flushed true)) →
  ∃ pre b post, seg = pre ++ Acked b :: post ∧ forallb internal pre = true ∧
    (has_batch_processor cfg = true → head pre = Some (Flushed true)) ∧
    (has_pool cfg = true → has_latch cfg = true → is_Some (extraction_latch_key py_repr data) →
       Purged true ∈ pre ∨ VetoStored true ∈ pre) ∧
    signal_settled (durable_active (gt (ld w))) data pre ∧ marked data_type w w1 ∧
    (b = true → forallb after_ack post = true ∧ ∀ e, r = Raise e → is_exception e = false).
Proof.
  intros (pre & back & vetoed & -> & Hpre & (b & post & -> & Hpost & _ & Ht) & Hm & Hp & Hs) Hhead.
  exists pre, b, post. split_and!; try done; [| |auto].
  - intros Hb. by eapply head_app_cons; [apply Hhead|].
  - intros Hpool Hlatch Hkey. specialize (Hp Hpool). destruct vetoed; simpl in Hp; auto.
Qed.

Lemma returned_no_acks requeue w seg w1 r : returned_terminal requeue w seg w1 r → ∀ b, Acked b ∉ seg.
Proof.
  intros [_ (pre & back & -> & Hpre & Hback)] b [Hin|Hin]%elem_of_app; [by eapply no_acks_internal|].
  destruct Hback as [(? & [->| ->] & _)|[[-> _]|[-> _]]]; set_solver.
Qed.


(** C5 The stale-row purge of a type runs only when no record of the type can be in the
    dead-letter queue: none was dead-lettered by this process, the broker is connected and
    answers that the queue is empty, and no veto is recorded for this extraction.  All of
    this is read after the type's pending rows were flushed. *)
Theorem purge_needs_clear_dead_letters data_type data w w' r :
  _process_data_message (Ok (JObj data)) data_type w = (w', r) →
  jget "type" data = JStr "extraction_complete" → shutdown_requested (ld w) = false →
  ∃ seg, log w' = log w ++ seg ∧
    ∀ b, Purged b ∈ seg → clear_to_purge data_type data (ld w) (flushed_env data_type (env w)).
Proof.
  intros Hp Htype Hrun. destruct (terminal_delivery data_type data w Htype Hrun)
    as (seg & tail & w1 & r1 & Hlog & [Hclear _] & _ & Htail).
  rewrite Hp in Hlog. exists (seg ++ tail). split; [done|].
  intros b [Hin|Hin]%elem_of_app; [by eapply Hclear, is_purge_elem|].
  destruct Htail as [[_ ->]|(? & ? & -> & _)]; set_solver.
Qed.

Lemma process_settlements body data_type w :
  ∃ seg, log (_process_data_message body data_type w).1 = log w ++ seg ∧
    (settlements seg ≤ 1)%nat ∧
    ((_process_data_message body data_type w).2 = Ok () → shutdown_requested (ld w) = false →
       settlements seg = 1%nat ∨ existsb deferred seg = true).
Proof.
  destruct (shutdown_requested (ld w)) eqn:Hrun.
  { exists []. unfold _process_data_message, mbnd, gets. rewrite Hrun, app_nil_r. split_and!; [done|cbn; lia|done]. }
  rewrite process_unfold by done. destruct (guarded_emits body data_type w) as (seg & Hlog & Hone & Hnone & Hsome).
  destruct (try_except (handle body data_type) _ w) as [w1 [[[id data]|]|e]]; simpl in *.
  - destruct (deliver_emits data_type id data w1) as (s2 & Hlog2 & _ & Hs2). exists (seg ++ s2).
    destruct (deliver data_type id data w1) as [w2 r]. simpl in *.
    rewrite Hlog2, Hlog, (assoc_L (++)), settlements_app, existsb_app, (Hsome (id, data) eq_refl).
    destruct Hs2 as [[-> Hr]|[s [-> ->]]]; split_and!; cbn; try done; [lia|by intros -> |lia|].
    right. apply orb_true_r.
  - exists seg. split_and!; [done..|]. intros _ _. by apply Hnone.
  - exists seg. by split_and!.
Qed.

(** Every delivery is settled at most once by the handler, whatever its body and
    whatever raises; and a handler that returns, unless the service is stopping, has settled
    the delivery exactly once or left it to the batch processor, to the shared delivery
    runner, or (consumers not confirmed cancelled) to the broker. *)
Theorem delivery_settled_once body data_type w :
  ∃ seg, log (_process_data_message body data_type w).1 = log w ++ seg ∧
    (settlements seg ≤ 1)%nat ∧
    ((_process_data_message body data_type w).2 = Ok () → shutdown_requested (ld w) = false →
       settlements seg = 1%nat ∨ existsb deferred seg = true).
Proof. apply process_settlements. Qed.

(** A body no retry can deliver: it does not parse, is not an object, or is a record without
    an id. *)
Definition malformed (body : result json) : bool :=
  match body with
  | Raise e => is_exception e
  | Ok (JObj data) =>
      negb (json_is (jget "type" data) "file_complete") && negb (json_is (jget "type" data) "extraction_complete") &&
      negb (truthy (jget "id" data))
  | Ok _ => true
  end.

Definition rejects (x : effect) : bool := match x with Nacked false _ => true | _ => false end.

Lemma malformed_handle body data_type w :
  malformed body = true →
  (∃ e, handle body data_type w = (w, Raise e) ∧ is_exception e = true) ∨
  handle body data_type w = (let* _ := nack false in ret None) (rearm data_type w).
Proof.
  unfold malformed, handle, mbnd, lift. destruct body as [[| | | | | |data]|e]; simpl; eauto.
  destruct (json_is (jget "type" data) "file_complete"), (json_is (jget "type" data) "extraction_complete"),
    (truthy (jget "id" data)); try done. by right.
Qed.

(** C28 A malformed delivery is rejected without requeueing (so it is dead-lettered, not
    redelivered), and nothing else is asked of the database or the batch processor: no write,
    no flush, no acknowledgement, and no message is counted. *)
Theorem malformed_rejected body data_type w w' r :
  _process_data_message body data_type w = (w', r) → malformed body = true → shutdown_requested (ld w) = false →
  ∃ seg, log w' = log w ++ seg ∧ seg ≠ [] ∧ forallb rejects seg = true ∧ message_counts w' = message_counts w.
Proof.
  intros Hp Hbad Hrun. rewrite process_unfold in Hp by done. revert Hp. unfold try_except.
  destruct (malformed_handle body data_type w Hbad) as [(e & -> & ->)| ->]; unfold mbnd.
  - destruct (nack_emits false w) as (seg & Hlog & -> & _ & Hc).
    destruct (nack false w) as [w2 [[]|e2]]; simpl in *; intros [= <- <-]; eexists; by split_and!.
  - destruct (nack_emits false (rearm data_type w)) as (s1 & Hlog1 & -> & _ & Hc1).
    destruct (nack false (rearm data_type w)) as [w2 [[]|e2]]; simpl in *.
    + intros [= <- <-]. eexists. by split_and!.
    + destruct (is_exception e2); [|intros [= <- <-]; eexists; by split_and!].
      destruct (nack_emits false w2) as (s2 & Hlog2 & -> & _ & Hc2).
      rewrite Hlog1, <-app_assoc in Hlog2.
      destruct (nack false w2) as [w3 [[]|e3]]; simpl in *; intros [= <- <-];
        (eexists; split_and!; [exact Hlog2|done|done|congruence]).
Qed.
End handler.

(** The writer budget exists exactly for a positive pool that leaves a writer after the
    three connections the durable refresh reserves, and is then what is left of the pool. *)
Theorem writer_admission_capacity_exact pool durable n :
  writer_admission_capacity pool durable = Ok n ↔
  ∃ p b, pool = JInt p ∧ durable = JBool b ∧ n = p - (if b then 3 else 0) ∧ 1 <= n.
Proof.
  unfold writer_admission_capacity, _DURABLE_REFRESH_RESERVED_CONNECTIONS. split.
  - destruct pool as [| |p| | | |]; try done. destruct (p <=? 0); [done|]. destruct durable as [|b| | | | |]; try done.
    destruct (_ <=? 0) eqn:E; intros [= <-]. exists p, b. split_and!; [done|done|done|lia].
  - intros (p & b & -> & -> & -> & Hn).
    assert (p <=? 0 = false) as -> by (destruct b; lia). by assert (p - (if b then 3 else 0) <=? 0 = false) as -> by lia.
Qed.

(** ** Concrete runs *)

(** An environment without state whose every operation succeeds; the dead-letter queue is
    empty and the signal completes the extraction. *)
Definition full_latch : ExtractionLatch :=
  {| el_version := "20240101"; el_signals := list_to_set DATA_TYPES; already_signalled := false;
     already_refreshed := false; superseded := false |}.
Definition full_signal : DurableSignal :=
  {| d_version := "20240101"; d_generation := Some 1; d_signals := list_to_set DATA_TYPES; d_scheduled := true;
     d_superseded := false; d_already_refreshed := false |}.

#[export] Instance calm : Backend () := {|
  msg_ack e := (e, Ok ());
  msg_nack _ e := (e, Ok ());
  bp_flush_queue _ e := (e, Ok true);
  bp_add_message _ _ e := (e, Ok true);
  bp_had_dlq_nacks _ _ := false;
  bp_reset_dlq_nacks _ e := e;
  passive_count _ e := (e, Ok 0);
  db_purge_was_vetoed _ _ e := (e, Ok false);
  db_record_purge_veto _ _ e := (e, Ok ());
  db_consecutive_purge_vetoes _ e := (e, Ok 0);
  db_purge_stale_rows _ _ _ e := (e, Ok ());
  db_record_durable_signal _ _ e := (e, Ok full_signal);
  db_record_extraction_signal _ _ e := (e, Ok full_latch);
  db_refresh_derived_relations _ e := (e, Ok ());
  db_persist_record _ _ _ e := (e, Ok "processed");
  pause_cancel _ _ := true;
  pause_closing _ := all_close;
  run_delivery persist e :=
    let '(e, r) := persist e in
    (e, Ok (match r with Ok res => res | Raise _ => {| r_settlement := REQUEUE; r_outcome := ""; r_error_type := None |} end));
|}.

Definition batched_settings : settings :=
  {| batch_mode := true; has_batch_processor := true; has_pool := true; has_latch := true; has_admission := true;
     cancel_delay := 300 |}.

Definition inline_loader : loader :=
  set_gt {| durable_active := false; ready := false; paused := false; recovery_signals := ∅; resume_types := ∅ |}
    mid_recovery.

Definition calm_world (l : loader) : world :=
  {| ld := l; env := (); log := []; last_refused := None; message_counts := {["artists" := 0]} |}.

Definition terminal_body : dict :=
  [("type", JStr "extraction_complete"); ("version", JStr "20240101"); ("started_at", JStr "2024-01-01T00:00:00Z");
   ("record_counts", JObj [("artists", JInt 3)])].

Definition calm_run (l : loader) (body : result json) : world * result () :=
  _process_data_message "discogsography" (λ _, "") (λ _ d, Ok d) batched_settings body "artists" (calm_world l).


Lemma purge_needs_clear_dead_letters_witness :
  clear_to_purge "discogsography" (λ _, "") batched_settings "artists" terminal_body inline_loader ().
Proof.
  assert (log (calm_run inline_loader (Ok (JObj terminal_body))).1 =
    [Flushed true; Purged true; SignalRecorded true; DerivedRefreshed true; Acked true]) as Hlog by (vm_compute; reflexivity).
  destruct (purge_needs_clear_dead_letters "discogsography" (λ _, "") (λ _ d, Ok d) batched_settings "artists" terminal_body
    (calm_world inline_loader) (calm_run inline_loader (Ok (JObj terminal_body))).1
    (calm_run inline_loader (Ok (JObj terminal_body))).2 (surjective_pairing _) eq_refl eq_refl) as (seg & Hseg & Hclear).
  rewrite Hlog in Hseg. simpl in Hseg. subst seg. apply (Hclear true). set_solver.
Defined.

Lemma malformed_rejected_witness :
  forallb rejects (log (calm_run inline_loader (Ok (JObj [("id", JStr "")]))).1) = true ∧
  log (calm_run inline_loader (Ok (JObj [("id", JStr "")]))).1 ≠ [].
Proof.
  destruct (malformed_rejected "discogsography" (λ _, "") (λ _ d, Ok d) batched_settings (Ok (JObj [("id", JStr "")])) "artists"
    (calm_world inline_loader) (calm_run inline_loader (Ok (JObj [("id", JStr "")]))).1
    (calm_run inline_loader (Ok (JObj [("id", JStr "")]))).2 (surjective_pairing _) eq_refl eq_refl)
    as (seg & Hseg & Hne & Hall & _).
  rewrite Hseg. simpl. done.
Defined.
