(* ===== verification/Terminal.v ===== *)
(** * Terminal: acknowledged signals are stored

    What the message handler of [Handler] promises about the durable tables.  The class
    [SignalTable] says what the handler needs of the environment it runs in: that a commit
    that returns stores the signal, and that settling a delivery does not lose it.  The
    tables of [Durable] keep that promise. *)

From S2P Require Import Prelude Json Contract Latch Durable Batch Consumers Handler.

(** ** The interface *)

Class SignalTable (E : Type) `{Backend E} := {
  (** the type's signal for the version is stored *)
  held : string → json → E → Prop;
  commit_holds version d e e' sig : db_record_durable_signal version d e = (e', Ok sig) → held d version e';
  ack_keeps d v e : held d v e → held d v (msg_ack e).1;
  nack_keeps requeue d v e : held d v e → held d v (msg_nack requeue e).1;
  reset_keeps x d v e : held d v e → held d v (bp_reset_dlq_nacks x e);
  veto_count_keeps x d v e : held d v e → held d v (db_consecutive_purge_vetoes x e).1;
}.

Section terminal.
Context {E : Type} `{SignalTable E}.
Context (prefix : string) (py_repr : json → string) (normalize_record : string → dict → result dict) (cfg : settings).

(** A computation that loses no stored signal. *)
Definition keeps {A} (c : M (E := E) A) : Prop := ∀ d v w, held d v (env w) → held d v (env (c w).1).

Lemma keeps_bind {A B} (c : M A) (k : A → M B) : keeps c → (∀ a, keeps (k a)) → keeps (mbnd c k).
Proof.
  intros Hc Hk d v w Hh. specialize (Hc d v w Hh). unfold mbnd. destruct (c w) as [w' [a|e]]; [by apply Hk|done].
Qed.

Lemma keeps_try {A} (c : M A) handler : keeps c → (∀ e, keeps (handler e)) → keeps (try_except c handler).
Proof.
  intros Hc Hk d v w Hh. specialize (Hc d v w Hh). unfold try_except. destruct (c w) as [w' [a|e]]; [done|].
  destruct (is_exception e); [by apply Hk|done].
Qed.

Lemma keeps_ret {A} (a : A) : keeps (ret a).
Proof. by intros d v w. Qed.

Lemma keeps_modify (f : world → world) : (∀ w, env (f w) = env w) → keeps (modify f).
Proof. intros Hf d v w Hh. simpl. by rewrite Hf. Qed.

Lemma keeps_query {A} (op : E → E * result A) : (∀ d v e, held d v e → held d v (op e).1) → keeps (query op).
Proof. intros Hop d v w Hh. specialize (Hop d v (env w) Hh). unfold query. by destruct (op (env w)). Qed.

Lemma keeps_call {A} label (op : E → E * result A) : (∀ d v e, held d v e → held d v (op e).1) → keeps (call label op).
Proof. intros Hop d v w Hh. specialize (Hop d v (env w) Hh). unfold call. by destruct (op (env w)). Qed.

Create HintDb keeps discriminated.
Hint Resolve keeps_bind keeps_try keeps_ret keeps_modify keeps_query keeps_call : keeps.
Hint Resolve ack_keeps nack_keeps reset_keeps veto_count_keeps : keeps.

Lemma report_keeps data_type : keeps (report_purge_vetoes cfg data_type).
Proof.
  unfold report_purge_vetoes. destruct (_ && _); [|apply keeps_ret].
  apply keeps_try; [|intros; apply keeps_ret].
  apply keeps_bind; [apply keeps_query; eauto with keeps|intros n].
  destruct (_ <=? n); [by apply keeps_modify|apply keeps_ret].
Qed.

Lemma ack_tail_keeps data_type data vetoed failed :
  keeps (finish_stage py_repr cfg data_type data true vetoed true failed).
Proof.
  unfold finish_stage. simpl. apply keeps_bind; [by apply keeps_modify|intros _].
  apply keeps_bind; [apply keeps_modify; intros w; by destruct (_ && _)|intros _].
  apply keeps_bind; [apply keeps_call; eauto with keeps|intros _].
  apply keeps_bind; [|intros _; apply report_keeps].
  destruct (_ && _); [|apply keeps_ret]. intros d v w Hh. simpl. by apply reset_keeps.
Qed.

(** The refresh stage of a durable loader answers yes only with the signal stored. *)
Lemma refresh_stage_holds data_type data w w' failed :
  durable_active (gt (ld w)) = true → refresh_stage py_repr cfg data_type data true w = (w', Ok (true, failed)) →
  held data_type (jget "version" data) (env w').
Proof.
  intros Hact. unfold refresh_stage, gets. unfold mbnd at 1. rewrite Hact. simpl.
  destruct (negb _ || negb _); [done|]. unfold try_except, with_admission.
  destruct (has_admission cfg); [|done]. unfold mbnd, call, ret.
  destruct (db_record_durable_signal (jget "version" data) data_type (env w)) as [e [sig|ex]] eqn:Ec; simpl.
  - intros [= <- _]. by eapply commit_holds.
  - destruct (is_exception ex); done.
Qed.

(** ** Every acknowledging run *)

Definition has_ack (seg : list effect) : bool := existsb is_ack seg.

Lemma no_ack_internal seg : forallb internal seg = true → has_ack seg = false.
Proof. induction seg as [|x seg IH]; [done|]. simpl. intros [Hx Hs]%andb_prop. rewrite IH by done. by destruct x. Qed.

Lemma no_ack_returned requeue seg r : returned_run requeue seg r → has_ack seg = false.
Proof. by intros [(b & [->| ->] & _)|[[-> _]|[-> _]]]. Qed.

(** If the run acknowledged, [P] holds of its start and end. *)
Definition when_acked {A} (P : world (E := E) → world (E := E) → Prop) (w : world) (seg : list effect) (w' : world)
    (_ : result A) : Prop := has_ack seg = true → P w w'.

Lemma when_acked_after {A B} (c : M A) (k : A → M B) (Q : world → list effect → world → result A → Prop) P R :
  emits c (λ w seg w' r, forallb internal seg = true ∧ Q w seg w' r) →
  (∀ a, emits (k a) (when_acked (R a))) →
  (∀ w seg w1 a w2, Q w seg w1 (Ok a) → R a w1 w2 → P w w2) →
  emits (mbnd c k) (when_acked P).
Proof.
  intros Hc Hk HP. eapply (emits_bind _ _ _ (λ a, when_acked (R a))); [exact Hc|exact Hk|..].
  - intros w seg w' e [Hint _] Hack. by rewrite no_ack_internal in Hack.
  - intros w s1 w1 a s2 w2 r [Hint HQ] HR Hack. unfold has_ack in Hack. rewrite existsb_app in Hack.
    fold (has_ack s1) in Hack. rewrite (no_ack_internal s1 Hint) in Hack. eauto.
Qed.

(** A fact of the states joins a fact of the log. *)
Lemma emits_with {A} (c : M (E := E) A) Q (P : world → world → result A → Prop) :
  emits c Q → (∀ w w' r, c w = (w', r) → P w w' r) → emits c (λ w seg w' r, Q w seg w' r ∧ P w w' r).
Proof.
  intros Hc HP w. destruct (Hc w) as (seg & Hlog & HQ). exists seg. split; [done|]. split; [done|].
  apply HP. apply surjective_pairing.
Qed.

Definition kept (w w' : world (E := E)) : Prop := ∀ d v, held d v (env w) → held d v (env w').

Lemma finish_acked data_type data purge_ok vetoed refresh_ok failed :
  emits (finish_stage py_repr cfg data_type data purge_ok vetoed refresh_ok failed)
    (when_acked (λ w w', purge_ok = true ∧ refresh_ok = true ∧ kept w w')).
Proof.
  destruct (purge_ok && refresh_ok) eqn:Hok.
  - apply andb_true_iff in Hok as [-> ->].
    eapply emits_mono; [eapply (emits_with _ _ (λ w w' _, kept w w')); [apply finish_emits|]|].
    + intros w w' r Hw d v Hh. pose proof (ack_tail_keeps data_type data vetoed failed d v w Hh) as Hk.
      rewrite Hw in Hk. exact Hk.
    + intros w seg w' r [_ Hk] _. by split_and!.
  - eapply emits_mono; [apply finish_emits|]. intros w seg w' r Hrun Hack. simpl in Hrun. rewrite Hok in Hrun.
    destruct Hrun as [_ Hback]. by rewrite (no_ack_returned _ _ _ Hback) in Hack.
Qed.

Definition now_held (data_type : string) (data : dict) (w w' : world (E := E)) : Prop :=
  durable_active (gt (ld w)) = true → held data_type (jget "version" data) (env w').

Lemma refresh_finish_acked data_type data purge_ok vetoed :
  emits (mbnd (refresh_stage py_repr cfg data_type data purge_ok)
           (λ refresh, finish_stage py_repr cfg data_type data purge_ok vetoed refresh.1 refresh.2))
    (when_acked (λ w w', purge_ok = true ∧ now_held data_type data w w')).
Proof.
  eapply (when_acked_after _ _ (λ w _ w' r, durable_active (gt (ld w)) = true → purge_ok = true →
    ∀ failed, r = Ok (true, failed) → held data_type (jget "version" data) (env w'))); [|intros a; apply finish_acked|].
  - eapply emits_mono; [eapply (emits_with _ _ (λ w w' r, durable_active (gt (ld w)) = true → purge_ok = true →
      ∀ failed, r = Ok (true, failed) → held data_type (jget "version" data) (env w'))); [apply (refresh_stage_emits py_repr normalize_record)|]|].
    + intros w w' r Hw Hact Hp failed Hr. subst. by eapply refresh_stage_holds.
    + intros w seg w' r [(_ & Hint & _) Hh]. by split.
  - intros w seg w1 [ok failed] w2 HQ (-> & Hok & Hk). split; [done|]. intros Hact. simpl in Hok. subst ok.
    apply Hk. by apply HQ with failed.
Qed.

Lemma stages_acked data_type data : emits (signal_stages prefix py_repr cfg data_type data) (when_acked (now_held data_type data)).
Proof.
  eapply (when_acked_after _ _ (λ w _ w' r, frame w w')); [|intros a; apply refresh_finish_acked|].
  - eapply emits_mono; [apply (purge_stage_emits prefix py_repr normalize_record)|]. intros w seg w' r (Hf & Hint & _). done.
  - intros w seg w1 a w2 [Hl _] [_ Hh] Hact. apply Hh. by rewrite Hl.
Qed.

Lemma nack_acked requeue P : emits (nack requeue) (when_acked P).
Proof. eapply emits_mono; [apply nack_emits|]. by intros w seg w' r [-> _]. Qed.

Lemma after_flush_acked data_type data : emits (after_flush prefix py_repr cfg data_type data) (when_acked (now_held data_type data)).
Proof.
  apply emits_gets. intros w. destruct (_ && _).
  - apply (nack_acked false (λ _, now_held data_type data w)
      (set_refused "durable extraction_complete lacks a valid ordered YYYYMMDD version" w)).
  - apply stages_acked.
Qed.

Lemma extraction_acked data_type data :
  emits (extraction_complete prefix py_repr cfg data_type data) (when_acked (now_held data_type data)).
Proof.
  eapply (when_acked_after _ (λ flushed : bool, if negb flushed then nack true else after_flush prefix py_repr cfg data_type data)
    (λ w _ w' r, frame w w') _ (λ _, now_held data_type data)).
  - eapply emits_mono; [apply (flush_queue_emits normalize_record)|]. by intros w seg w' r (? & ? & _ & ? & _).
  - intros [|]; [apply after_flush_acked|apply nack_acked].
  - intros w seg w1 a w2 [Hl _] Hh Hact. apply Hh. by rewrite Hl.
Qed.

(** The message handler keeps what the interface asks for: whatever is acknowledged is held. *)
Lemma acked_terminal_held data_type data w w' r :
  _process_data_message prefix py_repr normalize_record cfg (Ok (JObj data)) data_type w = (w', r) →
  jget "type" data = JStr "extraction_complete" → shutdown_requested (ld w) = false → durable_active (gt (ld w)) = true →
  ∃ seg, log w' = log w ++ seg ∧ ∀ b, Acked b ∈ seg → held data_type (jget "version" data) (env w').
Proof.
  intros Hp Htype Hrun Hact. rewrite terminal_unfold in Hp by done.
  destruct (extraction_acked data_type data w) as (seg & Hlog & Hh).
  assert (∀ b, Acked b ∈ seg → has_ack seg = true) as Hack.
  { intros b Hin. apply existsb_exists. exists (Acked b). by rewrite <-list_elem_of_In. }
  destruct (extraction_complete prefix py_repr cfg data_type data w) as [w1 [[]|e]]; simpl in *.
  { injection Hp as <- <-. exists seg. split; [done|]. intros b Hin. by apply Hh; [eapply Hack|]. }
  destruct (is_exception e); [|injection Hp as <- <-; exists seg; split; [done|];
    intros b Hin; by apply Hh; [eapply Hack|]].
  destruct (nack_emits false w1) as (s2 & Hlog2 & -> & _).
  pose proof (keeps_call (λ r, Nacked false (is_ok r)) (msg_nack false) (nack_keeps false) data_type (jget "version" data) w1) as Hk.
  fold (nack (E := E) false) in Hk. rewrite Hp in Hlog2, Hk. simpl in *. rewrite Hlog, <-app_assoc in Hlog2.
  eexists. split; [exact Hlog2|]. intros b [Hin|Hin]%elem_of_app; [|set_solver].
  apply Hk. by apply Hh; [eapply Hack|].
Qed.
End terminal.

(** ** The durable tables keep the promise *)

(** The tables of [Durable] beside the rest of an environment [B].  The database may fail
    before a commit at any time. *)
Section tables.
Context {B : Type} `{Backend B} `{DurableSchema} (py_repr : json → string) (now : Z) (outage : B → bool).

Definition on_rest {T A} (op : B → B * A) (x : T * B) : (T * B) * A :=
  let '(b, a) := op x.2 in ((x.1, b), a).

#[export] Instance with_tables : Backend (durable * B) := {|
  msg_ack := on_rest msg_ack;
  msg_nack requeue := on_rest (msg_nack requeue);
  bp_flush_queue d := on_rest (bp_flush_queue d);
  bp_add_message d data := on_rest (bp_add_message d data);
  bp_had_dlq_nacks d x := bp_had_dlq_nacks d x.2;
  bp_reset_dlq_nacks d x := (x.1, bp_reset_dlq_nacks d x.2);
  passive_count name := on_rest (passive_count name);
  db_purge_was_vetoed v d := on_rest (db_purge_was_vetoed v d);
  db_record_purge_veto v d := on_rest (db_record_purge_veto v d);
  db_consecutive_purge_vetoes d := on_rest (db_consecutive_purge_vetoes d);
  db_purge_stale_rows d s c := on_rest (db_purge_stale_rows d s c);
  db_record_durable_signal version d x :=
    if outage x.2 then (x, Raise DatabaseUnavailableError)
    else let '(s, r) := record_durable_signal py_repr now version d DATA_TYPES x.1 in ((s, x.2), r);
  db_record_extraction_signal v d := on_rest (db_record_extraction_signal v d);
  db_refresh_derived_relations v := on_rest (db_refresh_derived_relations v);
  db_persist_record d id data := on_rest (db_persist_record d id data);
  pause_cancel x := pause_cancel x.2;
  pause_closing x := pause_closing x.2;
  run_delivery persist x :=
    on_rest (run_delivery (λ b, let '(x', r) := persist (x.1, b) in (x'.2, r))) x;
|}.

Definition signal_in_latch (d : string) (version : json) (s : durable) : Prop :=
  ∃ v row, ordered_version py_repr version = Ok v ∧ latch s !! key v = Some row ∧ d ∈ signals row.

Lemma on_rest_fst {T A} (op : B → B * A) (x : T * B) : (on_rest op x).1.1 = x.1.
Proof. unfold on_rest. by destruct (op x.2). Qed.

#[export] Instance tables_hold : SignalTable (durable * B).
Proof.
  refine {| held d version x := signal_in_latch d version x.1 |}.
  - intros version d [s b] x' sig. simpl. destruct (outage b); [done|].
    destruct (record_durable_signal _ _ _ _ _ _) as [s' r] eqn:Er. intros [= <- ->].
    by apply signal_stored in Er as [_ ?].
  - intros d v x. simpl. by rewrite on_rest_fst.
  - intros requeue d v x. simpl. by rewrite on_rest_fst.
  - done.
  - intros y d v x. simpl. by rewrite on_rest_fst.
Defined.

(** C2 No acknowledged terminal signal is lost: when a durable loader acknowledged (or tried
    to acknowledge) an [extraction_complete], its latch row for that version exists in the
    database and holds the type's signal, whatever the batch processor, the broker and the
    rest of the database answered, and whenever the database was out. *)
Theorem acked_terminal_in_latch prefix normalize_record cfg data_type data w w' r :
  _process_data_message prefix py_repr normalize_record cfg (Ok (JObj data)) data_type w = (w', r) →
  jget "type" data = JStr "extraction_complete" → shutdown_requested (ld w) = false → durable_active (gt (ld w)) = true →
  ∃ seg, log w' = log w ++ seg ∧ ∀ b, Acked b ∈ seg → signal_in_latch data_type (jget "version" data) (env w').1.
Proof. exact (acked_terminal_held prefix py_repr normalize_record cfg data_type data w w' r). Qed.
End tables.

(** ** A concrete run *)

#[local] Existing Instance demo_schema.
#[local] Instance demo_tables : Backend (durable * ()) := with_tables demo_repr 5 (λ _, false).

Definition durable_world : world (E := durable * ()) :=
  {| ld := mid_recovery; env := (demo_start, ()); log := []; last_refused := None; message_counts := ∅ |}.

Definition durable_run : world (E := durable * ()) * result () :=
  _process_data_message "discogsography" demo_repr (λ _ d, Ok d) batched_settings (Ok (JObj terminal_body)) "artists" durable_world.

Lemma acked_terminal_in_latch_witness :
  log durable_run.1 = [Flushed true; Purged true; DurableCommitted true; Acked true] ∧
  signal_in_latch demo_repr "artists" (JStr "20240101") (env durable_run.1).1.
Proof.
  assert (log durable_run.1 = [Flushed true; Purged true; DurableCommitted true; Acked true]) as Hlog
    by (vm_compute; reflexivity).
  split; [exact Hlog|].
  destruct (acked_terminal_in_latch demo_repr 5 (λ _, false) "discogsography" (λ _ d, Ok d) batched_settings "artists"
    terminal_body durable_world durable_run.1 durable_run.2 (surjective_pairing _) eq_refl eq_refl eq_refl)
    as (seg & Hseg & Hall).
  rewrite Hlog in Hseg. simpl in Hseg. subst seg. apply (Hall true). set_solver.
Defined.
