(* ===== verification/Stored.v ===== *)
(** * Stored: records acknowledged without batches

    What the message handler of [Handler] promises about the catalog when it writes records one
    by one.  The class [RecordTable] says what it needs of its environment: that the record
    operation is the transaction of [Entities], and that the shared delivery runner
    acknowledges only after the operation it was given answered so. *)

From S2P Require Import Prelude Json Runtime Contract Identity Derivation GraphWriter GraphEffect Entities Mirror Latch Durable Batch Consumers Handler Terminal.

(** ** The interface *)

Class RecordTable (E : Type) `{Backend E} `{CommonRuntime} {IS : IdentityService} (key_of : string → row → list val) := {
  catalog : E → @store IS;
  now_of : E → Z;
  record_persists data_type id d e e' outcome :
    db_persist_record data_type (JStr id) d e = (e', Ok outcome) →
    persist_record key_of (now_of e) data_type id d (catalog e) = (catalog e', Ok outcome);
  (** one call of the operation, on the catalog as it is, and a settlement that leaves it *)
  runner_acks persist e e' r :
    run_delivery persist e = (e', Ok r) → r_settlement r = ACK →
    ∃ e0 e1 r1, catalog e0 = catalog e ∧ persist e0 = (e1, Ok r1) ∧ r_settlement r1 = ACK ∧ catalog e' = catalog e1;
}.

(** A record's row after the transaction: its text hash, its native id, its media block. *)
Lemma record_row_of `{CommonRuntime} {IS : IdentityService} now data_type sha d n old :
  (∀ e, old = Some e → hash e ≠ None) →
  let e := record_row now data_type (Some sha) d n old in
  hash e = Some sha ∧ gm_item_id e = Some n ∧ (has_media data_type = true → media e ≠ None) ∧ updated_at e = now.
Proof.
  intros Ho. destruct old as [e|]; cbv zeta; cbn [record_row fresh_row merge_row hash gm_item_id media updated_at].
  - specialize (Ho e eq_refl). unfold sql_neq. destruct (hash e) as [h|] eqn:Hh; [|done].
    destruct (decide (h = sha)) as [->|Hne].
    + rewrite !bool_decide_eq_false_2 by congruence. split_and!; try done. intros ->. simpl. by case_bool_decide.
    + rewrite !bool_decide_eq_true_2 by congruence. split_and!; try done. by intros ->.
  - split_and!; try done. by intros ->.
Qed.

#[local] Notation "'let*' x ':=' c 'in' k" := (mbnd c (λ x, k)) (at level 10, x name, c at level 100, k at level 200).

Section stored.
Context {E : Type} {key_of : string → row → list val} `{RecordTable E key_of}.
Context (prefix : string) (py_repr : json → string) (normalize_record : string → dict → result dict) (cfg : settings).

(** Records go one by one: no batch mode, or no processor. *)
Definition one_by_one : bool := negb (batch_mode cfg && has_batch_processor cfg).

Definition is_record (id : string) (data : dict) : Prop :=
  json_is (jget "type" data) "file_complete" = false ∧ json_is (jget "type" data) "extraction_complete" = false ∧
  jget "id" data = JStr id ∧ id ≠ "".

(** Up to its delivery a record only re-arms its type: it is normalized, or rejected. *)
Lemma record_unfold data_type id data w :
  one_by_one = true → is_record id data → shutdown_requested (ld w) = false →
  _process_data_message prefix py_repr normalize_record cfg (Ok (JObj data)) data_type w =
  match normalize_record data_type data with
  | Ok d => deliver cfg data_type (JStr id) d (rearm data_type w)
  | Raise e => if is_exception e then (let* _ := nack false in ret ()) (rearm data_type w) else (rearm data_type w, Raise e)
  end.
Proof.
  intros Hmode (Hf & Hx & Hid & Hne) Hrun. rewrite process_unfold by done. unfold try_except.
  assert (handle prefix py_repr normalize_record cfg (Ok (JObj data)) data_type w =
    (let* normalized := lift (normalize_record data_type data) in ret (Some (JStr id, normalized))) (rearm data_type w)) as ->.
  { unfold handle, lift, ret, modify. unfold mbnd at 1 2 3. rewrite Hf, Hx, Hid. cbn [orb].
    assert (truthy (JStr id) = true) as -> by (by destruct id). cbn [negb].
    unfold one_by_one in Hmode. by destruct (_ && has_batch_processor cfg). }
  unfold mbnd, lift, ret. destruct (normalize_record data_type data) as [d|e]; [done|].
  destruct (is_exception e); [|done]. by destruct (nack false (rearm data_type w)) as [w1 [[]|x]].
Qed.

(** The one record operation behind an acknowledged delivery. *)
Lemma delivered_persisted data_type id d w w' r seg :
  deliver cfg data_type (JStr id) d w = (w', r) → log w' = log w ++ seg → Delivered ACK ∈ seg →
  ∃ e0 outcome, catalog e0 = catalog (env w) ∧
    persist_record key_of (now_of e0) data_type id d (catalog e0) = (catalog (env w'), Ok outcome).
Proof.
  unfold deliver, mbnd, query. destruct (run_delivery (persist cfg data_type (JStr id) d) (env w)) as [e [res|ex]] eqn:Er; cbn.
  2: { intros [= <- _]. cbn. intros Hl. assert (seg = []) as -> by (by apply (app_inv_head (log w)); rewrite app_nil_r).
       by intros ?%elem_of_nil. }
  intros Hd Hlog Hin. assert (r_settlement res = ACK ∧ env w' = e) as [Hack ->].
  { destruct (r_settlement res); injection Hd as <- _; cbn in Hlog; apply (app_inv_head (log w)) in Hlog; subst seg;
      by apply list_elem_of_singleton in Hin. }
  destruct (runner_acks _ _ _ _ Er Hack) as (e0 & e1 & r1 & Hc0 & Hp & Hr1 & ->). exists e0.
  unfold persist in Hp. destruct (_ || _); [done|].
  destruct (db_persist_record data_type (JStr id) d e0) as [e2 [outcome|ex]] eqn:Edb; [|done].
  injection Hp as <- <-. exists outcome. split; [done|]. by apply record_persists.
Qed.

(** C7 Without batches too, a record that is acknowledged is stored.  When the shared runner
    acknowledged the delivery of a record, the document's row is the one the transaction
    leaves for its normalized content: that content's hash, a native id, its media block, and
    its data unless the row already had the hash.  And the graph mirrors the document
    afterwards if it did before or if the content was new. *)
Theorem direct_record_stored data_type id data w w' r :
  _process_data_message prefix py_repr normalize_record cfg (Ok (JObj data)) data_type w = (w', r) →
  one_by_one = true → is_record id data → shutdown_requested (ld w) = false → hashed (catalog (env w)) →
  ∃ seg, log w' = log w ++ seg ∧
    (Delivered ACK ∈ seg →
     ∃ d, normalize_record data_type data = Ok d ∧
       ∀ sha, jget_default "sha256" (JStr "") d = JStr sha →
         let old := table_of (catalog (env w)) data_type !! id in
         (∃ e, table_of (catalog (env w')) data_type !! id = Some e ∧
            hash e = Some sha ∧ is_Some (gm_item_id e) ∧ (has_media data_type = true → media e ≠ None) ∧
            Some (Entities.data e) = if content_changed (Some sha) old then Some d else Entities.data <$> old) ∧
         (key_names_document key_of → well_keyed key_of (graph (catalog (env w))) →
          mirrored key_of data_type id (catalog (env w)) ∨ content_changed (Some sha) old = true →
          mirrored key_of data_type id (catalog (env w')))).
Proof.
  intros Hp Hmode Hrec Hrun Hhashed. rewrite (record_unfold _ _ _ _ Hmode Hrec Hrun) in Hp.
  destruct (normalize_record data_type data) as [d|x].
  - destruct (deliver_emits cfg data_type (JStr id) d (rearm data_type w)) as (seg & Hlog & _). rewrite Hp in Hlog.
    exists seg. split; [exact Hlog|]. intros Hin. exists d. split; [done|]. intros sha Hsha old.
    destruct (delivered_persisted _ _ _ _ _ _ _ Hp Hlog Hin) as (e0 & outcome & Hc0 & Hpers).
    change (env (rearm data_type w)) with (env w) in Hc0. rewrite Hc0 in Hpers.
    pose proof (record_committed _ _ _ _ _ _ _ _ Hpers) as (sha' & n & adb & gr & Hparam & Hst & Hgr).
    unfold sha_param in Hparam. rewrite Hsha in Hparam. injection Hparam as <-. fold old in Hst, Hgr.
    assert (∀ e, old = Some e → hash e ≠ None) as Hold by (intros e; apply Hhashed).
    split.
    + exists (record_row (now_of e0) data_type (Some sha) d n old). rewrite Hst, table_of_insert, lookup_insert_eq.
      destruct (record_row_of (now_of e0) data_type sha d n old Hold) as (Hh1 & Hn1 & Hmed & _).
      split; [done|]. split; [done|]. split; [by eexists|]. split; [done|]. by apply record_row_data.
    + intros Hkeys Hkeyed Hm.
      destruct (record_wrote key_of _ _ _ _ _ _ _ Hhashed (ex_intro _ sha Hsha) Hpers) as [(docs & Hwr) _].
      destruct Hm as [Hm|Hch]; [by eapply wrote_step|].
      rewrite Hch in Hgr. eapply (wrote_mirrored key_of data_type [(id, d)]); [|done|by left].
      split; [apply NoDup_singleton|]. rewrite Hst. split; [exact Hgr|]. split; [intros; apply table_of_other|].
      rewrite table_of_insert. split.
      * intros i f [= -> ->]%list_elem_of_singleton. rewrite lookup_insert_eq. cbn [fmap option_fmap option_map].
        rewrite record_row_data by done. by rewrite Hch.
      * intros i Hi. rewrite lookup_insert_ne; [done|]. intros ->. destruct Hi. by left.
  - destruct (is_exception x); [|injection Hp as <- <-; exists []; rewrite app_nil_r; split; [done|by intros ?%elem_of_nil]].
    destruct (nack_emits false (rearm data_type w)) as (seg & Hlog & -> & _). unfold mbnd in Hp.
    destruct (nack false (rearm data_type w)) as [w1 [[]|y]]; injection Hp as <- <-;
      (eexists; split; [exact Hlog|by intros ?%list_elem_of_singleton]).
Qed.
End stored.

(** ** A catalog beside an environment *)

(** A runner that calls the operation once and settles by what it answered. *)
Definition run_once {E} (operation : E → E * result DeliveryResult) (e : E) : E * result DeliveryResult :=
  let '(e, r) := operation e in
  (e, Ok (match r with
          | Ok res => res
          | Raise _ => {| r_settlement := REQUEUE; r_outcome := "requeued"; r_error_type := None |}
          end)).

Section catalog.
Context {B : Type} `{Backend B} `{CommonRuntime} {IS : IdentityService} (key_of : string → row → list val) (now : Z)
  (outage : B → bool).

#[export] Instance with_catalog : Backend (@store IS * B) := {|
  msg_ack := on_rest msg_ack;
  msg_nack requeue := on_rest (msg_nack requeue);
  bp_flush_queue d := on_rest (bp_flush_queue d);
  bp_add_message d data := on_rest (bp_add_message d data);
  bp_had_dlq_nacks d x := bp_had_dlq_nacks d x.2;
  bp_reset_dlq_nacks d x := (x.1, bp_reset_dlq_nacks d x.2);
  passive_count name := on_rest (passive_count name);
  db_purge_was_vetoed v d := on_rest (db_purge_was_vetoed v d);
  db_record_purge_veto v d := on_rest (db_record_purge_veto v d);
  db_consecutive_purge_vetoes d := on_rest (db_consecutive_purge_vetoes d);
  db_purge_stale_rows d s c := on_rest (db_purge_stale_rows d s c);
  db_record_durable_signal v d := on_rest (db_record_durable_signal v d);
  db_record_extraction_signal v d := on_rest (db_record_extraction_signal v d);
  db_refresh_derived_relations v := on_rest (db_refresh_derived_relations v);
  db_persist_record data_type id d x :=
    match id with
    | JStr id => if outage x.2 then (x, Raise DatabaseUnavailableError)
                 else let '(st, r) := persist_record key_of now data_type id d x.1 in ((st, x.2), r)
    | _ => (x, Raise TypeError)
    end;
  pause_cancel x := pause_cancel x.2;
  pause_closing x := pause_closing x.2;
  run_delivery operation := run_once operation;
|}.

#[export] Instance catalog_stores : RecordTable (@store IS * B) key_of.
Proof.
  refine {| catalog x := x.1; now_of _ := now |}.
  - intros data_type id d [st b] x' outcome. cbn. destruct (outage b); [done|].
    destruct (persist_record _ _ _ _ _ _) as [st' r] eqn:Ep. by intros [= <- ->].
  - intros operation x x' r. cbn. unfold run_once. destruct (operation x) as [x1 [res|e]] eqn:Eo; intros [= <- <-]; [|done].
    intros Hack. exists x, x1, res. by rewrite Eo.
Defined.
End catalog.

(** ** A concrete run *)

Definition direct_settings : settings :=
  {| batch_mode := false; has_batch_processor := false; has_pool := true; has_latch := true; has_admission := true;
     cancel_delay := 300 |}.

#[local] Instance demo_catalog : Backend (@store sample_identity * ()) :=
  with_catalog (H0 := sample_runtime) whole_row_key 10 (λ _, false).
#[local] Instance demo_catalog_stores : RecordTable (H0 := sample_runtime) (@store sample_identity * ()) whole_row_key :=
  catalog_stores whole_row_key 10 (λ _, false).

Definition direct_world : world (E := @store sample_identity * ()) :=
  {| ld := inline_loader; env := (empty_store, ()); log := []; last_refused := None; message_counts := ∅ |}.

Definition direct_run : world (E := @store sample_identity * ()) * result () :=
  _process_data_message "discogsography" (λ _, "") (λ _ d, Ok d) direct_settings
    (Ok (JObj (("id", JStr "7") :: payload jazz_release))) "releases" direct_world.

Lemma direct_record_stored_witness :
  ∃ e, table_of (env direct_run.1).1 "releases" !! "7" = Some e ∧ hash e = Some "aa".
Proof.
  assert (is_record "7" (("id", JStr "7") :: payload jazz_release)) as Hrec by (split_and!; [reflexivity..|discriminate]).
  assert (hashed (catalog (env direct_world))) as Hh0 by exact empty_hashed.
  destruct (direct_record_stored (key_of := whole_row_key) "discogsography" (λ _, "") (λ _ d, Ok d) direct_settings "releases" "7"
    (("id", JStr "7") :: payload jazz_release) direct_world direct_run.1 direct_run.2 (surjective_pairing _) eq_refl Hrec eq_refl
    Hh0) as (seg & Hlog & Hstored).
  assert (log direct_run.1 = [Delivered ACK]) as Hl by (vm_compute; reflexivity). rewrite Hl in Hlog. simpl in Hlog. subst seg.
  destruct (Hstored ltac:(by left)) as (d & [= <-] & Hd). destruct (Hd "aa" eq_refl) as [(e & He & Hh & _) _].
  exists e. split; [exact He|exact Hh].
Defined.
