(* ===== verification/Lifecycle.v ===== *)
(** * Lifecycle: startup, shutdown and health of [tableinator.py]

    [main] around its event loop: what it builds and in which order until it consumes, what
    it releases when it stops, and the status it reports meanwhile.  The environment it reads
    and its exit status are in [Service], the steps of its background tasks in [Consumers],
    [Durable] and [Service], their teardown and the health payload in [Shutdown].  The health
    server and log lines are not modelled. *)

From S2P Require Import Prelude Json Contract Latch Durable Batch Consumers Handler.
From Stdlib Require Import SpecFloat.

(** ** State *)

Record service := {
  sv : loader;
  (** [connection_pool] is set *)
  pool : bool;
  (** the budget of [write_admission] *)
  admission : option Z;
}.

Definition set_sv (l : loader) (s : service) : service := {| sv := l; pool := pool s; admission := admission s |}.

(** ** Shutdown *)

(** [close_database_after_broker_drain]; [drained] is the answer of the admission budget. *)
Definition close_database_after_broker_drain (a : closing) (drained : bool) (pool_close : result ()) (s : service)
    : service * bool :=
  match _close_recovery_broker a (tr (sv s)) with
  | (t, false) => (set_sv (set_tr t (sv s)) s, false)
  | (t, true) =>
      let s := set_sv (set_tr t (sv s)) s in
      if bool_decide (is_Some (admission s)) && negb drained then (s, false)
      else if pool s && negb (is_ok pool_close) then (s, false)
      else ({| sv := sv s; pool := false; admission := None |}, true)
  end.

Record stopping := {
  sp_cancel : string → bool;
  sp_reset : closing;
  sp_close : closing;
  sp_drained : bool;
  sp_pool_close : result ();
}.

(** The [finally] of [main]: cancel, close an uncertain transport, then release the database.
    The tasks it stops in between do not touch this state once they are awaited. *)
Definition stop (a : stopping) (s : service) : service * bool :=
  let l := cancel_all_consumers (sp_cancel a) (sv s) in
  let l := if cancellation_failed (tr l) then set_tr (_reset_durable_broker (sp_reset a) (tr l)).1 l else l in
  close_database_after_broker_drain (sp_close a) (sp_drained a) (sp_pool_close a) (set_sv l s).

(** ** Startup *)

Definition lower_ascii (c : ascii) : ascii :=
  let n := N_of_ascii c in if ((65 <=? n) && (n <=? 90))%N then ascii_of_N (n + 32) else c.

Fixpoint lower (s : string) : string :=
  match s with EmptyString => EmptyString | String c s => String (lower_ascii c) (lower s) end.

(** [os.environ.get("DERIVED_REFRESH_MODE", "durable").lower() != "inline"]: lowering a
    character outside ASCII gives none of these letters. *)
Definition durable_mode (setting : option string) : bool :=
  negb (bool_decide (lower (default "durable" setting) = "inline")).

Inductive boot_outcome :=
  (** consuming, or paused behind the durable gate *)
  | Running
  (** a shutdown was requested before the broker answered *)
  | Stopped
  (** [StartupFailure] *)
  | Refused
  | Crashed (e : exn).

(** The answers while the service starts. *)
Record booting := {
  (** the configured pool size *)
  bt_config : result Z;
  bt_mode : option string;
  bt_new_pool : result ();
  bt_init_pool : result ();
  bt_probe_latch : result ();
  bt_probe_durable : result bool;
  (** the legacy reconciliation and the first health read *)
  bt_reconcile : result ();
  bt_batch_mode : bool;
  bt_stall_s : spec_float;
  bt_max_hold_s : spec_float;
  (** [batch_config] and the processor's construction *)
  bt_policy : result ();
  (** before attempt [i]: is a shutdown requested; and its answer *)
  bt_stopping : nat → bool;
  bt_connect : nat → result ();
  bt_broker : recovering;
}.

(** An [Exception] becomes a [StartupFailure]. *)
Definition refusal (e : exn) : boot_outcome := if is_exception e then Refused else Crashed e.

(** The durable gate as startup leaves it. *)
Definition boot_gate (a : booting) (g : gate) : result gate :=
  if durable_active g then
    let! probed := bt_probe_durable a in
    let! ready :=
      if probed then match bt_reconcile a with
                     | Ok _ => Ok true
                     | Raise e => if is_exception e then Ok false else Raise e
                     end
      else Ok false in
    Ok {| durable_active := true; ready := ready; paused := paused g || negb ready;
          recovery_signals := recovery_signals g;
          resume_types := if ready then resume_types g else resume_types g ∪ list_to_set DATA_TYPES |}
  else Ok g.

(** From the configuration to the durable gate: [None] when startup goes on. *)
Definition boot_database (a : booting) (s : service) : service * option boot_outcome :=
  match bt_config a with
  | Raise e => (s, Some (if bool_decide (e = ValueError) then Refused else Crashed e))
  | Ok pool_max =>
      if pool s || bool_decide (is_Some (admission s)) then (s, Some Refused)
      else
        let g := gt (sv s) in
        let durable := durable_mode (bt_mode a) in
        let s := set_sv (set_gt {| durable_active := durable; ready := ready g; paused := paused g;
                                   recovery_signals := recovery_signals g; resume_types := resume_types g |} (sv s)) s in
        match writer_admission_capacity (JInt pool_max) (JBool durable) with
        | Raise _ => (s, Some Refused)
        | Ok capacity =>
            match bt_new_pool a with
            | Raise e => (s, Some (refusal e))
            | Ok _ =>
                let s := {| sv := sv s; pool := true; admission := None |} in
                match bt_init_pool a with
                | Raise e => (s, Some (refusal e))
                | Ok _ =>
                    let s := {| sv := sv s; pool := true; admission := Some capacity |} in
                    match bt_probe_latch a with
                    | Raise e => (s, Some (refusal e))
                    | Ok _ =>
                        match boot_gate a (gt (sv s)) with
                        | Raise e => (s, Some (refusal e))
                        | Ok g => (set_sv (set_gt g (sv s)) s, None)
                        end
                    end
                end
            end
        end
  end.

(** The stall bound fails startup; a batch policy that is refused is not caught. *)
Definition boot_batch (a : booting) : option boot_outcome :=
  if bt_batch_mode a then
    match validate_stall_s (bt_stall_s a) (Some (bt_max_hold_s a)) with
    | Raise e => Some (if bool_decide (e = ValueError) then Refused else Crashed e)
    | Ok _ => match bt_policy a with Ok _ => None | Raise e => Some (Crashed e) end
    end
  else None.

Definition max_startup_retries : nat := 5.

(** The connection loop, with [left] attempts to go before attempt [i]. *)
Fixpoint boot_connect (a : booting) (left i : nat) : option boot_outcome :=
  match left with
  | O => Some Refused
  | Datatypes.S left' =>
      if bt_stopping a i then Some Stopped
      else match bt_connect a i with
           | Ok _ => None
           | Raise e =>
               if is_exception e then (if Nat.eqb left' 0 then Some Refused else boot_connect a left' (i + 1))
               else Some (Crashed e)
           end
  end.

(** [for data_type in DATA_TYPES: consumer_tags[data_type] = await _start_consumer(data_type)] *)
Definition start_all (start : string → starting) (t : transport) : transport * result () :=
  foldl (λ '(t, r) d, match r with Ok _ => start_tagged (start d) d t | Raise e => (t, Raise e) end) (t, Ok ()) DATA_TYPES.

Definition boot_broker (a : booting) (s : service) : service * boot_outcome :=
  let l := sv s in
  let t := set_connected true (channel (tr l)) (tr l) in
  match rc_channel (bt_broker a) with
  | Raise e => (set_sv (set_tr t l) s, Crashed e)
  | Ok _ =>
      let t := set_connected true true t in
      match rc_qos (bt_broker a) with
      | Raise e => (set_sv (set_tr t l) s, Crashed e)
      | Ok _ =>
          match redeclare (bt_broker a) t with
          | (t, Raise e) => (set_sv (set_tr t l) s, Crashed e)
          | (t, Ok _) =>
              if negb (durable_active (gt l)) || ready (gt l) then
                let '(t, r) := start_all (rc_start (bt_broker a)) t in
                (set_sv (set_tr t l) s, match r with Ok _ => Running | Raise e => Crashed e end)
              else (set_sv (set_tr t l) s, Running)
          end
      end
  end.

Definition boot (a : booting) (s : service) : service * boot_outcome :=
  match boot_database a s with
  | (s, Some o) => (s, o)
  | (s, None) =>
      match boot_batch a with
      | Some o => (s, o)
      | None =>
          match boot_connect a max_startup_retries 0 with
          | Some o => (s, o)
          | None => boot_broker a s
          end
      end
  end.

(** ** Health *)

Section health.
Context (counts : list (string * Z)) (last_times : list (string * spec_float)) (now : spec_float).

(** The types whose batches do not settle, with their age; and the refresh's own status. *)
Context (stalls : list (string * spec_float)) (refresh_status : option string).

Definition recent (dt : string * spec_float) : bool :=
  SFltb (b64 0) dt.2 && SFltb (SFsub 53 1024 now dt.2) (b64 10).

Definition is_stuck (l : loader) : bool :=
  no_tags (tr l) && Nat.ltb (size (completed_files l)) (length DATA_TYPES) && existsb (λ c, 0 <? c.2) counts.

Definition active_task (s : service) : option string :=
  let l := sv s in
  let task := match List.find recent last_times with
              | Some (d, _) => Some ("Processing " +:+ d)
              | None => if no_tags (tr l) then None else Some "Idle - waiting for messages"
              end in
  let task := if is_stuck l then Some "STUCK - consumers died, awaiting recovery" else task in
  let task := if bool_decide (stalls = []) then task else Some "STALLED - batches are not settling" in
  if negb (pool s) && no_tags (tr l) && forallb (λ c, c.2 =? 0) counts
  then Some "Initializing PostgreSQL connection" else task.

Definition health_status (s : service) : string :=
  let l := sv s in
  if negb (pool s) then
    if no_tags (tr l) && forallb (λ c, c.2 =? 0) counts then "starting" else "unhealthy"
  else if is_stuck l || negb (bool_decide (stalls = [])) || cancellation_failed (tr l)
          || (durable_active (gt l) && (negb (ready (gt l)) || bool_decide (refresh_status = Some "degraded")))
  then "unhealthy" else "healthy".

Definition derived_relation_refresh (has_latch : bool) (s : service) : string :=
  let g := gt (sv s) in
  if durable_active g then (if negb (ready g) then "degraded" else default "starting" refresh_status)
  else if has_latch then "enabled" else "degraded".
End health.

(** ** What startup and shutdown promise *)

Lemma close_database_cases a drained pool_close s s' ok :
  close_database_after_broker_drain a drained pool_close s = (s', ok) →
  if ok
  then pool s' = false ∧ admission s' = None ∧ (is_Some (admission s) → drained = true) ∧
       tags (tr (sv s')) = [] ∧ connection (tr (sv s')) = false ∧ channel (tr (sv s')) = false ∧ channels (tr (sv s')) = ∅
  else pool s' = pool s ∧ admission s' = admission s.
Proof.
  unfold close_database_after_broker_drain.
  destruct (_close_recovery_broker a (tr (sv s))) as [t [|]] eqn:E; [|by intros [= <- <-]].
  apply close_cases in E as (_ & Ht & _ & Hc & Hch & Hchs).
  destruct (bool_decide (is_Some (admission s)) && negb drained) eqn:Hd; cbn [admission set_sv] in *.
  { rewrite Hd. by intros [= <- <-]. }
  rewrite Hd. cbn [pool set_sv]. destruct (pool s && negb (is_ok pool_close)); intros [= <- <-]; [done|].
  split_and!; try done. intros Ha. rewrite bool_decide_eq_true_2 in Hd by done. by destruct drained.
Qed.

Lemma boot_database_refuses a s :
  pool s = true ∨ is_Some (admission s) → (boot_database a s).1 = s ∧ (boot_database a s).2 ≠ None.
Proof.
  intros Hp. unfold boot_database. destruct (bt_config a); [|done].
  assert (pool s || bool_decide (is_Some (admission s)) = true) as ->; [|done].
  destruct Hp as [->|Ha]; [done|]. by rewrite bool_decide_eq_true_2, orb_true_r.
Qed.

Lemma start_all_tags start ds t t' :
  foldl (λ '(t, r) d, match r with Ok _ => start_tagged (start d) d t | Raise e => (t, Raise e) end) (t, Ok ()) ds
    = (t', Ok ()) →
  (∀ d, d ∈ (tags t).*1 → d ∈ (tags t').*1) ∧ (∀ d, d ∈ ds → d ∈ (tags t').*1) ∧ queues t ⊆ queues t'.
Proof.
  induction ds as [|d ds IH] in t |- *; cbn [foldl]; intros Hf.
  { injection Hf as <-. split_and!; [done|set_solver|done]. }
  destruct (start_tagged (start d) d t) as [t1 [[]|e]] eqn:Es.
  - apply start_tagged_ok in Es as [Hq [tag Htags]]. destruct (IH t1 Hf) as (H1 & H2 & H3).
    assert (∀ x, x = d ∨ x ∈ (tags t).*1 → x ∈ (tags t').*1) as Hkeep.
    { intros x Hx. apply H1. rewrite Htags. by apply od_set_keys_in. }
    split_and!; [auto| |by etrans]. intros x [->|Hx]%elem_of_cons; auto.
  - exfalso. clear -Hf. induction ds as [|x ds IH]; simpl in Hf; [done|]. by apply IH.
Qed.

Lemma redeclare_tags a t t' r : redeclare a t = (t', r) → tags t' = tags t.
Proof.
  unfold redeclare. cbn [DATA_TYPES ENTITY_TYPES foldl].
  repeat (destruct (rc_declare a _); [|by intros [= <- _]]). by intros [= <- _].
Qed.

Lemma boot_gate_keeps a g g' :
  boot_gate a g = Ok g' → paused g = false →
  durable_active g' = durable_active g ∧
  (gate_closed g' = true → durable_active g' = true ∧ ready g' = false ∧ ∀ d, d ∈ DATA_TYPES → d ∈ resume_types g') ∧
  (gate_closed g' = false → negb (durable_active g') || ready g' = true).
Proof.
  assert (∀ d, d ∈ DATA_TYPES → d ∈ resume_types g ∪ (list_to_set DATA_TYPES : gset string)) as Hall
    by (intros d Hd; by apply elem_of_union_r, elem_of_list_to_set).
  unfold boot_gate, gate_closed. revert Hall. generalize (list_to_set DATA_TYPES : gset string). intros types Hall.
  destruct (durable_active g) eqn:Hd; [|by intros [= <-]; rewrite Hd].
  destruct (bt_probe_durable a) as [[|]|e]; simpl; [| |done].
  - destruct (bt_reconcile a) as [[]|e]; simpl.
    + intros [= <-] ->. done.
    + destruct (is_exception e); simpl; [|done]. intros [= <-] _. simpl. by rewrite orb_true_r.
  - intros [= <-] _. simpl. by rewrite orb_true_r.
Qed.

(** What startup leaves when it goes on past the database. *)
Lemma boot_database_ready a s s' :
  boot_database a s = (s', None) → paused (gt (sv s)) = false →
  pool s' = true ∧
  (∃ p n, bt_config a = Ok p ∧ writer_admission_capacity (JInt p) (JBool (durable_mode (bt_mode a))) = Ok n ∧ admission s' = Some n) ∧
  tr (sv s') = tr (sv s) ∧ durable_active (gt (sv s')) = durable_mode (bt_mode a) ∧
  (gate_closed (gt (sv s')) = true →
     durable_active (gt (sv s')) = true ∧ ready (gt (sv s')) = false ∧ ∀ d, d ∈ DATA_TYPES → d ∈ resume_types (gt (sv s'))) ∧
  (gate_closed (gt (sv s')) = false → negb (durable_active (gt (sv s'))) || ready (gt (sv s')) = true).
Proof.
  unfold boot_database. destruct (bt_config a) as [p|]; [|done]. destruct (_ || _); [done|]. intros Hb Hp.
  destruct (writer_admission_capacity _ _) as [n|] eqn:Hn; [|done].
  destruct (bt_new_pool a); [|done]. destruct (bt_init_pool a); [|done]. destruct (bt_probe_latch a); [|done].
  destruct (boot_gate a _) as [g|] eqn:Hg; [|done]. injection Hb as <-.
  apply boot_gate_keeps in Hg as (Hd & H1 & H2); [|done].
  cbn [sv set_sv tr gt set_gt pool admission durable_active] in *. split_and!; eauto.
Qed.

Lemma boot_broker_running a s s' :
  boot_broker a s = (s', Running) →
  gt (sv s') = gt (sv s) ∧ pool s' = pool s ∧ admission s' = admission s ∧
  (∀ d, d ∈ DATA_TYPES → d ∈ queues (tr (sv s'))) ∧
  if negb (durable_active (gt (sv s))) || ready (gt (sv s))
  then ∀ d, d ∈ DATA_TYPES → d ∈ (tags (tr (sv s'))).*1
  else tags (tr (sv s')) = tags (tr (sv s)).
Proof.
  unfold boot_broker. destruct (rc_channel _); [|done]. destruct (rc_qos _); [|done].
  destruct (redeclare _ _) as [t [[]|e]] eqn:Hr; [|done].
  pose proof (redeclare_queues _ _ _ Hr) as Hq. apply redeclare_tags in Hr.
  destruct (negb _ || _) eqn:Hgate.
  - unfold start_all. destruct (foldl _ _ _) as [t' [[]|e]] eqn:Hf; [|done]. intros [= <-].
    apply start_all_tags in Hf as (_ & Ht & Hsub). cbn [sv set_sv gt set_tr tr]. split_and!; try done. set_solver.
  - intros [= <-]. cbn [sv set_sv gt set_tr tr]. by split_and!.
Qed.

(** C26 A service that comes up consumes everything or nothing.  Startup ends running only
    with the pool open and a writer budget of at least one connection, three less than the
    pool when the refresh is durable, and all four queues declared.  If the durable schema
    was not ready the gate is closed, nothing is consumed and every type waits to be
    resumed; otherwise all four types are consumed. *)
Theorem boot_consumes_all_or_nothing a s s' :
  boot a s = (s', Running) → tags (tr (sv s)) = [] → paused (gt (sv s)) = false →
  pool s' = true ∧
  (∃ p n, bt_config a = Ok p ∧ admission s' = Some n ∧ 1 <= n ∧ n = p - (if durable_mode (bt_mode a) then 3 else 0)) ∧
  (∀ d, d ∈ DATA_TYPES → d ∈ queues (tr (sv s'))) ∧
  if gate_closed (gt (sv s'))
  then tags (tr (sv s')) = [] ∧ ∀ d, d ∈ DATA_TYPES → d ∈ resume_types (gt (sv s'))
  else ∀ d, d ∈ DATA_TYPES → d ∈ (tags (tr (sv s'))).*1.
Proof.
  unfold boot. destruct (boot_database a s) as [s1 [o|]] eqn:Hdb; intros Hb Ht Hp.
  { exfalso. injection Hb as <- ->. revert Hdb. unfold boot_database, refusal.
    repeat case_match; by intros [=]. }
  apply boot_database_ready in Hdb as (Hpool & (p & n & Hc & Hn & Ha) & Htr & Hd & Hclosed & Hopen); [|done].
  destruct (boot_batch a) as [o|] eqn:Hbatch.
  { exfalso. injection Hb as <- ->. revert Hbatch. unfold boot_batch. repeat case_match; by intros [=]. }
  destruct (boot_connect a max_startup_retries 0) as [o|] eqn:Hconn.
  { exfalso. injection Hb as <- ->. revert Hconn. generalize max_startup_retries, 0%nat.
    induction n0 as [|left IH]; intros i; simpl; [done|]. repeat case_match; try done. apply IH. }
  apply boot_broker_running in Hb as (Hg & Hp' & Ha' & Hq & Htags). rewrite Hg, Hp', Ha'.
  split; [done|]. split; [|split; [done|]].
  - revert Hn. unfold writer_admission_capacity, _DURABLE_REFRESH_RESERVED_CONNECTIONS.
    destruct (p <=? 0); [done|]. destruct (_ <=? 0) eqn:E; intros [= <-]. exists p. eexists. split_and!; [done|done|lia|done].
  - destruct (gate_closed (gt (sv s1))) eqn:Hgc.
    + destruct (Hclosed eq_refl) as (H1 & H2 & H3). rewrite H1, H2 in Htags. simpl in Htags.
      rewrite Htags, Htr. by split.
    + by rewrite (Hopen eq_refl) in Htags.
Qed.

(** C24 Two lifespans never share the database.  After a shutdown of a service that had a pool
    or a writer budget, the next startup comes up only if that shutdown confirmed
    everything: the transport closed with no consumer and no channel left, every delivery
    callback drained, and pool and budget released together. *)
Theorem lifespans_never_overlap a b s s1 ok s2 :
  stop a s = (s1, ok) → boot b s1 = (s2, Running) → pool s = true ∨ is_Some (admission s) →
  ok = true ∧ pool s1 = false ∧ admission s1 = None ∧ (is_Some (admission s) → sp_drained a = true) ∧
  tags (tr (sv s1)) = [] ∧ connection (tr (sv s1)) = false ∧ channel (tr (sv s1)) = false ∧ channels (tr (sv s1)) = ∅.
Proof.
  intros Hstop Hboot Hhad. apply close_database_cases in Hstop. cbn [pool admission set_sv] in Hstop.
  destruct ok; [tauto|]. exfalso. destruct Hstop as [Hp Ha]. rewrite <-Hp, <-Ha in Hhad.
  destruct (boot_database_refuses b s1 Hhad) as [_ Hr]. revert Hboot. unfold boot.
  destruct (boot_database b s1) as [s3 [o|]] eqn:E; [|done]. intros [= <- ->]. revert E.
  unfold boot_database, refusal. repeat case_match; by intros [=].
Qed.

(** ** Concrete runs *)

Definition fresh_service : service :=
  {| sv := {| tr := {| tags := []; queues := ∅; channels := ∅; connection := false; channel := false;
                       cancellation_failed := false; reset_pending := false; active := 0 |};
              gt := {| durable_active := false; ready := false; paused := false; recovery_signals := ∅; resume_types := ∅ |};
              completed_files := ∅; extraction_signalled := ∅; cancel_tasks := ∅; suspected_lost_tags := ∅;
              shutdown_requested := false |};
     pool := false; admission := None |}.

(** Everything succeeds but the first connection; [probed] is the answer of the schema probe. *)
Definition demo_booting (probed : bool) : booting :=
  {| bt_config := Ok 12; bt_mode := None; bt_new_pool := Ok (); bt_init_pool := Ok (); bt_probe_latch := Ok ();
     bt_probe_durable := Ok probed; bt_reconcile := Ok (); bt_batch_mode := true; bt_stall_s := DEFAULT_STALL_S;
     bt_max_hold_s := DEFAULT_MAX_HOLD_S; bt_policy := Ok (); bt_stopping := λ _, false;
     bt_connect := λ i, if Nat.eqb i 0 then Raise DatabaseUnavailableError else Ok (); bt_broker := all_recover |}.

Definition outcome_is_running (o : boot_outcome) : bool := match o with Running => true | _ => false end.

Lemma running_pair a s : outcome_is_running (boot a s).2 = true → boot a s = ((boot a s).1, Running).
Proof. destruct (boot a s) as [s' []]; done. Defined.

Lemma boot_consumes_all_or_nothing_witness :
  tags (tr (sv (boot (demo_booting false) fresh_service).1)) = [] ∧
  ∀ d, d ∈ DATA_TYPES → d ∈ (tags (tr (sv (boot (demo_booting true) fresh_service).1))).*1.
Proof.
  pose proof (boot_consumes_all_or_nothing _ _ _ (running_pair (demo_booting false) fresh_service eq_refl) eq_refl eq_refl)
    as (_ & _ & _ & H1).
  pose proof (boot_consumes_all_or_nothing _ _ _ (running_pair (demo_booting true) fresh_service eq_refl) eq_refl eq_refl)
    as (_ & _ & _ & H2).
  assert (gate_closed (gt (sv (boot (demo_booting false) fresh_service).1)) = true) as G1 by (vm_compute; reflexivity).
  assert (gate_closed (gt (sv (boot (demo_booting true) fresh_service).1)) = false) as G2 by (vm_compute; reflexivity).
  rewrite G1 in H1. rewrite G2 in H2. split; [exact (proj1 H1)|exact H2].
Defined.

Definition demo_stopping : stopping :=
  {| sp_cancel := λ _, true; sp_reset := all_close; sp_close := all_close; sp_drained := true; sp_pool_close := Ok () |}.

Definition running_service : service := (boot (demo_booting true) fresh_service).1.
Definition stopped_service : service := (stop demo_stopping running_service).1.

Lemma lifespans_never_overlap_witness :
  pool running_service = true ∧ pool stopped_service = false ∧ connection (tr (sv stopped_service)) = false.
Proof.
  assert (pool running_service = true) as Hpool by (vm_compute; reflexivity). split; [exact Hpool|].
  destruct (lifespans_never_overlap demo_stopping (demo_booting true) running_service stopped_service
    (stop demo_stopping running_service).2 (boot (demo_booting true) stopped_service).1 (surjective_pairing _)
    (running_pair (demo_booting true) stopped_service eq_refl) (or_introl Hpool)) as (_ & H1 & _ & _ & _ & H2 & _).
  split; [exact H1|exact H2].
Defined.

(** A service that reports itself healthy has its pool, is neither stuck nor stalled, knows
    where its consumers are, and if its refresh is durable can commit a signal. *)
Theorem healthy_can_commit counts stalls refresh_status s :
  health_status counts stalls refresh_status s = "healthy" ↔
  pool s = true ∧ is_stuck counts (sv s) = false ∧ stalls = [] ∧ cancellation_failed (tr (sv s)) = false ∧
  (durable_active (gt (sv s)) = true → ready (gt (sv s)) = true ∧ refresh_status ≠ Some "degraded").
Proof.
  unfold health_status. destruct (pool s); simpl; [|split; [by repeat case_match|naive_solver]].
  destruct (is_stuck counts (sv s)), (bool_decide_reflect (stalls = [])), (cancellation_failed _), (durable_active _),
    (ready _), (bool_decide_reflect (refresh_status = Some "degraded")); simpl; split; try done; naive_solver.
Qed.
