(* ===== verification/Shutdown.v ===== *)
(** * Shutdown: background tasks, their teardown and the health report, [tableinator.py]

    [main] starts its background tasks beside the consumers and, when it stops, takes
    everything down in one order: consumers first, then the tasks, then the batches, and the
    database last.  [Lifecycle.stop] is what that leaves when every task ends as it is asked
    to; here the whole sequence is a log, with what happens when a task has already died.
    The payload of the health endpoint is here too. *)

From S2P Require Import Prelude Json Contract Latch Durable Batch Consumers Handler Lifecycle.
From Stdlib Require Import SpecFloat.

(** ** Tasks *)

Inductive task := Worker | Recovery | Progress | Checker | Flush | Stall.

#[export] Instance task_eq_dec : EqDecision task.
Proof. solve_decision. Defined.

(** What [main] starts; [at_connect] is the gate when the connection is there, [batches] whether
    batch mode has a processor. *)
Definition started_tasks (at_connect : gate) (batches : bool) : list task :=
  (if durable_active at_connect && ready at_connect then [Worker] else []) ++
  (if durable_active at_connect then [Recovery] else []) ++ [Progress; Checker] ++ (if batches then [Flush; Stall] else []).

(** How a task stands when it is cancelled: it ends with the cancellation, or had ended. *)
Inductive ending := Alive | Ended (r : result ()).

(** [task.cancel()] and [with contextlib.suppress(asyncio.CancelledError): await task]. *)
Definition await_cancelled (e : ending) : result () :=
  match e with
  | Alive => Ok ()
  | Ended (Ok _) => Ok ()
  | Ended (Raise x) => if bool_decide (x = OtherError "CancelledError") then Ok () else Raise x
  end.

(** ** The teardown *)

Inductive step :=
  | CancelConsumers
  | ResetBroker
  | StopTask (t : task)
  (** [pool_open] is whether the connection pool is still there *)
  | FlushBatches (pool_open : bool)
  | CancelPending
  | CloseDatabase.

Record tearing := {
  td_stop : stopping;
  td_ending : task → ending;
  td_processor : bool;
  td_flush : result ();
}.

(** The order in which the tasks are stopped. *)
Definition stop_order : list task := [Recovery; Worker; Progress; Checker; Flush; Stall].

(** Each started task in that order, up to one whose own exception comes out of the await. *)
Fixpoint stop_tasks (ending_of : task → ending) (tasks : list task) : list step * result () :=
  match tasks with
  | [] => ([], Ok ())
  | t :: tasks =>
      match await_cancelled (ending_of t) with
      | Ok _ => let '(steps, r) := stop_tasks ending_of tasks in (StopTask t :: steps, r)
      | Raise e => ([StopTask t], Raise e)
      end
  end.

(** An [Exception] of [flush_all] is logged. *)
Definition flush_outcome (flush : result ()) : result () :=
  match flush with Raise e => if is_exception e then Ok () else Raise e | Ok _ => Ok () end.

(** The [finally] of [main]; [started] are the tasks that run, those the recovery started included. *)
Definition teardown (a : tearing) (started : list task) (s : service) : (service * list step) * result bool :=
  let l := cancel_all_consumers (sp_cancel (td_stop a)) (sv s) in
  let '(l, first) :=
    if cancellation_failed (tr l)
    then (set_tr (_reset_durable_broker (sp_reset (td_stop a)) (tr l)).1 l, [CancelConsumers; ResetBroker])
    else (l, [CancelConsumers]) in
  let s := set_sv l s in
  match stop_tasks (td_ending a) (filter (λ t, t ∈ started) stop_order) with
  | (steps, Raise e) => ((s, first ++ steps), Raise e)
  | (steps, Ok _) =>
      let flushed := if td_processor a then [FlushBatches (pool s)] else [] in
      match (if td_processor a then flush_outcome (td_flush a) else Ok ()) with
      | Raise e => ((s, first ++ steps ++ flushed), Raise e)
      | Ok _ =>
          let pending := if bool_decide (cancel_tasks l = ∅) then [] else [CancelPending] in
          let '(s', closed) :=
            close_database_after_broker_drain (sp_close (td_stop a)) (sp_drained (td_stop a)) (sp_pool_close (td_stop a)) s in
          ((s', first ++ steps ++ flushed ++ pending ++ [CloseDatabase]), Ok closed)
      end
  end.

(** ** What the teardown promises *)

Lemma stop_tasks_calm ending_of tasks :
  (∀ t, t ∈ tasks → await_cancelled (ending_of t) = Ok ()) → stop_tasks ending_of tasks = (StopTask <$> tasks, Ok ()).
Proof.
  induction tasks as [|t tasks IH]; intros Hcalm; [done|]. cbn [stop_tasks]. rewrite Hcalm by (by left).
  rewrite IH by (intros; apply Hcalm; by right). done.
Qed.

(** A task that died with an exception of its own ends the teardown there. *)
Lemma stop_tasks_died ending_of tasks e :
  (stop_tasks ending_of tasks).2 = Raise e ↔
  ∃ before t after, tasks = before ++ t :: after ∧ (∀ x, x ∈ before → await_cancelled (ending_of x) = Ok ()) ∧
    await_cancelled (ending_of t) = Raise e ∧ (stop_tasks ending_of tasks).1 = StopTask <$> before ++ [t].
Proof.
  induction tasks as [|t tasks IH]; cbn [stop_tasks].
  { split; [done|]. intros (before & t & after & Heq & _). by destruct before. }
  destruct (await_cancelled (ending_of t)) as [[]|x] eqn:Ht.
  - destruct (stop_tasks ending_of tasks) as [steps r]. cbn [fst snd] in *. rewrite IH. split.
    + intros (before & t' & after & -> & Hb & Hd & ->). exists (t :: before), t', after. split_and!; try done.
      intros y [->|Hy]%elem_of_cons; [done|by apply Hb].
    + intros (before & t' & after & Heq & Hb & Hd & Hs). destruct before as [|y before]; injection Heq as -> ->; [congruence|].
      exists before, t', after. split_and!; try done; [intros z Hz; apply Hb; by right|]. by injection Hs.
  - cbn [fst snd]. split.
    + intros [= ->]. exists [], t, tasks. split_and!; try done. by intros y ?%elem_of_nil.
    + intros (before & t' & after & Heq & Hb & Hd & _). destruct before as [|y before]; injection Heq as -> ->; [congruence|].
      rewrite Hb in Ht by (by left). done.
Qed.

(** The consumers are asked to stop before anything else. *)
Lemma teardown_first a started s : ∃ rest, (teardown a started s).1.2 = CancelConsumers :: rest.
Proof.
  unfold teardown. destruct (cancellation_failed _); destruct (stop_tasks _ _) as [steps [[]|e]]; cbn [fst snd app]; try (by eexists);
    destruct (if td_processor a then _ else _) as [[]|e]; cbn [fst snd app]; try (by eexists);
    destruct (close_database_after_broker_drain _ _ _ _); by eexists.
Qed.

(** How a list of tasks is stopped: all of them, or up to the first whose exception comes out. *)
Lemma stop_tasks_cases ending_of tasks :
  (stop_tasks ending_of tasks = (StopTask <$> tasks, Ok ()) ∧ ∀ t, t ∈ tasks → await_cancelled (ending_of t) = Ok ()) ∨
  (∃ before t after e, tasks = before ++ t :: after ∧ stop_tasks ending_of tasks = (StopTask <$> before ++ [t], Raise e) ∧
     await_cancelled (ending_of t) = Raise e ∧ ∀ x, x ∈ before → await_cancelled (ending_of x) = Ok ()).
Proof.
  destruct (stop_tasks ending_of tasks) as [steps [[]|e]] eqn:E.
  - left. assert (∀ t, t ∈ tasks → await_cancelled (ending_of t) = Ok ()) as Hcalm.
    { revert steps E. induction tasks as [|u tasks IH]; intros steps E t Ht; [by apply elem_of_nil in Ht|]. cbn [stop_tasks] in E.
      destruct (await_cancelled (ending_of u)) as [[]|x] eqn:Hu; [|done].
      destruct (stop_tasks ending_of tasks) as [steps' r] eqn:E'. injection E as <- ->.
      apply elem_of_cons in Ht as [->|Ht]; [done|by eapply IH]. }
    split; [|done]. rewrite (stop_tasks_calm _ _ Hcalm) in E. by rewrite E.
  - right. pose proof (proj1 (stop_tasks_died ending_of tasks e)) as Hd. rewrite E in Hd. cbn [fst snd] in Hd.
    destruct (Hd eq_refl) as (before & t & after & Ht & Hb & He & ->). by exists before, t, after, e.
Qed.

(** Every way the teardown ends. *)
Lemma teardown_cases a started s :
  let '((s', log), r) := teardown a started s in
  let kept := pool s' = pool s ∧ admission s' = admission s in
  ∃ first tasks,
    (first = [CancelConsumers] ∨ first = [CancelConsumers; ResetBroker]) ∧
    tasks = filter (λ t, t ∈ started) [Recovery; Worker; Progress; Checker; Flush; Stall] ∧ (∀ t, t ∈ started → t ∈ tasks) ∧
    ((∃ before t after e, tasks = before ++ t :: after ∧ await_cancelled (td_ending a t) = Raise e ∧
        (∀ x, x ∈ before → await_cancelled (td_ending a x) = Ok ()) ∧
        r = Raise e ∧ log = first ++ (StopTask <$> before ++ [t]) ∧ kept) ∨
     ((∀ t, t ∈ started → await_cancelled (td_ending a t) = Ok ()) ∧
      let flushed := if td_processor a then [FlushBatches (pool s)] else [] in
      ((∃ e, td_processor a = true ∧ td_flush a = Raise e ∧ is_exception e = false ∧
          r = Raise e ∧ log = first ++ (StopTask <$> tasks) ++ flushed ∧ kept) ∨
       (∃ pending, (pending = [] ∨ pending = [CancelPending]) ∧
          log = first ++ (StopTask <$> tasks) ++ flushed ++ pending ++ [CloseDatabase] ∧
          s' = (stop (td_stop a) s).1 ∧ r = Ok (stop (td_stop a) s).2)))).
Proof.
  unfold teardown. set (l := cancel_all_consumers (sp_cancel (td_stop a)) (sv s)).
  assert (∀ t, t ∈ started → t ∈ filter (λ t, t ∈ started) stop_order) as Hall.
  { intros t Ht. apply list_elem_of_filter. split; [done|]. unfold stop_order. destruct t; set_solver. }
  set (pair := if cancellation_failed (tr l) then _ else _).
  assert ((pair.2 = [CancelConsumers] ∨ pair.2 = [CancelConsumers; ResetBroker]) ∧
    stop (td_stop a) s = close_database_after_broker_drain (sp_close (td_stop a)) (sp_drained (td_stop a)) (sp_pool_close (td_stop a)) (set_sv pair.1 s))
    as [Hfirst Hstop].
  { subst pair. unfold stop. fold l. destruct (cancellation_failed (tr l)); auto. }
  clearbody pair. destruct pair as [l' first]. cbn [fst snd] in *.
  destruct (stop_tasks_cases (td_ending a) (filter (λ t, t ∈ started) stop_order)) as
    [[-> Hcalm]|(before & t & after & e & Ht & -> & He & Hb)].
  2: { exists first, (filter (λ t, t ∈ started) stop_order). split_and!; [done|done|done|]. left. by exists before, t, after, e. }
  assert (∀ t, t ∈ started → await_cancelled (td_ending a t) = Ok ()) as Hcalm' by auto.
  destruct (if td_processor a then flush_outcome (td_flush a) else Ok ()) as [[]|e] eqn:Hf.
  - set (pending := if bool_decide (cancel_tasks l' = ∅) then [] else [CancelPending]).
    assert (pending = [] ∨ pending = [CancelPending]) as Hpending by (subst pending; case_bool_decide; auto).
    cbn [pool set_sv] in *. destruct (close_database_after_broker_drain _ _ _ _) as [s' closed] eqn:Hc.
    exists first, (filter (λ t, t ∈ started) stop_order). split_and!; [done|done|done|].
    right. split; [done|]. right. exists pending. by rewrite Hstop.
  - exists first, (filter (λ t, t ∈ started) stop_order). split_and!; [done|done|done|].
    right. split; [done|]. left. exists e. destruct (td_processor a); [|done]. unfold flush_outcome in Hf.
    destruct (td_flush a) as [[]|x]; [done|]. destruct (is_exception x) eqn:Hx; [done|]. injection Hf as ->. done.
Qed.

(** C25 How a shutdown ends.  The consumers are cancelled first, an uncertain transport is
    closed, then the background tasks are stopped one by one in a fixed order.  The exception
    of a task that had died comes out of its await and ends the teardown there, with nothing
    flushed; a flush that is cut off by an exception that is no [Exception] ends it after the
    flush; in both cases the exception leaves [main] and pool and budget stay as they were.
    Otherwise every started task is stopped, the batches are flushed while the pool is as it
    was, and the database is released last, exactly as [Lifecycle.stop] releases it.  So the
    pool is given up only after no consumer and no connection is left, every delivery callback
    is drained, every task is stopped and the batches are flushed through the open pool. *)
Theorem teardown_exact a started s :
  let '((s', log), r) := teardown a started s in
  let kept := pool s' = pool s ∧ admission s' = admission s in
  ∃ first tasks,
    (first = [CancelConsumers] ∨ first = [CancelConsumers; ResetBroker]) ∧
    tasks = filter (λ t, t ∈ started) [Recovery; Worker; Progress; Checker; Flush; Stall] ∧ (∀ t, t ∈ started → t ∈ tasks) ∧
    ((∃ before t after e, tasks = before ++ t :: after ∧ await_cancelled (td_ending a t) = Raise e ∧
        (∀ x, x ∈ before → await_cancelled (td_ending a x) = Ok ()) ∧
        r = Raise e ∧ log = first ++ (StopTask <$> before ++ [t]) ∧ kept) ∨
     ((∀ t, t ∈ started → await_cancelled (td_ending a t) = Ok ()) ∧
      let flushed := if td_processor a then [FlushBatches (pool s)] else [] in
      ((∃ e, td_processor a = true ∧ td_flush a = Raise e ∧ is_exception e = false ∧
          r = Raise e ∧ log = first ++ (StopTask <$> tasks) ++ flushed ∧ kept) ∨
       (∃ pending, (pending = [] ∨ pending = [CancelPending]) ∧
          log = first ++ (StopTask <$> tasks) ++ flushed ++ pending ++ [CloseDatabase] ∧
          s' = (stop (td_stop a) s).1 ∧ r = Ok (stop (td_stop a) s).2)))) ∧
    (pool s = true → pool s' = false →
       r = Ok true ∧ (∀ t, t ∈ started → StopTask t ∈ log) ∧ (td_processor a = true → FlushBatches true ∈ log) ∧
       tags (tr (sv s')) = [] ∧ connection (tr (sv s')) = false ∧ (is_Some (admission s) → sp_drained (td_stop a) = true)).
Proof.
  pose proof (teardown_cases a started s) as Hcases. destruct (teardown a started s) as [[s' log] r].
  destruct Hcases as (first & tasks & Hfirst & Htasks & Hall & Hcases). exists first, tasks. split_and!; [done..|].
  intros Hp Hp'. destruct Hcases as [(? & ? & ? & ? & _ & _ & _ & _ & _ & Hk & _)|[_ [(? & _ & _ & _ & _ & _ & Hk & _)|
    (pending & _ & -> & -> & ->)]]]; [congruence..|].
  unfold stop in *. destruct (close_database_after_broker_drain _ _ _ _) as [s1 closed] eqn:Hc. cbn [fst snd] in *.
  apply close_database_cases in Hc. destruct closed; [|cbn [pool set_sv] in Hc; destruct Hc; congruence].
  destruct Hc as (_ & _ & Hd & Ht & Hco & _). cbn [admission set_sv] in Hd. split_and!; [done| | |done|done|done].
  - intros t Hin. rewrite !elem_of_app. right; left. apply list_elem_of_fmap_2. auto.
  - intros Hproc. rewrite Hproc, Hp, !elem_of_app. right; right; left. by left.
Qed.

(** A task that died of its own exception cuts the teardown short: the exception leaves [main],
    nothing is flushed and the database is left as it was. *)
Theorem dead_task_stops_teardown a started s t e :
  t ∈ started → await_cancelled (td_ending a t) = Raise e →
  ∃ x, (teardown a started s).2 = Raise x ∧ pool (teardown a started s).1.1 = pool s ∧
    admission (teardown a started s).1.1 = admission s ∧
    (∀ b, FlushBatches b ∉ (teardown a started s).1.2) ∧ CloseDatabase ∉ (teardown a started s).1.2.
Proof.
  intros Hin Hdead. unfold teardown. set (tasks := filter (λ t, t ∈ started) stop_order).
  assert (t ∈ tasks) as Ht by (apply list_elem_of_filter; split; [done|unfold stop_order; destruct t; set_solver]).
  assert (∃ x steps, stop_tasks (td_ending a) tasks = (steps, Raise x) ∧ ∀ y, y ∈ steps → ∃ u, y = StopTask u) as (x & steps & -> & Hsteps).
  { clear -Ht Hdead. induction tasks as [|u tasks IH]; [by apply elem_of_nil in Ht|]. cbn [stop_tasks].
    destruct (await_cancelled (td_ending a u)) as [[]|x] eqn:Hu.
    - apply elem_of_cons in Ht as [->|Ht]; [congruence|]. destruct (IH Ht) as (x & steps & -> & Hs). exists x, (StopTask u :: steps).
      split; [done|]. intros y [->|Hy]%elem_of_cons; [by eexists|by apply Hs].
    - exists x, [StopTask u]. split; [done|]. intros y ->%list_elem_of_singleton. by eexists. }
  exists x. assert (∀ first y, first = [CancelConsumers] ∨ first = [CancelConsumers; ResetBroker] →
    y ∈ first ++ steps → (∀ b, y ≠ FlushBatches b) ∧ y ≠ CloseDatabase) as Hno.
  { intros first y Hf [Hy|Hy]%elem_of_app; [|apply Hsteps in Hy as [u ->]; done].
    destruct Hf as [-> | ->]; [apply list_elem_of_singleton in Hy as ->; done|].
    apply elem_of_cons in Hy as [->|Hy]; [done|]. apply list_elem_of_singleton in Hy as ->. done. }
  destruct (cancellation_failed _); cbn [fst snd pool admission set_sv]; (split_and!; [done..| |]).
  - intros b Hb. apply (Hno _ _ (or_intror eq_refl)) in Hb as [Hb _]. by apply (Hb b).
  - intros Hb. by apply (Hno _ _ (or_intror eq_refl)) in Hb as [_ Hb].
  - intros b Hb. apply (Hno _ _ (or_introl eq_refl)) in Hb as [Hb _]. by apply (Hb b).
  - intros Hb. by apply (Hno _ _ (or_introl eq_refl)) in Hb as [_ Hb].
Qed.

(** ** The health payload *)

Definition SERVICE_NAME : string := "discogs-sql-loader".

(** [get_health_data], without its timestamp, the clock readings of the last messages and the
    rounding of the stalled ages. *)
Record health_data := {
  h_status : string;
  h_service : string;
  h_current_task : option string;
  h_message_counts : list (string * Z);
  h_consumer_cancellation_failed : bool;
  h_stalled_batches : list (string * spec_float);
  h_active_consumers : list string;
  h_completed_files : gset string;
  h_awaiting_extraction_complete : list string;
  h_derived_relation_refresh : string;
  h_durable_derived_refresh : gmap string json;
  h_last_refused : option string;
}.

(** [durable_refresh_health.get("status")] as text. *)
Definition status_of (h : gmap string json) : option string := match h !! "status" with Some (JStr s) => Some s | _ => None end.

Definition get_health_data (counts : list (string * Z)) (last_times : list (string * spec_float)) (now : spec_float)
    (stalls : list (string * spec_float)) (refresh : gmap string json) (has_latch : bool) (last_refused : option string) (s : service)
    : health_data :=
  let l := sv s in
  {| h_status := health_status counts stalls (status_of refresh) s;
     h_service := SERVICE_NAME;
     h_current_task := active_task counts last_times now stalls s;
     h_message_counts := counts;
     h_consumer_cancellation_failed := cancellation_failed (tr l);
     h_stalled_batches := stalls;
     h_active_consumers := (tags (tr l)).*1;
     h_completed_files := completed_files l;
     h_awaiting_extraction_complete := types_awaiting_marker l;
     h_derived_relation_refresh := derived_relation_refresh (status_of refresh) has_latch s;
     h_durable_derived_refresh := if durable_active (gt l) then refresh else {["status" := JStr "inline"]};
     h_last_refused := last_refused |}.

(** The report is consistent with its status: a healthy one shows no stalled batch and no
    uncertain consumer, a durable refresh that is not degraded, and, unless nothing was counted
    or every type is complete, a consumer.  A type that waits for its terminal marker is
    complete and not consumed, and does not by itself make the status unhealthy. *)
Theorem healthy_report counts last_times now stalls refresh has_latch last_refused s :
  let h := get_health_data counts last_times now stalls refresh has_latch last_refused s in
  (h_status h = "healthy" →
     h_stalled_batches h = [] ∧ h_consumer_cancellation_failed h = false ∧
     (durable_active (gt (sv s)) = true → h_derived_relation_refresh h ≠ "degraded") ∧
     (h_active_consumers h = [] → (size (h_completed_files h) < 4)%nat → ∀ d n, (d, n) ∈ counts → n <= 0)) ∧
  (∀ d, d ∈ h_awaiting_extraction_complete h → d ∈ h_completed_files h ∧ d ∉ h_active_consumers h).
Proof.
  cbv zeta. split.
  - cbn [h_status h_stalled_batches h_consumer_cancellation_failed h_derived_relation_refresh h_active_consumers
      h_completed_files get_health_data]. intros Hh%healthy_can_commit.
    destruct Hh as (Hpool & Hstuck & Hstalls & Hfailed & Hdurable). split_and!; [done|done| |].
    + intros Hd. destruct (Hdurable Hd) as [Hready Hne]. unfold derived_relation_refresh. rewrite Hd, Hready. cbn [negb].
      destruct (status_of refresh); simpl; congruence.
    + intros Htags Hsize d n Hin. unfold is_stuck, no_tags in Hstuck.
      assert (tags (tr (sv s)) = []) as Hnil by (by destruct (tags (tr (sv s)))). rewrite Hnil in Hstuck.
      assert (Nat.ltb (size (completed_files (sv s))) (length DATA_TYPES) = true) as Hlt by (apply Nat.ltb_lt; exact Hsize).
      rewrite Hlt in Hstuck. cbn [andb] in Hstuck. destruct (Z.ltb_spec 0 n) as [Hpos|]; [|done]. exfalso.
      assert (existsb (λ c, 0 <? c.2) counts = true); [|by destruct (existsb _ _)].
      apply existsb_exists. exists (d, n). split; [by apply list_elem_of_In|]. by apply Z.ltb_lt.
  - intros d. cbn [h_awaiting_extraction_complete h_completed_files h_active_consumers get_health_data].
    unfold types_awaiting_marker. intros [(Hc & Ht & _) _]%list_elem_of_filter. done.
Qed.

(** ** A concrete shutdown *)

Definition demo_tearing : tearing :=
  {| td_stop := demo_stopping; td_ending t := match t with Progress => Ended (Ok ()) | _ => Alive end; td_processor := true;
     td_flush := Raise DatabaseUnavailableError |}.

Definition dead_checker : tearing :=
  {| td_stop := demo_stopping; td_ending t := match t with Checker => Ended (Raise DatabaseUnavailableError) | _ => Alive end;
     td_processor := true; td_flush := Ok () |}.

Definition demo_started : list task := started_tasks (gt (sv running_service)) true.

(** A shutdown of a running service, and one whose checker had died. *)
Example demo_teardown :
  demo_started = [Worker; Recovery; Progress; Checker; Flush; Stall] ∧
  (teardown demo_tearing demo_started running_service).1.2 =
    [CancelConsumers; StopTask Recovery; StopTask Worker; StopTask Progress; StopTask Checker; StopTask Flush; StopTask Stall;
     FlushBatches true; CloseDatabase] ∧
  (teardown dead_checker demo_started running_service).1.2 =
    [CancelConsumers; StopTask Recovery; StopTask Worker; StopTask Progress; StopTask Checker] ∧
  (teardown dead_checker demo_started running_service).2 = Raise DatabaseUnavailableError.
Proof. vm_compute. repeat split; reflexivity. Qed.
