(* ===== verification/Service.v ===== *)
(** * The service: settings, the delivery callback, progress reports, and the exit status

    What [tableinator.py] puts around its components.  The settings it reads when it
    is imported; the callback each consumer runs, which opens the delivery's span; the
    progress reporter with its idle mode; and [main] and [cli] from the environment to the
    exit status.  Clocks are ticks of one second; texts of log lines are left out, their
    occasions and contents are not. *)

From S2P Require Import Prelude Json Contract Config Telemetry Batch Processor Consumers Handler Lifecycle Shutdown.
From Stdlib Require Import SpecFloat.

(** ** The module's settings *)

Section settings.
(** [float(text)], with its correctly rounded result, and the default of the shared package
    for the longest write. *)
Context (unicode_zeros : list N) (py_float : string → result spec_float) (DEFAULT_MAX_WRITE_S : spec_float).

(** [int(os.environ.get(name, default))] *)
Definition int_setting (name : string) (default : Z) (env : environ) : result Z :=
  match env !! name with Some raw => py_int unicode_zeros raw | None => Ok default end.

(** [float(os.environ.get(name, str(default)))]: a float reads back from its text. *)
Definition float_setting (name : string) (default : spec_float) (env : environ) : result spec_float :=
  match env !! name with Some raw => py_float raw | None => Ok default end.

Record module_settings := {
  CONSUMER_CANCEL_DELAY : Z;
  PURGE_MAX_DELETE_FRACTION : spec_float;
  QUEUE_CHECK_INTERVAL : Z;
  MARKER_CHECK_INTERVAL : Z;
  STUCK_CHECK_INTERVAL : Z;
  STARTUP_IDLE_TIMEOUT : Z;
  IDLE_LOG_INTERVAL : Z;
  BATCH_MODE : bool;
  BATCH_SIZE : Z;
  BATCH_FLUSH_INTERVAL : spec_float;
  BATCH_MAX_HOLD_S : spec_float;
  BATCH_MAX_REQUEUES : Z;
  BATCH_MAX_WRITE_S : spec_float;
  BATCH_STALL_S : spec_float;
}.

(** The double nearest to 0.9. *)
Definition nine_tenths : spec_float := S754_finite false 8106479329266893 (-53).

(** Importing the module: the first setting that is not a number raises. *)
Definition import_settings (env : environ) : result module_settings :=
  let! cancel_delay := int_setting "CONSUMER_CANCEL_DELAY" 300 env in
  let! fraction := float_setting "PURGE_MAX_DELETE_FRACTION" nine_tenths env in
  let! queue_check := int_setting "QUEUE_CHECK_INTERVAL" 3600 env in
  let! marker_check := int_setting "MARKER_CHECK_INTERVAL" 5 env in
  let! stuck_check := int_setting "STUCK_CHECK_INTERVAL" 30 env in
  let! idle_timeout := int_setting "STARTUP_IDLE_TIMEOUT" 30 env in
  let! idle_log := int_setting "IDLE_LOG_INTERVAL" 300 env in
  let! batch_size := int_setting "POSTGRES_BATCH_SIZE" 100 env in
  let! flush_interval := float_setting "POSTGRES_BATCH_FLUSH_INTERVAL" (b64 5) env in
  let! hold := float_setting "POSTGRES_BATCH_MAX_HOLD_S" DEFAULT_MAX_HOLD_S env in
  let! max_requeues := int_setting "POSTGRES_BATCH_MAX_REQUEUES" DEFAULT_MAX_REQUEUES env in
  let! write := float_setting "POSTGRES_BATCH_MAX_WRITE_S" DEFAULT_MAX_WRITE_S env in
  let! stall := float_setting "POSTGRES_BATCH_STALL_S" DEFAULT_STALL_S env in
  Ok {| CONSUMER_CANCEL_DELAY := cancel_delay; PURGE_MAX_DELETE_FRACTION := fraction;
        QUEUE_CHECK_INTERVAL := queue_check; MARKER_CHECK_INTERVAL := marker_check;
        STUCK_CHECK_INTERVAL := stuck_check; STARTUP_IDLE_TIMEOUT := idle_timeout; IDLE_LOG_INTERVAL := idle_log;
        BATCH_MODE := bool_decide (lower (default "true" (env !! "POSTGRES_BATCH_MODE")) = "true");
        BATCH_SIZE := batch_size; BATCH_FLUSH_INTERVAL := flush_interval; BATCH_MAX_HOLD_S := hold;
        BATCH_MAX_REQUEUES := max_requeues; BATCH_MAX_WRITE_S := write; BATCH_STALL_S := stall |}.

(** [batch_config()], which reads the module's settings. *)
Definition service_batch_config (grace : spec_float) (st : module_settings) (pool_max : option Z) : result BatchConfig :=
  batch_config grace (BATCH_MODE st) (BATCH_SIZE st) pool_max (BATCH_FLUSH_INTERVAL st) (BATCH_MAX_HOLD_S st)
    (BATCH_MAX_WRITE_S st) (BATCH_MAX_REQUEUES st).

Lemma import_batch_size env st :
  import_settings env = Ok st → int_setting "POSTGRES_BATCH_SIZE" 100 env = Ok (BATCH_SIZE st).
Proof.
  unfold import_settings. intros Hi.
  repeat (apply bind_ok in Hi as (? & ? & Hi)). by injection Hi as <-.
Qed.

(** There is one batch size.  The size the module read at import, which the prefetch and the
    engine's capacity are computed from, is the one the processor ends up with although its
    constructor reads the variable again: in a service that was imported at all, constructing
    the processor changes nothing of its configuration, and its fallback for a value that is
    not an integer is never taken. *)
Theorem one_batch_size env st grace pool_max c :
  import_settings env = Ok st → service_batch_config grace st pool_max = Ok c →
  processor_config unicode_zeros env c = c ∧ batch_size (processor_config unicode_zeros env c) = BATCH_SIZE st ∧
  max_pending c = channel_prefetch (BATCH_MODE st) (BATCH_SIZE st) pool_max * 4 ∧
  ∀ raw, env !! "POSTGRES_BATCH_SIZE" = Some raw → py_int unicode_zeros raw = Ok (BATCH_SIZE st).
Proof.
  intros Hi Hc. apply import_batch_size in Hi. unfold service_batch_config, batch_config in Hc.
  apply bind_ok in Hc as (_ & _ & Hc). injection Hc as <-. unfold int_setting in Hi.
  unfold processor_config. destruct (env !! "POSTGRES_BATCH_SIZE") as [raw|]; [|by split_and!].
  rewrite Hi. destruct raw; (split; [done|]; split; [done|]; split; [done|]; by intros ? [= <-]).
Qed.
End settings.

(** ** The delivery callback *)

Section callback.
Context `{Backend E} (prefix : string) (py_repr : json → string) (normalize_record : string → dict → result dict)
  (cfg : settings) {S C : Type} (class_name : exn → string).

(** The admission's handler slot around a delivery; leaving it does not swallow an exception. *)
Record handler_slot := { slot_enter : result (); slot_exit : result () }.

Definition on_data_message (a : consume_answers (S := S) (C := C)) (body : result json) (data_type : string) : M () :=
  λ w, let '(w', _, r) := consume_span class_name a
                            (λ _, _process_data_message prefix py_repr normalize_record cfg body data_type) w in (w', r).

(** The callback [make_data_handler] returns for a type. *)
Definition make_data_handler (slot : handler_slot) (a : consume_answers (S := S) (C := C)) (data_type : string)
    (body : result json) : M () :=
  if has_admission cfg then
    λ w, match slot_enter slot with
         | Raise e => (w, Raise e)
         | Ok _ => let '(w', r) := on_data_message a body data_type w in
                   (w', match slot_exit slot with Ok _ => r | Raise e => Raise e end)
         end
  else raise DatabaseUnavailableError.

(** What a span does to a computation: not run it and raise, or run it once. *)
Lemma consume_span_runs {W} (a : consume_answers (S := S) (C := C)) (body : option S → W → W * result ()) w :
  let '(w', _, r) := consume_span class_name a body w in
  (w' = w ∧ ∃ e, r = Raise e) ∨
  ∃ span, w' = (body span w).1 ∧
    ((∀ e, ca_exit a e = Ok false) → is_ok r = true → r = (body span w).2).
Proof.
  unfold consume_span. destruct (body None w) as [w0 r0] eqn:E0.
  destruct (negb _); [right; exists None; by rewrite E0|].
  destruct (ca_start a) as [[]|e]; [|destruct (is_exception e); [right; exists None; by rewrite E0|eauto]].
  destruct (ca_enter a) as [span|e]; [|eauto]. destruct (body (Some span) w) as [w' [[]|e]] eqn:Eb.
  - right. exists (Some span). rewrite Eb. split; [done|]. intros Hx. by rewrite Hx.
  - destruct (mark_span_error _ _ _ _) as [effects marked]. right. exists (Some span). rewrite Eb. split; [done|].
    intros Hx. by rewrite Hx.
Qed.

(** C11 Every delivery the broker hands to a consumer is settled at most once by its callback,
    whatever its body, whatever the handler's parts raise and whatever tracing and the
    admission slot do; and a callback that returns, unless the service is stopping, has settled
    the delivery exactly once or left it to the batch processor, to the shared delivery
    runner, or (consumers not confirmed cancelled) to the broker. *)
Theorem callback_settles_once slot a data_type body w :
  ∃ seg, log (make_data_handler slot a data_type body w).1 = log w ++ seg ∧
    (settlements seg ≤ 1)%nat ∧
    ((∀ e, ca_exit a e = Ok false) → (make_data_handler slot a data_type body w).2 = Ok () →
       shutdown_requested (ld w) = false →
       settlements seg = 1%nat ∨ existsb deferred seg = true).
Proof.
  assert (∀ w' r, w' = w → (∃ e, r = Raise e) → ∃ seg, log w' = log w ++ seg ∧ (settlements seg ≤ 1)%nat ∧
    ((∀ e, ca_exit a e = Ok false) → r = Ok () → shutdown_requested (ld w) = false →
       settlements seg = 1%nat ∨ existsb deferred seg = true)) as Hnothing.
  { intros w' r -> [e ->]. exists []. rewrite app_nil_r. split; [done|]. split; [cbn; lia|done]. }
  unfold make_data_handler. destruct (has_admission cfg); [|apply Hnothing; [done|by eexists]].
  destruct (slot_enter slot) as [[]|e]; [|apply Hnothing; eauto].
  unfold on_data_message. pose proof (consume_span_runs a
    (λ _, _process_data_message prefix py_repr normalize_record cfg body data_type) w) as Hspan.
  destruct (consume_span _ _ _ w) as [[w' effects] r]. destruct Hspan as [[-> He]|(span & -> & Hr)]; cbn [fst snd].
  - apply Hnothing; [done|]. destruct (slot_exit slot); eauto.
  - destruct (process_settlements prefix py_repr normalize_record cfg body data_type w) as (seg & Hlog & Hone & Hset).
    exists seg. split; [done|]. split; [done|]. intros Hexit Hok Hrun. apply Hset; [|done].
    destruct (slot_exit slot) as [[]|e]; [|done]. rewrite <-Hr by (done || by rewrite Hok). done.
Qed.
End callback.

(** ** Progress reports *)

Record reporter := {
  report_count : Z;
  idle_mode : bool;
  last_idle_log : Z;
}.

(** What a round logs. *)
Inductive line :=
  | EnteringIdle
  | Resuming
  | StillIdle
  | StalledConsumers (types : list string)
  (** the total, and each type with its mark of completion and its count *)
  | Progress (total : Z) (parts : list (string * bool * Z))
  | WaitingForMessages
  | AllActive
  | SlowConsumers (types : list string)
  | CanceledConsumers (types : list string)
  | ActiveConsumers (types : list string).

(** What a round reads of the module: the time, and the dictionaries in their order. *)
Record observation := {
  ob_now : Z;
  ob_counts : list (string * Z);
  ob_last_times : list (string * Z);
  ob_completed : gset string;
  ob_tags : list string;
}.

Definition all_complete (o : observation) : bool := Nat.eqb (size (ob_completed o)) (length DATA_TYPES).
Definition total (o : observation) : Z := foldr (λ c n, c.2 + n) 0 (ob_counts o).

Definition report_delay (count : Z) : Z := if count <? 3 then 10 else 30.

Section reporter.
Context (STARTUP_IDLE_TIMEOUT IDLE_LOG_INTERVAL startup_time : Z).

Definition slow (now : Z) (t : string * Z) : bool := (0 <? t.2) && (5 <? now - t.2) && (now - t.2 <? 120).

(** The lines of a round outside idle mode. *)
Definition progress_lines (o : observation) : list line :=
  let now := ob_now o in
  let stalled := (filter (λ t, bool_decide (t.1 ∉ ob_completed o) && (0 <? t.2) && (120 <? now - t.2) = true)
                    (ob_last_times o)).*1 in
  let parts := (λ d, (d, bool_decide (d ∈ ob_completed o),
                      default 0 (snd <$> List.find (λ c, bool_decide (c.1 = d)) (ob_counts o))))
               <$> ["artists"; "labels"; "masters"; "releases"] in
  let canceled := filter (λ d, d ∉ ob_tags o ∧ d ∈ ob_completed o) DATA_TYPES in
  (if bool_decide (stalled = []) then [] else [StalledConsumers stalled]) ++
  [Progress (total o) parts] ++
  (if total o =? 0 then [WaitingForMessages]
   else if forallb (λ t, negb (0 <? t.2) || (now - t.2 <? 5)) (ob_last_times o) then [AllActive]
   else if existsb (slow now) (ob_last_times o)
        then [SlowConsumers (filter (λ t, slow now t = true) (ob_last_times o)).*1] else []) ++
  (if bool_decide (canceled = []) then [] else [CanceledConsumers canceled]) ++
  (if bool_decide (ob_tags o = []) then [] else [ActiveConsumers (ob_tags o)]).

(** A round of [progress_reporter] after its sleep. *)
Definition progress_round (o : observation) (st : reporter) : reporter * list line :=
  let count := report_count st + 1 in
  let keep idle last := {| report_count := count; idle_mode := idle; last_idle_log := last |} in
  if all_complete o then (keep (idle_mode st) (last_idle_log st), [])
  else if negb (idle_mode st) && (total o =? 0) && (STARTUP_IDLE_TIMEOUT <=? ob_now o - startup_time)
  then (keep true (ob_now o), [EnteringIdle])
  else if idle_mode st then
    if 0 <? total o then (keep false (last_idle_log st), [Resuming])
    else if IDLE_LOG_INTERVAL <=? ob_now o - last_idle_log st then (keep true (ob_now o), [StillIdle])
    else (keep true (last_idle_log st), [])
  else (keep false (last_idle_log st), progress_lines o).

(** What happens to the idle mode: a round of the reporter, or a recovery that consumes again
    and leaves it. *)
Inductive happening :=
  | Round (o : observation)
  | ConsumersRecovered.

Definition happen (st : reporter) (h : happening) : reporter :=
  match h with
  | Round o => (progress_round o st).1
  | ConsumersRecovered => {| report_count := report_count st; idle_mode := false; last_idle_log := last_idle_log st |}
  end.

(** A round that finds nothing received although the timeout passed, and one that finds
    something received. *)
Definition finds_nothing (h : happening) : bool :=
  match h with
  | Round o => negb (all_complete o) && (total o =? 0) && (STARTUP_IDLE_TIMEOUT <=? ob_now o - startup_time)
  | ConsumersRecovered => false
  end.
Definition wakes (h : happening) : bool :=
  match h with Round o => negb (all_complete o) && (0 <? total o) | ConsumersRecovered => true end.

Lemma is_progress_in o : ∃ parts, Progress (total o) parts ∈ progress_lines o.
Proof. eexists. unfold progress_lines. rewrite elem_of_app. right. by left. Qed.

(** Idle mode hides no traffic.  After any rounds and recoveries the reporter is idle iff
    some round found nothing received past the timeout and since then none found a message
    and no recovery resumed consumption; and a round reports the progress exactly when a type
    is incomplete and the reporter is not idle on either side of it. *)
Theorem idle_mode_exact hs :
  let st := foldl happen {| report_count := 0; idle_mode := false; last_idle_log := 0 |} hs in
  (idle_mode st = true ↔ since finds_nothing wakes hs) ∧
  ∀ o, let '(st', lines) := progress_round o st in
    (∃ n parts, Progress n parts ∈ lines) ↔ all_complete o = false ∧ idle_mode st = false ∧ idle_mode st' = false.
Proof.
  cbv zeta. split.
  - induction hs as [|h hs IH] using rev_ind; [split; [done|intros Hs; by apply since_nil in Hs]|].
    rewrite foldl_app. cbn [foldl]. set (st := foldl _ _ hs) in *.
    assert (finds_nothing h = true → wakes h = false) as Hex.
    { destruct h as [o|]; [|done]. simpl. intros [[_ Ht%Z.eqb_eq]%andb_true_iff _]%andb_true_iff. by rewrite Ht, andb_false_r. }
    rewrite since_app, <-IH by done. destruct h as [o|]; [|naive_solver]. simpl. unfold progress_round.
    destruct (all_complete o); simpl; [naive_solver|].
    destruct (idle_mode st), (Z.eqb_spec (total o) 0) as [Ht|], (STARTUP_IDLE_TIMEOUT <=? ob_now o - startup_time); simpl;
      rewrite ?Ht; simpl; try destruct (0 <? total o); try case_match; simpl; naive_solver.
  - intros o. set (st := foldl _ _ hs). destruct (progress_round o st) as [st' lines] eqn:Er. revert Er. unfold progress_round.
    assert (∀ x, x ∈ [EnteringIdle; Resuming; StillIdle] → ∀ n parts, Progress n parts ∉ [x]) as Hno.
    { intros x Hx n parts Hp%list_elem_of_singleton; subst x. rewrite !elem_of_cons, elem_of_nil in Hx. naive_solver. }
    pose proof (is_progress_in o) as Hin.
    destruct (all_complete o); [intros [= <- <-]; split; [by intros (? & ? & ?%elem_of_nil)|naive_solver]|].
    destruct (idle_mode st) eqn:Hi; simpl.
    + destruct (0 <? total o); [|case_match]; intros [= <- <-]; (split; [intros (n & parts & Hp)|naive_solver]); exfalso;
        first [by apply elem_of_nil in Hp|eapply Hno, Hp; set_solver].
    + case_match; intros [= <- <-]; simpl.
      * split; [intros (n & parts & Hp)|naive_solver]. exfalso. eapply Hno, Hp. set_solver.
      * split; [done|]. intros _. destruct Hin as [parts Hin]. eauto.
Qed.
End reporter.

(** A round of [batch_stall_reporter]: the gauges are published, and an [Exception] of the report
    is suppressed. *)
Definition stall_round (report : option (result (list recording))) : result (list recording) :=
  match report with
  | None => Ok []
  | Some (Ok recorded) => Ok recorded
  | Some (Raise e) => if is_exception e then Ok [] else Raise e
  end.

(** ** [main] and [cli] *)

(** [signal_handler] only asks for the shutdown. *)
Definition signal_handler (l : loader) : loader :=
  {| tr := tr l; gt := gt l; completed_files := completed_files l; extraction_signalled := extraction_signalled l;
     cancel_tasks := cancel_tasks l; suspected_lost_tags := suspected_lost_tags l; shutdown_requested := true |}.

(** After a signal the handler settles nothing more: every later delivery is left to the
    broker, which hands it out again. *)
Theorem no_settlement_after_signal `{Backend E} prefix py_repr normalize_record cfg body data_type w :
  ld w = signal_handler (ld w) → _process_data_message prefix py_repr normalize_record cfg body data_type w = (w, Ok ()).
Proof. intros Hs. unfold _process_data_message, mbnd, gets. rewrite Hs. done. Qed.

Section process.
Context (unicode_zeros : list N) (py_float : string → result spec_float) (DEFAULT_MAX_WRITE_S WRITE_CANCEL_GRACE_S : spec_float)
  `{common : CommonConfig}.

(** [int(os.environ.get("STARTUP_DELAY", "5"))] *)
Definition startup_delay (env : environ) : result Z := int_setting unicode_zeros "STARTUP_DELAY" 5 env.

(** What [main] takes from its environment and the settings, and every other answer from [a],
    the construction of the processor around its configuration included. *)
Definition from_environment (env : environ) (st : module_settings) (a : booting) : booting :=
  {| bt_config := match from_env unicode_zeros env with
                  | inl c => Ok (postgres_pool_max_size c)
                  | inr e => Raise (exn_of e)
                  end;
     bt_mode := env !! "DERIVED_REFRESH_MODE"; bt_new_pool := bt_new_pool a; bt_init_pool := bt_init_pool a;
     bt_probe_latch := bt_probe_latch a; bt_probe_durable := bt_probe_durable a; bt_reconcile := bt_reconcile a;
     bt_batch_mode := BATCH_MODE st; bt_stall_s := BATCH_STALL_S st; bt_max_hold_s := BATCH_MAX_HOLD_S st;
     bt_policy := match from_env unicode_zeros env with
                  | inl c => let! _ := service_batch_config WRITE_CANCEL_GRACE_S st (Some (postgres_pool_max_size c)) in bt_policy a
                  | inr _ => bt_policy a
                  end;
     bt_stopping := bt_stopping a; bt_connect := bt_connect a; bt_broker := bt_broker a |}.

Definition interrupt : exn := OtherError "KeyboardInterrupt".

(** The answers while the service runs and stops: what the consumers and the tasks make of the
    service until the wait ends, whether the recovery started the worker meanwhile, how the
    wait ends, and the teardown's. *)
Record running := {
  rn_serve : service → service;
  rn_worker : bool;
  rn_wait : result ();
  rn_stop : stopping;
  rn_ending : task → ending;
  rn_flush : result ();
}.

Definition tearing_of (st : module_settings) (rn : running) : tearing :=
  {| td_stop := rn_stop rn; td_ending := rn_ending rn; td_processor := BATCH_MODE st; td_flush := rn_flush rn |}.

(** The tasks that run when the wait ends; [g] is the gate startup left. *)
Definition tasks_at_stop (st : module_settings) (rn : running) (g : gate) : list task :=
  started_tasks g (BATCH_MODE st) ++ (if rn_worker rn then [Worker] else []).

(** An exception of the teardown replaces the one that ended the wait. *)
Definition main (env : environ) (st : module_settings) (a : booting) (rn : running) (s : service) : service * result () :=
  match startup_delay env with
  | Raise e => (s, Raise e)
  | Ok _ =>
      match boot (from_environment env st a) s with
      | (s, Stopped) => (s, Ok ())
      | (s, Refused) => (s, Raise StartupFailure)
      | (s, Crashed e) => (s, Raise e)
      | (s, Running) =>
          match teardown (tearing_of st rn) (tasks_at_stop st rn (gt (sv s))) (rn_serve rn s) with
          | ((s, _), Raise e) => (s, Raise e)
          | ((s, _), Ok _) =>
              (s, match rn_wait rn with
                  | Raise e => if bool_decide (e = interrupt) then Ok () else Raise e
                  | Ok _ => Ok ()
                  end)
          end
      end
  end.

(** The exit status [cli] leaves; [None] when what [main] raised is no [Exception] and goes on. *)
Definition exit_status (r : result ()) : option Z :=
  match r with
  | Ok _ => Some 0
  | Raise e => if bool_decide (e = interrupt) then Some 0 else if is_exception e then Some 1 else None
  end.

Definition cli (env : environ) (st : module_settings) (a : booting) (rn : running) (s : service) : service * option Z :=
  let '(s, r) := main env st a rn s in (s, exit_status r).

(** The whole process: an exception of the import leaves the status 1. *)
Definition console_script (env : environ) (a : booting) (rn : running) (s : service) : service * option Z :=
  match import_settings unicode_zeros py_float DEFAULT_MAX_WRITE_S env with
  | Raise _ => (s, Some 1)
  | Ok st => cli env st a rn s
  end.

(** The environment cannot run the service: a setting is not a number, or the configuration
    is refused. *)
Definition misconfigured (env : environ) : bool :=
  negb (is_ok (import_settings unicode_zeros py_float DEFAULT_MAX_WRITE_S env)) || negb (is_ok (startup_delay env)) ||
  match from_env unicode_zeros env with inl _ => false | inr e => bool_decide (exn_of e = ValueError) end.

Lemma startup_delay_raises env e : startup_delay env = Raise e → e = ValueError.
Proof.
  unfold startup_delay, int_setting, py_int. destruct (env !! "STARTUP_DELAY") as [raw|]; [|done].
  repeat case_match; by intros [= <-].
Qed.

Lemma boot_refuses_config a s e : bt_config a = Raise e → boot a s = (s, if bool_decide (e = ValueError) then Refused else Crashed e).
Proof. intros He. unfold boot, boot_database. by rewrite He. Qed.

Lemma exit_status_zero r : exit_status r = Some 0 → r = Ok () ∨ r = Raise interrupt.
Proof.
  destruct r as [[]|e]; [by left|]. simpl. destruct (bool_decide_reflect (e = interrupt)) as [->|]; [by right|].
  by destruct (is_exception e).
Qed.

(** What [main] leaves once the service came up. *)
Lemma main_torn_down st rn s1 :
  let '((s2, _), r) := teardown (tearing_of st rn) (tasks_at_stop st rn (gt (sv s1))) (rn_serve rn s1) in
  ((∃ closed, r = Ok closed ∧ s2 = (stop (rn_stop rn) (rn_serve rn s1)).1) ∨ ∃ e, r = Raise e) ∧
  (∀ t e, t ∈ tasks_at_stop st rn (gt (sv s1)) → rn_ending rn t = Ended (Raise e) →
     (∀ t e, rn_ending rn t = Ended (Raise e) → is_exception e = true) →
     ∃ x, r = Raise x ∧ is_exception x = true ∧ pool s2 = pool (rn_serve rn s1)).
Proof.
  pose proof (teardown_cases (tearing_of st rn) (tasks_at_stop st rn (gt (sv s1))) (rn_serve rn s1)) as Hcases.
  destruct (teardown _ _ _) as [[s2 log] r]. destruct Hcases as (first & tasks & _ & Htasks & Hall & Hcases). split.
  - destruct Hcases as [(before & t & after & e & _ & _ & _ & Hr & _)|[_ [(e & _ & _ & _ & Hr & _)|(pending & _ & _ & Hs & Hr)]]]; eauto.
  - intros t e Ht He Hexc. assert (await_cancelled (rn_ending rn t) = Raise e) as Hdead.
    { rewrite He. simpl. rewrite bool_decide_eq_false_2; [done|]. intros ->. by apply Hexc in He. }
    destruct Hcases as [(before & u & after & x & _ & Hu & _ & Hr & _ & Hp & _)|[Hcalm _]]; [|specialize (Hcalm t Ht); cbn [td_ending tearing_of] in Hcalm; congruence].
    exists x. split_and!; [done| |done]. cbn [td_ending tearing_of] in Hu. destruct (rn_ending rn u) as [|[|y]] eqn:Ey; [done|done|].
    simpl in Hu. case_bool_decide; [done|]. injection Hu as <-. by apply (Hexc u).
Qed.

(** C17 The exit status is honest.  An environment that cannot run the service, with a setting
    that is not a number, a start delay that is not an integer, a required variable missing, or a port out of
    range, ends the process with status 1 before it touches the database or the broker.  The
    status 0, which tells the supervisor not to restart, is left only if the
    configuration was complete and the service came up and was torn down to the end, was asked
    to stop before the broker answered, or was interrupted.  And a service that came up and
    whose background task died of an [Exception] leaves the status 1, with its pool as it was. *)
Theorem exit_status_honest env a rn s :
  let '(s', status) := console_script env a rn s in
  (misconfigured env = true → s' = s ∧ status = Some 1) ∧
  (status = Some 0 → misconfigured env = false ∧
     ∃ st, import_settings unicode_zeros py_float DEFAULT_MAX_WRITE_S env = Ok st ∧
       let '(s1, o) := boot (from_environment env st a) s in
       (o = Running ∧ (∃ c, from_env unicode_zeros env = inl c) ∧
          let '((s2, _), r) := teardown (tearing_of st rn) (tasks_at_stop st rn (gt (sv s1))) (rn_serve rn s1) in
          s' = s2 ∧ ((∃ closed, r = Ok closed ∧ s2 = (stop (rn_stop rn) (rn_serve rn s1)).1) ∨ r = Raise interrupt)) ∨
       (o = Stopped ∧ s' = s1) ∨ (o = Crashed interrupt ∧ s' = s1)) ∧
  (∀ st s1 t e, import_settings unicode_zeros py_float DEFAULT_MAX_WRITE_S env = Ok st → is_ok (startup_delay env) = true →
     boot (from_environment env st a) s = (s1, Running) →
     t ∈ tasks_at_stop st rn (gt (sv s1)) → rn_ending rn t = Ended (Raise e) →
     (∀ t e, rn_ending rn t = Ended (Raise e) → is_exception e = true) →
     status = Some 1 ∧ pool s' = pool (rn_serve rn s1)).
Proof.
  unfold console_script, misconfigured. destruct (import_settings unicode_zeros py_float DEFAULT_MAX_WRITE_S env) as [st|e]; [|done]. cbn [is_ok negb orb].
  unfold cli, main. destruct (startup_delay env) as [n|e] eqn:Hdelay.
  2: { apply startup_delay_raises in Hdelay as ->. by split_and!. }
  cbn [is_ok negb orb]. set (b := from_environment env st a).
  assert (bt_config b = match from_env unicode_zeros env with
                        | inl c => Ok (postgres_pool_max_size c) | inr e => Raise (exn_of e) end) as Hconf by done.
  destruct (from_env unicode_zeros env) as [c|e].
  - destruct (boot b s) as [s1 [| | |e]] eqn:Hboot.
    + pose proof (main_torn_down st rn s1) as Htorn.
      destruct (teardown _ _ _) as [[s2 log] r] eqn:Et. destruct Htorn as [Hr Hdead].
      assert (∀ status, exit_status (match r with Ok _ => match rn_wait rn with Raise e => if bool_decide (e = interrupt) then Ok () else Raise e | Ok _ => Ok () end | Raise e => Raise e end) = status →
        (status = Some 0 → (∃ closed, r = Ok closed ∧ s2 = (stop (rn_stop rn) (rn_serve rn s1)).1) ∨ r = Raise interrupt)) as Hzero.
      { intros status <- Hz. destruct Hr as [Hr|[x ->]]; [by left|]. right. by apply exit_status_zero in Hz as [|[= ->]]. }
      destruct r as [closed|x]; (split; [done|]); split.
      * intros Hz. split; [done|]. exists st. fold b. rewrite Hboot. split; [done|]. left. rewrite Et. split_and!; eauto.
      * intros st' s1' t e [= <-] _ Hb' Ht He Hexc. fold b in Hb'. rewrite Hboot in Hb'. injection Hb' as <-.
        by destruct (Hdead t e Ht He Hexc) as (x & Hx & _).
      * intros Hz. split; [done|]. exists st. fold b. rewrite Hboot. split; [done|]. left. rewrite Et. split_and!; eauto.
      * intros st' s1' t e [= <-] _ Hb' Ht He Hexc. fold b in Hb'. rewrite Hboot in Hb'. injection Hb' as <-.
        destruct (Hdead t e Ht He Hexc) as (y & [= <-] & Hy & Hp). split; [|done]. simpl.
        rewrite bool_decide_eq_false_2, Hy; [done|]. intros ->. done.
    + split; [done|]. split; [|intros st' s1' t e [= <-] _ Hb'; fold b in Hb'; by rewrite Hboot in Hb'].
      intros _. split; [done|]. exists st. fold b. rewrite Hboot. split; [done|]. by right; left.
    + split; [done|]. split; [done|]. intros st' s1' t e [= <-] _ Hb'. fold b in Hb'. by rewrite Hboot in Hb'.
    + split; [done|]. split; [|intros st' s1' t e' [= <-] _ Hb'; fold b in Hb'; by rewrite Hboot in Hb'].
      intros [Hz|[= ->]]%exit_status_zero; [done|]. split; [done|]. exists st. fold b. rewrite Hboot. split; [done|]. by right; right.
  - assert (∀ st' s1 o, Ok st = Ok st' → boot (from_environment env st' a) s = (s1, o) → o ≠ Running) as Hno.
    { intros st' s1 o [= <-] Hb. fold b in Hb. rewrite (boot_refuses_config b s _ Hconf) in Hb. injection Hb as _ <-. by case_bool_decide. }
    rewrite (boot_refuses_config b s _ Hconf). destruct (bool_decide_reflect (exn_of e = ValueError)) as [He|He].
    + split; [done|]. split; [done|]. intros st' s1 t e' Hst _ Hb. by destruct (Hno _ _ _ Hst Hb).
    + split; [done|]. split; [|intros st' s1 t e' Hst _ Hb; by destruct (Hno _ _ _ Hst Hb)].
      intros [Hz|[= Hi]]%exit_status_zero; [done|]. split; [done|]. exists st. fold b.
      rewrite (boot_refuses_config b s _ Hconf), (bool_decide_eq_false_2 (exn_of e = ValueError)) by done.
      split; [done|]. right; right. by rewrite Hi.
Qed.
End process.

(** ** A process that stops at its configuration, and one that runs *)

Definition full_environ : environ := <["POSTGRES_PASSWORD" := "p"]> (<["POSTGRES_DATABASE" := "d"]> demo_environ).
(** No environment here sets a float. *)
Definition no_floats : string → result spec_float := λ _, Raise ValueError.
Definition demo_running : running := 
  {| rn_serve := λ s, s; rn_worker := false; rn_wait := Ok (); rn_stop := demo_stopping; rn_ending := λ _, Alive; rn_flush := Ok () |}.

Lemma exit_status_honest_witness :
  (console_script (common := plain_common) [] no_floats (b64 60) (b64 5) demo_environ (demo_booting true) demo_running fresh_service).2 = Some 1 ∧
  (console_script (common := plain_common) [] no_floats (b64 60) (b64 5) full_environ (demo_booting true) demo_running fresh_service).2 = Some 0 ∧
  misconfigured (common := plain_common) [] no_floats (b64 60) full_environ = false.
Proof.
  pose proof (exit_status_honest (common := plain_common) [] no_floats (b64 60) (b64 5) demo_environ (demo_booting true) demo_running fresh_service) as H1.
  pose proof (exit_status_honest (common := plain_common) [] no_floats (b64 60) (b64 5) full_environ (demo_booting true) demo_running fresh_service) as H2.
  destruct (console_script [] _ _ _ demo_environ _ _ _) as [s1 c1]. destruct H1 as [H1 _]. specialize (H1 eq_refl).
  assert ((console_script (common := plain_common) [] no_floats (b64 60) (b64 5) full_environ (demo_booting true) demo_running fresh_service).2 = Some 0) as E
    by (vm_compute; reflexivity).
  destruct (console_script [] _ _ _ full_environ _ _ _) as [s2 c2]. simpl in E. subst c2. destruct H2 as [_ [H2 _]].
  split; [exact (proj2 H1)|]. split; [reflexivity|]. exact (proj1 (H2 eq_refl)).
Defined.

(** The size of the batches, from the environment to the processor. *)
Definition sized_environ : environ := <["POSTGRES_BATCH_SIZE" := " 250 "]> full_environ.

Lemma one_batch_size_witness :
  ∃ st c, import_settings [] no_floats (b64 60) sized_environ = Ok st ∧
    service_batch_config (b64 5) st (Some 12) = Ok c ∧
    batch_size (processor_config [] sized_environ c) = 250.
Proof.
  destruct (import_settings [] no_floats (b64 60) sized_environ) as [st|e] eqn:Ei; [|vm_compute in Ei; discriminate Ei].
  destruct (service_batch_config (b64 5) st (Some 12)) as [c|e] eqn:Ec.
  2: { exfalso. vm_compute in Ei. injection Ei as <-. vm_compute in Ec. discriminate Ec. }
  exists st, c. split; [reflexivity|]. split; [exact Ec|].
  destruct (one_batch_size [] no_floats (b64 60) sized_environ st (b64 5) (Some 12) c Ei Ec) as (_ & -> & _).
  vm_compute in Ei. by injection Ei as <-.
Defined.
