(* ===== verification/Guard.v ===== *)
(** * Guard: where a benchmark may write, [scripts/benchmark-write-path.py]

    The benchmarks write rows and apply the schema, so each asks first where its connection
    string really leads: [require_local_database].  This file has the addresses it accepts,
    with the parts of Python's [ipaddress] it relies on, the verification connection, the
    connection string pinned to the verified address, and the marker that lets a rerun
    recognise its own database.  The functions of psycopg ([conninfo_to_dict],
    [make_conninfo], [connect]) are parameters. *)

From S2P Require Import Prelude.

(** ** Text *)

(** [text.split(sep)] for a one-character separator. *)
Fixpoint split_on (sep : ascii) (text : string) : list string :=
  match text with
  | "" => [""]
  | String c rest =>
      if Ascii.eqb c sep then "" :: split_on sep rest
      else match split_on sep rest with
           | part :: parts => String c part :: parts
           | [] => [String c ""]
           end
  end.

Definition mentions (c : ascii) (text : string) : bool := negb (string_forall (λ x, negb (Ascii.eqb x c)) text).

(** ** Addresses: the standard library's [ipaddress] *)

(** [IPv4Address._parse_octet]; [None] is a [ValueError], here and below. *)
Definition parse_octet (text : string) : option Z :=
  if negb (all_digits text) || (3 <? String.length text)%nat then None
  else if negb (bool_decide (text = "0")) && String.prefix "0" text then None
  else if 255 <? digits_value text then None else Some (digits_value text).

(** [IPv4Address(text)], as its integer. *)
Definition IPv4Address (text : string) : option Z :=
  match split_on "." text with
  | [a; b; c; d] =>
      match parse_octet a, parse_octet b, parse_octet c, parse_octet d with
      | Some a, Some b, Some c, Some d => Some (((a * 256 + b) * 256 + c) * 256 + d)
      | _, _, _, _ => None
      end
  | _ => None
  end.

Definition hex_value (c : ascii) : option Z :=
  let n := Z.of_N (N_of_ascii c) in
  if (48 <=? n) && (n <=? 57) then Some (n - 48)
  else if (97 <=? n) && (n <=? 102) then Some (n - 87)
  else if (65 <=? n) && (n <=? 70) then Some (n - 55)
  else None.

Fixpoint hex_digits (acc : Z) (text : string) : option Z :=
  match text with
  | "" => Some acc
  | String c rest => match hex_value c with Some d => hex_digits (16 * acc + d) rest | None => None end
  end.

(** A part between colons: its text, or a half of an IPv4 suffix already read. *)
Inductive part := Text (t : string) | Half (n : Z).

Definition is_empty (p : part) : bool := match p with Text "" => true | _ => false end.

(** [IPv6Address._parse_hextet]. *)
Definition parse_hextet (p : part) : option Z :=
  match p with
  | Text "" => None
  | Text t => if (4 <? String.length t)%nat then None else hex_digits 0 t
  | Half n => Some n
  end.

Definition join_hextets (ps : list part) : option Z :=
  foldl (λ acc p, match acc, parse_hextet p with Some a, Some h => Some (Z.lor (Z.shiftl a 16) h) | _, _ => None end)
    (Some 0) ps.

Definition _HEXTET_COUNT : nat := 8.

(** The parts of an address, an IPv4 suffix split into its two halves. *)
Definition address_parts (text : string) : option (list part) :=
  let parts := split_on ":" text in
  if (length parts <? 3)%nat then None
  else match last parts with
       | Some suffix =>
           if mentions "." suffix then
             match IPv4Address suffix with
             | Some v => Some ((Text <$> removelast parts) ++ [Half (Z.land (Z.shiftr v 16) 65535); Half (Z.land v 65535)])
             | None => None
             end
           else Some (Text <$> parts)
       | None => None
       end.

(** The positions strictly inside where a part is empty: the places of [::]. *)
Definition skips (parts : list part) : list nat :=
  filter (λ i, is_empty (default (Half 0) (parts !! i)) = true) (seq 1 (length parts - 2)).

(** [IPv6Address._ip_int_from_string]. *)
Definition IPv6Address (text : string) : option Z :=
  match address_parts text with
  | None => None
  | Some parts =>
      let n := length parts in
      let first := default (Half 0) (head parts) in
      let final := default (Half 0) (last parts) in
      if (9 <? n)%nat then None
      else match skips parts with
           | [] =>
               if negb (Nat.eqb n _HEXTET_COUNT) || is_empty first || is_empty final then None else join_hextets parts
           | [i] =>
               let hi := if is_empty first then (i - 1)%nat else i in
               let lo := if is_empty final then (n - i - 2)%nat else (n - i - 1)%nat in
               if is_empty first && negb (Nat.eqb hi 0) then None
               else if is_empty final && negb (Nat.eqb lo 0) then None
               else if (8 <=? hi + lo)%nat then None
               else match join_hextets (take hi parts), join_hextets (drop (n - lo) parts) with
                    | Some h, Some l => Some (Z.lor (Z.shiftl h (16 * Z.of_nat (8 - hi))) l)
                    | _, _ => None
                    end
           | _ => None
           end
  end.

Inductive ip_address := V4 (n : Z) | V6 (n : Z).

(** [ipaddress.ip_address(text)]. *)
Definition parse_address (text : string) : option ip_address :=
  match IPv4Address text with
  | Some n => Some (V4 n)
  | None => V6 <$> IPv6Address text
  end.

(** [IPv6Address.ipv4_mapped]. *)
Definition ipv4_mapped (n : Z) : option Z :=
  if Z.shiftr n 32 =? 65535 then Some (Z.land n 4294967295) else None.

Definition v4_loopback (n : Z) : bool := Z.shiftr n 24 =? 127.

(** [is_loopback] after the unwrapping of a mapped address. *)
Definition is_loopback (a : ip_address) : bool :=
  match a with
  | V4 n => v4_loopback n
  | V6 n => match ipv4_mapped n with Some m => v4_loopback m | None => n =? 1 end
  end.

(** ** The peer of a socket *)

Inductive address_family := AF_UNIX | AF_INET | AF_INET6 | AF_OTHER (n : Z).

#[export] Instance address_family_eq_dec : EqDecision address_family.
Proof. solve_decision. Defined.

(** What [getpeername] returns: the items of a tuple, each as [str] shows it, or something that
    has no items. *)
Inductive peer := Items (items : list string) | NoItems.

(** [str(peer[i])]. *)
Definition peer_item (p : peer) (i : nat) : result string :=
  match p with
  | Items items => match items !! i with Some x => Ok x | None => Raise (OtherError "IndexError") end
  | NoItems => Raise TypeError
  end.

Definition peer_is_local (family : address_family) (p : peer) : bool :=
  match family with
  | AF_UNIX => true
  | AF_OTHER _ => false
  | _ =>
      match peer_item p 0 with
      | Raise _ => false
      | Ok text =>
          match parse_address (default "" (head (split_on "%" text))) with
          | Some a => is_loopback a
          | None => false
          end
      end
  end.

Example local_v4 : peer_is_local AF_INET (Items ["127.0.0.1"; "5432"]) = true. Proof. reflexivity. Qed.
Example private_v4 : peer_is_local AF_INET (Items ["10.0.0.7"; "5432"]) = false. Proof. reflexivity. Qed.
Example local_v6 : peer_is_local AF_INET6 (Items ["::1"; "5432"; "0"; "0"]) = true. Proof. reflexivity. Qed.
Example scoped_v6 : peer_is_local AF_INET6 (Items ["fe80::1%eth0"; "5432"; "0"; "2"]) = false. Proof. reflexivity. Qed.
Example mapped_v6 : peer_is_local AF_INET6 (Items ["::ffff:127.0.0.1"; "5432"; "0"; "0"]) = true. Proof. reflexivity. Qed.
Example mapped_remote : peer_is_local AF_INET6 (Items ["::ffff:8.8.8.8"; "5432"; "0"; "0"]) = false. Proof. reflexivity. Qed.
Example full_v6 : parse_address "2001:db8:0:0:8:800:200C:417A" = Some (V6 42540766411282592856906245548098208122).
Proof. reflexivity. Qed.
Example elided_v6 : parse_address "2001:db8::8:800:200c:417a" = parse_address "2001:db8:0:0:8:800:200C:417A".
Proof. reflexivity. Qed.
Example bad_addresses :
  parse_address <$> ["127.0.0.01"; "1.2.3"; "256.0.0.1"; "::1::2"; ":1"; "1:"; "12345::"; "1:2:3:4:5:6:7:8:9"; "localhost"; ""]
    = replicate 10 None.
Proof. reflexivity. Qed.

(** Two addresses in their usual notation, and any four octets in theirs. *)
Definition dotted (a b c d : Z) : string :=
  py_str_int a +:+ String "." (py_str_int b +:+ String "." (py_str_int c +:+ String "." (py_str_int d))).

Lemma string_forall_app p s t : string_forall p (s +:+ t) = string_forall p s && string_forall p t.
Proof. induction s as [|c s IH]; simpl; [done|]. by rewrite IH, andb_assoc. Qed.

Lemma split_on_app sep s t :
  mentions sep s = false →
  split_on sep (s +:+ t) = match split_on sep t with part :: parts => (s +:+ part) :: parts | [] => [s] end.
Proof.
  unfold mentions. rewrite negb_false_iff. induction s as [|c s IH]; simpl.
  - intros _. induction t as [|c t IHt]; simpl; [done|]. destruct (Ascii.eqb c sep); [done|]. by destruct (split_on sep t).
  - intros [Hc Hs]%andb_true_iff. apply negb_true_iff in Hc. rewrite Hc, IH by done.
    by destruct (split_on sep t).
Qed.

Lemma split_on_last sep s : mentions sep s = false → split_on sep s = [s].
Proof.
  unfold mentions. rewrite negb_false_iff. induction s as [|c s IH]; simpl; [done|].
  intros [Hc Hs]%andb_true_iff. apply negb_true_iff in Hc. by rewrite Hc, IH.
Qed.

Definition octets : list Z := Z.of_nat <$> seq 0 256.

Lemma octets_all (p : Z → bool) : forallb p octets = true → ∀ n, 0 <= n < 256 → p n = true.
Proof.
  rewrite forallb_forall. intros Hp n Hn. apply Hp, list_elem_of_In, list_elem_of_fmap. exists (Z.to_nat n).
  split; [lia|]. apply elem_of_seq. lia.
Qed.

Definition octet_reads (n : Z) : bool :=
  let text := py_str_int n in
  bool_decide (parse_octet text = Some n) && negb (mentions "." text) && negb (mentions "%" text).

Lemma octet_text n :
  0 <= n < 256 → parse_octet (py_str_int n) = Some n ∧ mentions "." (py_str_int n) = false ∧ mentions "%" (py_str_int n) = false.
Proof.
  intros Hn. assert (octet_reads n = true) as Hb by (apply octets_all; [vm_compute; reflexivity|done]).
  unfold octet_reads in Hb. rewrite !andb_true_iff, !negb_true_iff, bool_decide_eq_true in Hb. tauto.
Qed.

Lemma split_on_sep sep s t : mentions sep s = false → split_on sep (s +:+ String sep t) = s :: split_on sep t.
Proof. intros Hs. rewrite split_on_app by done. simpl. rewrite Ascii.eqb_refl. by rewrite string_app_nil_r. Qed.

Lemma mentions_app c s t : mentions c (s +:+ t) = mentions c s || mentions c t.
Proof. unfold mentions. by rewrite string_forall_app, negb_andb. Qed.

Lemma mentions_sep c sep s t : mentions c (s +:+ String sep t) = mentions c s || (Ascii.eqb sep c || mentions c t).
Proof. rewrite mentions_app. unfold mentions. simpl. by rewrite negb_andb, negb_involutive. Qed.

Lemma dotted_address a b c d :
  0 <= a < 256 → 0 <= b < 256 → 0 <= c < 256 → 0 <= d < 256 →
  IPv4Address (dotted a b c d) = Some (((a * 256 + b) * 256 + c) * 256 + d) ∧ mentions "%" (dotted a b c d) = false.
Proof.
  intros (Pa & Da & Qa)%octet_text (Pb & Db & Qb)%octet_text (Pc & Dc & Qc)%octet_text (Pd & Dd & Qd)%octet_text.
  unfold dotted. split.
  2: { by rewrite !mentions_sep, Qa, Qb, Qc, Qd. }
  unfold IPv4Address. rewrite !split_on_sep, split_on_last by done. by rewrite Pa, Pb, Pc, Pd.
Qed.

Lemma dotted_loopback a b c d :
  0 <= a < 256 → 0 <= b < 256 → 0 <= c < 256 → 0 <= d < 256 →
  v4_loopback (((a * 256 + b) * 256 + c) * 256 + d) = (a =? 127).
Proof.
  intros Ha Hb Hc Hd. unfold v4_loopback. rewrite Z.shiftr_div_pow2 by lia. f_equal.
  rewrite <-(Z.div_unique (((a * 256 + b) * 256 + c) * 256 + d) (2 ^ 24) a ((b * 256 + c) * 256 + d)); lia.
Qed.

(** A TCP peer shown by a dotted address counts as local exactly when its first octet is 127. *)
Theorem dotted_peer_local family a b c d rest :
  family = AF_INET ∨ family = AF_INET6 →
  0 <= a < 256 → 0 <= b < 256 → 0 <= c < 256 → 0 <= d < 256 →
  peer_is_local family (Items (dotted a b c d :: rest)) = (a =? 127).
Proof.
  intros Hf Ha Hb Hc Hd. destruct (dotted_address a b c d Ha Hb Hc Hd) as [Hp Hm].
  unfold peer_is_local, peer_item. cbn [lookup list_lookup].
  rewrite split_on_last by done. cbn [head hd_error from_option id]. unfold parse_address. rewrite Hp. cbn [is_loopback].
  rewrite dotted_loopback by done. by destruct Hf as [-> | ->].
Qed.

(** ** The verification connection *)

Definition MARKER : string := "discogs-sql-loader write-path benchmark".

(** An open connection, as [inspect_target] sees it: its socket, what libpq says of it, and the
    answer to the query for relations and comment. *)
Record session := {
  s_family : address_family;
  s_peer : result peer;
  s_host : string;
  s_port : Z;
  s_row : result (option (Z * option string));
}.

Record Target := {
  family : address_family;
  peername : peer;
  host : string;
  port : string;
  relations : Z;
  marker : option string;
}.

(** What the scripts need of psycopg. *)
Class Psycopg := {
  conninfo_to_dict : string → result (gmap string string);
  make_conninfo : string → list (string * string) → result string;
  is_psycopg_error : exn → bool;
}.

Definition SystemExit : exn := OtherError "SystemExit".

Section guard.
Context `{Psycopg} (environ : gmap string string).

Definition inspect_target (connect : string → result session) (dsn : string) : result Target :=
  let! c := connect dsn in
  let! p := s_peer c in
  let! row := s_row c in
  match row with
  | Some (n, comment) =>
      Ok {| family := s_family c; peername := p; host := s_host c; port := py_str_int (s_port c); relations := n;
            marker := comment |}
  | None => Raise (OtherError "AssertionError")
  end.

Definition _has_several_hosts (dsn : string) : result bool :=
  let! parts := conninfo_to_dict dsn in
  Ok (existsb (λ value, match value with Some v => mentions "," v | None => false end)
    [parts !! "host"; parts !! "hostaddr"; environ !! "PGHOST"; environ !! "PGHOSTADDR"]).

Definition pinned_dsn (dsn : string) (t : Target) : result string :=
  if decide (family t = AF_UNIX) then make_conninfo dsn [("host", host t); ("port", port t); ("hostaddr", "")]
  else
    let! address := peer_item (peername t) 0 in
    let! number := peer_item (peername t) 1 in
    make_conninfo dsn [("host", address); ("hostaddr", address); ("port", number)].

Definition require_local_database (connect : string → result session) (dsn : string) (allow_remote : bool) : result string :=
  let! several := _has_several_hosts dsn in
  if several then Raise SystemExit
  else match inspect_target connect dsn with
       | Raise e => Raise (if is_psycopg_error e then SystemExit else e)
       | Ok t =>
           if negb (peer_is_local (family t) (peername t)) && negb allow_remote then Raise SystemExit
           else if negb (relations t =? 0) && negb (bool_decide (marker t = Some MARKER)) then Raise SystemExit
           else pinned_dsn dsn t
       end.

(** The database after [mark_benchmark_database]: its comment. *)
Definition mark_benchmark_database (database : Z * option string) : Z * option string := (database.1, Some MARKER).

(** ** What the guard lets through *)

(** One place: a connection string with a single host that was opened once, to a socket on this
    machine unless [allow_remote], and to a database that was empty or the benchmark's own. *)
Definition verified (connect : string → result session) (dsn : string) (allow_remote : bool) (t : Target) : Prop :=
  _has_several_hosts dsn = Ok false ∧ inspect_target connect dsn = Ok t ∧
  (peer_is_local (family t) (peername t) = true ∨ allow_remote = true) ∧
  (relations t = 0 ∨ marker t = Some MARKER).

Lemma guard_verified connect dsn allow_remote dsn' :
  require_local_database connect dsn allow_remote = Ok dsn' ↔
  ∃ t, verified connect dsn allow_remote t ∧ pinned_dsn dsn t = Ok dsn'.
Proof.
  unfold require_local_database, verified. split.
  - destruct (_has_several_hosts dsn) as [[|]|e] eqn:Hh; cbn [bind]; [done| |done].
    destruct (inspect_target connect dsn) as [t|e] eqn:Ht; [|done].
    destruct (negb (peer_is_local _ _) && _) eqn:Hl; [done|]. destruct (negb (relations t =? 0) && _) eqn:Hr; [done|].
    intros Hp. exists t. rewrite andb_false_iff, !negb_false_iff in Hl, Hr.
    rewrite Z.eqb_eq, bool_decide_eq_true in Hr. done.
  - intros (t & (-> & -> & Hl & Hr) & Hp). cbn [bind].
    assert (negb (peer_is_local (family t) (peername t)) && negb allow_remote = false) as ->
      by (rewrite andb_false_iff, !negb_false_iff; done).
    assert (negb (relations t =? 0) && negb (bool_decide (marker t = Some MARKER)) = false) as ->; [|done].
    by rewrite andb_false_iff, !negb_false_iff, Z.eqb_eq, bool_decide_eq_true.
Qed.
End guard.

(** ** Where the pinned connection string leads

    What the guard relies on of psycopg and libpq, over all moments a connection is opened, as
    names may resolve differently later: explicit parameters replace those of the string, and
    beat services, the environment and name resolution. *)
Class Libpq `{Psycopg} (connect : nat → string → result session) := {
  merged dsn kwargs dsn' :
    make_conninfo dsn kwargs = Ok dsn' →
    ∃ parts, conninfo_to_dict dsn = Ok parts ∧ conninfo_to_dict dsn' = Ok (list_to_map kwargs ∪ parts);
  (** a numeric address, once some socket showed it *)
  explicit_address dsn parts i s j dsn0 s0 address number rest p :
    conninfo_to_dict dsn = Ok parts → connect i dsn = Ok s → s_peer s = Ok p →
    connect j dsn0 = Ok s0 → s_family s0 ≠ AF_UNIX → s_peer s0 = Ok (Items (address :: number :: rest)) →
    parts !! "hostaddr" = Some address → parts !! "port" = Some number →
    s_family s = s_family s0 ∧ ∃ rest', p = Items (address :: number :: rest');
  (** the directory of a Unix socket, with the host address left empty *)
  explicit_socket dsn parts i s j dsn0 s0 :
    conninfo_to_dict dsn = Ok parts → connect i dsn = Ok s → connect j dsn0 = Ok s0 → s_family s0 = AF_UNIX →
    parts !! "host" = Some (s_host s0) → parts !! "hostaddr" = Some "" → parts !! "port" = Some (py_str_int (s_port s0)) →
    s_family s = AF_UNIX ∧ s_host s = s_host s0 ∧ s_port s = s_port s0;
}.

(** The place a connection reached: the socket's directory, or the address and port of its peer. *)
Definition same_place (s : session) (p : peer) (t : Target) : Prop :=
  s_family s = family t ∧
  if decide (family t = AF_UNIX) then s_host s = host t ∧ py_str_int (s_port s) = port t
  else ∃ address number rest rest',
    peername t = Items (address :: number :: rest) ∧ p = Items (address :: number :: rest').

Lemma same_place_local s p t : same_place s p t → peer_is_local (s_family s) p = peer_is_local (family t) (peername t).
Proof.
  intros [Hf Hp]. rewrite Hf. case_decide as Hd; [by rewrite Hd|]. destruct Hp as (a & n & r & r' & -> & ->).
  by destruct (family t).
Qed.

Lemma pinned_reaches `{Libpq connect} dsn dsn' t j i s p :
  inspect_target (connect j) dsn = Ok t → pinned_dsn dsn t = Ok dsn' →
  connect i dsn' = Ok s → s_peer s = Ok p → same_place s p t.
Proof.
  unfold inspect_target. destruct (connect j dsn) as [s0|] eqn:Hc0; [|done]. cbn [bind].
  destruct (s_peer s0) as [p0|] eqn:Hp0; [|done]. cbn [bind]. destruct (s_row s0) as [[[n c]|]|]; [|done..]. cbn [bind].
  intros [= <-]. unfold pinned_dsn, same_place. cbn [family peername host port]. case_decide as Hf.
  - intros (parts & _ & Hparts)%merged Hc Hp.
    destruct (explicit_socket _ _ _ _ _ _ _ Hparts Hc Hc0 Hf) as (H1 & H2 & H3);
      [apply lookup_union_Some_l; reflexivity..|].
    rewrite H1, H2, H3. done.
  - destruct p0 as [[|address [|number rest]]|]; cbn [peer_item lookup list_lookup bind]; [done..| |done].
    intros (parts & _ & Hparts)%merged Hc Hp.
    destruct (explicit_address _ _ _ _ _ _ _ _ _ _ _ Hparts Hc Hp Hc0 Hf Hp0) as (H1 & rest' & ->);
      [apply lookup_union_Some_l; reflexivity..|].
    rewrite H1. split; [done|]. by eexists _, _, _, _.
Qed.

(** A second run accepts the database the first one filled and marked. *)
Theorem rerun_accepted `{Psycopg} environ connect dsn allow_remote dsn' database session :
  require_local_database environ connect dsn allow_remote = Ok dsn' →
  connect dsn = Ok session → s_row session = Ok (Some database) →
  ∀ rows, require_local_database environ
    (λ d, if decide (d = dsn) then Ok {| s_family := s_family session; s_peer := s_peer session; s_host := s_host session;
                                         s_port := s_port session;
                                         s_row := Ok (Some (mark_benchmark_database (rows, database.2))) |}
          else connect d) dsn allow_remote = Ok dsn'.
Proof.
  intros (t & (Hh & Ht & Hl & _) & Hp)%guard_verified Hc Hrow rows. apply guard_verified.
  revert Ht. unfold inspect_target. rewrite Hc. cbn [bind]. rewrite Hrow. destruct (s_peer session) as [p|] eqn:Ep; [|done].
  destruct database as [n c]. cbn [bind]. intros [= <-].
  eexists. split; [split; [exact Hh|split]|].
  - unfold inspect_target. rewrite decide_True by done. cbn [bind s_peer s_row].  reflexivity.
  - cbn [family peername]. split; [exact Hl|]. by right.
  - exact Hp.
Qed.

(** ** A concrete server

    The string [bench] resolves to this machine when it is checked and to another one later;
    the pinned string stays here. *)

Definition bench_parts : gmap string string := {["host" := "bench.test"]}.
Definition here : list (string * string) := [("host", "127.0.0.1"); ("hostaddr", "127.0.0.1"); ("port", "5432")].

#[export] Instance demo_psycopg : Psycopg := {|
  conninfo_to_dict dsn :=
    if decide (dsn = "bench") then Ok bench_parts
    else if decide (dsn = "pinned") then Ok (list_to_map here ∪ bench_parts) else Raise (OtherError "ProgrammingError");
  make_conninfo dsn kwargs :=
    if decide (dsn = "bench" ∧ kwargs = here) then Ok "pinned" else Raise (OtherError "ProgrammingError");
  is_psycopg_error e := bool_decide (e = OtherError "OperationalError");
|}.

Definition demo_connect (moment : nat) (dsn : string) : result session :=
  if decide (dsn = "bench" ∨ dsn = "pinned") then
    let address := if decide (dsn = "bench" ∧ moment ≠ 0%nat) then "10.0.0.7" else "127.0.0.1" in
    Ok {| s_family := AF_INET; s_peer := Ok (Items [address; "5432"]); s_host := "bench.test"; s_port := 5432;
          s_row := Ok (Some (0, None)) |}
  else Raise (OtherError "OperationalError").

#[export] Instance demo_libpq : Libpq demo_connect.
Proof.
  constructor.
  - intros dsn kwargs dsn'. cbn. case_decide as Hd; [|done]. destruct Hd as [-> ->]. intros [= <-]. by exists bench_parts.
  - intros dsn parts i s j dsn0 s0 address number rest p. unfold demo_connect. cbn [conninfo_to_dict demo_psycopg].
    destruct (decide (dsn = "bench")) as [->|Hb].
    { intros [= <-] _ _ _ _ _. unfold bench_parts. by rewrite lookup_singleton_ne. }
    destruct (decide (dsn = "pinned")) as [->|]; [|done]. intros Hparts. injection Hparts as <-.
    rewrite decide_True by by right. rewrite (decide_False (P := "pinned" = "bench" ∧ i ≠ 0%nat)) by naive_solver.
    intros [= <-]. cbn [s_peer s_family]. intros [= <-]. case_decide; [|done]. intros [= <-] _. cbn [s_peer s_family].
    intros [= Haddr Hnum Hrest] Hhost Hport. split; [done|].
    assert (Some "127.0.0.1" = Some address) as [= <-] by exact Hhost.
    assert (Some "5432" = Some number) as [= <-] by exact Hport. by exists [].
  - intros dsn parts i s j dsn0 s0 _ _ Hc Hf. revert Hc Hf. unfold demo_connect. case_decide; [|done]. by intros [= <-].
Qed.
