(* ===== verification/Workload.v ===== *)
(** * Workload: what the benchmarks write, [scripts/benchmark-write-path.py], [scripts/benchmark-first-load.py]

    The records the benchmarks generate from a seeded random source, how they are cut into
    batches, and the workers that take the batches from one queue.  The random source is a
    class with the ranges Python documents; the writer is a parameter. *)

From S2P Require Import Prelude Json Entities.

(** ** Randomness: the standard library's [random.Random] *)

(** The calls the benchmarks make.  [power p] is [int(p ** rng.random())], [chance] is
    [rng.random() < 0.3], [randbelow n] the index [rng.choice] takes of [n] items, and
    [positions n k] the indices [rng.sample] takes. *)
Class Random (R : Type) := {
  seeded : Z → R;
  power : Z → R → Z * R;
  chance : R → bool * R;
  randint : Z → Z → R → Z * R;
  randbelow : nat → R → nat * R;
  positions : nat → nat → R → list nat * R;
}.

Class RandomRanges (R : Type) `{Random R} := {
  (** [random()] is in [[0, 1)] *)
  power_positive p r : 1 <= p → 1 <= (power p r).1;
  randint_range a b r : a <= b → a <= (randint a b r).1 <= b;
  randbelow_range n r : (0 < n)%nat → ((randbelow n r).1 < n)%nat;
  positions_distinct n k r :
    (k ≤ n)%nat → NoDup (positions n k r).1 ∧ length (positions n k r).1 = k ∧ ∀ i, i ∈ (positions n k r).1 → (i < n)%nat;
}.

Section generators.
Context `{Random R}.

(** A computation that draws from the source. *)
Definition rnd A : Type := R → A * R.
Definition draw_ret {A} (a : A) : rnd A := λ r, (a, r).
Definition draw_bind {A B} (c : rnd A) (k : A → rnd B) : rnd B := λ r, let '(a, r) := c r in k a r.

#[local] Notation "'let*' x ':=' c 'in' k" := (draw_bind c (λ x, k)) (at level 10, x name, c at level 100, k at level 200).

(** [[f(i) for i in indices]]. *)
Fixpoint draw_each {I A} (f : I → rnd A) (indices : list I) : rnd (list A) :=
  match indices with
  | [] => draw_ret []
  | i :: indices => let* x := f i in let* xs := draw_each f indices in draw_ret (x :: xs)
  end.

(** [[c for _ in range(n)]]. *)
Definition draw_times {A} (n : Z) (c : rnd A) : rnd (list A) := draw_each (λ _ : nat, c) (seq 0 (Z.to_nat n)).

(** [rng.choice] of a list that is not empty, and [rng.sample]. *)
Definition choice {A} (x : A) (xs : list A) : rnd A :=
  let* i := randbelow (length (x :: xs)) in draw_ret (default x ((x :: xs) !! i)).
Definition sample {A} (l : list A) (k : Z) : rnd (list A) :=
  let* chosen := positions (length l) (Z.to_nat k) in draw_ret (omap (λ i, l !! i) chosen).

(** ** Records *)

Definition GENRES : list string :=
  ["Rock"; "Electronic"; "Jazz"; "Pop"; "Hip Hop"; "Folk, World, & Country"; "Classical"; "Funk / Soul"].
Definition STYLES : list string := (λ i : nat, "Style " +:+ py_str_int (Z.of_nat i)) <$> seq 0 60.
Definition ROLES : list string :=
  ["Producer"; "Mastered By"; "Engineer"; "Mixed By"; "Written-By"; "Vocals"; "Guitar"; "Bass"; "Drums"; "Design";
   "Photography By"; "Artwork By [Cover]"; "Remix"; "Recorded By"; "Executive-Producer"].

Definition format_of (name : string) (descriptions : list string) : json :=
  JObj [("name", JStr name); ("qty", JStr "1"); ("descriptions", JObj [("description", JList (JStr <$> descriptions))])].
Definition twelve_inch : string := "12" +:+ String "034" "".
Definition FORMATS : list json :=
  [format_of "Vinyl" ["LP"; "Album"]; format_of "CD" ["Album"]; format_of "Vinyl" [twelve_inch; "EP"];
   format_of "Cassette" ["Album"]].

Definition _zipf (population : Z) : rnd Z := let* n := power population in draw_ret (Z.min (population - 1) (n - 1)).

Definition choose_role : rnd string := choice "Producer" (tail ROLES).
Definition year : rnd json := let* y := choice 1969 [1984; 1999; 2005; 2016; 2021] in draw_ret (JStr (py_str_int y)).

(** [{"id": str(_zipf(rng, entities))}]. *)
Definition reference (entities : Z) : rnd json := let* i := _zipf entities in draw_ret (JObj [("id", JStr (py_str_int i))]).

Definition credit (entities : Z) : rnd json :=
  let* i := _zipf entities in
  let* person := _zipf entities in
  let* role := choose_role in
  draw_ret (JObj [("id", JStr (py_str_int i)); ("name", JStr ("Person " +:+ py_str_int person)); ("role", JStr role)]).

Definition company (entities : Z) : rnd json :=
  let* i := _zipf entities in
  let* n := _zipf entities in
  draw_ret (JObj [("discogs_id", JStr (py_str_int i)); ("name", JStr ("Company " +:+ py_str_int n));
                  ("role", JStr "Pressed By"); ("role_category", JStr "manufacture")]).

(** One track; the credits that are [None] are left out of it. *)
Definition track (entities : Z) (number : nat) : rnd json :=
  let position := ("position", JStr ("A" +:+ py_str_int (Z.of_nat number))) in
  let* credited := chance in
  if credited then
    let* artist := credit entities in
    draw_ret (JObj [position; ("extraartists", JObj [("artist", JList [artist])])])
  else draw_ret (JObj [position]).

Definition numbered (base : Z) (index : nat) : string := py_str_int (base + Z.of_nat index).

Definition as_record (id : string) (data : dict) : BatchRecord :=
  {| data_id := id; payload := data; sha256 := "hash-" +:+ id |}.

Definition release (index : nat) (entities : Z) : rnd BatchRecord :=
  let id := numbered 1000000 index in
  let* stop := randint 4 16 in
  let* tracks := draw_each (track entities) (seq 1 (Z.to_nat (stop - 1))) in
  let* y := year in
  let* n := randint 1 3 in
  let* artists := draw_times n (reference entities) in
  let* n := randint 1 2 in
  let* labels := draw_times n (reference entities) in
  let* n := randint 1 2 in
  let* genres := sample GENRES n in
  let* n := randint 1 4 in
  let* styles := sample STYLES n in
  let* n := randint 0 14 in
  let* credits := draw_times n (credit entities) in
  let* n := randint 0 4 in
  let* companies := draw_times n (company entities) in
  let* format := choice (format_of "Vinyl" ["LP"; "Album"]) (tail FORMATS) in
  draw_ret (as_record id
    [("id", JStr id); ("title", JStr ("Release " +:+ py_str_int (Z.of_nat index))); ("year", y);
     ("artists", JList artists); ("labels", JList labels); ("genres", JList (JStr <$> genres));
     ("styles", JList (JStr <$> styles)); ("extraartists", JList credits);
     ("companies", JObj [("items", JList companies)]); ("formats", JList [format]);
     ("tracklist", JObj [("track", JList tracks)])]).

Fixpoint repeat_text (s : string) (n : nat) : string := match n with 0%nat => "" | S n => s +:+ repeat_text s n end.

Definition artist (index : nat) (entities : Z) : rnd BatchRecord :=
  let id := numbered 2000000 index in
  let* n := randint 0 800 in
  let profile := repeat_text "x" (Z.to_nat n) in
  let* n := choice 0 [0; 0; 2; 4; 8] in
  let* members := draw_times n (reference entities) in
  let* n := choice 0 [0; 1; 2] in
  let* groups := draw_times n (reference entities) in
  let* n := choice 0 [0; 1; 3] in
  let* aliases := draw_times n (reference entities) in
  draw_ret (as_record id
    [("id", JStr id); ("name", JStr ("Artist " +:+ py_str_int (Z.of_nat index))); ("profile", JStr profile);
     ("members", JList members); ("groups", JList groups); ("aliases", JList aliases)]).

Definition master (index : nat) (entities : Z) : rnd BatchRecord :=
  let id := numbered 3000000 index in
  let* y := year in
  let* n := randint 1 3 in
  let* artists := draw_times n (reference entities) in
  let* n := randint 1 2 in
  let* genres := sample GENRES n in
  let* n := randint 1 4 in
  let* styles := sample STYLES n in
  draw_ret (as_record id
    [("id", JStr id); ("title", JStr ("Master " +:+ py_str_int (Z.of_nat index))); ("year", y);
     ("artists", JList artists); ("genres", JList (JStr <$> genres)); ("styles", JList (JStr <$> styles))]).

(** [BUILDERS[data_type]]; [None] is a [KeyError], which the choices of the argument exclude. *)
Definition builder_of (data_type : string) : option (nat → Z → rnd BatchRecord) :=
  if decide (data_type = "releases") then Some release
  else if decide (data_type = "artists") then Some artist
  else if decide (data_type = "masters") then Some master
  else None.

(** [max(1000, args.releases // 2)]. *)
Definition entities_for (releases : Z) : Z := Z.max 1000 (releases / 2).

(** [[builder(rng, start + index, entities) for index in range(count)]]. *)
Definition generate (builder : nat → Z → rnd BatchRecord) (entities : Z) (start count : nat) : rnd (list BatchRecord) :=
  draw_each (λ i, builder i entities) (seq start count).
End generators.
Arguments rnd R A : clear implicits.

(** ** What every generated record has *)

Section ranges.
Context `{RandomRanges R}.

(** Every value [c] can draw satisfies [P]. *)
Definition always {A} (P : A → Prop) (c : rnd R A) : Prop := ∀ r, P (c r).1.

Lemma always_ret {A} (P : A → Prop) a : P a → always P (draw_ret a).
Proof. by intros ? ?. Qed.

Lemma always_bind {A B} (P : A → Prop) (Q : B → Prop) c (k : A → rnd R B) :
  always P c → (∀ a, P a → always Q (k a)) → always Q (draw_bind c k).
Proof. intros Hc Hk r. unfold draw_bind. specialize (Hc r). destruct (c r) as [a r']. exact (Hk a Hc r'). Qed.

Lemma always_true {A} (c : rnd R A) : always (λ _, True) c.
Proof. by intros ?. Qed.

Lemma always_each {I A} (P : A → Prop) (f : I → rnd R A) l : (∀ i, i ∈ l → always P (f i)) → always (Forall P) (draw_each f l).
Proof.
  induction l as [|i l IH]; intros Hf; [apply always_ret; constructor|].
  apply (always_bind P); [apply Hf; by left|]. intros x Hx.
  apply (always_bind (Forall P)); [apply IH; intros; apply Hf; by right|]. intros xs Hxs. apply always_ret. by constructor.
Qed.

Lemma zipf_range population : 1 <= population → always (λ n, 0 <= n < population) (_zipf population).
Proof.
  intros Hp. apply (always_bind (λ n, 1 <= n)); [intros r; by apply power_positive|]. intros n Hn. apply always_ret. lia.
Qed.

(** A reference to an entity of the population: an object with its number as the id. *)
Definition refers (entities : Z) (v : json) : Prop :=
  ∃ z o, v = JObj o ∧ jget "id" o = JStr (py_str_int z) ∧ 0 <= z < entities.

Lemma reference_refers entities : 1 <= entities → always (refers entities) (reference entities).
Proof.
  intros He. eapply always_bind; [by apply zipf_range|]. intros z Hz. apply always_ret. by eexists _, _.
Qed.

Lemma credit_refers entities : 1 <= entities → always (refers entities) (credit entities).
Proof.
  intros He. eapply always_bind; [by apply zipf_range|]. intros z Hz.
  eapply always_bind; [apply always_true|]. intros person _. eapply always_bind; [apply always_true|]. intros role _.
  apply always_ret. by eexists _, _.
Qed.

Definition REFERENCE_KEYS : list string := ["artists"; "labels"; "extraartists"; "members"; "groups"; "aliases"].

Definition elements (v : json) : list json := match v with JList l => l | _ => [] end.

(** A generated record: named by its index, its hash by its name, its references in range. *)
Definition well_made (base : Z) (index : nat) (entities : Z) (m : BatchRecord) : Prop :=
  data_id m = numbered base index ∧ sha256 m = "hash-" +:+ data_id m ∧ jget "id" (payload m) = JStr (data_id m) ∧
  ∀ key, key ∈ REFERENCE_KEYS → Forall (refers entities) (elements (jget key (payload m))).

Ltac skip_draw := eapply always_bind; [apply always_true|]; intros ? _.
Ltac draw_with lemma := eapply always_bind; [apply always_each; intros; by apply lemma|]; intros ? ?.

Lemma release_made index entities : 1 <= entities → always (well_made 1000000 index entities) (release index entities).
Proof.
  intros He. unfold release. cbv zeta. do 4 skip_draw. draw_with reference_refers. skip_draw. draw_with reference_refers.
  do 5 skip_draw. draw_with credit_refers. do 3 skip_draw. apply always_ret. split_and!; try reflexivity.
  intros key Hk. unfold REFERENCE_KEYS in Hk. repeat (apply elem_of_cons in Hk as [->|Hk]); try done; try (by constructor).
  by apply elem_of_nil in Hk.
Qed.

Lemma artist_made index entities : 1 <= entities → always (well_made 2000000 index entities) (artist index entities).
Proof.
  intros He. unfold artist. cbv zeta. do 2 skip_draw. draw_with reference_refers. skip_draw. draw_with reference_refers.
  skip_draw. draw_with reference_refers. apply always_ret. split_and!; try reflexivity.
  intros key Hk. unfold REFERENCE_KEYS in Hk. repeat (apply elem_of_cons in Hk as [->|Hk]); try done; try (by constructor).
  by apply elem_of_nil in Hk.
Qed.

Lemma master_made index entities : 1 <= entities → always (well_made 3000000 index entities) (master index entities).
Proof.
  intros He. unfold master. cbv zeta. do 2 skip_draw. draw_with reference_refers. do 4 skip_draw.
  apply always_ret. split_and!; try reflexivity.
  intros key Hk. unfold REFERENCE_KEYS in Hk. repeat (apply elem_of_cons in Hk as [->|Hk]); try done; try (by constructor).
  by apply elem_of_nil in Hk.
Qed.
End ranges.

Lemma draw_each_app `{Random R} {I A} (f : I → rnd R A) l1 l2 r :
  draw_each f (l1 ++ l2) r =
    let '(xs, r') := draw_each f l1 r in let '(ys, r'') := draw_each f l2 r' in (xs ++ ys, r'').
Proof.
  induction l1 as [|i l1 IH] in r |- *; simpl.
  - unfold draw_ret. by destruct (draw_each f l2 r).
  - unfold draw_bind. destruct (f i r) as [x r1]. rewrite IH. destruct (draw_each f l1 r1) as [xs r2].
    unfold draw_ret. by destruct (draw_each f l2 r2).
Qed.

Lemma draw_each_indexed `{Random R} {I A} (P : I → A → Prop) (f : I → rnd R A) l :
  (∀ i, always (P i) (f i)) → always (Forall2 P l) (draw_each f l).
Proof.
  intros Hf. induction l as [|i l IH]; [by apply always_ret|].
  apply (always_bind (P i)); [apply Hf|]. intros x Hx.
  apply (always_bind (Forall2 P l)); [exact IH|]. intros xs Hxs. apply always_ret. by constructor.
Qed.

(** ** Batches *)

(** [[l[start : start + size] for start in range(0, len(l), size)]]. *)
Definition slices {A} (size : Z) (l : list A) : result (list (list A)) :=
  if size =? 0 then Raise ValueError
  else if size <? 0 then Ok []
  else
    let k := Z.to_nat size in
    Ok ((λ i, take k (drop (i * k) l)) <$> seq 0 ((length l + k - 1) / k)).

Lemma slices_prefix {A} (k n : nat) (l : list A) :
  concat ((λ i, take k (drop (i * k) l)) <$> seq 0 n) = take (n * k) l.
Proof.
  induction n as [|n IH]; [done|]. rewrite seq_S, fmap_app, concat_app, IH. csimpl. rewrite app_nil_r, take_take_drop.
  f_equal. lia.
Qed.

Lemma slices_concat {A} size (l : list A) :
  0 < size → ∃ bs, slices size l = Ok bs ∧ concat bs = l ∧ ∀ b, b ∈ bs → (1 ≤ length b ≤ Z.to_nat size)%nat.
Proof.
  intros Hs. unfold slices. destruct (Z.eqb_spec size 0) as [?|_]; [lia|]. destruct (Z.ltb_spec size 0) as [?|_]; [lia|].
  set (k := Z.to_nat size). assert (1 ≤ k)%nat by lia. eexists. split; [done|].
  pose proof (Nat.div_mod (length l + k - 1) k ltac:(lia)) as Hdiv.
  pose proof (Nat.mod_upper_bound (length l + k - 1) k ltac:(lia)) as Hmod.
  set (m := ((length l + k - 1) / k)%nat) in *. split.
  - rewrite slices_prefix. apply take_ge. nia.
  - intros b (i & -> & [_ Hi]%elem_of_seq)%list_elem_of_fmap. rewrite length_take, length_drop. nia.
Qed.

(** ** Workers *)

(** [worker]: before its first turn, in a write, back from the loop, or stopped by an exception. *)
Inductive worker (B : Type) := Ready | Writing (batch : B) | Returned | Failed (e : exn).
Arguments Ready {_}.
Arguments Writing {_} _.
Arguments Returned {_}.
Arguments Failed {_} _.

Section workers.
Context {B S W : Type} (process : Z → B → S → S * result W).

Record gathering := {
  queue : list B;
  workers : list (worker B);
  database : S;
  (** the batches whose write returned, in that order *)
  written : list B;
}.

Definition gather (batches : list B) (n : nat) (s : S) : gathering :=
  {| queue := batches; workers := replicate n Ready; database := s; written := [] |}.

(** [queue.get_nowait()], up to the next write or the end of the worker. *)
Definition take_batch (i : nat) (g : gathering) : gathering :=
  match queue g with
  | [] => {| queue := []; workers := <[i := Returned]> (workers g); database := database g; written := written g |}
  | b :: q => {| queue := q; workers := <[i := Writing b]> (workers g); database := database g; written := written g |}
  end.

(** Worker [i] runs, at time [now], until its next await. *)
Definition turn (g : gathering) (in_ : nat * Z) : gathering :=
  let '(i, now) := in_ in
  match workers g !! i with
  | Some Ready => take_batch i g
  | Some (Writing b) =>
      let '(s, r) := process now b (database g) in
      match r with
      | Ok _ => take_batch i {| queue := queue g; workers := workers g; database := s; written := written g ++ [b] |}
      | Raise e => {| queue := queue g; workers := <[i := Failed e]> (workers g); database := s; written := written g |}
      end
  | _ => g
  end.

Definition turns (schedule : list (nat * Z)) (g : gathering) : gathering := foldl turn g schedule.

Definition in_hand (w : worker B) : option B := match w with Writing b => Some b | _ => None end.
Definition failure (w : worker B) : option exn := match w with Failed e => Some e | _ => None end.
Definition is_over (w : worker B) : bool := match w with Returned | Failed _ => true | _ => false end.
Definition over (g : gathering) : bool := forallb is_over (workers g).

(** [await asyncio.gather(...)] once every worker is over: the exception of one of them, if any
    failed. *)
Definition gathered (g : gathering) : result () :=
  match omap failure (workers g) with e :: _ => Raise e | [] => Ok () end.

(** Nothing is lost and nothing twice: written, in a worker's hands, or still queued. *)
Definition accounts (batches : list B) (g : gathering) : Prop :=
  omap failure (workers g) = [] →
  written g ++ omap in_hand (workers g) ++ queue g ≡ₚ batches ∧ (Returned ∈ workers g → queue g = []).

Lemma omap_insert {A C} (f : A → option C) (l : list A) i x y :
  l !! i = Some x →
  ∃ l1 l2, l = l1 ++ x :: l2 ∧ <[i:=y]> l = l1 ++ y :: l2.
Proof.
  intros Hi. exists (take i l), (drop (Datatypes.S i) l). split; [by rewrite take_drop_middle|].
  rewrite insert_take_drop; [done|]. by eapply lookup_lt_Some.
Qed.

Lemma take_batch_accounts batches i g x :
  workers g !! i = Some x → in_hand x = None → failure x = None →
  (omap failure (workers g) = [] →
     written g ++ omap in_hand (workers g) ++ queue g ≡ₚ batches ∧ (Returned ∈ workers g → queue g = [])) →
  accounts batches (take_batch i g).
Proof.
  intros Hi Hx Hf Hacc. unfold take_batch, accounts. destruct (queue g) as [|b q]; cbn [queue workers written].
  - destruct (omap_insert failure _ _ _ (Returned) Hi) as (l1 & l2 & El & ->). rewrite El in Hacc.
    rewrite !omap_app in Hacc |- *. csimpl in Hacc. rewrite Hx, Hf in Hacc. csimpl. intros Hnf. split; [|done].
    by apply Hacc.
  - destruct (omap_insert failure _ _ _ (Writing b) Hi) as (l1 & l2 & El & ->). rewrite El in Hacc.
    rewrite !omap_app in Hacc |- *. csimpl in Hacc. rewrite Hx, Hf in Hacc. csimpl. intros Hnf.
    destruct (Hacc Hnf) as [Hp Hr]. split.
    + rewrite <-Hp. f_equiv. rewrite <-!app_assoc. f_equiv. csimpl. by rewrite <-Permutation_middle.
    + intros Hin. exfalso. apply elem_of_app in Hin. rewrite elem_of_cons in Hin.
      assert (b :: q = []); [|done]. apply Hr. apply elem_of_app. rewrite elem_of_cons. naive_solver.
Qed.

Lemma turns_account batches schedule g : accounts batches g → accounts batches (turns schedule g).
Proof.
  unfold turns. induction schedule as [|[i now] schedule IH] in g |- *; [done|]. intros Hacc. cbn [foldl]. apply IH.
  unfold turn. destruct (workers g !! i) as [[|b| |e]|] eqn:Hi; try done; [by eapply take_batch_accounts|].
  destruct (process now b (database g)) as [s [r|e]].
  - (* a write that returned leaves the worker as if it had nothing in hand *)
    set (g' := {| queue := queue g; workers := <[i := Ready]> (workers g); database := s; written := written g ++ [b] |}).
    assert (take_batch i {| queue := queue g; workers := workers g; database := s; written := written g ++ [b] |}
      = take_batch i g') as ->.
    { unfold take_batch, g'. cbn [queue workers database written]. destruct (queue g); by rewrite list_insert_insert_eq. }
    apply (take_batch_accounts batches i g' Ready); [|done|done|].
    { cbn [workers g']. apply list_lookup_insert_eq. by eapply lookup_lt_Some. }
    unfold g'. cbn [workers written queue]. unfold accounts in Hacc.
    destruct (omap_insert failure _ _ _ Ready Hi) as (l1 & l2 & El & ->). rewrite El in Hacc.
    rewrite !omap_app in Hacc |- *. csimpl in Hacc. csimpl. intros Hnf. destruct (Hacc Hnf) as [Hp Hr]. split.
    + rewrite <-Hp. rewrite <-!app_assoc. f_equiv. cbn [app]. apply Permutation_middle.
    + intros Hin. apply Hr. apply elem_of_app in Hin. rewrite elem_of_cons in Hin. apply elem_of_app.
      rewrite elem_of_cons. naive_solver.
  - unfold accounts. cbn [workers]. destruct (omap_insert failure _ _ _ (Failed e) Hi) as (l1 & l2 & El & ->).
    rewrite !omap_app. csimpl. intros Hnf. by apply app_eq_nil in Hnf as [_ ?].
Qed.

Lemma gather_accounts batches n s : accounts batches (gather batches n s).
Proof.
  intros _. cbn [gather workers written queue]. split.
  - assert (omap in_hand (replicate n (Ready : worker B)) = []) as ->; [|done]. by induction n.
  - intros Hin. by apply elem_of_replicate in Hin as [? _].
Qed.

(** The turns worker [i] may still need: one per batch in the queue, and its own last ones. *)
Definition turns_left (i : nat) (g : gathering) : nat :=
  match workers g !! i with
  | Some Ready => length (queue g) + 2
  | Some (Writing _) => length (queue g) + 1
  | _ => 0
  end.

Lemma take_batch_left i j g w :
  workers g !! j = Some w → is_over w = false →
  (turns_left i (take_batch j g) ≤ turns_left i g - (if decide (i = j) then 1 else 0))%nat.
Proof.
  intros Hj Hw. unfold turns_left, take_batch. pose proof (lookup_lt_Some _ _ _ Hj) as Hlt.
  destruct (queue g) as [|b q]; cbn [workers queue length]; (case_decide as Hij; [subst i; rewrite Hj, list_lookup_insert_eq by done|
    rewrite list_lookup_insert_ne by done]); destruct w; try done; repeat case_match; lia.
Qed.

Lemma turn_left i g j now : (turns_left i (turn g (j, now)) ≤ turns_left i g - (if decide (i = j) then 1 else 0))%nat.
Proof.
  unfold turn. destruct (workers g !! j) as [w|] eqn:Hj.
  2: { unfold turns_left. case_decide; [subst i; rewrite Hj|]; lia. }
  pose proof (lookup_lt_Some _ _ _ Hj) as Hlt.
  destruct w as [|b| |e].
  - by eapply take_batch_left.
  - destruct (process now b (database g)) as [s [r|e]].
    + exact (take_batch_left i j {| queue := queue g; workers := workers g; database := s; written := written g ++ [b] |}
        (Writing b) Hj eq_refl).
    + unfold turns_left. cbn [workers queue]. case_decide as Hij; [subst i; rewrite list_lookup_insert_eq by done; lia|].
      rewrite list_lookup_insert_ne by done. repeat case_match; lia.
  - unfold turns_left. case_decide; [subst i; rewrite Hj|]; lia.
  - unfold turns_left. case_decide; [subst i; rewrite Hj|]; lia.
Qed.

(** How often a schedule runs worker [i]. *)
Definition shares (i : nat) (schedule : list (nat * Z)) : nat := length (filter (λ t, t.1 = i) schedule).

Lemma turns_shares i schedule g : (turns_left i (turns schedule g) ≤ turns_left i g - shares i schedule)%nat.
Proof.
  unfold turns, shares. induction schedule as [|[j now] schedule IH] in g |- *; [simpl; lia|]. cbn [foldl].
  etrans; [apply IH|]. pose proof (turn_left i g j now) as Hleft. rewrite filter_cons. cbn [fst].
  case_decide as Hij; [rewrite decide_True by done; cbn [length]|rewrite decide_False by congruence]; lia.
Qed.

Lemma turns_workers schedule g : length (workers (turns schedule g)) = length (workers g).
Proof.
  unfold turns. induction schedule as [|[j now] schedule IH] in g |- *; [done|]. cbn [foldl]. rewrite IH.
  unfold turn, take_batch. repeat case_match; cbn [workers]; by rewrite ?length_insert.
Qed.

Lemma shares_finish batches n s schedule :
  (∀ i, (i < n)%nat → (length batches + 2 ≤ shares i schedule)%nat) → over (turns schedule (gather batches n s)) = true.
Proof.
  intros Hs. unfold over. apply forallb_forall. intros w (i & Hi)%list_elem_of_In%list_elem_of_lookup.
  pose proof (lookup_lt_Some _ _ _ Hi) as Hlt. rewrite turns_workers in Hlt. cbn [gather workers] in Hlt.
  rewrite length_replicate in Hlt. pose proof (turns_shares i schedule (gather batches n s)) as Hleft.
  specialize (Hs i Hlt). unfold turns_left in Hleft. rewrite Hi in Hleft. cbn [gather workers queue] in Hleft.
  rewrite lookup_replicate_2 in Hleft by done. destruct w; try done; lia.
Qed.

(** ** What the workers leave *)

(** Batches written one after the other, at times [ok] accepts. *)
Inductive in_turn (ok : Z → Prop) : S → list B → S → Prop :=
  | in_turn_none s : in_turn ok s [] s
  | in_turn_next s bs s1 now b s2 r :
      in_turn ok s bs s1 → ok now → process now b s1 = (s2, Ok r) → in_turn ok s (bs ++ [b]) s2.

Definition atomic : Prop := ∀ now b s s' e, process now b s = (s', Raise e) → s' = s.

Lemma turns_in_turn ok s schedule g :
  atomic → Forall (λ t, ok t.2) schedule → in_turn ok s (written g) (database g) →
  in_turn ok s (written (turns schedule g)) (database (turns schedule g)).
Proof.
  intros Hatomic Hok. unfold turns. induction Hok as [|[j now] schedule Hnow _ IH] in g |- *; [done|]. intros Hg.
  cbn [foldl]. apply IH. unfold turn. destruct (workers g !! j) as [[|b| |e]|]; try done.
  - unfold take_batch. by destruct (queue g).
  - destruct (process now b (database g)) as [s' [r|e]] eqn:Hp.
    + unfold take_batch. cbn [queue workers database written]. destruct (queue g); cbn [written database];
        by eapply in_turn_next.
    + cbn [written database]. by rewrite (Hatomic _ _ _ _ _ Hp).
Qed.

(** Once every worker is over and none failed, all batches are written, each once. *)
Lemma over_written batches n s schedule :
  (0 < n)%nat → over (turns schedule (gather batches n s)) = true → gathered (turns schedule (gather batches n s)) = Ok () →
  written (turns schedule (gather batches n s)) ≡ₚ batches.
Proof.
  intros Hn Hover Hok. set (g := turns schedule (gather batches n s)) in *.
  assert (omap failure (workers g) = []) as Hnf by (unfold gathered in Hok; by destruct (omap failure (workers g))).
  destruct (turns_account batches schedule _ (gather_accounts batches n s) Hnf) as [Hp Hr]. fold g in Hp, Hr.
  assert (Forall (λ w, w = Returned) (workers g)) as Hall.
  { apply Forall_forall. intros w Hw. unfold over in Hover. rewrite forallb_forall in Hover.
    specialize (Hover w (proj1 (list_elem_of_In _ _) Hw)). destruct w as [| | |e]; try done. exfalso.
    assert (e ∈ omap failure (workers g)) as Hin by (apply list_elem_of_omap; by eexists).
    rewrite Hnf in Hin. by apply elem_of_nil in Hin. }
  assert (length (workers g) = n) as Hlen.
  { unfold g. rewrite turns_workers. cbn [gather workers]. apply length_replicate. }
  destruct (workers g) as [|w ws]; [simpl in Hlen; lia|]. apply Forall_cons in Hall as [-> Hall].
  rewrite Hr in Hp by (by left). assert (omap in_hand (Returned :: ws) = []) as Hhand.
  { csimpl. clear -Hall. induction Hall as [|w ws -> _ IH]; [done|exact IH]. }
  by rewrite Hhand, !app_nil_r in Hp.
Qed.

(** Nothing to write, or nobody to write it. *)
Definition idle (g : gathering) : Prop :=
  (queue g = [] ∨ workers g = []) ∧ ∀ i b, workers g !! i ≠ Some (Writing b).

Lemma turns_idle schedule g : idle g → database (turns schedule g) = database g.
Proof.
  unfold turns. induction schedule as [|[i now] schedule IH] in g |- *; [done|]. intros [Hq Hw]. cbn [foldl].
  assert (idle (turn g (i, now)) ∧ database (turn g (i, now)) = database g) as [Hidle <-]; [|by apply IH].
  unfold turn. destruct (workers g !! i) as [w|] eqn:Hi; [|done]. destruct w as [|b| |e]; try done; [|by destruct (Hw i b)].
  destruct Hq as [Hq|Hws]; [|by rewrite Hws in Hi]. unfold take_batch. rewrite Hq. split; [|done].
  split; [by left|]. cbn [workers]. intros j b. destruct (decide (i = j)) as [<-|Hne].
  - rewrite list_lookup_insert_eq; [done|]. by eapply lookup_lt_Some.
  - by rewrite list_lookup_insert_ne.
Qed.
End workers.

(** ** A concrete source *)

Definition next (r : Z) : Z := (r * 5 + 3) mod 97.

#[export] Instance small_random : Random Z := {|
  seeded seed := seed mod 97;
  power p r := (1 + r mod Z.max 1 p, next r);
  chance r := (Z.even r, next r);
  randint a b r := (a + r mod Z.max 1 (b - a + 1), next r);
  randbelow n r := ((Z.to_nat r mod Nat.max 1 n)%nat, next r);
  positions n k r := (seq 0 k, next r);
|}.

#[export] Instance small_random_ranges : RandomRanges Z.
Proof.
  constructor.
  - intros p r Hp. cbn. pose proof (Z.mod_pos_bound r (Z.max 1 p)). lia.
  - intros a b r Hab. cbn. pose proof (Z.mod_pos_bound r (Z.max 1 (b - a + 1))). lia.
  - intros n r Hn. cbn. rewrite Nat.max_r by lia. apply Nat.mod_upper_bound. lia.
  - intros n k r Hk. cbn [fst positions small_random]. split; [apply NoDup_seq|]. split; [apply length_seq|].
    intros i [_ Hi]%elem_of_seq. lia.
Qed.

(** One worker writes both batches while the other finds the queue empty. *)
Example two_workers :
  let g := turns (λ _ b s, (s ++ b, Ok ())) [(0%nat, 1); (0%nat, 2); (1%nat, 3); (0%nat, 4)] (gather [[1]; [2]] 2 []) in
  database g = [1; 2] ∧ over g = true.
Proof. split; reflexivity. Qed.
