(* ===== verification/Benchmarks.v ===== *)
(** * Benchmarks: [scripts/benchmark-write-path.py], [scripts/benchmark-first-load.py],
    [scripts/benchmark-poison.py]

    The load benchmarks from their arguments to their report: the checks of [main], the
    guard of [Guard] before anything is written, the schema and the marker, the records and
    workers of [Workload] over the repository's own writer, and, for the first load, the
    secondary indexes dropped before and rebuilt after.  A run changes a catalog and logs what
    it asks of which connection string; the answers of the database are arguments.  Timings and
    the rates computed from them are not modelled. *)

From S2P Require Import Prelude Json Runtime Identity Derivation GraphWriter GraphEffect Entities Mirror Batch Extraction Guard Workload.

(** ** Deeds *)

Inductive deed :=
  (** the read-only verification connection *)
  | Inspect (dsn : string)
  | Initialize (dsn : string) (max_connections : Z)
  | CreateSchema (dsn : string)
  | Mark (dsn : string)
  | CreateExtension (dsn : string)
  | ResetStatistics (dsn : string)
  | ReadWal (dsn : string)
  | WriteBatches (dsn : string)
  | ReadStatements (dsn : string) (limit : Z)
  | ReadSize (dsn : string)
  | ListIndexes (dsn : string)
  | DropIndex (dsn : string) (schema name : string)
  | SetMaintenance (dsn : string)
  | Rebuild (dsn : string) (definition : string)
  | Measure (dsn : string) (batch_size : Z)
  | ClosePool (dsn : string).

Definition deed_dsn (d : deed) : string :=
  match d with
  | Inspect dsn | Initialize dsn _ | CreateSchema dsn | Mark dsn | CreateExtension dsn | ResetStatistics dsn | ReadWal dsn
  | WriteBatches dsn | ReadStatements dsn _ | ReadSize dsn | ListIndexes dsn | DropIndex dsn _ _ | SetMaintenance dsn
  | Rebuild dsn _ | Measure dsn _ | ClosePool dsn => dsn
  end.

Definition is_inspect (d : deed) : bool := match d with Inspect _ => true | _ => false end.

(** Deeds that change what all users of the server share. *)
Definition is_shared (d : deed) : bool := match d with CreateExtension _ | ResetStatistics _ => true | _ => false end.

Section trace.
Context {S : Type}.

(** A script: it changes the catalog, logs what it does, and returns or raises. *)
Definition script A : Type := S * list deed → (S * list deed) * result A.

Definition sc_ret {A} (a : A) : script A := λ w, (w, Ok a).
Definition sc_raise {A} (e : exn) : script A := λ w, (w, Raise e).
Definition sc_bind {A B} (c : script A) (k : A → script B) : script B :=
  λ w, match c w with (w', Ok a) => k a w' | (w', Raise e) => (w', Raise e) end.
Definition sc_lift {A} (r : result A) : script A := λ w, (w, r).
Definition act {A} (d : deed) (r : result A) : script A := λ '(s, log), ((s, log ++ [d]), r).

(** [try: body finally: close]; an exception of [close] replaces what the body did. *)
Definition finally {A} (body : script A) (close : script ()) : script A :=
  λ w, let '(w, r) := body w in match close w with (w, Ok _) => (w, r) | (w, Raise e) => (w, Raise e) end.

(** [c] only does deeds [P] allows. *)
Definition does {A} (P : deed → Prop) (c : script A) : Prop :=
  ∀ s log w' r, c (s, log) = (w', r) → ∃ seg, w'.2 = log ++ seg ∧ Forall P seg.

Lemma does_quiet {A} P (r : result A) : does P (λ w, (w, r)).
Proof. intros s log w' r' [= <- _]. exists []. by rewrite app_nil_r. Qed.

Lemma does_act {A} (P : deed → Prop) d (r : result A) : P d → does P (act d r).
Proof. intros Hd s log w' r' [= <- _]. exists [d]. split; [done|]. by constructor. Qed.

Lemma does_seq P (w1 w2 : S * list deed) log : (∃ seg, w1.2 = log ++ seg ∧ Forall P seg) →
  (∃ seg, w2.2 = w1.2 ++ seg ∧ Forall P seg) → ∃ seg, w2.2 = log ++ seg ∧ Forall P seg.
Proof.
  intros (s1 & E1 & H1) (s2 & E2 & H2). exists (s1 ++ s2). rewrite E2, E1, app_assoc. split; [done|]. by apply Forall_app.
Qed.

Lemma does_bind {A B} P (c : script A) (k : A → script B) : does P c → (∀ a, does P (k a)) → does P (sc_bind c k).
Proof.
  intros Hc Hk s log w' r. unfold sc_bind. destruct (c (s, log)) as [w1 [a|e]] eqn:E.
  - intros Ek. eapply does_seq; [by eapply Hc|]. destruct w1. by eapply Hk.
  - intros [= <- _]. by eapply Hc.
Qed.

Lemma does_finally {A} P (body : script A) close : does P body → does P close → does P (finally body close).
Proof.
  intros Hb Hc s log w' r. unfold finally. destruct (body (s, log)) as [w1 r1] eqn:E. intros Ec.
  destruct (close w1) as [w2 r2] eqn:E2. assert (w2 = w') as -> by (destruct r2; by injection Ec).
  eapply does_seq; [by eapply Hb|]. destruct w1. by eapply Hc.
Qed.

(** What a script that returned did. *)
Lemma sc_bind_ok {A B} (c : script A) (k : A → script B) w w' b :
  sc_bind c k w = (w', Ok b) → ∃ w1 a, c w = (w1, Ok a) ∧ k a w1 = (w', Ok b).
Proof. unfold sc_bind. destruct (c w) as [w1 [a|e]]; [|done]. intros Hk. by exists w1, a. Qed.

Lemma act_ok {A} d (r : result A) w w' a : act d r w = (w', Ok a) → r = Ok a ∧ w' = (w.1, w.2 ++ [d]).
Proof. destruct w as [s log]. by intros [= <- ->]. Qed.

Lemma finally_ok {A} (body : script A) d (r : result ()) w w' a :
  finally body (act d r) w = (w', Ok a) → ∃ w1, body w = (w1, Ok a) ∧ w' = (w1.1, w1.2 ++ [d]).
Proof.
  unfold finally. destruct (body w) as [[s1 log1] r1]. unfold act. destruct r; [|done]. intros [= <- ->]. by eexists.
Qed.

Lemma sc_ret_ok {A} (a b : A) (w w' : S * list deed) : sc_ret a w = (w', Ok b) → a = b ∧ w = w'.
Proof. by intros [= <- <-]. Qed.

Lemma sc_lift_ok {A} (r : result A) b (w w' : S * list deed) : sc_lift r w = (w', Ok b) → r = Ok b ∧ w = w'.
Proof. by intros [= <- ->]. Qed.
End trace.

(** Walk a script for what it does: the deeds that are not immediate are left. *)
Ltac does_steps :=
  repeat match goal with
  | |- does _ (sc_bind _ _) => apply does_bind; [|intros ?]
  | |- does _ (finally _ _) => apply does_finally
  | |- does _ (sc_ret _) => apply does_quiet
  | |- does _ (sc_raise _) => apply does_quiet
  | |- does _ (sc_lift _) => apply does_quiet
  | |- does _ (if ?b then _ else _) => destruct b eqn:?
  | |- does _ (act _ _) => by apply does_act
  end.

(** Read a returned script backwards: one step. *)
Ltac sc_step H :=
  match type of H with
  | sc_bind _ _ _ = _ => let H1 := fresh H in apply sc_bind_ok in H as (? & ? & H1 & H)
  | act _ _ _ = _ => let Hr := fresh "Hr" in apply act_ok in H as (Hr & ?); subst
  | finally _ (act _ _) _ = _ => apply finally_ok in H as (? & H & ?); subst
  | sc_ret _ _ = _ => apply sc_ret_ok in H as (? & ?); subst
  | sc_lift _ _ = _ => let Hr := fresh "Hr" in apply sc_lift_ok in H as (Hr & ?); subst
  end.

#[local] Notation "'let*' x ':=' c 'in' k" := (sc_bind c (λ x, k)) (at level 10, x name, c at level 100, k at level 200).

(** ** The write-path benchmark *)

Record arguments := {
  releases : Z;
  batch_size : Z;
  workers : Z;
  seed : Z;
  data_type : string;
  statements : Z;
  allow_remote_host : bool;
}.

Record run_answers := {
  a_initialize : result ();
  (** how many statements of the schema failed *)
  a_schema : result Z;
  a_mark : result ();
  a_extension : result ();
  a_reset : result ();
  a_wal : bool → result Z;
  a_statements : result ();
  a_schedule : list (nat * Z);
  a_close : result ();
}.

(** The report, without times and rates. *)
Record report := { r_data_type : string; r_releases : Z; r_batch_size : Z; r_workers : Z; r_seed : Z; r_wal : Z; r_breakdown : bool }.

Section benchmarks.
Context `{CommonRuntime} {IS : IdentityService} (key_of : string → row → list val) `{Random R}.

Abbreviation catalog := (@store IS).

(** The [asyncio.gather] over the workers: it ends when every worker
    is over, and raises as soon as one fails; a schedule that stops before is a run that is
    interrupted there. *)
Definition write_batches (dsn data_type : string) (n : Z) (schedule : list (nat * Z)) (batches : list (list BatchRecord))
    : script (S := catalog) () :=
  λ '(st, log),
    let g := turns (λ now, process_batch key_of true now data_type) schedule (gather batches (Z.to_nat n) st) in
    ((database g, log ++ [WriteBatches dsn]),
     match gathered g with
     | Raise e => Raise e
     | Ok _ => if over g then Ok () else Raise (OtherError "CancelledError")
     end).

Definition records_of (a : arguments) : result (list BatchRecord * R) :=
  match builder_of (data_type a) with
  | Some builder => Ok (generate builder (entities_for (releases a)) 0 (Z.to_nat (releases a)) (seeded (seed a)))
  | None => Raise KeyError
  end.

(** [if args.statements:] before the load. *)
Definition reset_statistics (a : arguments) (answers : run_answers) (dsn : string) : script (S := catalog) () :=
  if negb (statements a =? 0) then
    let* _ := act (CreateExtension dsn) (a_extension answers) in act (ResetStatistics dsn) (a_reset answers)
  else sc_ret ().

Definition run (a : arguments) (answers : run_answers) (dsn : string) : script (S := catalog) report :=
  let* _ := act (Initialize dsn (workers a + 3)) (a_initialize answers) in
  finally
    (let* failures := act (CreateSchema dsn) (a_schema answers) in
     if negb (failures =? 0) then sc_raise SystemExit
     else
       let* _ := act (Mark dsn) (a_mark answers) in
       let* records := sc_lift (records_of a) in
       let* batches := sc_lift (slices (batch_size a) records.1) in
       let* _ := reset_statistics a answers dsn in
       let* before := act (ReadWal dsn) (a_wal answers true) in
       let* _ := write_batches dsn (data_type a) (workers a) (a_schedule answers) batches in
       let* after := act (ReadWal dsn) (a_wal answers false) in
       let* _ := if negb (statements a =? 0) then act (ReadStatements dsn (statements a)) (a_statements answers) else sc_ret () in
       sc_ret {| r_data_type := data_type a; r_releases := releases a; r_batch_size := batch_size a; r_workers := workers a;
                 r_seed := seed a; r_wal := after - before; r_breakdown := negb (statements a =? 0) |})
    (act (ClosePool dsn) (a_close answers)).

(** [TEST_DATABASE_URL], which an empty value leaves unset. *)
Definition database_url (environ : gmap string string) : result string :=
  match environ !! "TEST_DATABASE_URL" with
  | Some dsn => if bool_decide (dsn = "") then Raise SystemExit else Ok dsn
  | None => Raise SystemExit
  end.

(** [require_local_database], with the connection it opens in the log. *)
Definition guarded `{Psycopg} (environ : gmap string string) (connect : string → result session) (dsn : string)
    (allow_remote : bool) : script (S := catalog) string :=
  match _has_several_hosts environ dsn with
  | Ok false => act (Inspect dsn) (require_local_database environ connect dsn allow_remote)
  | _ => sc_lift (require_local_database environ connect dsn allow_remote)
  end.

Definition main `{Psycopg} (environ : gmap string string) (connect : string → result session) (a : arguments)
    (answers : run_answers) : script (S := catalog) report :=
  if Z.min (releases a) (Z.min (batch_size a) (workers a)) <? 1 then sc_raise SystemExit
  else
    let* dsn := sc_lift (database_url environ) in
    let* dsn := guarded environ connect dsn (allow_remote_host a && (statements a =? 0)) in
    run a answers dsn.

(** ** Only the verified place is written *)

Lemma guarded_does `{Psycopg} environ connect dsn allow_remote :
  does (λ d, is_inspect d = true ∧ deed_dsn d = dsn) (guarded environ connect dsn allow_remote).
Proof. unfold guarded. destruct (_has_several_hosts environ dsn) as [[|]|e]; try apply does_quiet. by apply does_act. Qed.

Lemma reset_keeps a answers dsn w w' x : reset_statistics a answers dsn w = (w', x) → w'.1 = w.1.
Proof.
  destruct w as [s l]. unfold reset_statistics. destruct (negb (statements a =? 0)); unfold sc_bind, act, sc_ret; [|by intros [= <- _]].
  destruct (a_extension answers); by intros [= <- _].
Qed.

(** What a run asks it asks of its own connection string, and it touches the server's shared
    state only for [--statements]. *)
Definition run_deed (a : arguments) (dsn : string) (d : deed) : Prop :=
  deed_dsn d = dsn ∧ (is_shared d = true → statements a ≠ 0).

Lemma write_batches_does P dsn data_type n schedule bs : P (WriteBatches dsn) → does P (write_batches dsn data_type n schedule bs).
Proof. intros HP s log w' r [= <- _]. exists [WriteBatches dsn]. split; [done|]. by constructor. Qed.

Lemma run_does a answers dsn : does (run_deed a dsn) (run a answers dsn).
Proof.
  unfold run, reset_statistics. does_steps; try by apply write_batches_does.
  all: apply does_act; split; [done|]; intros _ Hs; by rewrite Hs in *.
Qed.

(** After the guard: nothing happened, or everything is asked of the pinned string. *)
Lemma guarded_then `{Libpq connect} {A} environ moment allow dsn (k : string → script (S := catalog) A) (Q : string → deed → Prop)
    st st' log r :
  (∀ dsn', does (Q dsn') (k dsn')) →
  sc_bind (guarded environ (connect moment) dsn allow) k (st, []) = ((st', log), r) →
  (st' = st ∧ Forall (λ d, is_inspect d = true) log) ∨
  ∃ t dsn' rest, verified environ (connect moment) dsn allow t ∧ log = Inspect dsn :: rest ∧ (∀ d, d ∈ rest → Q dsn' d) ∧
    ∀ later s p, connect later dsn' = Ok s → s_peer s = Ok p → same_place s p t.
Proof.
  intros Hk. unfold sc_bind. unfold guarded. destruct (_has_several_hosts environ dsn) as [[|]|e] eqn:Hh.
  1,3: unfold sc_lift, require_local_database; rewrite Hh; cbn [bind]; intros [= <- <- _]; by left.
  unfold act. destruct (require_local_database environ (connect moment) dsn allow) as [dsn'|e] eqn:Hg.
  2: { intros [= <- <- _]. left. split; [done|]. by constructor. }
  apply guard_verified in Hg as (t & Hv & Hp). intros Hrun.
  destruct (Hk dsn' _ _ _ _ Hrun) as (rest & Hlog & Hall). cbn [snd app] in Hlog. rewrite Forall_forall in Hall.
  right. exists t, dsn', rest. split_and!; [exact Hv|done|exact Hall|].
  intros later s p Hc Hsp. destruct Hv as (_ & Ht & _). by eapply pinned_reaches.
Qed.

(** C38 A benchmark writes only where its guard looked.  Whatever the arguments and whatever
    the database answers, [main] either only opens the verification connection, if that, and
    leaves the catalog as it was; or the connection string it was given names one host, the
    verification connection ended on this machine or remote hosts are allowed, in a database
    that was empty or carries the benchmark's marker, and everything after it is asked of the
    string pinned to what that connection reached: any connection opened with that string
    later, however names resolve by then, reaches the same place.  Only against a local
    database does it touch what the server shares. *)
Theorem benchmark_writes_verified `{Libpq connect} environ moment a answers st st' log r :
  main environ (connect moment) a answers (st, []) = ((st', log), r) →
  (st' = st ∧ Forall (λ d, is_inspect d = true) log) ∨
  ∃ dsn t dsn' rest,
    environ !! "TEST_DATABASE_URL" = Some dsn ∧
    verified environ (connect moment) dsn (allow_remote_host a && (statements a =? 0)) t ∧
    log = Inspect dsn :: rest ∧ (∀ d, d ∈ rest → deed_dsn d = dsn') ∧
    (∀ later s p, connect later dsn' = Ok s → s_peer s = Ok p → same_place s p t) ∧
    ((∃ d, d ∈ rest ∧ is_shared d = true) → peer_is_local (family t) (peername t) = true).
Proof.
  unfold main. destruct (_ <? 1); [intros [= <- <- _]; by left|].
  unfold sc_bind at 1, sc_lift at 1, database_url. destruct (environ !! "TEST_DATABASE_URL") as [dsn|] eqn:Hurl.
  2: { intros [= <- <- _]. by left. }
  case_bool_decide; [intros [= <- <- _]; by left|].
  intros [?|(t & dsn' & rest & Hv & Hlog & Hall & Hplace)]%(guarded_then _ _ _ _ _ (run_deed a) _ _ _ _ (run_does a answers)); [by left|].
  right. exists dsn, t, dsn', rest. split_and!; [done|exact Hv|done| |exact Hplace|].
  - intros d Hd. by apply Hall.
  - intros (d & Hd & Hsh). apply Hall in Hd as [_ Hd]. specialize (Hd Hsh).
    destruct Hv as (_ & _ & [Hl|Hl] & _); [done|]. apply andb_true_iff in Hl as [_ Hl]. by apply Z.eqb_eq in Hl.
Qed.

(** ** Every generated record is stored once *)

Lemma in_turn_delivers data_type started st batches st' :
  in_turn (λ now, process_batch key_of true now data_type) (λ now, started <= now) st batches st' →
  delivers key_of data_type started st (concat batches) st'.
Proof.
  induction 1 as [st|st bs st1 now b st2 r _ IH Hnow Hb]; [constructor|]. rewrite concat_app. simpl. rewrite app_nil_r.
  eapply delivers_app; [exact IH|]. by eapply delivers_batch.
Qed.

Lemma last_delivery_unique ms m : NoDup (data_id <$> ms) → m ∈ ms → last_delivery (data_id m) ms = Some m.
Proof.
  induction ms as [|m' ms IH]; [by intros _ ?%elem_of_nil|]. csimpl. intros [Hni Hnd]%NoDup_cons [->|Hin]%elem_of_cons.
  - destruct (last_delivery (data_id m') ms) as [x|] eqn:E; [|by rewrite decide_True].
    destruct Hni. pose proof (last_delivery_id _ _ _ E) as <-. apply list_elem_of_fmap. exists x. split; [done|].
    clear -E. induction ms as [|y ms IH]; simpl in E; [done|]. destruct (last_delivery _ ms); [right; by apply IH|].
    case_decide; [|done]. injection E as <-. by left.
  - by rewrite IH.
Qed.

Lemma last_delivery_absent ms id : id ∉ (data_id <$> ms) → last_delivery id ms = None.
Proof.
  induction ms as [|m ms IH]; csimpl; [done|]. rewrite not_elem_of_cons. intros [Hne Hni].
  rewrite IH by done. by rewrite decide_False by done.
Qed.

Lemma numbered_inj base i j : numbered base i = numbered base j → i = j.
Proof. unfold numbered, py_str_int. intros E%(inj pretty). lia. Qed.

Lemma well_made_ids base entities idx ms :
  NoDup idx → Forall2 (λ i, well_made base i entities) idx ms → NoDup (data_id <$> ms).
Proof.
  intros Hnd Hall. induction Hall as [|i m idx ms Hm Hall IH]; [constructor|]. apply NoDup_cons in Hnd as [Hni Hnd].
  csimpl. constructor; [|by apply IH]. intros (m' & Heq & Hin)%list_elem_of_fmap.
  apply list_elem_of_lookup in Hin as [k Hk]. destruct (Forall2_lookup_r _ _ _ _ _ Hall Hk) as (j & Hj & Hm').
  destruct Hm as (Hm & _), Hm' as (Hm' & _). rewrite Hm, Hm' in Heq. apply numbered_inj in Heq. subst j.
  destruct Hni. by eapply list_elem_of_lookup_2.
Qed.

Context `{!RandomRanges R}.

Lemma builder_made data_type builder entities :
  builder_of data_type = Some builder → 1 <= entities →
  ∃ base, ∀ i, always (well_made base i entities) (builder i entities).
Proof.
  unfold builder_of. intros Hb He. repeat case_decide; try done; injection Hb as <-; eexists; intros i.
  - by apply release_made.
  - by apply artist_made.
  - by apply master_made.
Qed.

(** The records of a run: as many as asked for, each well made, no two of one document. *)
Lemma records_made a records r :
  records_of a = Ok (records, r) → 
  length records = Z.to_nat (releases a) ∧ NoDup (data_id <$> records) ∧
  ∃ base, ∀ i m, records !! i = Some m → well_made base i (entities_for (releases a)) m.
Proof.
  unfold records_of. destruct (builder_of (data_type a)) as [builder|] eqn:Hb; [|done]. intros [= Hg].
  assert (1 <= entities_for (releases a)) as He by (unfold entities_for; lia).
  destruct (builder_made _ _ _ Hb He) as (base & Hmade).
  pose proof (draw_each_indexed (λ i, well_made base i (entities_for (releases a))) _
    (seq 0 (Z.to_nat (releases a))) Hmade (seeded (seed a))) as Hall.
  unfold generate in Hg. rewrite Hg in Hall. cbn [fst] in Hall. split_and!.
  - by rewrite <-(Forall2_length _ _ _ Hall), length_seq.
  - eapply well_made_ids; [apply NoDup_seq|exact Hall].
  - exists base. intros i m Hi. destruct (Forall2_lookup_r _ _ _ _ _ Hall Hi) as (j & Hj & Hm).
    by apply lookup_seq in Hj as [-> _].
Qed.

(** What the workers leave when none failed. *)
Lemma write_batches_stores dsn data_type n schedule size records started st log st' log' bs :
  slices size records = Ok bs → 0 < size → 0 < n → NoDup (data_id <$> records) →
  Forall (λ t, started <= t.2) schedule →
  write_batches dsn data_type n schedule bs (st, log) = ((st', log'), Ok ()) →
  (∀ m, m ∈ records → ∃ e, table_of st' data_type !! data_id m = Some e ∧
     row_of data_type started (table_of st data_type !! data_id m) [m] m e) ∧
  (∀ id, id ∉ (data_id <$> records) → table_of st' data_type !! id = table_of st data_type !! id).
Proof.
  intros Hbs Hsize Hn Hnd Htimes. unfold write_batches. set (g := turns _ _ _). intros [= <- _ Hr].
  destruct (gathered g) as [[]|] eqn:Hok; [|done]. destruct (over g) eqn:Hover; [|done].
  destruct (slices_concat size records Hsize) as (bs' & E & Hconcat & _). rewrite Hbs in E. injection E as <-.
  pose proof (over_written _ bs (Z.to_nat n) st schedule ltac:(lia) Hover Hok) as Hperm. fold g in Hperm.
  assert (delivers key_of data_type started st (concat (written g)) (database g)) as Hd.
  { apply in_turn_delivers. apply turns_in_turn; [|done|constructor].
    intros now b s s' e. exact (process_batch_raised _ _ _ _ _ _ _). }
  assert (concat (written g) ≡ₚ records) as Hrecords.
  { rewrite <-Hconcat. clear -Hperm. induction Hperm; simpl; [done|by f_equiv| |by etrans].
    rewrite !app_assoc. f_equiv. apply Permutation_app_comm. }
  assert (NoDup (data_id <$> concat (written g))) as Hnd'.
  { rewrite Hrecords. done. }
  split.
  - intros m Hm. rewrite <-Hrecords in Hm. pose proof (delivers_rows _ _ _ _ _ _ Hd (data_id m)) as Hrow.
    rewrite (last_delivery_unique _ _ Hnd' Hm) in Hrow. destruct Hrow as (e & He & H1 & H2 & H3 & H4 & Hc).
    exists e. split; [done|]. split_and!; try done. by eapply content_of_unique.
  - intros id Hid. pose proof (delivers_rows _ _ _ _ _ _ Hd id) as Hrow.
    rewrite last_delivery_absent in Hrow; [exact Hrow|]. by rewrite Hrecords.
Qed.

(** A benchmark run that reports stored every generated record once.  However the workers
    take turns, when [run] returns its report the catalog's table has for each generated
    record the row its delivery asks for, no two records share a document, there are as many
    as were asked for, and the rows of all other documents are as before. *)
Theorem benchmark_stores_all a answers dsn started st log st' log' rep :
  run a answers dsn (st, log) = ((st', log'), Ok rep) →
  0 < batch_size a → 0 < workers a → Forall (λ t, started <= t.2) (a_schedule answers) →
  ∃ records r, records_of a = Ok (records, r) ∧
    length records = Z.to_nat (releases a) ∧ NoDup (data_id <$> records) ∧
    (∀ m, m ∈ records →
       ∃ e, table_of st' (data_type a) !! data_id m = Some e ∧
         row_of (data_type a) started (table_of st (data_type a) !! data_id m) [m] m e) ∧
    (∀ id, id ∉ (data_id <$> records) → table_of st' (data_type a) !! id = table_of st (data_type a) !! id).
Proof.
  intros Hrun Hsize Hn Htimes. unfold run in Hrun.
  apply sc_bind_ok in Hrun as (w1 & ? & Ha1 & Hrun). apply act_ok in Ha1 as [_ ->].
  apply finally_ok in Hrun as ([st1 log1] & Hrun & Hw1).
  apply sc_bind_ok in Hrun as (w2 & failures & Ha2 & Hrun). apply act_ok in Ha2 as [_ ->]. case_match; [done|].
  apply sc_bind_ok in Hrun as (w3 & ? & Ha3 & Hrun). apply act_ok in Ha3 as [_ ->].
  apply sc_bind_ok in Hrun as (w4 & [records r] & Hrec & Hrun). apply sc_lift_ok in Hrec as [Hrec <-].
  apply sc_bind_ok in Hrun as (w5 & bs & Hbs & Hrun). apply sc_lift_ok in Hbs as [Hbs <-].
  apply sc_bind_ok in Hrun as ([st6 log6] & ? & Hst & Hrun). apply reset_keeps in Hst.
  apply sc_bind_ok in Hrun as (w7 & before & Ha7 & Hrun). apply act_ok in Ha7 as [_ ->].
  apply sc_bind_ok in Hrun as ([st8 log8] & [] & Hw & Hrun). cbn [fst snd] in *. subst st6.
  destruct (records_made _ _ _ Hrec) as (Hlen & Hnd & _).
  pose proof (write_batches_stores _ _ _ _ _ _ _ _ _ _ _ _ Hbs Hsize Hn Hnd Htimes Hw) as [Hin Hout].
  apply sc_bind_ok in Hrun as (w9 & after & Ha9 & Hrun). apply act_ok in Ha9 as [_ ->].
  apply sc_bind_ok in Hrun as (w10 & ? & Ha10 & Hrun). apply sc_ret_ok in Hrun as [_ ->].
  assert (st' = st8) as ->; [|exists records, r; by split_and!]. injection Hw1 as -> _.
  destruct (negb (statements a =? 0)); [by apply act_ok in Ha10 as [_ [= -> _]]|by apply sc_ret_ok in Ha10 as [_ [= -> _]]].
Qed.

(** ** The first load *)

Record load_arguments := {
  l_releases : Z;
  l_chunk : Z;
  l_batch_size : Z;
  l_workers : Z;
  l_seed : Z;
  l_defer_indexes : bool;
  l_allow_remote_host : bool;
}.

Record index := { i_schema : string; i_name : string; i_definition : string }.

Record load_answers := {
  b_initialize : result ();
  b_schema : result Z;
  b_mark : result ();
  b_indexes : result (list index);
  b_drop : index → result ();
  (** [database_state]: size and WAL position, before, after chunk [k], and after *)
  b_before : result (Z * Z);
  b_chunk : nat → result (Z * Z);
  b_after : result (Z * Z);
  b_schedule : nat → list (nat * Z);
  b_maintenance : result ();
  b_rebuild : index → result ();
  b_close : result ();
}.

(** The batches of a chunk: [range(0, count, size)] also counts down. *)
Definition chunk_batches {A} (size count : Z) (l : list A) : result (list (list A)) :=
  if (size <? 0) && (count <? 0) then Ok (replicate (Z.to_nat ((count + size + 1) / size)) [])
  else slices size l.

(** [while loaded < args.releases]; the answer is whether the loop ended within the fuel. *)
Fixpoint load_chunks (a : load_arguments) (answers : load_answers) (dsn : string) (fuel k : nat) (loaded : Z) (rng : R)
    : script (S := catalog) bool :=
  match fuel with
  | 0%nat => sc_ret false
  | Datatypes.S fuel =>
      if negb (loaded <? l_releases a) then sc_ret true
      else
        let count := Z.min (l_chunk a) (l_releases a - loaded) in
        let '(records, rng) := generate release (entities_for (l_releases a)) (Z.to_nat loaded) (Z.to_nat count) rng in
        let* batches := sc_lift (chunk_batches (l_batch_size a) count records) in
        let* _ := write_batches dsn "releases" (l_workers a) (b_schedule answers k) batches in
        let* _ := act (ReadSize dsn) (b_chunk answers k) in
        load_chunks a answers dsn fuel (Datatypes.S k) (loaded + count) rng
  end.

(** [for ... in deferred: connection.execute(...)]. *)
Fixpoint execute_each {A} (deed_of : A → deed) (answer : A → result ()) (l : list A) : script (S := catalog) () :=
  match l with
  | [] => sc_ret ()
  | x :: l => let* _ := act (deed_of x) (answer x) in execute_each deed_of answer l
  end.

Definition drop_index (dsn : string) (x : index) : deed := DropIndex dsn (i_schema x) (i_name x).
Definition rebuild_index (dsn : string) (x : index) : deed := Rebuild dsn (i_definition x).

Definition defer_indexes (a : load_arguments) (answers : load_answers) (dsn : string) : script (S := catalog) (list index) :=
  if l_defer_indexes a then
    let* deferred := act (ListIndexes dsn) (b_indexes answers) in
    let* _ := execute_each (drop_index dsn) (b_drop answers) deferred in
    sc_ret deferred
  else sc_ret [].

Definition rebuild_indexes (answers : load_answers) (dsn : string) (deferred : list index) : script (S := catalog) () :=
  match deferred with
  | [] => sc_ret ()
  | _ => let* _ := act (SetMaintenance dsn) (b_maintenance answers) in
         execute_each (rebuild_index dsn) (b_rebuild answers) deferred
  end.

(** The summary without times: indexes deferred, WAL written by the load, final size. *)
Definition run_first_load (fuel : nat) (a : load_arguments) (answers : load_answers) (dsn : string)
    : script (S := catalog) (option (nat * Z * Z)) :=
  let* _ := act (Initialize dsn (l_workers a + 3)) (b_initialize answers) in
  finally
    (let* failures := act (CreateSchema dsn) (b_schema answers) in
     if negb (failures =? 0) then sc_raise SystemExit
     else
       let* _ := act (Mark dsn) (b_mark answers) in
       let* deferred := defer_indexes a answers dsn in
       let* before := act (ReadSize dsn) (b_before answers) in
       let* loaded := load_chunks a answers dsn fuel 0 0 (seeded (l_seed a)) in
       if loaded then
         let* _ := rebuild_indexes answers dsn deferred in
         let* after := act (ReadSize dsn) (b_after answers) in
         sc_ret (Some (length deferred, after.2 - before.2, after.1))
       else sc_ret None)
    (act (ClosePool dsn) (b_close answers)).

Definition main_first_load `{Psycopg} (environ : gmap string string) (connect : string → result session) (fuel : nat)
    (a : load_arguments) (answers : load_answers) : script (S := catalog) (option (nat * Z * Z)) :=
  let* dsn := sc_lift (database_url environ) in
  let* dsn := guarded environ connect dsn (l_allow_remote_host a) in
  run_first_load fuel a answers dsn.

(** The same releases as one step of the write-path benchmark with the same seed. *)
Definition as_write_path (a : load_arguments) : arguments :=
  {| releases := l_releases a; batch_size := l_batch_size a; workers := l_workers a; seed := l_seed a;
     data_type := "releases"; statements := 0; allow_remote_host := l_allow_remote_host a |}.

(** ** Chunks *)

(** One document's row in the catalog is the one the delivery [m] asks for: with its payload,
    unless the row [m] met had its hash already. *)
Definition stored (started : Z) (st st' : catalog) (m : BatchRecord) : Prop :=
  ∃ e, table_of st' "releases" !! data_id m = Some e ∧ row_of "releases" started (table_of st "releases" !! data_id m) [m] m e.

(** From [st] to [st'] the releases [ms] were stored and no other row of the table changed. *)
Definition stores (started : Z) (ms : list BatchRecord) (st st' : catalog) : Prop :=
  (∀ m, m ∈ ms → stored started st st' m) ∧
  (∀ id, id ∉ (data_id <$> ms) → table_of st' "releases" !! id = table_of st "releases" !! id).

Lemma stores_nothing started st : stores started [] st st.
Proof. split; [by intros m ?%elem_of_nil|done]. Qed.

Lemma stores_app started ms1 ms2 st st1 st2 :
  NoDup (data_id <$> ms1 ++ ms2) → stores started ms1 st st1 → stores started ms2 st1 st2 → stores started (ms1 ++ ms2) st st2.
Proof.
  rewrite fmap_app, NoDup_app. intros (_ & Hdisj & _) [Hin1 Hout1] [Hin2 Hout2]. split.
  - intros m [Hm|Hm]%elem_of_app.
    + destruct (Hin1 m Hm) as (e & He & Hrow). exists e. rewrite Hout2; [done|]. apply Hdisj. by apply list_elem_of_fmap_2.
    + destruct (Hin2 m Hm) as (e & He & Hrow). exists e. rewrite Hout1 in Hrow; [done|].
      intros Hm1. apply (Hdisj _ Hm1). by apply list_elem_of_fmap_2.
  - intros id Hid. rewrite fmap_app, not_elem_of_app in Hid. rewrite Hout2, Hout1 by tauto. done.
Qed.

Lemma generate_split builder entities start n1 n2 (rng : R) :
  generate builder entities start (n1 + n2) rng =
    let '(xs, rng') := generate builder entities start n1 rng in
    let '(ys, rng'') := generate builder entities (start + n1) n2 rng' in (xs ++ ys, rng'').
Proof. unfold generate. by rewrite seq_app, draw_each_app. Qed.

Lemma generated_ids entities start n (rng : R) :
  1 <= entities → NoDup (data_id <$> (generate release entities start n rng).1).
Proof.
  intros He. eapply well_made_ids; [apply (NoDup_seq start n)|].
  apply (draw_each_indexed (λ i, well_made 1000000 i entities)). intros i. by apply release_made.
Qed.

Lemma entities_positive n : 1 <= entities_for n.
Proof. unfold entities_for. lia. Qed.

Lemma load_chunks_stores a answers dsn started fuel k loaded rng st log st' log' ended :
  0 < l_chunk a → 0 < l_batch_size a → 0 < l_workers a → 0 <= loaded →
  (∀ k, Forall (λ t, started <= t.2) (b_schedule answers k)) →
  load_chunks a answers dsn fuel k loaded rng (st, log) = ((st', log'), Ok ended) →
  (ended = true → stores started
     (generate release (entities_for (l_releases a)) (Z.to_nat loaded) (Z.to_nat (l_releases a - loaded)) rng).1 st st') ∧
  (Z.to_nat (l_releases a - loaded) < fuel → ended = true)%nat.
Proof.
  intros Hc Hb Hw Hl Ht. revert k loaded rng st log Hl. induction fuel as [|fuel IH]; intros k loaded rng st log Hl; cbn [load_chunks].
  { intros [= _ _ <-]. split; [done|lia]. }
  destruct (Z.ltb_spec loaded (l_releases a)) as [Hlt|Hge]; cbn [negb].
  2: { intros [= <- _ <-]. split; [|done]. intros _. replace (Z.to_nat (l_releases a - loaded)) with 0%nat by lia.
       apply stores_nothing. }
  cbv zeta. set (count := Z.min (l_chunk a) (l_releases a - loaded)). assert (0 < count <= l_releases a - loaded) as Hcount by lia.
  replace (Z.to_nat (l_releases a - loaded))
    with (Z.to_nat count + Z.to_nat (l_releases a - (loaded + count)))%nat by lia.
  rewrite generate_split.
  pose proof (generated_ids (entities_for (l_releases a)) (Z.to_nat loaded)
    (Z.to_nat count + Z.to_nat (l_releases a - (loaded + count))) rng (entities_positive _)) as Hnd.
  rewrite generate_split in Hnd.
  destruct (generate release (entities_for (l_releases a)) (Z.to_nat loaded) (Z.to_nat count) rng) as [records rng1] eqn:Hg.
  unfold sc_bind at 1, sc_lift at 1, chunk_batches. destruct (Z.ltb_spec (l_batch_size a) 0); [lia|]. cbn [andb].
  destruct (slices (l_batch_size a) records) as [bs|] eqn:Hbs; [|done].
  unfold sc_bind at 1. destruct (write_batches _ _ _ _ _ _) as [[st1 log1] [[]|]] eqn:Hwr; [|done].
  unfold sc_bind at 1, act at 1. destruct (b_chunk answers k); [|done]. intros Hrest.
  replace (Z.to_nat loaded + Z.to_nat count)%nat with (Z.to_nat (loaded + count)) in * by lia.
  apply IH in Hrest as [Hrest Hfuel]; [|lia].
  destruct (generate release (entities_for (l_releases a)) (Z.to_nat (loaded + count)) _ rng1) as [records' rng2].
  cbn [fst] in *. split; [|intros ?; apply Hfuel; lia]. intros Hend. eapply stores_app; [exact Hnd| |by apply Hrest].
  rewrite fmap_app, NoDup_app in Hnd. destruct Hnd as (Hnd & _).
  split; [intros m Hm|].
  - by eapply (write_batches_stores dsn "releases" (l_workers a) (b_schedule answers k) (l_batch_size a) records started).
  - by eapply (write_batches_stores dsn "releases" (l_workers a) (b_schedule answers k) (l_batch_size a) records started).
Qed.

(** The sizes of a first load are not checked: a chunk of nothing is loaded for ever. *)
Lemma load_chunks_stuck a answers dsn fuel k loaded rng w w' ended :
  l_chunk a <= 0 → loaded <= 0 → 0 < l_releases a → load_chunks a answers dsn fuel k loaded rng w = (w', Ok ended) → ended = false.
Proof.
  intros Hc. induction fuel as [|fuel IH] in k, loaded, rng, w |- *; intros Hl Hr; cbn [load_chunks]; [by intros [= _ <-]|].
  destruct (Z.ltb_spec loaded (l_releases a)); [|lia]. cbn [negb]. cbv zeta.
  destruct (generate _ _ _ _ _) as [records rng1]. unfold sc_bind at 1, sc_lift at 1.
  destruct (chunk_batches _ _ _); [|done]. unfold sc_bind at 1. destruct (write_batches _ _ _ _ _ _) as [w1 [[]|]]; [|done].
  unfold sc_bind at 1, act at 1. destruct w1 as [s1 log1]. destruct (b_chunk answers k); [|done]. apply IH; lia.
Qed.

(** Nobody writes: no worker, or no batch. *)
Lemma nobody_writes dsn n schedule size (records : list BatchRecord) bs w w' r :
  slices size records = Ok bs → size < 0 ∨ n <= 0 →
  write_batches dsn "releases" n schedule bs w = (w', r) → w'.1 = w.1.
Proof.
  intros Hbs Hcase. destruct w as [st log]. unfold write_batches. intros [= <- _]. cbn [fst].
  change st with (database (gather bs (Z.to_nat n) st)) at 2. apply turns_idle. split.
  - destruct Hcase as [Hsize|Hn]; [left|right; by replace (Z.to_nat n) with 0%nat by lia].
    unfold slices in Hbs. destruct (Z.eqb_spec size 0); [lia|]. destruct (Z.ltb_spec size 0); [|lia]. by injection Hbs as <-.
  - intros i b Hi. cbn [gather workers] in Hi. by apply lookup_replicate in Hi as [? _].
Qed.

Lemma load_chunks_nothing a answers dsn fuel k loaded rng w w' r :
  l_batch_size a < 0 ∨ l_workers a <= 0 → 0 < l_chunk a →
  load_chunks a answers dsn fuel k loaded rng w = (w', r) → w'.1 = w.1.
Proof.
  intros Hcase Hc. induction fuel as [|fuel IH] in k, loaded, rng, w |- *; cbn [load_chunks]; [by intros [= <- _]|].
  destruct (Z.ltb_spec loaded (l_releases a)); cbn [negb]; [|by intros [= <- _]]. cbv zeta.
  destruct (generate _ _ _ _ _) as [records rng1]. unfold sc_bind at 1, sc_lift at 1, chunk_batches.
  destruct (Z.ltb_spec (Z.min (l_chunk a) (l_releases a - loaded)) 0); [lia|]. rewrite andb_false_r.
  destruct (slices (l_batch_size a) records) as [bs|] eqn:Hbs; [|by intros [= <- _]].
  unfold sc_bind at 1. destruct (write_batches _ _ _ _ _ _) as [w1 [[]|]] eqn:Hw.
  2: { intros [= <- _]. by eapply nobody_writes. }
  apply nobody_writes with (1 := Hbs) (2 := Hcase) in Hw. unfold sc_bind at 1, act at 1. destruct w1 as [s1 log1].
  destruct (b_chunk answers k); [|by intros [= <- _]]. intros Hrest%IH. by rewrite Hrest.
Qed.

Definition dropped (d : deed) : option (string * string) :=
  match d with DropIndex _ schema name => Some (schema, name) | _ => None end.
Definition rebuilt (d : deed) : option string := match d with Rebuild _ definition => Some definition | _ => None end.

Definition leaves_indexes (d : deed) : Prop := dropped d = None ∧ rebuilt d = None.

Lemma leaves_indexes_all seg : Forall leaves_indexes seg → omap dropped seg = [] ∧ omap rebuilt seg = [].
Proof. induction 1 as [|d seg [Hd Hr] _ [IH1 IH2]]; [done|]. csimpl. by rewrite Hd, Hr. Qed.

Lemma execute_each_ok {A} (deed_of : A → deed) answer l w w' u :
  execute_each deed_of answer l w = (w', Ok u) → w' = (w.1, w.2 ++ (deed_of <$> l)).
Proof.
  induction l as [|x l IH] in w |- *; cbn [execute_each]; intros He.
  - sc_step He. destruct w'. by rewrite app_nil_r.
  - sc_step He. sc_step He0. apply IH in He. rewrite He. cbn [fst snd]. by rewrite <-app_assoc.
Qed.

Lemma load_chunks_does P a answers dsn fuel k loaded rng :
  P (WriteBatches dsn) → P (ReadSize dsn) → does P (load_chunks a answers dsn fuel k loaded rng).
Proof.
  intros Hw Hr. induction fuel as [|fuel IH] in k, loaded, rng |- *; cbn [load_chunks]; [apply does_quiet|]. cbv zeta.
  destruct (generate _ _ _ _ _) as [records rng1]. does_steps; [by apply write_batches_does|apply IH].
Qed.

(** How the indexes are touched from [log] to [log']. *)
Definition index_work (drops : list (string * string)) (rebuilds : list string) (log log' : list deed) : Prop :=
  ∃ seg, log' = log ++ seg ∧ omap dropped seg = drops ∧ omap rebuilt seg = rebuilds.

Lemma index_work_app d1 r1 d2 r2 log log1 log2 :
  index_work d1 r1 log log1 → index_work d2 r2 log1 log2 → index_work (d1 ++ d2) (r1 ++ r2) log log2.
Proof.
  intros (s1 & -> & <- & <-) (s2 & -> & <- & <-). exists (s1 ++ s2). by rewrite app_assoc, !omap_app.
Qed.

Lemma index_work_other d log : leaves_indexes d → index_work [] [] log (log ++ [d]).
Proof. intros [Hd Hr]. exists [d]. csimpl. by rewrite Hd, Hr. Qed.

Lemma defer_indexes_ok a answers dsn w w' deferred :
  defer_indexes a answers dsn w = (w', Ok deferred) →
  w'.1 = w.1 ∧ index_work ((λ x, (i_schema x, i_name x)) <$> deferred) [] w.2 w'.2 ∧
  (l_defer_indexes a = true → b_indexes answers = Ok deferred).
Proof.
  unfold defer_indexes. destruct (l_defer_indexes a); intros Hd.
  - sc_step Hd. sc_step Hd0. sc_step Hd. apply execute_each_ok in Hd0. sc_step Hd. subst. cbn [fst snd].
    split_and!; [done| |done]. eexists. rewrite <-app_assoc. split; [done|]. clear. split.
    + induction deferred as [|x l IH]; [done|]. exact (f_equal (cons _) IH).
    + induction deferred as [|x l IH]; [done|]. exact IH.
  - sc_step Hd. split_and!; [done| |done]. exists []. by rewrite app_nil_r.
Qed.

Lemma rebuild_indexes_ok answers dsn deferred w w' u :
  rebuild_indexes answers dsn deferred w = (w', Ok u) → w'.1 = w.1 ∧ index_work [] (i_definition <$> deferred) w.2 w'.2.
Proof.
  unfold rebuild_indexes. intros Hr. assert (deferred = [] ∨ deferred ≠ []) as [->|Hne] by (destruct deferred; auto).
  - sc_step Hr. split; [done|]. exists []. by rewrite app_nil_r.
  - assert (sc_bind (act (SetMaintenance dsn) (b_maintenance answers)) (λ _, execute_each (rebuild_index dsn) (b_rebuild answers) deferred) w
      = (w', Ok u)) as Hr' by (by destruct deferred). clear Hr. sc_step Hr'. sc_step Hr'0. apply execute_each_ok in Hr'. subst.
    cbn [fst snd]. split; [done|]. eexists. rewrite <-app_assoc. split; [done|]. clear. split.
    + induction deferred as [|x l IH]; [done|]. exact IH.
    + induction deferred as [|x l IH]; [done|]. exact (f_equal (cons _) IH).
Qed.

(** C39 The first load stores what the write path stores, and gives the indexes back.  When a run
    with positive sizes reports its summary, the table of releases has the row of every record
    the write-path benchmark generates from the same seed in one step, however the load was
    cut into chunks and the workers took turns, with that record's payload unless the row had
    its hash already, and all other rows are as before; the indexes it dropped are those it found, and it rebuilt the definition of each, in that order, after
    the load.  A fuel above the number of releases is enough for the loop over the chunks. *)
Theorem first_load_stores_all fuel a answers dsn started st log st' log' o :
  run_first_load fuel a answers dsn (st, log) = ((st', log'), Ok o) →
  0 < l_chunk a → 0 < l_batch_size a → 0 < l_workers a → (Z.to_nat (l_releases a) < fuel)%nat →
  (∀ k, Forall (λ t, started <= t.2) (b_schedule answers k)) →
  ∃ records rng deferred seg wal_mb db_mb,
    o = Some (length deferred, wal_mb, db_mb) ∧ records_of (as_write_path a) = Ok (records, rng) ∧
    stores started records st st' ∧ NoDup (data_id <$> records) ∧
    log' = log ++ seg ∧ omap dropped seg = (λ x, (i_schema x, i_name x)) <$> deferred ∧ omap rebuilt seg = i_definition <$> deferred ∧
    (l_defer_indexes a = true → b_indexes answers = Ok deferred).
Proof.
  intros Hrun Hc Hb Hw Hfuel Ht. unfold run_first_load in Hrun.
  apply sc_bind_ok in Hrun as (w1 & ? & H1 & Hrun). apply act_ok in H1 as [_ ->].
  apply finally_ok in Hrun as ([st7 log7] & Hrun & Hw7).
  apply sc_bind_ok in Hrun as (w2 & failures & H2 & Hrun). apply act_ok in H2 as [_ ->]. case_match; [done|].
  apply sc_bind_ok in Hrun as (w3 & ? & H3 & Hrun). apply act_ok in H3 as [_ ->].
  apply sc_bind_ok in Hrun as ([st4 log4] & deferred & Hdefer & Hrun).
  apply sc_bind_ok in Hrun as (w5 & before & H5 & Hrun). apply act_ok in H5 as [_ ->].
  apply sc_bind_ok in Hrun as ([st6 log6] & ended & Hload & Hrun).
  apply defer_indexes_ok in Hdefer as (Hst & Hdrop & Hlisted). cbn [fst snd] in *. subst st4.
  pose proof (load_chunks_does leaves_indexes _ _ _ _ _ _ _ (conj eq_refl eq_refl) (conj eq_refl eq_refl) _ _ _ _ Hload) as (seg & Hlog6 & Hseg%leaves_indexes_all).
  apply (load_chunks_stores a answers dsn started) in Hload as [Hstores Hended]; [|done || lia..].
  assert (ended = true) as -> by (apply Hended; lia). rewrite Z.sub_0_r in Hstores. specialize (Hstores eq_refl).
  apply sc_bind_ok in Hrun as ([st8 log8] & ? & Hrebuild & Hrun). apply rebuild_indexes_ok in Hrebuild as [Hst8 Hrebuild].
  apply sc_bind_ok in Hrun as (w9 & after & H9 & Hrun). apply act_ok in H9 as [_ ->]. apply sc_ret_ok in Hrun as [<- Hend].
  injection Hend as <- <-. injection Hw7 as -> ->. cbn [fst snd] in *. subst st8 log6.
  assert (∃ records rng, generate release (entities_for (l_releases a)) 0 (Z.to_nat (l_releases a)) (seeded (l_seed a))
    = (records, rng)) as (records & rng & Hg) by (destruct (generate _ _ _ _ _); eauto).
  change (Z.to_nat 0) with 0%nat in Hstores. rewrite Hg in Hstores. cbn [fst] in Hstores.
  assert (records_of (as_write_path a) = Ok (records, rng)) as Hrec by (by rewrite <-Hg).
  assert (index_work ((λ x, (i_schema x, i_name x)) <$> deferred) (i_definition <$> deferred) log
    ((log8 ++ [ReadSize dsn]) ++ [ClosePool dsn])) as (seg' & Hlog & Hd & Hr).
  { assert (∀ d log log', leaves_indexes d → index_work [] [] log log' → index_work [] [] log (log' ++ [d])) as Hmore.
    { intros d l l' Hd Hi. exact (index_work_app [] [] [] [] _ _ _ Hi (index_work_other d l' Hd)). }
    assert (index_work [] [] log log) as H0log by (exists []; by rewrite app_nil_r).
    rewrite <-(app_nil_r (_ <$> deferred)). rewrite <-(app_nil_l (i_definition <$> deferred)).
    refine (index_work_app _ _ _ _ _ log4 _ _ _).
    - refine (index_work_app [] [] _ _ _ _ _ _ Hdrop). by repeat apply Hmore.
    - rewrite <-(app_nil_r (i_definition <$> deferred)).
      refine (index_work_app [] _ [] [] _ log8 _ _ _); [|repeat apply Hmore; try done; exists []; by rewrite app_nil_r].
      refine (index_work_app [] [] [] _ _ _ _ _ Hrebuild). exists ([ReadSize dsn] ++ seg). rewrite app_assoc.
      split; [done|]. by destruct Hseg as [Hs1 Hs2]; rewrite !omap_app, Hs1, Hs2. }
  destruct (records_made _ _ _ Hrec) as (_ & Hnd & _).
  exists records, rng, deferred, seg', (after.2 - before.2), after.1. by split_and!.
Qed.

(** The sizes of a first load are not checked.  With a chunk of zero or less the loop never ends;
    with a negative batch size or without workers a run reports its rates and its summary
    although it wrote nothing. *)
Theorem first_load_unchecked fuel a answers dsn w w' o :
  run_first_load fuel a answers dsn w = (w', Ok o) → 0 < l_releases a →
  (l_chunk a <= 0 → o = None) ∧
  (0 < l_chunk a → l_batch_size a < 0 ∨ l_workers a <= 0 → w'.1 = w.1).
Proof.
  intros Hrun Hn. unfold run_first_load in Hrun.
  apply sc_bind_ok in Hrun as (w1 & ? & Ha1 & Hrun). apply act_ok in Ha1 as [_ ->].
  apply finally_ok in Hrun as (w7 & Hrun & ->).
  apply sc_bind_ok in Hrun as (w2 & failures & Ha2 & Hrun). apply act_ok in Ha2 as [_ ->]. case_match; [done|].
  apply sc_bind_ok in Hrun as (w3 & ? & Ha3 & Hrun). apply act_ok in Ha3 as [_ ->].
  apply sc_bind_ok in Hrun as (w4 & deferred & Hdefer & Hrun). apply defer_indexes_ok in Hdefer as (Hst & _).
  apply sc_bind_ok in Hrun as (w5 & before & Ha5 & Hrun). apply act_ok in Ha5 as [_ ->].
  apply sc_bind_ok in Hrun as (w6 & ended & Hload & Hrun). cbn [fst snd] in *. split.
  - intros Hc. rewrite (load_chunks_stuck _ _ _ _ _ _ _ _ _ _ Hc (Z.le_refl 0) Hn Hload) in Hrun.
    by apply sc_ret_ok in Hrun as [<- _].
  - intros Hc Hcase. pose proof (load_chunks_nothing _ _ _ _ _ _ _ _ _ _ Hcase Hc Hload) as Hsame. cbn [fst] in Hsame.
    destruct ended; [|apply sc_ret_ok in Hrun as [_ <-]; congruence].
    apply sc_bind_ok in Hrun as (w8 & ? & Hrebuild & Hrun). apply rebuild_indexes_ok in Hrebuild as [Hst8 _].
    apply sc_bind_ok in Hrun as (w9 & after & Ha9 & Hrun). apply act_ok in Ha9 as [_ ->].
    apply sc_ret_ok in Hrun as [_ <-]. cbn [fst]. congruence.
Qed.

(** The first load's deeds, and its guard. *)
Lemma execute_each_does {A} (deed_of : A → deed) answer l P : (∀ x, P (deed_of x)) → does P (execute_each deed_of answer l).
Proof.
  intros Hd. induction l as [|x l IH]; cbn [execute_each]; [apply does_quiet|].
  apply does_bind; [by apply does_act|]. intros _. exact IH.
Qed.

Lemma first_load_asks fuel a answers dsn : does (λ d, deed_dsn d = dsn) (run_first_load fuel a answers dsn).
Proof.
  unfold run_first_load, defer_indexes, rebuild_indexes. does_steps;
    by first [apply execute_each_does|apply load_chunks_does].
Qed.

(** The first load too writes only where the guard looked. *)
Theorem first_load_writes_verified `{Libpq connect} environ moment fuel a answers st st' log r :
  main_first_load environ (connect moment) fuel a answers (st, []) = ((st', log), r) →
  (st' = st ∧ Forall (λ d, is_inspect d = true) log) ∨
  ∃ dsn t dsn' rest,
    environ !! "TEST_DATABASE_URL" = Some dsn ∧ verified environ (connect moment) dsn (l_allow_remote_host a) t ∧
    log = Inspect dsn :: rest ∧ (∀ d, d ∈ rest → deed_dsn d = dsn') ∧
    (∀ later s p, connect later dsn' = Ok s → s_peer s = Ok p → same_place s p t).
Proof.
  unfold main_first_load, sc_bind at 1, sc_lift at 1, database_url.
  destruct (environ !! "TEST_DATABASE_URL") as [dsn|] eqn:Hurl; [|intros [= <- <- _]; by left].
  case_bool_decide; [intros [= <- <- _]; by left|].
  intros [?|(t & dsn' & rest & Hv & Hlog & Hall & Hplace)]%(guarded_then _ _ _ _ _ (λ dsn d, deed_dsn d = dsn) _ _ _ _
    (first_load_asks fuel a answers)); [by left|]. right. by exists dsn, t, dsn', rest.
Qed.

(** ** The poison benchmark around its measurements (see [Poison]) *)

Record poison_answers := {
  c_initialize : result ();
  c_schema : result Z;
  c_mark : result ();
  c_measure : Z → result ();
  c_close : result ();
}.

Definition run_poison (batch_sizes : list Z) (answers : poison_answers) (dsn : string) : script (S := catalog) () :=
  let* _ := act (Initialize dsn 4) (c_initialize answers) in
  finally
    (let* failures := act (CreateSchema dsn) (c_schema answers) in
     if negb (failures =? 0) then sc_raise SystemExit
     else
       let* _ := act (Mark dsn) (c_mark answers) in
       execute_each (Measure dsn) (c_measure answers) batch_sizes)
    (act (ClosePool dsn) (c_close answers)).

Definition main_poison `{Psycopg} (environ : gmap string string) (connect : string → result session) (batch_sizes : list Z)
    (allow_remote : bool) (answers : poison_answers) : script (S := catalog) () :=
  let* dsn := sc_lift (database_url environ) in
  let* dsn := guarded environ connect dsn allow_remote in
  run_poison batch_sizes answers dsn.

Lemma run_poison_asks batch_sizes answers dsn : does (λ d, deed_dsn d = dsn) (run_poison batch_sizes answers dsn).
Proof.
  unfold run_poison. does_steps. by apply execute_each_does.
Qed.

(** And so does the poison benchmark. *)
Theorem poison_writes_verified `{Libpq connect} environ moment batch_sizes allow_remote answers st st' log r :
  main_poison environ (connect moment) batch_sizes allow_remote answers (st, []) = ((st', log), r) →
  (st' = st ∧ Forall (λ d, is_inspect d = true) log) ∨
  ∃ dsn t dsn' rest,
    environ !! "TEST_DATABASE_URL" = Some dsn ∧ verified environ (connect moment) dsn allow_remote t ∧
    log = Inspect dsn :: rest ∧ (∀ d, d ∈ rest → deed_dsn d = dsn') ∧
    (∀ later s p, connect later dsn' = Ok s → s_peer s = Ok p → same_place s p t).
Proof.
  unfold main_poison, sc_bind at 1, sc_lift at 1, database_url.
  destruct (environ !! "TEST_DATABASE_URL") as [dsn|] eqn:Hurl; [|intros [= <- <- _]; by left].
  case_bool_decide; [intros [= <- <- _]; by left|].
  intros [?|(t & dsn' & rest & Hv & Hlog & Hall & Hplace)]%(guarded_then _ _ _ _ _ (λ dsn d, deed_dsn d = dsn) _ _ _ _
    (run_poison_asks batch_sizes answers)); [by left|]. right. by exists dsn, t, dsn', rest.
Qed.
End benchmarks.

(** ** Concrete runs *)

Definition demo_environ : gmap string string := {["TEST_DATABASE_URL" := "bench"]}.

Definition demo_arguments : arguments :=
  {| releases := 2; batch_size := 1; workers := 2; seed := 7; data_type := "releases"; statements := 0; allow_remote_host := false |}.

(** The second worker starts first, and its batch is written first. *)
Definition demo_schedule : list (nat * Z) := [(1%nat, 10); (0%nat, 11); (1%nat, 12); (0%nat, 13)].

Definition demo_answers : run_answers :=
  {| a_initialize := Ok (); a_schema := Ok 0; a_mark := Ok (); a_extension := Ok (); a_reset := Ok ();
     a_wal first := Ok (if first then 5 else 9); a_statements := Ok (); a_schedule := demo_schedule; a_close := Ok () |}.

Definition demo_deeds : list deed :=
  [Initialize "pinned" 5; CreateSchema "pinned"; Mark "pinned"; ReadWal "pinned"; WriteBatches "pinned"; ReadWal "pinned";
   ClosePool "pinned"].

Abbreviation demo_main :=
  (main (H:=sample_runtime) whole_row_key demo_environ (demo_connect 0) demo_arguments demo_answers (empty_store, [])).

(** The string the benchmark was given leads elsewhere a moment later; what it used does not. *)
Lemma benchmark_writes_verified_witness :
  (∀ d, d ∈ demo_main.1.2 → d = Inspect "bench" ∨ deed_dsn d = "pinned") ∧
  ∀ later s p, demo_connect later "pinned" = Ok s → s_peer s = Ok p → peer_is_local (s_family s) p = true.
Proof.
  assert (demo_main.1.2 = Inspect "bench" :: demo_deeds) as Hdeeds by (vm_compute; reflexivity).
  assert (demo_main = ((demo_main.1.1, Inspect "bench" :: demo_deeds), demo_main.2)) as E
    by (rewrite <-Hdeeds, <-!surjective_pairing; reflexivity).
  assert (peer_is_local AF_INET (Items ["127.0.0.1"; "5432"]) = true) as Hlocal by reflexivity.
  destruct (benchmark_writes_verified (H:=sample_runtime) whole_row_key demo_environ 0 demo_arguments demo_answers empty_store
    demo_main.1.1 _ demo_main.2 E) as [[_ Hall]|(dsn & t & dsn' & rest & Hurl & Hv & Hlog & Hdsn & Hplace & _)].
  { inversion Hall as [|d l _ Hall']. inversion Hall' as [|d' l' Hd]. discriminate Hd. }
  injection Hlog as <- <-. assert (dsn' = "pinned") as -> by (symmetry; apply (Hdsn (Initialize "pinned" 5)); by left).
  rewrite Hdeeds. split.
  - intros d [->|Hd]%elem_of_cons; [by left|right; by apply Hdsn].
  - intros later s p Hc Hp. rewrite (same_place_local s p t (Hplace later s p Hc Hp)).
    destruct Hv as (_ & _ & [Hl|Hl] & _); [exact Hl|discriminate Hl].
Defined.

Lemma benchmark_stores_all_witness :
  ∃ e, table_of demo_main.1.1 "releases" !! "1000001" = Some e ∧ hash e = Some "hash-1000001".
Proof.
  set (w := run (H:=sample_runtime) whole_row_key demo_arguments demo_answers "pinned" (empty_store, [Inspect "bench"])).
  assert (demo_main = w) as -> by reflexivity.
  destruct w as [[st log] [rep|]] eqn:Ew; [|exfalso; assert (is_ok w.2 = true) as Hok by (vm_compute; reflexivity); by rewrite Ew in Hok].
  assert (Forall (λ t, 10 <= t.2) demo_schedule) as Htimes by (repeat constructor; discriminate).
  destruct (benchmark_stores_all (H:=sample_runtime) whole_row_key demo_arguments demo_answers "pinned" 10 _ _ _ _ rep Ew
    eq_refl eq_refl Htimes) as (records & r & Hrec & _ & _ & Hin & _).
  assert (∃ m, m ∈ records ∧ data_id m = "1000001" ∧ sha256 m = "hash-1000001") as (m & Hm & Hid & Hsha).
  { assert (option_map (λ m, (data_id m, sha256 m)) (records !! 1%nat) = Some ("1000001", "hash-1000001")) as Hr.
    { transitivity (match records_of demo_arguments with
                    | Ok rr => option_map (λ m, (data_id m, sha256 m)) (rr.1 !! 1%nat) | Raise _ => None end);
        [rewrite Hrec; reflexivity|vm_compute; reflexivity]. }
    destruct (records !! 1%nat) as [m|] eqn:Hl; [|discriminate Hr]. injection Hr as H1 H2. exists m.
    exact (conj (list_elem_of_lookup_2 _ _ _ Hl) (conj H1 H2)). }
  destruct (Hin m Hm) as (e & He & Hh & _). exists e. rewrite Hid in He. rewrite Hsha in Hh. split; [exact He|exact Hh].
Defined.

Definition demo_load : load_arguments :=
  {| l_releases := 2; l_chunk := 1; l_batch_size := 1; l_workers := 2; l_seed := 7; l_defer_indexes := true;
     l_allow_remote_host := false |}.

Definition demo_index : index := {| i_schema := "public"; i_name := "idx_title"; i_definition := "CREATE INDEX idx_title" |}.

Definition demo_load_answers : load_answers :=
  {| b_initialize := Ok (); b_schema := Ok 0; b_mark := Ok (); b_indexes := Ok [demo_index]; b_drop _ := Ok ();
     b_before := Ok (1, 1); b_chunk _ := Ok (2, 2); b_after := Ok (3, 8); b_schedule _ := demo_schedule;
     b_maintenance := Ok (); b_rebuild _ := Ok (); b_close := Ok () |}.

Lemma first_load_stores_all_witness :
  let w := run_first_load (H:=sample_runtime) whole_row_key 3 demo_load demo_load_answers "pinned" (empty_store, []) in
  w.2 = Ok (Some (1%nat, 7, 3)) ∧ omap rebuilt w.1.2 = ["CREATE INDEX idx_title"] ∧
  ∃ e m, table_of w.1.1 "releases" !! "1000001" = Some e ∧ hash e = Some "hash-1000001" ∧
    (∃ records rng, records_of (as_write_path demo_load) = Ok (records, rng) ∧ records !! 1%nat = Some m) ∧ data e = payload m.
Proof.
  cbv zeta. set (w := run_first_load _ _ _ _ _ _). assert (w.2 = Ok (Some (1%nat, 7, 3))) as Hok by (vm_compute; reflexivity).
  split; [exact Hok|].
  assert (w = ((w.1.1, w.1.2), Ok (Some (1%nat, 7, 3)))) as Ew by (rewrite <-Hok, <-!surjective_pairing; reflexivity).
  assert (∀ k, Forall (λ t, 10 <= t.2) (b_schedule demo_load_answers k)) as Htimes by (intros k; repeat constructor; discriminate).
  destruct (first_load_stores_all (H:=sample_runtime) whole_row_key 3 demo_load demo_load_answers "pinned" 10 _ _ _ _ _ Ew
    eq_refl eq_refl eq_refl ltac:(vm_compute; lia) Htimes)
    as (records & rng & deferred & seg & wal & db & _ & Hrec & [Hin _] & _ & Hlog & _ & Hrebuilt & Hlisted).
  assert (deferred = [demo_index]) as -> by (specialize (Hlisted eq_refl); by injection Hlisted).
  split; [by rewrite Hlog|].
  assert (option_map (λ m, (data_id m, sha256 m)) (records !! 1%nat) = Some ("1000001", "hash-1000001")) as Hr.
  { transitivity (match records_of (as_write_path demo_load) with
                  | Ok rr => option_map (λ m, (data_id m, sha256 m)) (rr.1 !! 1%nat) | Raise _ => None end);
      [rewrite Hrec; reflexivity|vm_compute; reflexivity]. }
  destruct (records !! 1%nat) as [m|] eqn:Hl; [|discriminate Hr]. injection Hr as H1 H2.
  destruct (Hin m (list_elem_of_lookup_2 _ _ _ Hl)) as (e & He & Hh & _ & _ & _ & Hc). exists e, m. rewrite H1 in He. rewrite H2 in Hh.
  split; [exact He|]. split; [exact Hh|]. split; [exists records, rng; split; [exact Hrec|exact Hl]|].
  destruct Hc as [(m' & Hm' & _ & _ & Hd)|(e0 & Ho & _)].
  - apply list_elem_of_singleton in Hm'. rewrite Hd, Hm'. reflexivity.
  - exfalso. rewrite H1 in Ho. vm_compute in Ho. discriminate Ho.
Defined.
