(* ===== verification/Poison.v ===== *)
(** * Poison: what one bad record costs, [scripts/benchmark-poison.py]

    The benchmark wraps the processor's writer to count its calls, fills a batch with one record
    the database cannot store, and reports how many deliveries were acknowledged and rejected.
    Here the counting writer runs under the sink of [Batch], and the number of its calls is
    bounded.  The shared engine between the deliveries and the sink is not modelled. *)

From S2P Require Import Prelude Json Entities Batch Workload.
From Stdlib Require Import SpecFloat.

(** ** The counting writer *)

Section poison.
Context `{Message M} {S : Type} (process : list M → S → S * result BatchWriteResult) (classify : exn → FailureKind).

(** [counted]: one more call, then the original. *)
Definition counted (l : list M) (sc : S * nat) : (S * nat) * result BatchWriteResult :=
  let '(s', r) := process l sc.1 in ((s', Datatypes.S sc.2), r).

Lemma counted_step l s c : counted l (s, c) = let '(s', r) := process l s in ((s', Datatypes.S c), r).
Proof. done. Qed.

(** ** The cost of an isolation *)

Context (poisoned : M → bool) (Hpoison : fails_on_poison process classify poisoned).

Definition poisons (l : list M) : nat := length (filter (λ m, poisoned m = true) l).

Lemma poisons_none l : poisons l = 0%nat ↔ existsb poisoned l = false.
Proof.
  unfold poisons. induction l as [|m l IH]; [done|]. rewrite filter_cons. simpl.
  destruct (poisoned m); [rewrite decide_True by done; done|rewrite decide_False by done; exact IH].
Qed.

(** The levels of halving below [n] records. *)
Definition levels (n : nat) : nat := Nat.log2_up n.

Lemma levels_half n m : (2 ≤ n)%nat → (m = Nat.div2 n ∨ m = n - Nat.div2 n)%nat → (levels m ≤ levels n - 1)%nat ∧ (1 ≤ levels n)%nat.
Proof.
  intros Hn Hm. unfold levels. pose proof (Nat.div2_odd n) as Hodd. assert (Nat.b2n (Nat.odd n) ≤ 1)%nat by (destruct (Nat.odd n); simpl; lia).
  assert (1 ≤ Nat.log2_up n)%nat as H1 by (change 1%nat with (Nat.log2_up 2); by apply Nat.log2_up_le_mono). split; [|done].
  destruct (decide (m ≤ 1)%nat) as [Hm1|Hm1]; [rewrite (Nat.log2_up_eqn0 m) by done; lia|].
  pose proof (Nat.log2_up_spec n ltac:(lia)) as [_ Hup]. apply Nat.log2_up_le_pow2; [lia|].
  assert (2 ^ Nat.log2_up n = 2 * 2 ^ (Nat.log2_up n - 1))%nat as Hpow
    by (rewrite <-Nat.pow_succ_r'; f_equal; lia). lia.
Qed.

(** A counted step that returns what the step itself returns, after at most [n] more calls. *)
Definition costs {A} (n : nat) (c1 : sink (S := S * nat) A) (c2 : sink (S := S) A) (w : (S * nat) * lane) : Prop :=
  ∃ s' c' ln' a, c1 w = (((s', c'), ln'), Ok a) ∧ c2 (w.1.1, w.2) = ((s', ln'), Ok a) ∧ flush_state ln' ≠ None ∧
    (c' ≤ w.1.2 + n)%nat.

Lemma half_cost fuel half s c ln :
  (∀ e s c ln, (1 ≤ poisons half)%nat → flush_state ln ≠ None →
     costs (2 * poisons half * levels (length half)) (_isolate counted classify fuel half e) (_isolate process classify fuel half e)
       ((s, c), ln)) →
  flush_state ln ≠ None →
  costs (1 + 2 * poisons half * levels (length half)) (write_half counted classify (_isolate counted classify fuel) half)
    (write_half process classify (_isolate process classify fuel) half) ((s, c), ln).
Proof.
  intros IH Hln. unfold costs, write_half, scatch, run_process. cbn [fst snd].
  rewrite counted_step. pose proof (Hpoison s half) as Hpoisoned.
  destruct (existsb poisoned half) eqn:Hx.
  - destruct Hpoisoned as (e & He & Hd & Hp). rewrite Hp, He.
    assert (deterministic classify e = true) as -> by exact Hd.
    assert (1 ≤ poisons half)%nat as Hk by (destruct (poisons half) eqn:E; [by apply poisons_none in E; congruence|lia]).
    destruct (IH e s (Datatypes.S c) ln Hk Hln) as (s' & c' & ln' & a & E1 & E2 & Hln' & Hc). cbn [fst snd] in *.
    exists s', c', ln', a. split_and!; [exact E1|exact E2|done|lia].
  - destruct Hpoisoned as (s' & r & Hp). rewrite Hp.
    destruct (write_result_ok r ln Hln) as (ln1 & H1 & Hln1). rewrite !(observed _ _ _ _ _ H1).
    exists s', (Datatypes.S c), ln1, (acks half r). split_and!; [done..|lia].
Qed.

Lemma isolate_cost fuel l e s c ln :
  (1 ≤ poisons l)%nat → (length l ≤ fuel)%nat → flush_state ln ≠ None →
  costs (2 * poisons l * levels (length l)) (_isolate counted classify fuel l e) (_isolate process classify fuel l e) ((s, c), ln).
Proof.
  induction fuel as [|fuel IH] in l, e, s, c, ln |- *; intros Hk Hlen Hln.
  { destruct l; simpl in Hlen; [unfold poisons in Hk; simpl in Hk; lia|lia]. }
  destruct l as [|m [|m2 rest]]; [unfold poisons in Hk; simpl in Hk; lia| |].
  - destruct (write_failed_ok e [id_of m] ln Hln) as (ln1 & H1 & Hln1). unfold costs. cbn [_isolate fst snd].
    rewrite !(observed _ _ _ _ _ H1). eexists _, _, _, _. split_and!; [done..|lia].
  - set (l := m :: m2 :: rest) in *. assert (2 ≤ length l)%nat as H2 by (unfold l; simpl; lia).
    set (middle := Nat.div2 (length l)).
    assert (1 ≤ middle < length l)%nat as Hm.
    { unfold middle. rewrite Nat.div2_div. split; [apply Nat.div_le_lower_bound; lia|apply Nat.div_lt; lia]. }
    assert (length (take middle l) = middle ∧ length (drop middle l) = (length l - middle)%nat) as [Hl1 Hl2]
      by (rewrite length_take, length_drop; lia).
    assert (poisons l = poisons (take middle l) + poisons (drop middle l))%nat as Hsum.
    { rewrite <-(take_drop middle l) at 1. unfold poisons. by rewrite filter_app, length_app. }
    destruct (levels_half (length l) middle H2 (or_introl eq_refl)) as [Hv1 Hv0].
    destruct (levels_half (length l) (length l - middle) H2 (or_intror eq_refl)) as [Hv2 _].
    unfold costs. change (_isolate ?p classify (Datatypes.S fuel) l e) with
      (sbind (write_half p classify (_isolate p classify fuel) (take middle l)) (λ left,
       sbind (write_half p classify (_isolate p classify fuel) (drop middle l)) (λ right, sret (left ++ right)))).
    destruct (half_cost fuel (take middle l) s c ln) as (s1 & c1 & ln1 & r1 & E1 & E1' & Hln1 & Hc1);
      [intros; apply IH; [done|lia|done]|done|].
    destruct (half_cost fuel (drop middle l) s1 c1 ln1) as (s2 & c2 & ln2 & r2 & E2 & E2' & Hln2 & Hc2);
      [intros; apply IH; [done|lia|done]|done|].
    cbn [fst snd] in *. exists s2, c2, ln2, (r1 ++ r2). unfold sbind. rewrite E1, E1'. rewrite E2, E2'.
    split_and!; [done..|]. rewrite Hl1 in Hc1. rewrite Hl2 in Hc2. nia.
Qed.

Context `{!AtomicWriter process}.

(** C40 A poison record costs about a logarithm of its batch.  When the writer fails a batch exactly
    because of its poisoned records, and deterministically, writing a batch of two or more
    records through the counting writer does what writing it does: the poisoned records and
    no others are rejected, all others are committed, each once.  And it calls the writer at
    most [1 + 2 * k * c] times for [k] poisoned records, where [c], how often the batch can be
    halved, is the logarithm of its length to base two, rounded up. *)
Theorem poison_cost payloads s ln :
  (2 ≤ length payloads)%nat → flush_state ln ≠ None →
  ∃ s' calls ln' rs, write counted classify payloads ((s, 0%nat), ln) = (((s', calls), ln'), Ok rs) ∧
    i_settlement <$> rs = (λ m, if poisoned m then REJECT else ACK) <$> payloads ∧
    commits process s (filter (λ m, poisoned m = false) payloads) s' ∧
    (calls ≤ 1 + 2 * poisons payloads * Nat.log2_up (length payloads))%nat.
Proof.
  intros Hlen Hln. destruct (write_isolated process classify poisoned payloads s ln Hpoison Hlen Hln)
    as (s' & ln' & rs & Ewrite & Hstatus & Hcommits).
  assert (∃ calls, write counted classify payloads ((s, 0%nat), ln) = (((s', calls), ln'), Ok rs) ∧
    (calls ≤ 1 + 2 * poisons payloads * levels (length payloads))%nat) as (calls & E & Hcalls).
  2: { exists s', calls, ln', rs. by split_and!. }
  revert Ewrite. unfold write, scatch, run_process. rewrite counted_step. pose proof (Hpoison s payloads) as Hpoisoned.
  destruct (existsb poisoned payloads) eqn:Hx.
  - destruct Hpoisoned as (e & He & Hd & Hp). rewrite Hp, He.
    assert (deterministic classify e = true) as -> by exact Hd. rewrite (proj2 (Nat.ltb_lt 1 _)) by lia. cbn [andb].
    assert (1 ≤ poisons payloads)%nat as Hk by (destruct (poisons payloads) eqn:E; [apply poisons_none in E; congruence|lia]).
    destruct (isolate_cost (length payloads) payloads e s 1 ln Hk (le_n _) Hln) as (s2 & c2 & ln2 & r2 & E1 & E2 & _ & Hc).
    cbn [fst snd] in E2. rewrite E1, E2. intros [= -> -> ->]. exists c2. split; [done|]. cbn [fst snd] in Hc. lia.
  - destruct Hpoisoned as (s2 & r & Hp). rewrite Hp. destruct (write_result_ok r ln Hln) as (ln1 & H1 & Hln1).
    rewrite !(observed _ _ _ _ _ H1). intros [= -> -> ->]. exists 1%nat. split; [done|lia].
Qed.
End poison.

(** ** The batch of a measurement *)

Section measure.
Context `{Random R}.

(** [int(x)] of a float; an infinity is an [OverflowError]. *)
Definition truncate (x : spec_float) : result Z :=
  match x with
  | S754_zero _ => Ok 0
  | S754_infinity _ => Raise (OtherError "OverflowError")
  | S754_nan => Raise ValueError
  | S754_finite negative m e =>
      let n := if 0 <=? e then Z.pos m * 2 ^ e else Z.pos m / 2 ^ (- e) in
      Ok (if negative then - n else n)
  end.

(** [int(batch_size * position)]. *)
Definition poison_index (batch_size : Z) (position : spec_float) : result Z := truncate (fmul (b64 batch_size) position).

Definition poison_title : string := "poison" +:+ String "000" "record".

(** The payload of one delivery. *)
Definition delivery (poisoned : bool) (m : BatchRecord) : dict :=
  let data := od_set "sha256" (JStr (sha256 m)) (payload m) in
  if poisoned then od_set "title" (JStr poison_title) data else data.

(** The deliveries of [measure], for a seed that is not negative; [first] is the index of the first
    record. *)
Definition deliveries (batch_size seed_ : Z) (position : spec_float) : result (list dict) :=
  let! at_ := poison_index batch_size position in
  let first := batch_size * 1000 + seed_ * 10000000 in
  Ok (draw_each (λ i : nat, draw_bind (release (Z.to_nat (first + Z.of_nat i)) 1000)
        (λ m, draw_ret (delivery (Z.of_nat i =? at_) m))) (seq 0 (Z.to_nat batch_size)) (seeded seed_)).1.

Record measurement := { acked : nat; rejected : nat; healthy_rejected : Z; writer_calls : nat }.

(** The counts of the report, from the settlements of the batch. *)
Definition measured (rs : list BatchItemResult) (calls : nat) : measurement :=
  let acks := length (filter (λ r, i_settlement r = ACK) rs) in
  let rejects := length (filter (λ r, i_settlement r = REJECT) rs) in
  {| acked := acks; rejected := rejects; healthy_rejected := Z.max 0 (Z.of_nat rejects - 1); writer_calls := calls |}.
End measure.

(** The index is inside the batch for every position below one that the benchmark is run with. *)
Example middle_of_batches :
  (λ n, poison_index n (S754_finite false 4503599627370496 (-53))) <$> [100; 500; 1000; 2000; 4000]
    = [Ok 50; Ok 250; Ok 500; Ok 1000; Ok 2000].
Proof. reflexivity. Qed.

(** ** A concrete measurement *)

Definition sixteen : list BatchRecord :=
  (λ i : nat, {| data_id := if Nat.eqb i 9 then "bad" else py_str_int (Z.of_nat i); payload := []; sha256 := "" |}) <$> seq 0 16.

#[local] Instance sample_writer_atomic : AtomicWriter sample_process.
Proof. constructor. intros l s s' e. unfold sample_process. destruct (existsb _ _); by intros [= <- _]. Qed.

Lemma poison_cost_witness :
  ∃ s' calls ln' rs,
    write (counted sample_process) sample_classify sixteen (([], 0%nat), sample_lane) = (((s', calls), ln'), Ok rs) ∧
    (calls ≤ 9)%nat ∧ measured rs calls = {| acked := 15; rejected := 1; healthy_rejected := 0; writer_calls := 9 |}.
Proof.
  destruct (poison_cost sample_process sample_classify sample_poisoned sample_fails_on_poison sixteen [] sample_lane
    ltac:(vm_compute; lia) ltac:(discriminate)) as (s' & calls & ln' & rs & E & _ & _ & Hcalls).
  assert (1 + 2 * poisons sample_poisoned sixteen * Nat.log2_up (length sixteen) = 9)%nat as Hnine by (vm_compute; reflexivity).
  assert (option_map (λ rs, measured rs (write (counted sample_process) sample_classify sixteen (([], 0%nat), sample_lane)).1.1.2)
    (match (write (counted sample_process) sample_classify sixteen (([], 0%nat), sample_lane)).2 with Ok rs => Some rs | Raise _ => None end)
    = Some {| acked := 15; rejected := 1; healthy_rejected := 0; writer_calls := 9 |}) as Hm by (vm_compute; reflexivity).
  rewrite E in Hm. injection Hm as Hm. rewrite Hnine in Hcalls. exists s', calls, ln', rs. split; [exact E|]. split; [exact Hcalls|].
  unfold measured. cbv zeta. congruence.
Defined.
