(* ===== verification/Measures.v ===== *)
(** * Measures: the derived pass, timed, [scripts/measure-derived-refresh.py],
    [scripts/measure-derived-stages.py], [scripts/prepare-derived-refresh.py]

    The scripts that fill a disposable graph, run the production pass of [Counters] on it, and
    profile its stages one commit at a time.  A statement timeout cancels a pass or a stage and
    rolls it back.  Durations are not modelled. *)

From S2P Require Import Prelude Json Runtime Derivation GraphWriter GraphEffect Entities Counters.

Definition QueryCanceled : exn := OtherError "QueryCanceled".
Definition usage_error : exn := OtherError "SystemExit".

(** [parser.error] unless every count is positive and the connection string is set. *)
Definition checked (counts : list Z) (dsn : option string) : result string :=
  if existsb (λ n, n <? 1) counts then Raise usage_error
  else match dsn with
       | Some d => if bool_decide (d = "") then Raise usage_error else Ok d
       | None => Raise usage_error
       end.

(** ** Preparation *)

Section prepare.
(** The pinned schema's fill order, and the rows the fill of a relation selects. *)
Context (_BOOTSTRAP_FILL_ORDER : list string) (fill_source : string → gmap string (list row) → result (list row)).

(** Each relation commits on its own; the loop stops at the first counter. *)
Fixpoint prepare (relations : list string) (tables : gmap string (list row)) : gmap string (list row) * result () :=
  match relations with
  | [] => (tables, Ok ())
  | relation :: relations =>
      if bool_decide (relation = "genre_stats") then (tables, Ok ())
      else match fill_source relation (<[relation := []]> tables) with
           | Ok rs => prepare relations (<[relation := rs]> tables)
           | Raise e => (tables, Raise e)
           end
  end.

Definition prepare_main (tables : gmap string (list row)) : gmap string (list row) * result () :=
  prepare _BOOTSTRAP_FILL_ORDER tables.

(** The relations before the counters. *)
Definition sources (relations : list string) : list string :=
  (fix go l := match l with [] => [] | x :: l => if bool_decide (x = "genre_stats") then [] else x :: go l end) relations.

Lemma prepare_keeps relations tables r : r ∉ sources relations → (prepare relations tables).1 !! r = tables !! r.
Proof.
  induction relations as [|x relations IH] in tables |- *; [done|]. cbn [prepare sources].
  case_bool_decide; [done|]. intros [Hne Hr]%not_elem_of_cons. destruct (fill_source _ _); [|done].
  rewrite IH by done. by apply lookup_insert_ne.
Qed.
End prepare.

(** ** Passes *)

Section passes.
Context `{CommonRuntime} (key_of : string → row → list val).
Context {Path Ext : Type} (path_function : string → graph_db → Path → result Path) (entities : string → entity_table).

Abbreviation state := (@derived Path Ext).

(** The pass without fences and without a latch. *)
Definition plain_pass (s : state) : state * result () :=
  refresh_derived_relations key_of path_function entities Ok Ok (λ ext, ext) s.

(** What [refresh_derived_relations] returns: the rows of each counter relation. *)
Definition counter_rows (s : state) : list (string * nat) :=
  (λ r, (r, length (default [] (d_counters s !! r)))) <$> REFRESH_ORDER.

Inductive report := Pass (run : nat) (case : string) (counts : list (string * nat)) | CensoredPass (run : nat).

(** The loop over the passes from [run] on; [canceled run] is a statement timeout in that pass. *)
Fixpoint measure (canceled : nat → bool) (left_ run : nat) (s : state) : state * list report * result () :=
  match left_ with
  | 0%nat => (s, [], Ok ())
  | Datatypes.S left_ =>
      let '(s', r) := if canceled run then (s, Raise QueryCanceled) else plain_pass s in
      match r with
      | Ok _ =>
          let line := Pass run (if Nat.eqb run 1 then "initial" else "unchanged-data retry") (counter_rows s') in
          let '(s'', lines, r) := measure canceled left_ (Datatypes.S run) s' in (s'', line :: lines, r)
      | Raise e => if bool_decide (e = QueryCanceled) then (s', [CensoredPass run], Ok ()) else (s', [], Raise e)
      end
  end.

Definition measure_main (dsn : option string) (runs timeout_seconds : Z) (canceled : nat → bool) (s : state)
    : state * list report * result () :=
  match checked [runs; timeout_seconds] dsn with
  | Ok _ => measure canceled (Z.to_nat runs) 1 s
  | Raise e => (s, [], Raise e)
  end.

(** ** Stages *)

Definition STAGES : list string := "reconcile_additive_edges" :: REFRESH_ORDER ++ PATH_REFRESH_FUNCTIONS.

(** One stage in a transaction of its own. *)
Definition run_stage (stage : string) (s : state) : result state :=
  if bool_decide (stage = "reconcile_additive_edges") then
    match reconcile_additive_edges key_of entities (d_graph s) with
    | Some gr => Ok {| d_graph := gr; d_counters := d_counters s; d_path := d_path s; d_ext := d_ext s |}
    | None => Raise (OtherError "unreachable")
    end
  else if bool_decide (stage ∈ REFRESH_ORDER) then
    let! counters := refresh_one (d_graph s) (entities "releases") (Ok (d_counters s)) stage in
    Ok {| d_graph := d_graph s; d_counters := counters; d_path := d_path s; d_ext := d_ext s |}
  else
    let! path := path_function stage (d_graph s) (d_path s) in
    Ok {| d_graph := d_graph s; d_counters := d_counters s; d_path := path; d_ext := d_ext s |}.

Inductive outcome := Committed | Censored.

(** The stages from here on, each committed, or canceled and rolled back; any other failure
    stops the profile and leaves what was committed. *)
Fixpoint profile (canceled : string → bool) (stages : list string) (s : state) : state * list (string * outcome) * result () :=
  match stages with
  | [] => (s, [], Ok ())
  | stage :: stages =>
      let r := if canceled stage then Raise QueryCanceled else run_stage stage s in
      match r with
      | Ok s' => let '(s'', lines, r) := profile canceled stages s' in (s'', (stage, Committed) :: lines, r)
      | Raise e =>
          if bool_decide (e = QueryCanceled) then
            let '(s'', lines, r) := profile canceled stages s in (s'', (stage, Censored) :: lines, r)
          else (s, [], Raise e)
      end
  end.

Definition profile_main (dsn : option string) (timeout_seconds : Z) (canceled : string → bool) (s : state)
    : state * list (string * outcome) * result () :=
  match checked [timeout_seconds] dsn with
  | Ok _ => profile canceled STAGES s
  | Raise e => (s, [], Raise e)
  end.

(** ** The profile of a pass is the pass *)

(** The stages in a row, with nothing canceled. *)
Definition staged (stages : list string) (s : state) : result state :=
  foldl (λ r stage, let! s := r in run_stage stage s) (Ok s) stages.

Lemma staged_raise stages e : foldl (λ r stage, let! s := r in run_stage stage s) (Raise e) stages = (Raise e : result state).
Proof. by induction stages. Qed.

Lemma staged_cons stage stages s : staged (stage :: stages) s = let! s' := run_stage stage s in staged stages s'.
Proof. unfold staged. cbn [foldl bind]. destruct (run_stage stage s); [done|]. apply staged_raise. Qed.

Lemma staged_app l1 l2 s : staged (l1 ++ l2) s = let! s' := staged l1 s in staged l2 s'.
Proof. unfold staged. rewrite foldl_app. destruct (foldl _ _ l1); [done|]. cbn [bind]. apply staged_raise. Qed.

Lemma run_counter r s :
  r ∈ REFRESH_ORDER →
  run_stage r s =
    let! c := refresh_one (d_graph s) (entities "releases") (Ok (d_counters s)) r in
    Ok {| d_graph := d_graph s; d_counters := c; d_path := d_path s; d_ext := d_ext s |}.
Proof.
  intros Hr. unfold run_stage. rewrite (bool_decide_eq_true_2 (r ∈ REFRESH_ORDER)) by done.
  rewrite bool_decide_eq_false_2; [done|]. intros ->. revert Hr. decide_now.
Qed.

Lemma staged_counters rels s :
  (∀ r, r ∈ rels → r ∈ REFRESH_ORDER) →
  staged rels s =
    let! c := foldl (refresh_one (d_graph s) (entities "releases")) (Ok (d_counters s)) rels in
    Ok {| d_graph := d_graph s; d_counters := c; d_path := d_path s; d_ext := d_ext s |}.
Proof.
  induction rels as [|r rels IH] in s |- *; intros Hall; [by destruct s|]. rewrite staged_cons, run_counter by (apply Hall; by left).
  cbn [foldl]. destruct (refresh_one _ _ _ r) as [c|e]; cbn [bind].
  - rewrite IH by (intros; apply Hall; by right). done.
  - by rewrite refresh_raised.
Qed.

(** The pass is its stages in a row, committed together. *)
Lemma pass_staged s : plain_pass s = match staged STAGES s with Ok s' => (s', Ok ()) | Raise e => (s, Raise e) end.
Proof.
  unfold plain_pass, refresh_derived_relations, STAGES. cbn [bind]. rewrite staged_cons.
  unfold run_stage at 1. rewrite bool_decide_eq_true_2 by done.
  destruct (reconcile_additive_edges _ _ _) as [gr|]; [|done]. cbn [bind]. rewrite staged_app, staged_counters by done.
  cbn [d_graph d_counters d_path d_ext]. unfold refresh_counter_relations.
  destruct (foldl (refresh_one _ _) _ REFRESH_ORDER) as [c|]; [|done]. unfold PATH_REFRESH_FUNCTIONS. cbn [bind foldl].
  rewrite staged_cons. unfold run_stage at 1.
  rewrite (bool_decide_eq_false_2 ("refresh_artist_member_of" = _)), (bool_decide_eq_false_2 ("refresh_artist_member_of" ∈ _)) by decide_now.
  cbn [d_graph d_path]. destruct (path_function "refresh_artist_member_of" gr (d_path s)) as [p|]; [|done].
  cbn [bind]. rewrite staged_cons. unfold run_stage.
  rewrite (bool_decide_eq_false_2 ("refresh_vertex_degree" = _)), (bool_decide_eq_false_2 ("refresh_vertex_degree" ∈ _)) by decide_now.
  cbn [d_graph d_path]. by destruct (path_function "refresh_vertex_degree" gr p).
Qed.

Lemma profile_staged stages s :
  match staged stages s with
  | Ok s' => profile (λ _, false) stages s = (s', (λ stage, (stage, Committed)) <$> stages, Ok ())
  | Raise e => e ≠ QueryCanceled → (profile (λ _, false) stages s).2 = Raise e
  end.
Proof.
  induction stages as [|stage stages IH] in s |- *; [done|]. rewrite staged_cons. cbn [profile].
  destruct (run_stage stage s) as [s1|e]; cbn [bind].
  - specialize (IH s1). destruct (staged stages s1) as [s2|e]; [by rewrite IH|]. intros He. specialize (IH He).
    by destruct (profile _ stages s1) as [[s3 lines] r].
  - intros He. by rewrite bool_decide_eq_false_2.
Qed.

(** C36 The profile measures the production pass.  Run with no timeout, the stages of
    [measure-derived-stages.py], each committed on its own, leave exactly what the one
    transaction of [refresh_derived_relations] leaves and report every stage committed, in the
    order of the pass; and when the pass fails, the profile fails with the same exception,
    only that what it committed before stays. *)
Theorem profile_measures_pass s :
  match plain_pass s with
  | (s', Ok _) => profile (λ _, false) STAGES s = (s', (λ stage, (stage, Committed)) <$> STAGES, Ok ())
  | (s', Raise e) => s' = s ∧ (e ≠ QueryCanceled → (profile (λ _, false) STAGES s).2 = Raise e)
  end.
Proof. rewrite pass_staged. pose proof (profile_staged STAGES s) as Hp. by destruct (staged STAGES s). Qed.

(** ** A retry on the same data *)

Lemma reconcile_table_idem relation asserted t :
  keyed_by_row key_of relation t →
  reconcile_table key_of relation asserted (reconcile_table key_of relation asserted t) = reconcile_table key_of relation asserted t.
Proof.
  intros Hk. assert (keyed_by_row key_of relation (reconcile_table key_of relation asserted t)) as Hk'.
  { split; [by apply Hk|]. intros k x Hx. by apply reconcile_table_exact in Hx as [-> _]. }
  apply map_eq. intros k. apply option_eq. intros x. by rewrite !reconcile_table_exact.
Qed.

(** The relation's rows as the sweep leaves them. *)
Definition swept_relation (gr : graph_db) (a : string * (string * (dict → bool))) : Prop :=
  reconcile_relation key_of entities gr a = Some gr.

Lemma reconcile_relation_swept gr gr' relation table predicate :
  keyed_by_row key_of relation (tbl gr relation) →
  reconcile_relation key_of entities gr (relation, (table, predicate)) = Some gr' →
  ∀ gr'', gr'' !! relation = gr' !! relation → swept_relation gr'' (relation, (table, predicate)).
Proof.
  intros Hk Hr gr'' Heq. unfold swept_relation, reconcile_relation in *. case_bool_decide; [done|].
  destruct (page_loop _ _ _ _ _ _ _) as [asserted|]; [|done]. injection Hr as <-. rewrite lookup_insert_eq in Heq.
  f_equal. unfold tbl at 1. rewrite Heq. cbn [default from_option id]. rewrite reconcile_table_idem by done. by apply insert_id.
Qed.

Lemma reconcile_relation_other gr gr' relation table predicate r :
  reconcile_relation key_of entities gr (relation, (table, predicate)) = Some gr' → r ≠ relation → gr' !! r = gr !! r.
Proof.
  unfold reconcile_relation. case_bool_decide; [by intros [= ->]|]. destruct (page_loop _ _ _ _ _ _ _); [|done].
  intros [= <-] Hr. by rewrite lookup_insert_ne.
Qed.

Lemma reconcile_swept gr gr' :
  keyed_by_row key_of "member_of" (tbl gr "member_of") → keyed_by_row key_of "same_as" (tbl gr "same_as") →
  reconcile_additive_edges key_of entities gr = Some gr' → reconcile_additive_edges key_of entities gr' = Some gr'.
Proof.
  intros Hm Hs Hr. destruct (reconcile_both key_of entities gr) as (gr1 & gr2 & E1 & E2 & E12). simplify_eq.
  assert (tbl gr1 "same_as" = tbl gr "same_as") as Ht by (unfold tbl; by rewrite (reconcile_relation_other _ _ _ _ _ "same_as" E1)).
  rewrite <-Ht in Hs. destruct (reconcile_both key_of entities gr') as (gr3 & gr4 & E3 & E4 & ->).
  pose proof (reconcile_relation_swept _ _ _ _ _ Hm E1 gr' (reconcile_relation_other _ _ _ _ _ "member_of" E2 ltac:(done))) as Hm'.
  unfold swept_relation in Hm'. rewrite Hm' in E3. injection E3 as <-.
  pose proof (reconcile_relation_swept _ _ _ _ _ Hs E2 gr' eq_refl) as Hs'. unfold swept_relation in Hs'. by rewrite Hs' in E4.
Qed.

Lemma plain_pass_ok s s' :
  plain_pass s = (s', Ok ()) →
  reconcile_additive_edges key_of entities (d_graph s) = Some (d_graph s') ∧
  refresh_counter_relations (d_graph s') (entities "releases") (d_counters s) = Ok (d_counters s').
Proof.
  intros Hp. pose proof (refresh_derived_atomic key_of path_function entities Ok Ok (λ ext, ext) s) as Ha.
  unfold plain_pass in Hp. rewrite Hp in Ha. naive_solver.
Qed.

(** The unchanged-data retry finds nothing to do: with the two swept relations keyed by their
    rows, a second pass over the same catalog leaves the edges and every counter as the first one left
    them, so both report the same row counts. *)
Theorem retry_changes_nothing s s1 s2 :
  keyed_by_row key_of "member_of" (tbl (d_graph s) "member_of") → keyed_by_row key_of "same_as" (tbl (d_graph s) "same_as") →
  plain_pass s = (s1, Ok ()) → plain_pass s1 = (s2, Ok ()) →
  d_graph s2 = d_graph s1 ∧ d_counters s2 = d_counters s1 ∧ counter_rows s2 = counter_rows s1.
Proof.
  intros Hm Hs [Hg1 Hc1]%plain_pass_ok [Hg2 Hc2]%plain_pass_ok.
  pose proof (reconcile_swept _ _ Hm Hs Hg1) as Hg. rewrite Hg in Hg2. injection Hg2 as Hg2. rewrite <-Hg2 in Hc2.
  assert (d_counters s2 = d_counters s1) as Hc.
  { destruct (refresh_counters_project _ _ _ _ Hc1) as (_ & Hout & Hany).
    rewrite (Hany (d_counters s1)) in Hc2; [by injection Hc2|done]. }
  split_and!; [done..|]. unfold counter_rows. by rewrite Hc.
Qed.
End passes.

(** ** The stage logger *)

(** [StageLogger.info]: what it keeps of a log line, from its fields. *)
Definition stage_info {D} (event : string) (duration : option D) (relation function : option string) (stages : list (string * D))
    : list (string * D) :=
  match duration with
  | None => stages
  | Some d =>
      let named := match relation with
                   | Some r => if bool_decide (r = "") then function else Some r
                   | None => function
                   end in
      match named with
      | Some name => od_set name d stages
      | None => if contains "Refreshed the derived graph relations" event then od_set "total_logged" d stages else stages
      end
  end.

(** The relations whose sizes [metadata] reads. *)
Definition RELATIONS : list string :=
  ["artists"; "labels"; "masters"; "releases"; "graph.by_artist"; "graph.on_label"; "graph.in_genre"; "graph.in_style";
   "graph.credited_on"; "graph.issued_on"; "graph.member_of"; "graph.same_as"; "graph.artist_member_of"; "graph.vertex_degree"].
Definition sizes (read : string → option (Z * Z)) : list (string * (Z * Z)) :=
  (λ r, (r, default (0, 0) (read r))) <$> RELATIONS.

(** ** Concrete runs *)

Definition bump (function : string) (_ : graph_db) (path : list string) : result (list string) := Ok (path ++ [function]).
Definition empty_state : @derived (list string) () := {| d_graph := ∅; d_counters := ∅; d_path := []; d_ext := () |}.

(** A timeout in the second pass ends the measurement; the first one is reported. *)
Example second_pass_canceled :
  let '(s, lines, r) := measure (H:=sample_runtime) whole_row_key bump one_artist (λ run, Nat.eqb run 2) 3 1 empty_state in
  lines = [Pass 1 "initial" (counter_rows s); CensoredPass 2] ∧ r = Ok () ∧ d_path s = PATH_REFRESH_FUNCTIONS.
Proof. vm_compute. split_and!; reflexivity. Qed.

(** A stage that is canceled is rolled back and the later ones still run. *)
Example canceled_stage :
  let '(s, lines, r) := profile (H:=sample_runtime) whole_row_key bump one_artist
    (λ stage, bool_decide (stage = "refresh_artist_member_of")) STAGES empty_state in
  last lines = Some ("refresh_vertex_degree", Committed) ∧ d_path s = ["refresh_vertex_degree"] ∧ r = Ok ().
Proof. vm_compute. split_and!; reflexivity. Qed.

Lemma retry_changes_nothing_witness :
  let s1 := (plain_pass (H:=sample_runtime) whole_row_key bump one_artist empty_state).1 in
  let s2 := (plain_pass (H:=sample_runtime) whole_row_key bump one_artist s1).1 in
  d_graph s2 = d_graph s1 ∧ d_counters s2 = d_counters s1.
Proof.
  cbv zeta. set (s1 := (plain_pass _ _ _ empty_state).1).
  assert (∀ r, keyed_by_row whole_row_key r (tbl (d_graph empty_state) r)) as Hk.
  { intros r. split; [reflexivity|]. intros k x Hx. change (tbl (d_graph empty_state) r) with (∅ : table) in Hx.
    rewrite lookup_empty in Hx. discriminate Hx. }
  assert ((plain_pass (H:=sample_runtime) whole_row_key bump one_artist empty_state).2 = Ok ()) as H1 by (vm_compute; reflexivity).
  assert ((plain_pass (H:=sample_runtime) whole_row_key bump one_artist s1).2 = Ok ()) as H2 by (vm_compute; reflexivity).
  destruct (retry_changes_nothing (H:=sample_runtime) whole_row_key bump one_artist empty_state s1
    (plain_pass (H:=sample_runtime) whole_row_key bump one_artist s1).1 (Hk _) (Hk _)
    ltac:(rewrite <-H1; apply surjective_pairing) ltac:(rewrite <-H2; apply surjective_pairing)) as (Hg & Hc & _).
  split; [exact Hg|exact Hc].
Defined.
