(* ===== verification/Checks.v ===== *)
(** * Checks: the repository's own checks, [scripts/check_bump_preview.py],
    [scripts/check-contracts.py], [scripts/check-license.py], [scripts/write-build-provenance.py]

    Small scripts run in continuous integration.  Files, digests, the TOML and JSON readers
    and the programs they start are parameters. *)

From S2P Require Import Prelude Json.

Definition AssertionError : exn := OtherError "AssertionError".
Definition assert_ (b : bool) : result () := if b then Ok () else Raise AssertionError.

(** [value[key]]. *)
Definition item (key : string) (value : json) : result json :=
  match value with
  | JObj d => match od_get key d with Some v => Ok v | None => Raise KeyError end
  | _ => Raise TypeError
  end.

(** [value[k1][k2]...]. *)
Definition path_item (keys : list string) (value : json) : result json := foldl (λ v k, let! v := v in item k v) (Ok value) keys.

(** [needle in value]. *)
Definition member (needle : string) (value : json) : result bool :=
  match value with
  | JObj d => Ok (bool_decide (od_get needle d ≠ None))
  | JList l => Ok (existsb (λ v, match v with JStr s => bool_decide (s = needle) | _ => false end) l)
  | JStr s => Ok (contains needle s)
  | _ => Raise TypeError
  end.

(** ** The bump preview *)

Definition NO_COMMITS_EXIT : Z := 3.
Definition NO_COMMITS_MARKERS : list string := ["[NO_COMMITS_FOUND]"; "No new commits found."].
Definition RELEASE_GAP_EXIT : Z := 16.
Definition RELEASE_GAP_MARKERS : list string :=
  ["bump: version "; "tag to create: v"; "increment detected: "; "No tag found to do an incremental changelog"].
Definition NOT_ELIGIBLE_EXIT : Z := 21.
Definition NOT_ELIGIBLE_MARKERS : list string :=
  ["[NO_COMMITS_TO_BUMP]"; "The commits found are not eligible to be bumped"].

Definition all_in (markers : list string) (output : string) : bool := forallb (λ m, contains m output) markers.

Definition accepted_result (returncode : Z) (output : string) : bool :=
  (returncode =? 0)
  || ((returncode =? NO_COMMITS_EXIT) && all_in NO_COMMITS_MARKERS output)
  || ((returncode =? RELEASE_GAP_EXIT) && all_in RELEASE_GAP_MARKERS output)
  || ((returncode =? NOT_ELIGIBLE_EXIT) && all_in NOT_ELIGIBLE_MARKERS output).

(** [main]: the status, from the exit code and the two outputs of Commitizen. *)
Definition bump_status (returncode : Z) (stdout stderr : string) : Z :=
  if accepted_result returncode (stdout +:+ String "010" stderr) then 0 else returncode.

(** The check passes exactly on a state it accepts, and hides no other failure: a status that is
    not 0 is Commitizen's own. *)
Theorem bump_status_honest returncode stdout stderr :
  (bump_status returncode stdout stderr = 0 ↔ accepted_result returncode (stdout +:+ String "010" stderr) = true) ∧
  (bump_status returncode stdout stderr ≠ 0 → bump_status returncode stdout stderr = returncode).
Proof.
  unfold bump_status. destruct (accepted_result _ _) eqn:Ha; [done|]. split; [|done]. split; [|done]. intros ->.
  discriminate Ha.
Qed.

Example no_commits_accepted :
  bump_status 3 "No new commits found." "[NO_COMMITS_FOUND]" = 0 ∧ bump_status 3 "" "[NO_COMMITS_FOUND]" = 3.
Proof. split; reflexivity. Qed.

(** ** Contracts and pins *)

Section contracts.
Context (bytes : Type) (read_bytes : string → result bytes) (sha256 : bytes → string) (read_json read_toml : string → result json).

Definition digest (path : string) : result json := let! b := read_bytes path in Ok (JStr (sha256 b)).

(** [assert left == right], on texts and numbers. *)
Definition same (left_ right_ : json) : bool :=
  match left_, right_ with
  | JStr a, JStr b => bool_decide (a = b)
  | JInt a, JInt b => a =? b
  | JBool a, JInt b | JInt b, JBool a => (if a then 1 else 0) =? b
  | JBool a, JBool b => Bool.eqb a b
  | JNull, JNull => true
  | _, _ => false
  end.

Definition assert_same (left_ right_ : result json) : result () :=
  let! a := left_ in let! b := right_ in assert_ (same a b).

Definition check_contracts : result () :=
  let! catalog_source := read_json "contracts/catalog-events/v1/source.json" in
  let! persistence_source := read_json "contracts/persistence/v1/source.json" in
  let! compatibility := read_json "contracts/persistence/v1/compatibility.json" in
  let! runtime_source := read_json "contracts/runtime/v1/source.json" in
  let! pyproject := read_toml "pyproject.toml" in
  let! _ := assert_same (digest "contracts/catalog-events/v1/contract.json") (item "contract_sha256" catalog_source) in
  let! _ := assert_same (digest "tableinator/catalog_contract.py") (item "binding_sha256" catalog_source) in
  let! _ := assert_same (digest "contracts/persistence/v1/compatibility.json") (item "contract_sha256" persistence_source) in
  let! _ := assert_same (item "contract" compatibility) (Ok (JStr "groovemap.persistence")) in
  let! _ := assert_same (item "version" compatibility) (Ok (JInt 1)) in
  let! graph_schema := item "graph_schema" compatibility in
  let! declared := member "property_graph" graph_schema in
  let! _ := assert_ (negb declared) in
  let! _ := assert_same (path_item ["application_runtime"; "tested_version"] compatibility) (Ok (JStr "0.1.0")) in
  let! runtime_dependency := path_item ["tool"; "uv"; "sources"; "groovemap-runtime"] pyproject in
  let! _ := assert_same (item "package" runtime_source) (Ok (JStr "groovemap-runtime")) in
  let! _ := assert_same (item "version" runtime_source) (path_item ["application_runtime"; "tested_version"] compatibility) in
  let! _ := assert_same (item "rev" runtime_dependency) (item "source_commit" runtime_source) in
  let! schema_dependency := path_item ["tool"; "uv"; "sources"; "groovemap-database-schema"] pyproject in
  assert_same (item "rev" schema_dependency) (item "producer_commit" persistence_source).

Lemma assert_same_ok a b : assert_same a b = Ok () → ∃ x y, a = Ok x ∧ b = Ok y ∧ same x y = true.
Proof.
  unfold assert_same. destruct a as [x|], b as [y|]; cbn [bind]; try done. destruct (same x y) eqn:E; [|done]. eauto.
Qed.

(** When the check passes, the vendored contracts have the digests their sources promise and the
    pins of both dependencies are the commits the contracts were made from. *)
Theorem contracts_pinned :
  check_contracts = Ok () →
  (∃ b d source, read_bytes "contracts/catalog-events/v1/contract.json" = Ok b ∧
     read_json "contracts/catalog-events/v1/source.json" = Ok source ∧ item "contract_sha256" source = Ok d ∧
     same (JStr (sha256 b)) d = true) ∧
  (∃ pyproject source pin commit, read_toml "pyproject.toml" = Ok pyproject ∧
     read_json "contracts/persistence/v1/source.json" = Ok source ∧
     path_item ["tool"; "uv"; "sources"; "groovemap-database-schema"; "rev"] pyproject = Ok pin ∧
     item "producer_commit" source = Ok commit ∧ same pin commit = true).
Proof.
  unfold check_contracts. intros Hc.
  apply bind_ok in Hc as (catalog & Hcatalog & Hc). apply bind_ok in Hc as (persistence & Hpersistence & Hc).
  apply bind_ok in Hc as (compatibility & _ & Hc). apply bind_ok in Hc as (runtime & _ & Hc).
  apply bind_ok in Hc as (pyproject & Hproject & Hc). apply bind_ok in Hc as ([] & Hdigest & Hc).
  do 4 apply bind_ok in Hc as (_ & _ & Hc). apply bind_ok in Hc as (graph_schema & _ & Hc).
  apply bind_ok in Hc as (declared & _ & Hc). do 2 apply bind_ok in Hc as (_ & _ & Hc).
  apply bind_ok in Hc as (dependency & _ & Hc). do 3 apply bind_ok in Hc as (_ & _ & Hc).
  apply bind_ok in Hc as (schema & Hschema & Hc). apply assert_same_ok in Hc as (pin & commit & Hpin & Hcommit & Hsame). split.
  - apply assert_same_ok in Hdigest as (x & d & Hx & Hd & Hxd). apply bind_ok in Hx as (b & Hb & [= <-]). by exists b, d, catalog.
  - exists pyproject, persistence, pin, commit. split_and!; try done.
    change (path_item ["tool"; "uv"; "sources"; "groovemap-database-schema"; "rev"] pyproject)
      with (let! v := path_item ["tool"; "uv"; "sources"; "groovemap-database-schema"] pyproject in item "rev" v).
    rewrite Hschema. exact Hpin.
Qed.
End contracts.

(** ** License and version *)

Definition quote : ascii := "034".

(** The text up to the first quote, and what follows that quote. *)
Fixpoint until_quote (text : string) : option (string * string) :=
  match text with
  | "" => None
  | String c rest =>
      if Ascii.eqb c quote then Some ("", rest)
      else match until_quote rest with Some (word, after) => Some (String c word, after) | None => None end
  end.

Fixpoint drop_prefix (prefix text : string) : option string :=
  match prefix, text with
  | "", _ => Some text
  | String a prefix, String b text => if Ascii.eqb a b then drop_prefix prefix text else None
  | _, "" => None
  end.

Definition version_prefix : string := "__version__ = " +:+ String quote "".

(** The pattern of the version line, matched at the start of [text]: the group. *)
Definition version_here (text : string) : option string :=
  match drop_prefix version_prefix text with
  | Some rest =>
      match until_quote rest with
      | Some (word, after) =>
          if bool_decide (word = "") then None
          else match after with
               | "" => Some word
               | String c _ => if Ascii.eqb c "010" then Some word else None
               end
      | None => None
      end
  | None => None
  end.

(** [re.search] with [re.MULTILINE]: the first line start where the pattern matches. *)
Fixpoint search_lines (at_start : bool) (text : string) : option string :=
  match (if at_start then version_here text else None) with
  | Some word => Some word
  | None => match text with "" => None | String c rest => search_lines (Ascii.eqb c "010") rest end
  end.

Definition newline : string := String "010" "".

Section license.
Context (read_text : string → result string) (read_toml : string → result json).

Definition check_license : result () :=
  let! pyproject := read_toml "pyproject.toml" in
  let! project := item "project" pyproject in
  let! init := read_text "tableinator/__init__.py" in
  match search_lines true init with
  | None => Raise AssertionError
  | Some version =>
      let! _ := assert_same (item "license" project) (Ok (JStr "MIT")) in
      let! _ := assert_same (item "version" project) (Ok (JStr version)) in
      let! license := read_text "LICENSE" in
      assert_ (String.prefix ("MIT License" +:+ newline) license)
  end.

(** When the check passes the package's two versions are the same text. *)
Theorem versions_agree :
  check_license = Ok () →
  ∃ pyproject init version, read_toml "pyproject.toml" = Ok pyproject ∧ read_text "tableinator/__init__.py" = Ok init ∧
    search_lines true init = Some version ∧ path_item ["project"; "version"] pyproject = Ok (JStr version).
Proof.
  unfold check_license. intros Hc. apply bind_ok in Hc as (pyproject & Hp & Hc). apply bind_ok in Hc as (project & Hproject & Hc).
  apply bind_ok in Hc as (init & Hinit & Hc). destruct (search_lines true init) as [version|] eqn:Hv; [|done].
  apply bind_ok in Hc as ([] & _ & Hc). apply bind_ok in Hc as ([] & Hsame & _).
  apply assert_same_ok in Hsame as (x & y & Hx & [= <-] & Hxy). exists pyproject, init, version. split_and!; try done.
  change (path_item ["project"; "version"] pyproject) with (let! v := item "project" pyproject in item "version" v).
  rewrite Hproject. cbn [bind]. rewrite Hx. destruct x; try done. simpl in Hxy. by apply bool_decide_eq_true in Hxy as ->.
Qed.
End license.

Example version_found :
  search_lines true ("x" +:+ newline +:+ version_prefix +:+ "1.2" +:+ String quote newline) = Some "1.2". Proof. reflexivity. Qed.
Example version_not_first :
  search_lines true ("# " +:+ version_prefix +:+ "1.2" +:+ String quote newline) = None. Proof. reflexivity. Qed.

(** ** Provenance *)

(** [path.suffix] of a file name. *)
Fixpoint last_dot (name : string) : option string :=
  match name with
  | "" => None
  | String c rest =>
      match last_dot rest with
      | Some suffix => Some suffix
      | None => if Ascii.eqb c "." then Some name else None
      end
  end.
Definition suffix (name : string) : string :=
  match name with
  | "" => ""
  | String _ rest => match last_dot rest with Some s => if bool_decide (s = ".") then "" else s | None => "" end
  end.

Section provenance.
Context (bytes : Type) (read_bytes : string → result bytes) (sha256 : bytes → string).
(** The names in [dist], and the answer of [git rev-parse HEAD]. *)
Context (listing : list string) (git : option (result string)) (python : string).

Definition artifacts : list string :=
  filter (λ name, bool_decide (suffix name = ".gz") || bool_decide (suffix name = ".whl")) (sort_by String.leb listing).

Definition provenance : result json :=
  match git with
  | None => Raise RuntimeError
  | Some answer =>
      let! commit := answer in
      let! entries := map_result (λ name, let! b := read_bytes name in
                                     Ok (JObj [("name", JStr name); ("sha256", JStr (sha256 b))])) artifacts in
      Ok (JObj [("artifacts", JList entries); ("builder", JStr "scripts/release-dry-run.sh"); ("commit", JStr (py_strip commit));
                ("python", JStr (default "" (head (py_split python))));
                ("repository", JStr "https://github.com/groovemap-music/discogs-sql-loader")])
  end.
End provenance.

Example suffixes : suffix <$> ["a.tar.gz"; "b.whl"; ".gz"; "c."; "provenance.json"] = [".gz"; ".whl"; ""; ""; ".json"].
Proof. reflexivity. Qed.
